(** * image-desc-search: thumbnail cache, generation pipeline and render
      scheduling of the GUI

    A shallow embedding of [src/gui/disk_cache.py], [src/gui/thumb_cache.py],
    [src/gui/components/scroll_activity_tracker.py] and the scheduling,
    geometry and rendering methods of [src/gui/app.py], followed by the
    properties the specification states about them.

    Conventions of the embedding.
    - A Python [str] is a Stdlib [string] whose characters are the code
      points below 256; [bytes] is a list of integers in [0, 256).
    - A [pathlib.Path] is the list of its parts.
    - A Python [int] is a [Z]; floor division [//] is [Z.div]; [int(x)] of a
      quotient is truncation, [Z.quot].
    - [time.perf_counter()] and Tk timer deadlines are rationals ([Q],
      seconds): the arithmetic of the scheduler is modelled exactly, without
      binary rounding.
    - Code that can raise runs in a state-and-exception monad over a world
      that holds the file system, the database and the queues; a Python
      [try/except Exception] is [try_except]. *)

From Stdlib Require Import ZArith QArith Qround Lqa Lia.
From Stdlib Require Import String Ascii DecimalString DecimalZ.
From stdpp Require Import base option list gmap sets strings.

Local Open Scope Z_scope.

(* ===================================================================== *)
(** * Part I: definitions                                                 *)
(* ===================================================================== *)

(** ** Python built-ins used by the sources *)

Module Py.

Abbreviation bytes := (list Z).

Definition ord (c : ascii) : Z := Z.of_N (N_of_ascii c).
Definition chr (z : Z) : ascii := ascii_of_N (Z.to_N z).

(** [str.isspace] on the code points below 256. *)
Definition isspace (c : ascii) : bool :=
  let n := ord c in
  ((9 <=? n) && (n <=? 13)) || ((28 <=? n) && (n <=? 32))
  || (n =? 133) || (n =? 160).

Fixpoint lstrip (s : string) : string :=
  match s with
  | EmptyString => EmptyString
  | String c s' => if isspace c then lstrip s' else s
  end.

Fixpoint rstrip (s : string) : string :=
  match s with
  | EmptyString => EmptyString
  | String c s' =>
      match rstrip s' with
      | EmptyString => if isspace c then EmptyString else String c EmptyString
      | r => String c r
      end
  end.

(** [s.strip()] *)
Definition strip (s : string) : string := rstrip (lstrip s).

(** [str.lower] on the code points below 256. *)
Definition lower_char (c : ascii) : ascii :=
  let n := ord c in
  if ((65 <=? n) && (n <=? 90))
     || ((192 <=? n) && (n <=? 222) && negb (n =? 215))
  then chr (n + 32) else c.

Fixpoint lower (s : string) : string :=
  match s with
  | EmptyString => EmptyString
  | String c s' => String (lower_char c) (lower s')
  end.

(** The character class [[0-9a-fA-F]]. *)
Definition is_hex_char (c : ascii) : bool :=
  let n := ord c in
  ((48 <=? n) && (n <=? 57)) || ((97 <=? n) && (n <=? 102))
  || ((65 <=? n) && (n <=? 70)).

Fixpoint all_chars (f : ascii -> bool) (s : string) : bool :=
  match s with
  | EmptyString => true
  | String c s' => f c && all_chars f s'
  end.

(** [re.fullmatch(r"[0-9a-fA-F]{16,128}", s) is not None] *)
Definition fullmatch_hex_16_128 (s : string) : bool :=
  all_chars is_hex_char s
  && (16 <=? String.length s)%nat && (String.length s <=? 128)%nat.

(** [s.encode("utf-8")] on the code points below 256. *)
Fixpoint encode_utf8 (s : string) : bytes :=
  match s with
  | EmptyString => []
  | String c s' =>
      let n := ord c in
      if n <? 128 then n :: encode_utf8 s'
      else Z.lor 192 (Z.shiftr n 6) :: Z.lor 128 (Z.land n 63) :: encode_utf8 s'
  end.

(** [s[:n]] *)
Fixpoint str_take (n : nat) (s : string) : string :=
  match n, s with
  | S n', String c s' => String c (str_take n' s')
  | _, _ => EmptyString
  end.

(** [str(z)], as in an f-string [f"{z}"]. *)
Definition str_of_int (z : Z) : string :=
  NilEmpty.string_of_int (Z.to_int z).

(** [int(x)] of the rational [x]: truncation towards zero. *)
Definition int_of_Q (x : Q) : Z := Z.quot (Qnum x) (Zpos (Qden x)).

(** The character class [[0-9a-f]]. *)
Definition is_lower_hex (c : ascii) : bool :=
  let n := ord c in
  ((48 <=? n) && (n <=? 57)) || ((97 <=? n) && (n <=? 102)).

End Py.

(** ** [hashlib.sha1(data).hexdigest()] (FIPS 180-4) *)

Module Sha1.
Import Py.

Definition w32 (x : Z) : Z := Z.land x 4294967295.
Definition add32 (x y : Z) : Z := w32 (x + y).
Definition rotl (n x : Z) : Z :=
  w32 (Z.lor (Z.shiftl x n) (Z.shiftr x (32 - n))).

(** The [k] low bytes of [x], most significant first. *)
Fixpoint be_bytes (k : nat) (x : Z) : bytes :=
  match k with
  | O => []
  | S k' => Z.land (Z.shiftr x (8 * Z.of_nat k')) 255 :: be_bytes k' x
  end.

Definition pad (msg : bytes) : bytes :=
  let len := Z.of_nat (length msg) in
  let zeros := Z.to_nat ((55 - len) mod 64) in
  msg ++ 128 :: replicate zeros 0 ++ be_bytes 8 (8 * len).

Fixpoint word_of_be (bs : bytes) (acc : Z) : Z :=
  match bs with
  | [] => acc
  | b :: bs' => word_of_be bs' (Z.lor (Z.shiftl acc 8) b)
  end.

Fixpoint words_of (n : nat) (bs : bytes) : list Z :=
  match n with
  | O => []
  | S n' => word_of_be (take 4 bs) 0 :: words_of n' (drop 4 bs)
  end.

(** The message schedule, most recent word first. *)
Fixpoint schedule (n : nat) (ws : list Z) : list Z :=
  match n with
  | O => ws
  | S n' =>
      let x := Z.lxor (Z.lxor (nth 2 ws 0) (nth 7 ws 0))
                      (Z.lxor (nth 13 ws 0) (nth 15 ws 0)) in
      schedule n' (rotl 1 x :: ws)
  end.

Definition state := (Z * Z * Z * Z * Z)%type.

Definition round (t : nat) (st : state) (w : Z) : state :=
  let '(a, b, c, d, e) := st in
  let '(f, k) :=
    if (t <? 20)%nat then
      (Z.lor (Z.land b c) (Z.land (w32 (Z.lnot b)) d), 1518500249)
    else if (t <? 40)%nat then
      (Z.lxor (Z.lxor b c) d, 1859775393)
    else if (t <? 60)%nat then
      (Z.lor (Z.lor (Z.land b c) (Z.land b d)) (Z.land c d), 2400959708)
    else (Z.lxor (Z.lxor b c) d, 3395469782) in
  (add32 (add32 (add32 (add32 (rotl 5 a) f) e) k) w, a, rotl 30 b, c, d).

Fixpoint rounds (t : nat) (ws : list Z) (st : state) : state :=
  match ws with
  | [] => st
  | w :: ws' => rounds (S t) ws' (round t st w)
  end.

Definition compress (h : state) (block : bytes) : state :=
  let ws := rev (schedule 64 (rev (words_of 16 block))) in
  let '(a, b, c, d, e) := rounds 0 ws h in
  let '(h0, h1, h2, h3, h4) := h in
  (add32 h0 a, add32 h1 b, add32 h2 c, add32 h3 d, add32 h4 e).

Fixpoint blocks (n : nat) (bs : bytes) (h : state) : state :=
  match n with
  | O => h
  | S n' => blocks n' (drop 64 bs) (compress h (take 64 bs))
  end.

Definition init : state :=
  (1732584193, 4023233417, 2562383102, 271733878, 3285377520).

Definition hex_digit (n : Z) : ascii :=
  if n <? 10 then chr (48 + n) else chr (87 + n).

(** [k] hexadecimal digits of [x], most significant first. *)
Fixpoint hex_of (k : nat) (x : Z) : string :=
  match k with
  | O => EmptyString
  | S k' =>
      String (hex_digit (Z.land (Z.shiftr x (4 * Z.of_nat k')) 15))
             (hex_of k' x)
  end.

Definition hexdigest (msg : bytes) : string :=
  let p := pad msg in
  let '(h0, h1, h2, h3, h4) := blocks (length p / 64)%nat p init in
  (hex_of 8 h0 ++ hex_of 8 h1 ++ hex_of 8 h2 ++ hex_of 8 h3 ++ hex_of 8 h4)%string.

End Sha1.

(** ** [pathlib]: a path is the list of its parts *)

Module Pathlib.

Abbreviation Path := (list string).

(** [p / name] *)
Definition joinpath (p : Path) (name : string) : Path := p ++ [name].

(** [p.name] *)
Definition name (p : Path) : string := List.last p EmptyString.

(** [p.parent] *)
Definition parent (p : Path) : Path := removelast p.

(** The text before and after the last dot of [s]. *)
Fixpoint split_last_dot (s : string) : option (string * string) :=
  match s with
  | EmptyString => None
  | String c s' =>
      match split_last_dot s' with
      | Some (a, b) => Some (String c a, b)
      | None => if Ascii.eqb c "."%char then Some (EmptyString, s') else None
      end
  end.

(** [p.suffix]: the last dot of the name and what follows it, unless the
    dot is the first or the last character of the name. *)
Definition suffix (p : Path) : string :=
  match split_last_dot (name p) with
  | Some (String _ _, String c b) => String "."%char (String c b)
  | _ => EmptyString
  end.

(** [p.with_suffix(suff)]; [None] is the [ValueError] of an empty name. *)
Definition with_suffix (p : Path) (suff : string) : option Path :=
  match name p with
  | EmptyString => None
  | String _ _ as n =>
      let stem :=
        match split_last_dot n with
        | Some (String c a, String _ _) => String c a
        | _ => n
        end in
      Some (joinpath (parent p) (stem ++ suff)%string)
  end.

End Pathlib.

(** ** The environment of the cache: file system, database, image codec *)

Module Env.
Import Py Pathlib.

Record FS := mkFS {
  files : gmap (list string) (list Z);
  dirs : gset (list string)
}.

(** The atomic file-system operations the cache performs. Writing a file
    is not atomic: it is an [OpCreate] (create or truncate) followed by one
    [OpAppend] per byte. [OpReplace] is [os.replace], an atomic rename. *)
Inductive fsop :=
| OpMkdir (d : Path)
| OpCreate (p : Path)
| OpAppend (p : Path) (b : Z)
| OpReplace (src dst : Path).

Definition apply_files (f : gmap (list string) (list Z)) (op : fsop)
  : gmap (list string) (list Z) :=
  match op with
  | OpMkdir _ => f
  | OpCreate p => <[ p := [] ]> f
  | OpAppend p b =>
      match f !! p with
      | Some data => <[ p := data ++ [b] ]> f
      | None => f
      end
  | OpReplace src dst =>
      match f !! src with
      | Some data => <[ dst := data ]> (delete src f)
      | None => f
      end
  end.

Definition apply_dirs (d : gset (list string)) (op : fsop) : gset (list string) :=
  match op with
  | OpMkdir x => {[ x ]} ∪ d
  | _ => d
  end.

Definition apply_op (fs : FS) (op : fsop) : FS :=
  mkFS (apply_files (files fs) op) (apply_dirs (dirs fs) op).

Definition apply_ops (fs : FS) (ops : list fsop) : FS := foldl apply_op fs ops.

(** A value stored in the [thumbnail] column. *)
Inductive sqlval := SqlNull | SqlBlob (b : bytes) | SqlOther.

Record DB := mkDB {
  image_metadata : gmap string sqlval;   (* hash -> thumbnail *)
  image_file : gmap string string        (* path -> hash *)
}.

Record t := mk {
  fs : FS;
  db : DB;
  (** [Image.open], the cover crop and the PNG encoder, as one partial
      function of the stored thumbnail bytes; [None] is a raised error. *)
  render_png : bytes -> option bytes;
  (** Outcome of the coming fallible calls: [true] makes the next one raise. *)
  faults : list bool;
  (** File operations of other threads, grouped by the file-system call of
      this thread they land just before. *)
  interf : list (list fsop);
  (** The file operations this thread has performed, oldest first. *)
  oplog : list fsop
}.

Definition set_fs (f : FS) (e : t) : t :=
  mk f (db e) (render_png e) (faults e) (interf e) (oplog e).
Definition set_faults (l : list bool) (e : t) : t :=
  mk (fs e) (db e) (render_png e) l (interf e) (oplog e).
Definition set_interf (l : list (list fsop)) (e : t) : t :=
  mk (fs e) (db e) (render_png e) (faults e) l (oplog e).
Definition log_op (op : fsop) (e : t) : t :=
  mk (apply_op (fs e) op) (db e) (render_png e) (faults e) (interf e) (oplog e ++ [op]).

(** The files a thread finds after [n] groups of the other threads'
    operations have landed on the files [f0]. *)
Definition seen_files (f0 : gmap (list string) (list Z)) (chunks : list (list fsop))
    (n : nat) : gmap (list string) (list Z) :=
  foldl apply_files f0 (concat (take n chunks)).

(** What a reader gets from a file's content: nothing from an empty file. *)
Definition visible (content : option (list Z)) : option (list Z) :=
  match content with
  | Some (b :: data) => Some (b :: data)
  | _ => None
  end.

(** [e'] comes from [e] by the file operations [ops] of the running
    thread alone. *)
Definition seq_run (e e' : t) (ops : list fsop) : Prop :=
  interf e' = [] /\ oplog e' = oplog e ++ ops
  /\ fs e' = apply_ops (fs e) ops
  /\ db e' = db e /\ render_png e' = render_png e.

End Env.

(** ** Exceptions and state *)

Module Exc.

Inductive exn := OSError | ValueError | DatabaseError | ImageError.

Inductive Res (A : Type) := Ok (a : A) | Raise (x : exn).
Arguments Ok {A} a.
Arguments Raise {A} x.

Definition M (S A : Type) : Type := S -> Res A * S.

Definition ret {S A} (a : A) : M S A := fun s => (Ok a, s).
Definition raise {S A} (x : exn) : M S A := fun s => (Raise x, s).
Definition bind {S A B} (m : M S A) (k : A -> M S B) : M S B :=
  fun s => match m s with
           | (Ok a, s') => k a s'
           | (Raise x, s') => (Raise x, s')
           end.
Definition get {S} : M S S := fun s => (Ok s, s).
Definition modify {S} (f : S -> S) : M S unit := fun s => (Ok tt, f s).

(** [try: body except Exception: handler] *)
Definition try_except {S A} (body : M S A) (handler : exn -> M S A) : M S A :=
  fun s => match body s with
           | (Ok a, s') => (Ok a, s')
           | (Raise x, s') => handler x s'
           end.

(** Run a computation on a component of the state. *)
Definition zoom {S T A} (proj : T -> S) (upd : S -> T -> T) (m : M S A) : M T A :=
  fun t => let '(r, s') := m (proj t) in (r, upd s' t).

Definition raises {A} (r : Res A) : bool :=
  match r with Ok _ => false | Raise _ => true end.

Declare Scope exc_scope.
Delimit Scope exc_scope with exc.
Notation "x <- m ;; k" := (bind m (fun x => k))
  (at level 100, m at next level, right associativity) : exc_scope.
Notation "m ;;; k" := (bind m (fun _ => k))
  (at level 100, right associativity) : exc_scope.

End Exc.

(** ** File-system calls *)

Module Os.
Import Py Pathlib Exc.
Local Open Scope exc_scope.

(** Let the other threads' pending operations land. *)
Definition tick : M Env.t unit := fun e =>
  match Env.interf e with
  | [] => (Ok tt, e)
  | ops :: rest =>
      (Ok tt, Env.set_interf rest (Env.set_fs (Env.apply_ops (Env.fs e) ops) e))
  end.

(** Whether the coming call fails. *)
Definition fault : M Env.t bool := fun e =>
  match Env.faults e with
  | [] => (Ok false, e)
  | b :: rest => (Ok b, Env.set_faults rest e)
  end.

Definition fallible (x : exn) : M Env.t unit :=
  tick ;;; b <- fault ;; if b : bool then raise x else ret tt.

Definition present (p : Path) (f : Env.FS) : bool :=
  bool_decide (is_Some (Env.files f !! p)) || bool_decide (p ∈ Env.dirs f).

(** [genericpath.exists(p)]: never raises. *)
Definition exists_ (p : Path) : M Env.t bool :=
  tick ;;; e <- get ;; ret (present p (Env.fs e)).

(** [p.exists()] *)
Definition path_exists (p : Path) : M Env.t bool :=
  fallible OSError ;;; e <- get ;; ret (present p (Env.fs e)).

(** [p.mkdir(parents=True, exist_ok=True)] *)
Definition mkdir (p : Path) : M Env.t unit :=
  fallible OSError ;;; modify (Env.log_op (Env.OpMkdir p)).

(** [p.read_bytes()] *)
Definition read_bytes (p : Path) : M Env.t bytes :=
  fallible OSError ;;;
  e <- get ;;
  match Env.files (Env.fs e) !! p with
  | Some data => ret data
  | None => raise OSError
  end.

Fixpoint write_all (p : Path) (data : bytes) : M Env.t unit :=
  match data with
  | [] => ret tt
  | b :: rest =>
      fallible OSError ;;; modify (Env.log_op (Env.OpAppend p b)) ;;; write_all p rest
  end.

(** [p.write_bytes(data)]: open for writing (the directory must exist),
    which creates or truncates the file, then write. *)
Definition write_bytes (p : Path) (data : bytes) : M Env.t unit :=
  fallible OSError ;;;
  e <- get ;;
  if bool_decide (parent p ∈ Env.dirs (Env.fs e)) then
    modify (Env.log_op (Env.OpCreate p)) ;;; write_all p data
  else raise OSError.

(** [src.replace(dst)] *)
Definition replace (src dst : Path) : M Env.t unit :=
  fallible OSError ;;;
  e <- get ;;
  if bool_decide (is_Some (Env.files (Env.fs e) !! src)) then
    modify (Env.log_op (Env.OpReplace src dst))
  else raise OSError.

End Os.

(** ** [src/gui/disk_cache.py] *)

Module DiskCache.
Import Py Pathlib Exc.
Local Open Scope exc_scope.

Record t := mk {
  disk_cache_dir : Path;
  disk_cache_enabled : bool
}.

(** [DiskCache.__init__], with [constants.CACHE_PATH] as argument. *)
Definition init (CACHE_PATH : Path) : M Env.t t :=
  try_except (Os.mkdir CACHE_PATH) (fun _ => ret tt) ;;;
  ret (mk CACHE_PATH true).

(** The identifier as it appears in the file name. *)
Definition safe_id (cache_id : string) : string :=
  let cache_id := if String.eqb cache_id EmptyString then "unknown"%string else cache_id in
  let safe := strip cache_id in
  let safe :=
    if negb (fullmatch_hex_16_128 safe)
    then Sha1.hexdigest (encode_utf8 safe) else safe in
  lower safe.

(** The path [_disk_cache_path] returns. *)
Definition cache_file (self : t) (cache_id : string) (size : Z) : Path :=
  let safe := safe_id cache_id in
  let sub := str_take 2 safe in
  joinpath (joinpath (disk_cache_dir self) sub)
           (safe ++ "_" ++ str_of_int size ++ ".png")%string.

Definition _disk_cache_path (self : t) (cache_id : string) (size : Z) : M Env.t Path :=
  let safe := safe_id cache_id in
  let sub := str_take 2 safe in
  ex <- Os.exists_ (joinpath (disk_cache_dir self) sub) ;;
  (if negb ex
   then try_except (Os.mkdir (joinpath (disk_cache_dir self) sub)) (fun _ => ret tt)
   else ret tt) ;;;
  ret (joinpath (joinpath (disk_cache_dir self) sub)
                (safe ++ "_" ++ str_of_int size ++ ".png")%string).

Definition disk_cache_read (self : t) (cache_id : string) (size : Z)
  : M Env.t (option bytes) :=
  if negb (disk_cache_enabled self) then ret None
  else
    try_except
      (p <- _disk_cache_path self cache_id size ;;
       ex <- Os.path_exists p ;;
       if negb ex then ret None
       else
         data <- Os.read_bytes p ;;
         match data with
         | [] => ret None
         | _ :: _ => ret (Some data)
         end)
      (fun _ => ret None).

Definition disk_cache_write (self : t) (cache_id : string) (size : Z) (png : bytes)
  : M Env.t unit :=
  if negb (disk_cache_enabled self) then ret tt
  else
    try_except
      (p <- _disk_cache_path self cache_id size ;;
       match with_suffix p (suffix p ++ ".tmp")%string with
       | None => raise ValueError
       | Some tmp => Os.write_bytes tmp png ;;; Os.replace tmp p
       end)
      (fun _ => ret tt).

(** The staging file [disk_cache_write] uses for a key. *)
Definition tmp_file (self : t) (cache_id : string) (size : Z) : Path :=
  let safe := safe_id cache_id in
  joinpath (joinpath (disk_cache_dir self) (str_take 2 safe))
           ((safe ++ "_" ++ str_of_int size ++ ".png") ++ ".tmp")%string.

(** The directory of a key's files. *)
Definition shard_dir (self : t) (cache_id : string) : Path :=
  joinpath (disk_cache_dir self) (str_take 2 (safe_id cache_id)).

(** The file operations of a write that got as far as creating the staging
    file: [written] is what reached that file, [rep] whether the rename
    was done. *)
Definition write_ops (mk : bool) (d tmp p : Path) (written : bytes) (rep : bool)
  : list Env.fsop :=
  (if mk then [Env.OpMkdir d] else [])
  ++ Env.OpCreate tmp :: (Env.OpAppend tmp <$> written)
  ++ (if rep then [Env.OpReplace tmp p] else []).

End DiskCache.

(** ** Tk: the clock, [after] timers and the callbacks they run *)

Module Tk.

Inductive callback := RenderResults | MarkScrollIdle | FlushScroll | PollThumbs.

#[global] Instance callback_eq_dec : EqDecision callback.
Proof. solve_decision. Defined.

Record timer := mkTimer {
  timer_id : nat;
  timer_due : Q;
  timer_cb : callback
}.

Record t := mk {
  clock : Q;                 (* the current time, in seconds *)
  next_id : nat;
  timers : list timer;       (* pending [after] timers, in creation order *)
  fired : list callback      (* the callbacks run so far, oldest first *)
}.

(** [root.after(ms, cb)] *)
Definition after (ms : Z) (cb : callback) (tk : t) : nat * t :=
  (next_id tk,
   mk (clock tk) (S (next_id tk))
      (timers tk ++ [mkTimer (next_id tk) (clock tk + inject_Z ms / 1000)%Q cb])
      (fired tk)).

(** [root.after_cancel(id)] *)
Definition after_cancel (id : nat) (tk : t) : t :=
  mk (clock tk) (next_id tk)
     (filter (fun tm => timer_id tm ≠ id) (timers tk)) (fired tk).

Definition is_due (tk : t) (tm : timer) : bool :=
  if Qle_bool (timer_due tm) (clock tk) then true else false.

(** The event loop takes a due timer off the table before it runs it. *)
Definition take (tm : timer) (tk : t) : t :=
  mk (clock tk) (next_id tk)
     (filter (fun x => timer_id x ≠ timer_id tm) (timers tk))
     (fired tk ++ [timer_cb tm]).

(** Time passes. *)
Definition advance (now : Q) (tk : t) : t :=
  mk (if Qle_bool (clock tk) now then now else clock tk)
     (next_id tk) (timers tk) (fired tk).

Definition pending (cb : callback) (tk : t) : list timer :=
  filter (fun tm => timer_cb tm = cb) (timers tk).

(** Every pending timer runs a callback whose owner remembers its id:
    [ow cb] is the id the program holds for the callback [cb]. Timer ids
    are distinct and below [next_id]. *)
Definition owned (tk : t) (ow : callback -> option nat) : Prop :=
  NoDup (timer_id <$> timers tk)
  /\ Forall (fun tm => (timer_id tm < next_id tk)%nat) (timers tk)
  /\ forall cb, timer_id <$> pending cb tk = option_list (ow cb).

End Tk.

(** ** [src/gui/thumb_cache.py] *)

(** [collections.OrderedDict], oldest entry first. *)
Module OrderedDict.
Section dict.
Context {K V : Type} `{EqDecision K}.

Fixpoint get (k : K) (d : list (K * V)) : option V :=
  match d with
  | [] => None
  | (k', v) :: d' => if decide (k' = k) then Some v else get k d'
  end.

(** [d[k] = v]: a present key keeps its place, a new one goes last. *)
Fixpoint setitem (k : K) (v : V) (d : list (K * V)) : list (K * V) :=
  match d with
  | [] => [(k, v)]
  | (k', v') :: d' =>
      if decide (k' = k) then (k, v) :: d' else (k', v') :: setitem k v d'
  end.

Definition remove (k : K) (d : list (K * V)) : list (K * V) :=
  filter (fun e => e.1 ≠ k) d.

(** [d.move_to_end(k)], for a present key. *)
Definition move_to_end (k : K) (d : list (K * V)) : list (K * V) :=
  match get k d with
  | Some v => remove k d ++ [(k, v)]
  | None => d
  end.

(** [d.popitem(last=False)] *)
Definition popitem_first (d : list (K * V)) : list (K * V) := tail d.

Definition keys (d : list (K * V)) : list K := d.*1.

End dict.
End OrderedDict.

Module ThumbCache.
Import Py Exc.

(** [ImageTk.PhotoImage]: the image Tk decoded from PNG bytes. *)
Record PhotoImage := mkPhoto { photo_data : bytes }.

Abbreviation Key := (string * Z)%type.
(** [(index, path_text, cache_id)] *)
Abbreviation Request := (nat * string * string)%type.
(** [(index, path_text, cache_id, png)] *)
Abbreviation Result := (nat * string * string * option (list Z))%type.

Record t := mk {
  disk_cache : DiskCache.t;
  thumb_cache : list (Key * PhotoImage);
  thumb_cache_max : nat;
  thumb_max : Z;
  thumb_req_q : list Request;
  thumb_done_q : list Result;
  thumb_inflight : gset Key;
  thumb_poller_id : option nat
}.

Definition set_thumb_cache (d : list (Key * PhotoImage)) (s : t) : t :=
  mk (disk_cache s) d (thumb_cache_max s) (thumb_max s) (thumb_req_q s)
     (thumb_done_q s) (thumb_inflight s) (thumb_poller_id s).
Definition set_thumb_req_q (q : list Request) (s : t) : t :=
  mk (disk_cache s) (thumb_cache s) (thumb_cache_max s) (thumb_max s) q
     (thumb_done_q s) (thumb_inflight s) (thumb_poller_id s).
Definition set_thumb_done_q (q : list Result) (s : t) : t :=
  mk (disk_cache s) (thumb_cache s) (thumb_cache_max s) (thumb_max s) (thumb_req_q s)
     q (thumb_inflight s) (thumb_poller_id s).
Definition set_thumb_inflight (i : gset Key) (s : t) : t :=
  mk (disk_cache s) (thumb_cache s) (thumb_cache_max s) (thumb_max s) (thumb_req_q s)
     (thumb_done_q s) i (thumb_poller_id s).
Definition set_thumb_poller_id (i : option nat) (s : t) : t :=
  mk (disk_cache s) (thumb_cache s) (thumb_cache_max s) (thumb_max s) (thumb_req_q s)
     (thumb_done_q s) (thumb_inflight s) i.

(** [ThumbCache.__init__]; the worker thread it starts is [Worker] below. *)
Definition init (disk_cache : DiskCache.t) : t :=
  mk disk_cache [] 350 200 [] [] ∅ None.

Definition get (key : Key) (self : t) : option PhotoImage * t :=
  match OrderedDict.get key (thumb_cache self) with
  | None => (None, self)
  | Some v => (Some v, set_thumb_cache (OrderedDict.move_to_end key (thumb_cache self)) self)
  end.

(** [while len(d) > cap: d.popitem(last=False)] *)
Fixpoint evict (cap : nat) (d : list (Key * PhotoImage)) : list (Key * PhotoImage) :=
  match d with
  | [] => []
  | _ :: d' => if (cap <? length d)%nat then evict cap d' else d
  end.

Definition put (key : Key) (img : PhotoImage) (self : t) : t :=
  let d := OrderedDict.setitem key img (thumb_cache self) in
  let d := OrderedDict.move_to_end key d in
  set_thumb_cache (evict (thumb_cache_max self) d) self.

Definition get_key (cache_id : string) (self : t) : Key := (cache_id, thumb_max self).

Definition check_inflight (index : nat) (cache_id path_text : string) (self : t)
  : bool * t :=
  let key := (cache_id, thumb_max self) in
  if bool_decide (key ∉ thumb_inflight self) then
    (true,
     set_thumb_req_q (thumb_req_q self ++ [(index, path_text, cache_id)])
       (set_thumb_inflight ({[ key ]} ∪ thumb_inflight self) self))
  else (false, self).

Definition check_incache (index : nat) (cache_id path_text : string) (self : t)
  : bool * t :=
  let key := (cache_id, thumb_max self) in
  match OrderedDict.get key (thumb_cache self) with
  | Some _ => (false, self)
  | None => check_inflight index cache_id path_text self
  end.

(** [self._root] is the application's Tk object: the methods that use it
    take it and give it back. *)
Definition ensure_thumb_poller (root : Tk.t) (self : t) : Tk.t * t :=
  match thumb_poller_id self with
  | Some _ => (root, self)
  | None =>
      let '(id, root') := Tk.after 30 Tk.PollThumbs root in
      (root', set_thumb_poller_id (Some id) self)
  end.

(** The body of [for _ in range(n)] in [_poll_thumbs]. [photo_image] is
    [ImageTk.PhotoImage(data=png)], [None] when it raises. *)
Fixpoint poll_loop (photo_image : bytes -> option PhotoImage) (n : nat)
    (self : t) (updated : bool) : t * bool :=
  match n with
  | O => (self, updated)
  | S n' =>
      match thumb_done_q self with
      | [] => (self, updated)
      | (idx, path_text, cache_id, png) :: rest =>
          let key := (cache_id, thumb_max self) in
          let self := set_thumb_inflight (thumb_inflight self ∖ {[ key ]})
                        (set_thumb_done_q rest self) in
          match png with
          | None => poll_loop photo_image n' self true
          | Some data =>
              match photo_image data with
              | None => poll_loop photo_image n' self true
              | Some photo => poll_loop photo_image n' (put key photo self) true
              end
          end
      end
  end.

(** [_poll_thumbs]. The [<<ThumbsUpdated>>] event it generates has no
    binding in the application and changes no state. *)
Definition _poll_thumbs (photo_image : bytes -> option PhotoImage)
    (root : Tk.t) (self : t) : Tk.t * t :=
  let self := set_thumb_poller_id None self in
  let '(self, updated) := poll_loop photo_image 40 self false in
  ensure_thumb_poller root self.

(** The accesses the rendering thread makes to the memory cache. *)
Inductive op :=
| Get (key : Key)
| Put (key : Key) (img : PhotoImage).

Definition op_key (o : op) : Key :=
  match o with Get k => k | Put k _ => k end.

Definition apply (self : t) (o : op) : t :=
  match o with
  | Get k => (get k self).2
  | Put k img => put k img self
  end.

Definition run (ops : list op) (self : t) : t := foldl apply self ops.

(** The keys in the cache, least recently used first. *)
Definition cached_keys (self : t) : list Key := OrderedDict.keys (thumb_cache self).

(** [put] of each entry of a list, in order. *)
Definition puts (l : list (Key * PhotoImage)) (self : t) : t :=
  run ((fun kv => Put kv.1 kv.2) <$> l) self.


End ThumbCache.

(** ** The worker thread of [ThumbCache]: [_thumb_worker_main] *)

Module Worker.
Import Py Exc.
Local Open Scope exc_scope.

(** What the thread's closure reaches: the cache object, its own [conn]
    variable ([Some tt] is an open connection), and the environment. *)
Record state := mk {
  self : ThumbCache.t;
  conn : option unit;
  env : Env.t
}.

Definition set_self (s : ThumbCache.t) (w : state) : state := mk s (conn w) (env w).
Definition set_conn (c : option unit) (w : state) : state := mk (self w) c (env w).
Definition set_env (e : Env.t) (w : state) : state := mk (self w) (conn w) e.

Definition in_env {A} (m : M Env.t A) : M state A := zoom env set_env m.

(** A call that reaches outside the process and may raise. *)
Definition external (x : exn) : M state unit :=
  in_env (b <- Os.fault ;; if b : bool then raise x else ret tt).

(** [_ensure_conn]: [connect] may raise, errors of [migrate] are dropped. *)
Definition _ensure_conn : M state unit :=
  w <- get ;;
  match conn w with
  | Some c => ret c
  | None =>
      external DatabaseError ;;;
      modify (set_conn (Some tt)) ;;;
      try_except (external DatabaseError) (fun _ => ret tt)
  end.

(** [_reset_conn] *)
Definition _reset_conn : M state unit :=
  w <- get ;;
  (match conn w with
   | Some _ => try_except (external DatabaseError) (fun _ => ret tt)
   | None => ret tt
   end) ;;;
  modify (set_conn None).

(** [conn.execute("SELECT thumbnail FROM IMAGE_METADATA WHERE hash = ?")
    .fetchone()] *)
Definition select_thumbnail (h : string) : M state (option Env.sqlval) :=
  external DatabaseError ;;;
  w <- get ;; ret (Env.image_metadata (Env.db (env w)) !! h).

(** [conn.execute("SELECT hash FROM IMAGE_FILE WHERE path = ?").fetchone()] *)
Definition select_hash (path_text : string) : M state (option string) :=
  external DatabaseError ;;;
  w <- get ;; ret (Env.image_file (Env.db (env w)) !! path_text).

(** The [isinstance] cascade on the column value. *)
Definition blob_bytes (v : Env.sqlval) : option bytes :=
  match v with
  | Env.SqlBlob b => Some b
  | Env.SqlNull | Env.SqlOther => None
  end.

Definition _load_thumbnail_bytes (cache_id path_text : string)
  : M state (option bytes) :=
  try_except
    (row2 <- select_thumbnail cache_id ;;
     match row2 with
     | Some blob => ret (blob_bytes blob)
     | None =>
         row <- select_hash path_text ;;
         match row with
         | None => ret None
         | Some h =>
             row2 <- select_thumbnail h ;;
             match row2 with
             | None => ret None
             | Some blob => ret (blob_bytes blob)
             end
         end
     end)
    (fun _ => ret None).

(** [Image.open], [_make_cover_thumbnail] and [img2.save(buf, "PNG")]. *)
Definition make_png (thumb_bytes : bytes) : M state bytes :=
  w <- get ;;
  match Env.render_png (env w) thumb_bytes with
  | Some png => ret png
  | None => raise ImageError
  end.

(** [self._thumb_done_q.put(r)] *)
Definition done_put (r : ThumbCache.Result) : M state unit :=
  modify (fun w =>
    set_self (ThumbCache.set_thumb_done_q
                (ThumbCache.thumb_done_q (self w) ++ [r]) (self w)) w).

(** How the [try] block of the loop body ends: by [continue], or by
    reaching the statement after it with the value of [out_png]. *)
Inductive flow := Continue | Fallthrough (out_png : option bytes).

(** One pass of [while True], for the request [self._thumb_req_q.get()]
    returned. *)
Definition iteration (req : ThumbCache.Request) : M state unit :=
  let '(idx, path_text, cache_id) := req in
  f <- try_except
         (_ensure_conn ;;;
          w <- get ;;
          out_png <- in_env (DiskCache.disk_cache_read
                               (ThumbCache.disk_cache (self w)) cache_id
                               (ThumbCache.thumb_max (self w))) ;;
          match out_png with
          | Some (_ :: _) =>
              done_put (idx, path_text, cache_id, out_png) ;;; ret Continue
          | _ =>
              thumb_bytes <- _load_thumbnail_bytes cache_id path_text ;;
              match thumb_bytes with
              | Some ((_ :: _) as tb) =>
                  png <- make_png tb ;;
                  in_env (DiskCache.disk_cache_write
                            (ThumbCache.disk_cache (self w)) cache_id
                            (ThumbCache.thumb_max (self w)) png) ;;;
                  ret (Fallthrough (Some png))
              | _ => ret (Fallthrough out_png)
              end
          end)
         (fun _ => _reset_conn ;;; ret (Fallthrough None)) ;;
  match f with
  | Continue => ret tt
  | Fallthrough out_png => done_put (idx, path_text, cache_id, out_png)
  end.

(** [w'] comes from [w] by file operations [ops] of the worker, with the
    cache object untouched. *)
Definition wrun (w w' : state) (ops : list Env.fsop) : Prop :=
  self w' = self w /\ Env.seq_run (env w) (env w') ops.

(** The thumbnail the database holds for a request, as
    [_load_thumbnail_bytes] looks it up. *)
Definition stored_thumbnail (d : Env.DB) (cache_id path_text : string) : option bytes :=
  match Env.image_metadata d !! cache_id with
  | Some blob => blob_bytes blob
  | None =>
      match Env.image_file d !! path_text with
      | None => None
      | Some h =>
          match Env.image_metadata d !! h with
          | None => None
          | Some blob => blob_bytes blob
          end
      end
  end.

(** A computation that leaves the cache object as it found it. *)
Definition keeps_self {A : Type} (m : M state A) : Prop :=
  forall w r w', m w = (r, w') -> self w' = self w.


End Worker.

(** ** [src/gui/components/scroll_activity_tracker.py]: the state and the
       method that does not call back into the application *)

Module ScrollActivityTracker.

Record t := mk {
  scroll_active : bool;
  scroll_idle_after_id : option nat;
  scroll_idle_ms : Z
}.

Definition init : t := mk false None 540.

Definition mark_scroll_active (root : Tk.t) (self : t) : Tk.t * t :=
  let root :=
    match scroll_idle_after_id self with
    | Some id => Tk.after_cancel id root
    | None => root
    end in
  let '(id, root) := Tk.after (scroll_idle_ms self) Tk.MarkScrollIdle root in
  (root, mk true (Some id) (scroll_idle_ms self)).

Definition is_scroll_active (self : t) : bool := scroll_active self.

End ScrollActivityTracker.

(** ** [src/gui/app.py]: scheduling, geometry and the render pass *)

Module App.
Import Py.

Record SearchMatch := mkMatch {
  hash : string;
  path : string;
  description : string
}.

(** The canvas items of one card of the pool. *)
Record Card := mkCard {
  bg_hidden : bool;
  img_hidden : bool;
  img_image : option ThumbCache.PhotoImage;
  loading_hidden : bool;
  txt_hidden : bool
}.

(** What the methods read from and set on the canvas widget. *)
Record Canvas := mkCanvas {
  winfo_width : Z;
  winfo_height : Z;
  canvasy0 : Z;                      (* [canvas.canvasy(0)] *)
  scrollregion : Z * Z * Z * Z
}.

(** The fields of [App] the modelled methods use. Positions and label
    texts of the cards, the tooltip and the status line are left out: no
    modelled method reads them back. *)
Record t := mk {
  root : Tk.t;
  scroll_activity_tracker : ScrollActivityTracker.t;
  thumb_cache : ThumbCache.t;
  matches : list SearchMatch;
  render_after_id : option nat;
  render_scheduled_at : Q;
  render_min_interval_s : Q;
  last_render_key : option (Z * Z * Z * Z * nat * bool);
  scroll_after_id : option nat;
  pending_scroll_units : Z;
  card_w : Z;
  card_h : Z;
  pad : Z;
  path_bottom_margin : Z;
  cols : Z;
  visible_rows : Z;
  virtual_total_h : Z;
  thumb_size : Z * Z;
  canvas_cards : list Card;
  show_loading_placeholder : bool;
  visible_path_by_slot : gmap nat string;
  visible_hash_by_slot : gmap nat string;
  hash_by_path : gmap string string;
  canvas : Canvas
}.

Definition set_root (x : Tk.t) (s : t) : t :=
  mk x (scroll_activity_tracker s) (thumb_cache s) (matches s)
     (render_after_id s) (render_scheduled_at s) (render_min_interval_s s)
     (last_render_key s) (scroll_after_id s) (pending_scroll_units s)
     (card_w s) (card_h s) (pad s) (path_bottom_margin s) (cols s)
     (visible_rows s) (virtual_total_h s) (thumb_size s) (canvas_cards s)
     (show_loading_placeholder s) (visible_path_by_slot s)
     (visible_hash_by_slot s) (hash_by_path s) (canvas s).
Definition set_scroll_activity_tracker (x : ScrollActivityTracker.t) (s : t) : t :=
  mk (root s) x (thumb_cache s) (matches s) (render_after_id s)
     (render_scheduled_at s) (render_min_interval_s s) (last_render_key s)
     (scroll_after_id s) (pending_scroll_units s) (card_w s) (card_h s) (pad
     s) (path_bottom_margin s) (cols s) (visible_rows s) (virtual_total_h s)
     (thumb_size s) (canvas_cards s) (show_loading_placeholder s)
     (visible_path_by_slot s) (visible_hash_by_slot s) (hash_by_path s)
     (canvas s).
Definition set_thumb_cache (x : ThumbCache.t) (s : t) : t :=
  mk (root s) (scroll_activity_tracker s) x (matches s) (render_after_id s)
     (render_scheduled_at s) (render_min_interval_s s) (last_render_key s)
     (scroll_after_id s) (pending_scroll_units s) (card_w s) (card_h s) (pad
     s) (path_bottom_margin s) (cols s) (visible_rows s) (virtual_total_h s)
     (thumb_size s) (canvas_cards s) (show_loading_placeholder s)
     (visible_path_by_slot s) (visible_hash_by_slot s) (hash_by_path s)
     (canvas s).
Definition set_matches (x : list SearchMatch) (s : t) : t :=
  mk (root s) (scroll_activity_tracker s) (thumb_cache s) x (render_after_id
     s) (render_scheduled_at s) (render_min_interval_s s) (last_render_key
     s) (scroll_after_id s) (pending_scroll_units s) (card_w s) (card_h s)
     (pad s) (path_bottom_margin s) (cols s) (visible_rows s)
     (virtual_total_h s) (thumb_size s) (canvas_cards s)
     (show_loading_placeholder s) (visible_path_by_slot s)
     (visible_hash_by_slot s) (hash_by_path s) (canvas s).
Definition set_render_after_id (x : option nat) (s : t) : t :=
  mk (root s) (scroll_activity_tracker s) (thumb_cache s) (matches s) x
     (render_scheduled_at s) (render_min_interval_s s) (last_render_key s)
     (scroll_after_id s) (pending_scroll_units s) (card_w s) (card_h s) (pad
     s) (path_bottom_margin s) (cols s) (visible_rows s) (virtual_total_h s)
     (thumb_size s) (canvas_cards s) (show_loading_placeholder s)
     (visible_path_by_slot s) (visible_hash_by_slot s) (hash_by_path s)
     (canvas s).
Definition set_render_scheduled_at (x : Q) (s : t) : t :=
  mk (root s) (scroll_activity_tracker s) (thumb_cache s) (matches s)
     (render_after_id s) x (render_min_interval_s s) (last_render_key s)
     (scroll_after_id s) (pending_scroll_units s) (card_w s) (card_h s) (pad
     s) (path_bottom_margin s) (cols s) (visible_rows s) (virtual_total_h s)
     (thumb_size s) (canvas_cards s) (show_loading_placeholder s)
     (visible_path_by_slot s) (visible_hash_by_slot s) (hash_by_path s)
     (canvas s).
Definition set_render_min_interval_s (x : Q) (s : t) : t :=
  mk (root s) (scroll_activity_tracker s) (thumb_cache s) (matches s)
     (render_after_id s) (render_scheduled_at s) x (last_render_key s)
     (scroll_after_id s) (pending_scroll_units s) (card_w s) (card_h s) (pad
     s) (path_bottom_margin s) (cols s) (visible_rows s) (virtual_total_h s)
     (thumb_size s) (canvas_cards s) (show_loading_placeholder s)
     (visible_path_by_slot s) (visible_hash_by_slot s) (hash_by_path s)
     (canvas s).
Definition set_last_render_key (x : option (Z * Z * Z * Z * nat * bool)) (s : t) : t :=
  mk (root s) (scroll_activity_tracker s) (thumb_cache s) (matches s)
     (render_after_id s) (render_scheduled_at s) (render_min_interval_s s) x
     (scroll_after_id s) (pending_scroll_units s) (card_w s) (card_h s) (pad
     s) (path_bottom_margin s) (cols s) (visible_rows s) (virtual_total_h s)
     (thumb_size s) (canvas_cards s) (show_loading_placeholder s)
     (visible_path_by_slot s) (visible_hash_by_slot s) (hash_by_path s)
     (canvas s).
Definition set_scroll_after_id (x : option nat) (s : t) : t :=
  mk (root s) (scroll_activity_tracker s) (thumb_cache s) (matches s)
     (render_after_id s) (render_scheduled_at s) (render_min_interval_s s)
     (last_render_key s) x (pending_scroll_units s) (card_w s) (card_h s)
     (pad s) (path_bottom_margin s) (cols s) (visible_rows s)
     (virtual_total_h s) (thumb_size s) (canvas_cards s)
     (show_loading_placeholder s) (visible_path_by_slot s)
     (visible_hash_by_slot s) (hash_by_path s) (canvas s).
Definition set_pending_scroll_units (x : Z) (s : t) : t :=
  mk (root s) (scroll_activity_tracker s) (thumb_cache s) (matches s)
     (render_after_id s) (render_scheduled_at s) (render_min_interval_s s)
     (last_render_key s) (scroll_after_id s) x (card_w s) (card_h s) (pad s)
     (path_bottom_margin s) (cols s) (visible_rows s) (virtual_total_h s)
     (thumb_size s) (canvas_cards s) (show_loading_placeholder s)
     (visible_path_by_slot s) (visible_hash_by_slot s) (hash_by_path s)
     (canvas s).
Definition set_card_w (x : Z) (s : t) : t :=
  mk (root s) (scroll_activity_tracker s) (thumb_cache s) (matches s)
     (render_after_id s) (render_scheduled_at s) (render_min_interval_s s)
     (last_render_key s) (scroll_after_id s) (pending_scroll_units s) x
     (card_h s) (pad s) (path_bottom_margin s) (cols s) (visible_rows s)
     (virtual_total_h s) (thumb_size s) (canvas_cards s)
     (show_loading_placeholder s) (visible_path_by_slot s)
     (visible_hash_by_slot s) (hash_by_path s) (canvas s).
Definition set_card_h (x : Z) (s : t) : t :=
  mk (root s) (scroll_activity_tracker s) (thumb_cache s) (matches s)
     (render_after_id s) (render_scheduled_at s) (render_min_interval_s s)
     (last_render_key s) (scroll_after_id s) (pending_scroll_units s)
     (card_w s) x (pad s) (path_bottom_margin s) (cols s) (visible_rows s)
     (virtual_total_h s) (thumb_size s) (canvas_cards s)
     (show_loading_placeholder s) (visible_path_by_slot s)
     (visible_hash_by_slot s) (hash_by_path s) (canvas s).
Definition set_pad (x : Z) (s : t) : t :=
  mk (root s) (scroll_activity_tracker s) (thumb_cache s) (matches s)
     (render_after_id s) (render_scheduled_at s) (render_min_interval_s s)
     (last_render_key s) (scroll_after_id s) (pending_scroll_units s)
     (card_w s) (card_h s) x (path_bottom_margin s) (cols s) (visible_rows
     s) (virtual_total_h s) (thumb_size s) (canvas_cards s)
     (show_loading_placeholder s) (visible_path_by_slot s)
     (visible_hash_by_slot s) (hash_by_path s) (canvas s).
Definition set_path_bottom_margin (x : Z) (s : t) : t :=
  mk (root s) (scroll_activity_tracker s) (thumb_cache s) (matches s)
     (render_after_id s) (render_scheduled_at s) (render_min_interval_s s)
     (last_render_key s) (scroll_after_id s) (pending_scroll_units s)
     (card_w s) (card_h s) (pad s) x (cols s) (visible_rows s)
     (virtual_total_h s) (thumb_size s) (canvas_cards s)
     (show_loading_placeholder s) (visible_path_by_slot s)
     (visible_hash_by_slot s) (hash_by_path s) (canvas s).
Definition set_cols (x : Z) (s : t) : t :=
  mk (root s) (scroll_activity_tracker s) (thumb_cache s) (matches s)
     (render_after_id s) (render_scheduled_at s) (render_min_interval_s s)
     (last_render_key s) (scroll_after_id s) (pending_scroll_units s)
     (card_w s) (card_h s) (pad s) (path_bottom_margin s) x (visible_rows s)
     (virtual_total_h s) (thumb_size s) (canvas_cards s)
     (show_loading_placeholder s) (visible_path_by_slot s)
     (visible_hash_by_slot s) (hash_by_path s) (canvas s).
Definition set_visible_rows (x : Z) (s : t) : t :=
  mk (root s) (scroll_activity_tracker s) (thumb_cache s) (matches s)
     (render_after_id s) (render_scheduled_at s) (render_min_interval_s s)
     (last_render_key s) (scroll_after_id s) (pending_scroll_units s)
     (card_w s) (card_h s) (pad s) (path_bottom_margin s) (cols s) x
     (virtual_total_h s) (thumb_size s) (canvas_cards s)
     (show_loading_placeholder s) (visible_path_by_slot s)
     (visible_hash_by_slot s) (hash_by_path s) (canvas s).
Definition set_virtual_total_h (x : Z) (s : t) : t :=
  mk (root s) (scroll_activity_tracker s) (thumb_cache s) (matches s)
     (render_after_id s) (render_scheduled_at s) (render_min_interval_s s)
     (last_render_key s) (scroll_after_id s) (pending_scroll_units s)
     (card_w s) (card_h s) (pad s) (path_bottom_margin s) (cols s)
     (visible_rows s) x (thumb_size s) (canvas_cards s)
     (show_loading_placeholder s) (visible_path_by_slot s)
     (visible_hash_by_slot s) (hash_by_path s) (canvas s).
Definition set_thumb_size (x : Z * Z) (s : t) : t :=
  mk (root s) (scroll_activity_tracker s) (thumb_cache s) (matches s)
     (render_after_id s) (render_scheduled_at s) (render_min_interval_s s)
     (last_render_key s) (scroll_after_id s) (pending_scroll_units s)
     (card_w s) (card_h s) (pad s) (path_bottom_margin s) (cols s)
     (visible_rows s) (virtual_total_h s) x (canvas_cards s)
     (show_loading_placeholder s) (visible_path_by_slot s)
     (visible_hash_by_slot s) (hash_by_path s) (canvas s).
Definition set_canvas_cards (x : list Card) (s : t) : t :=
  mk (root s) (scroll_activity_tracker s) (thumb_cache s) (matches s)
     (render_after_id s) (render_scheduled_at s) (render_min_interval_s s)
     (last_render_key s) (scroll_after_id s) (pending_scroll_units s)
     (card_w s) (card_h s) (pad s) (path_bottom_margin s) (cols s)
     (visible_rows s) (virtual_total_h s) (thumb_size s) x
     (show_loading_placeholder s) (visible_path_by_slot s)
     (visible_hash_by_slot s) (hash_by_path s) (canvas s).
Definition set_show_loading_placeholder (x : bool) (s : t) : t :=
  mk (root s) (scroll_activity_tracker s) (thumb_cache s) (matches s)
     (render_after_id s) (render_scheduled_at s) (render_min_interval_s s)
     (last_render_key s) (scroll_after_id s) (pending_scroll_units s)
     (card_w s) (card_h s) (pad s) (path_bottom_margin s) (cols s)
     (visible_rows s) (virtual_total_h s) (thumb_size s) (canvas_cards s) x
     (visible_path_by_slot s) (visible_hash_by_slot s) (hash_by_path s)
     (canvas s).
Definition set_visible_path_by_slot (x : gmap nat string) (s : t) : t :=
  mk (root s) (scroll_activity_tracker s) (thumb_cache s) (matches s)
     (render_after_id s) (render_scheduled_at s) (render_min_interval_s s)
     (last_render_key s) (scroll_after_id s) (pending_scroll_units s)
     (card_w s) (card_h s) (pad s) (path_bottom_margin s) (cols s)
     (visible_rows s) (virtual_total_h s) (thumb_size s) (canvas_cards s)
     (show_loading_placeholder s) x (visible_hash_by_slot s) (hash_by_path
     s) (canvas s).
Definition set_visible_hash_by_slot (x : gmap nat string) (s : t) : t :=
  mk (root s) (scroll_activity_tracker s) (thumb_cache s) (matches s)
     (render_after_id s) (render_scheduled_at s) (render_min_interval_s s)
     (last_render_key s) (scroll_after_id s) (pending_scroll_units s)
     (card_w s) (card_h s) (pad s) (path_bottom_margin s) (cols s)
     (visible_rows s) (virtual_total_h s) (thumb_size s) (canvas_cards s)
     (show_loading_placeholder s) (visible_path_by_slot s) x (hash_by_path
     s) (canvas s).
Definition set_hash_by_path (x : gmap string string) (s : t) : t :=
  mk (root s) (scroll_activity_tracker s) (thumb_cache s) (matches s)
     (render_after_id s) (render_scheduled_at s) (render_min_interval_s s)
     (last_render_key s) (scroll_after_id s) (pending_scroll_units s)
     (card_w s) (card_h s) (pad s) (path_bottom_margin s) (cols s)
     (visible_rows s) (virtual_total_h s) (thumb_size s) (canvas_cards s)
     (show_loading_placeholder s) (visible_path_by_slot s)
     (visible_hash_by_slot s) x (canvas s).
Definition set_canvas (x : Canvas) (s : t) : t :=
  mk (root s) (scroll_activity_tracker s) (thumb_cache s) (matches s)
     (render_after_id s) (render_scheduled_at s) (render_min_interval_s s)
     (last_render_key s) (scroll_after_id s) (pending_scroll_units s)
     (card_w s) (card_h s) (pad s) (path_bottom_margin s) (cols s)
     (visible_rows s) (virtual_total_h s) (thumb_size s) (canvas_cards s)
     (show_loading_placeholder s) (visible_path_by_slot s)
     (visible_hash_by_slot s) (hash_by_path s) x.

(** [App.__init__] up to the call of [_build_ui], on a fresh Tk object at
    time [now], a canvas, and the disk cache. *)
Definition init0 (now : Q) (cv : Canvas) (dc : DiskCache.t) : t :=
  mk (Tk.mk now 0 [] []) ScrollActivityTracker.init (ThumbCache.init dc)
     [] None 0 (1 / 30)%Q None None 0
     230 270 8 8 1 1 0 (0, 0) [] true ∅ ∅ ∅ cv.

(** Python's [max(a, b)] on rationals. *)
Definition Qmax (a b : Q) : Q := if Qle_bool b a then a else b.

(** The delay [_schedule_render] adds to the clock: [delay_s]. The clock
    and the times computed from it are rationals here; the source holds
    them in double precision, where the product [(target - now) * 1000]
    can fall just under a whole number, so the timer can be armed there
    for one millisecond less than the [wait_ms] computed here. *)
Definition delay_s (delay_ms : Z) : Q :=
  if delay_ms <=? 1 then 0%Q else (inject_Z delay_ms / 1000)%Q.

Definition _schedule_render (delay_ms : Z) (self : t) : t :=
  let now := Tk.clock (root self) in
  let delay_s := delay_s delay_ms in
  let earliest := (render_scheduled_at self + render_min_interval_s self)%Q in
  let target := Qmax (now + delay_s)%Q earliest in
  let wait_ms := Z.max 0 (int_of_Q ((target - now) * 1000)%Q) in
  let tk :=
    match render_after_id self with
    | Some id => Tk.after_cancel id (root self)
    | None => root self
    end in
  let '(id, tk) := Tk.after wait_ms Tk.RenderResults tk in
  set_render_after_id (Some id) (set_render_scheduled_at target (set_root tk self)).

(** [_build_ui]: of its effects on the modelled state, the initial render. *)
Definition init (now : Q) (cv : Canvas) (dc : DiskCache.t) : t :=
  _schedule_render 1 (init0 now cv dc).

Definition _update_card_geometry (self : t) : t :=
  let preview_w := card_w self - pad self * 2 - 16 in
  let preview_h := Z.quot (preview_w * 9) 16 in
  let text_h := 30 + path_bottom_margin self in
  let chrome_h := 24 in
  set_thumb_size (Z.max 1 preview_w, Z.max 1 preview_h)
    (set_card_h (preview_h + text_h + chrome_h) self).

Definition new_card : Card := mkCard false false None true false.

Definition _ensure_canvas_pool (self : t) : t :=
  let desired := cols self * visible_rows self in
  if Z.of_nat (length (canvas_cards self)) =? desired then self
  else set_canvas_cards (replicate (Z.to_nat desired) new_card) self.

Definition _ensure_pool (self : t) : t :=
  let self := _update_card_geometry self in
  let width := Z.max 1 (winfo_width (canvas self)) in
  let height := Z.max 1 (winfo_height (canvas self)) in
  let cols' := Z.max 1 (width / card_w self) in
  let visible_rows' := Z.max 1 (height / card_h self + 2) in
  if (cols' =? cols self) && (visible_rows' =? visible_rows self)
     && negb (bool_decide (canvas_cards self = []))
  then self
  else
    let self := set_visible_rows visible_rows' (set_cols cols' self) in
    let self := _ensure_canvas_pool self in
    set_last_render_key None self.

Definition _recompute_virtual_geometry (self : t) : t :=
  let self :=
    match matches self with
    | [] => set_virtual_total_h 1 self
    | _ :: _ =>
        let rows := (Z.of_nat (length (matches self)) + cols self - 1) / cols self in
        set_virtual_total_h (rows * card_h self) self
    end in
  set_canvas
    (mkCanvas (winfo_width (canvas self)) (winfo_height (canvas self))
       (canvasy0 (canvas self))
       (0, 0, Z.max 1 (cols self * card_w self), Z.max 1 (virtual_total_h self)))
    self.

(** [first_row] in [_render_results]. *)
Definition first_visible_row (self : t) : Z :=
  let y0 := canvasy0 (canvas self) in
  Z.max 0 (y0 / card_h self).

(** The thumbnail part of the loop body of [render_canvas_only], for the
    card of result [idx]. *)
Definition render_thumbnail (idx : nat) (m : SearchMatch) (card : Card) (self : t)
  : Card * t :=
  if ScrollActivityTracker.is_scroll_active (scroll_activity_tracker self) then
    (mkCard (bg_hidden card) (img_hidden card) None
       (if show_loading_placeholder self then false else loading_hidden card)
       (txt_hidden card),
     self)
  else
    let cache_id := if String.eqb (hash m) EmptyString then path m else hash m in
    let tkey := ThumbCache.get_key cache_id (thumb_cache self) in
    let '(photo, tc) := ThumbCache.get tkey (thumb_cache self) in
    match photo with
    | Some ph =>
        (mkCard (bg_hidden card) (img_hidden card) (Some ph) true (txt_hidden card),
         set_thumb_cache tc self)
    | None =>
        let '(_, tc) := ThumbCache.check_inflight idx cache_id (path m) tc in
        (mkCard (bg_hidden card) (img_hidden card) None
           (if show_loading_placeholder self then false else loading_hidden card)
           (txt_hidden card),
         set_thumb_cache tc self)
    end.

(** [for slot, card in enumerate(self._canvas_cards)], from [slot] on. *)
Fixpoint render_slots (start_index slot : nat) (cards : list Card) (self : t)
    (visible_paths : list string) : list Card * t * list string :=
  match cards with
  | [] => ([], self, visible_paths)
  | card :: rest =>
      let idx := (start_index + slot)%nat in
      match matches self !! idx with
      | None =>
          let card := mkCard true true (img_image card) true true in
          let '(cs, self, vp) :=
            render_slots start_index (S slot) rest self visible_paths in
          (card :: cs, self, vp)
      | Some m =>
          let self :=
            if String.eqb (hash m) EmptyString then self
            else set_hash_by_path (<[ path m := hash m ]> (hash_by_path self)) self in
          let self :=
            set_visible_path_by_slot (<[ slot := path m ]> (visible_path_by_slot self)) self in
          let self :=
            if String.eqb (hash m) EmptyString then self
            else set_visible_hash_by_slot
                   (<[ slot := hash m ]> (visible_hash_by_slot self)) self in
          let card :=
            mkCard false false (img_image card) (loading_hidden card) false in
          let '(card, self) := render_thumbnail idx m card self in
          let '(cs, self, vp) :=
            render_slots start_index (S slot) rest self (visible_paths ++ [path m]) in
          (card :: cs, self, vp)
      end
  end.

Definition render_canvas_only (start_index : nat) (self : t) : t * list string :=
  let self := _ensure_canvas_pool self in
  let '(cards, self, vp) := render_slots start_index 0 (canvas_cards self) self [] in
  (set_canvas_cards cards self, vp).

(** [for i in range(start, end)] of [_prefetch_thumbs], over the indices
    still to visit. *)
Fixpoint prefetch_loop (idxs : list nat) (budget : Z) (seen : gset string) (self : t) : t :=
  match idxs with
  | [] => self
  | i :: rest =>
      if budget <=? 0 then self
      else
        match matches self !! i with
        | None => self
        | Some m =>
            if bool_decide (path m ∈ seen) then prefetch_loop rest budget seen self
            else
              let seen := {[ path m ]} ∪ seen in
              let cache_id := if String.eqb (hash m) EmptyString then path m else hash m in
              let '(queued, tc) :=
                ThumbCache.check_incache i cache_id (path m) (thumb_cache self) in
              let self := set_thumb_cache tc self in
              if negb queued then prefetch_loop rest budget seen self
              else prefetch_loop rest (budget - 1) seen self
        end
  end.

Definition _prefetch_thumbs (first_row : Z) (visible_paths : list string) (self : t) : t :=
  match matches self with
  | [] => self
  | _ :: _ =>
      let buffer_rows := 3 in
      let len := Z.of_nat (length (matches self)) in
      let start_row := Z.max 0 (first_row - buffer_rows) in
      let end_row := Z.min ((len + cols self - 1) / cols self - 1)
                           (first_row + visible_rows self + buffer_rows) in
      let start := start_row * cols self in
      let end_ := Z.min len ((end_row + 1) * cols self) in
      prefetch_loop (seq (Z.to_nat start) (Z.to_nat end_ - Z.to_nat start)) 80
        (list_to_set visible_paths) self
  end.

Definition with_poller (self : t) : t :=
  let '(tk, tc) := ThumbCache.ensure_thumb_poller (root self) (thumb_cache self) in
  set_thumb_cache tc (set_root tk self).

(** [_render_results], for a canvas that exists. *)
Definition _render_results (self : t) : t :=
  let self := set_render_after_id None self in
  let self := _ensure_pool self in
  let self := _recompute_virtual_geometry self in
  let first_row := first_visible_row self in
  let start_index := first_row * cols self in
  let render_key :=
    (first_row, cols self, visible_rows self, card_w self, length (matches self),
     ScrollActivityTracker.is_scroll_active (scroll_activity_tracker self)) in
  if bool_decide (last_render_key self = Some render_key) then with_poller self
  else
    let self := set_last_render_key (Some render_key) self in
    let self := set_visible_hash_by_slot ∅ (set_visible_path_by_slot ∅ self) in
    let '(self, visible_paths) := render_canvas_only (Z.to_nat start_index) self in
    let self := _prefetch_thumbs first_row visible_paths self in
    with_poller self.

(** [ScrollActivityTracker._mark_scroll_idle], which calls back into the
    application it was created with. *)
Definition _mark_scroll_idle (self : t) : t :=
  let tr := scroll_activity_tracker self in
  let self :=
    set_scroll_activity_tracker
      (ScrollActivityTracker.mk false None (ScrollActivityTracker.scroll_idle_ms tr)) self in
  _schedule_render 1 self.

(** [canvas.yview_scroll(units, "units")]: the view moves by tenths of the
    window height and stays inside the scroll region. *)
Definition yview_scroll (units : Z) (cv : Canvas) : Canvas :=
  let '(_, _, _, h) := scrollregion cv in
  let y := canvasy0 cv + units * (winfo_height cv / 10) in
  mkCanvas (winfo_width cv) (winfo_height cv)
    (Z.max 0 (Z.min (Z.max 0 (h - winfo_height cv)) y)) (scrollregion cv).

Definition _flush_scroll (self : t) : t :=
  let self := set_scroll_after_id None self in
  let units := pending_scroll_units self in
  let self := set_pending_scroll_units 0 self in
  let self := if units =? 0 then self
              else set_canvas (yview_scroll units (canvas self)) self in
  _schedule_render 16 self.

(** [_on_mousewheel]; [inside] is whether the pointer is over a widget. *)
Definition _on_mousewheel (inside : bool) (delta : Z) (self : t) : t :=
  if negb inside then self
  else if delta =? 0 then self
  else
    let units := Z.quot (- delta) 120 in
    let self := set_pending_scroll_units (pending_scroll_units self + units) self in
    let '(tk, tr) :=
      ScrollActivityTracker.mark_scroll_active (root self) (scroll_activity_tracker self) in
    let self := set_scroll_activity_tracker tr (set_root tk self) in
    match scroll_after_id self with
    | Some _ => self
    | None =>
        let '(id, tk) := Tk.after 16 Tk.FlushScroll (root self) in
        set_scroll_after_id (Some id) (set_root tk self)
    end.

Definition _on_canvas_configure (self : t) : t :=
  _schedule_render 60 (set_last_render_key None self).

Definition _on_search_complete (ms : list SearchMatch) (self : t) : t :=
  let self := set_matches ms self in
  let self := _ensure_pool self in
  let self := _recompute_virtual_geometry self in
  let cv := canvas self in
  let self :=
    set_canvas (mkCanvas (winfo_width cv) (winfo_height cv) 0 (scrollregion cv)) self in
  let self := set_last_render_key None self in
  _schedule_render 1 self.

(** Where the application keeps the id of the pending timer of each
    callback. *)
Definition owner (self : t) (cb : Tk.callback) : option nat :=
  match cb with
  | Tk.RenderResults => render_after_id self
  | Tk.MarkScrollIdle =>
      ScrollActivityTracker.scroll_idle_after_id (scroll_activity_tracker self)
  | Tk.FlushScroll => scroll_after_id self
  | Tk.PollThumbs => ThumbCache.thumb_poller_id (thumb_cache self)
  end.

(** What reaches the application from outside. *)
Inductive event :=
| Scrollbar (y : Z)          (* the scrollbar moved the view: [_on_scrollbar] *)
| CanvasScroll               (* the canvas reports its view: [_on_canvas_scroll] *)
| ButtonRelease
| Expose
| Configure (w h : Z)        (* the canvas was resized *)
| MouseWheel (inside : bool) (delta : Z)
| SearchComplete (ms : list SearchMatch).

Definition handle (ev : event) (self : t) : t :=
  match ev with
  | Scrollbar y =>
      let cv := canvas self in
      _schedule_render 1
        (set_canvas (mkCanvas (winfo_width cv) (winfo_height cv) y (scrollregion cv)) self)
  | CanvasScroll | ButtonRelease | Expose => _schedule_render 1 self
  | Configure w h =>
      let cv := canvas self in
      _on_canvas_configure
        (set_canvas (mkCanvas w h (canvasy0 cv) (scrollregion cv)) self)
  | MouseWheel inside delta => _on_mousewheel inside delta self
  | SearchComplete ms => _on_search_complete ms self
  end.

Section event_loop.
(** [ImageTk.PhotoImage(data=png)], [None] when it raises. *)
Variable photo_image : bytes -> option ThumbCache.PhotoImage.

Definition run_callback (cb : Tk.callback) (self : t) : t :=
  match cb with
  | Tk.RenderResults => _render_results self
  | Tk.MarkScrollIdle => _mark_scroll_idle self
  | Tk.FlushScroll => _flush_scroll self
  | Tk.PollThumbs =>
      let '(tk, tc) :=
        ThumbCache._poll_thumbs photo_image (root self) (thumb_cache self) in
      set_thumb_cache tc (set_root tk self)
  end.

(** The event loop runs a due timer: it leaves the table, then its
    callback runs. *)
Definition fire (tm : Tk.timer) (self : t) : t :=
  run_callback (Tk.timer_cb tm) (set_root (Tk.take tm (root self)) self).

(** The due timer with the earliest deadline, the oldest one on a tie. *)
Fixpoint earliest (best : option Tk.timer) (l : list Tk.timer) : option Tk.timer :=
  match l with
  | [] => best
  | tm :: l' =>
      match best with
      | None => earliest (Some tm) l'
      | Some b =>
          if Qle_bool (Tk.timer_due b) (Tk.timer_due tm)
          then earliest best l' else earliest (Some tm) l'
      end
  end.

Definition next_due (tk : Tk.t) : option Tk.timer :=
  earliest None (filter (fun tm => Tk.is_due tk tm = true) (Tk.timers tk)).

(** Run due timers, at most [fuel] of them. *)
Fixpoint run_due (fuel : nat) (self : t) : t :=
  match fuel with
  | O => self
  | S n =>
      match next_due (root self) with
      | None => self
      | Some tm => run_due n (fire tm self)
      end
  end.

(** The event [ev] arrives at time [now]: the timers that came due before
    it run first. *)
Definition deliver (fuel : nat) (now : Q) (ev : event) (self : t) : t :=
  handle ev (run_due fuel (set_root (Tk.advance now (root self)) self)).

End event_loop.

End App.

(** ** What a render pass shows *)

(** What a slot shows after the per-slot pass of a render made while the
    view is scrolling. *)
Definition slot_shows_placeholder (s : App.t) (idx : nat) (c : App.Card) : Prop :=
  match App.matches s !! idx with
  | Some _ =>
      App.img_image c = None /\ App.img_hidden c = false
      /\ (App.show_loading_placeholder s = true -> App.loading_hidden c = false)
  | None => App.img_hidden c = true /\ App.loading_hidden c = true
  end.

(** The state the render pass works on once the pool and the geometry are
    up to date. *)
Definition render_state (s : App.t) : App.t :=
  App._recompute_virtual_geometry (App._ensure_pool (App.set_render_after_id None s)).

(** ** The running program: the UI thread and the worker thread *)

Module System.
Import Py.

(** The two threads share the [ThumbCache] object inside the application
    and nothing else; [job] is the request the worker has taken from the
    request queue and not yet answered. *)
Record state := mk {
  app : App.t;
  worker_conn : option unit;
  world : Env.t;
  job : option (nat * string * string)
}.

Definition key_of_request (tc : ThumbCache.t) (r : nat * string * string) : string * Z :=
  (r.2, ThumbCache.thumb_max tc).
Definition key_of_result (tc : ThumbCache.t) (r : nat * string * string * option (list Z))
  : string * Z :=
  (r.1.2, ThumbCache.thumb_max tc).

(** The keys of the generation jobs under way: requests queued, the
    request at the worker, results not yet polled. *)
Definition outstanding (tc : ThumbCache.t) (j : option (nat * string * string))
  : list (string * Z) :=
  (key_of_request tc <$> ThumbCache.thumb_req_q tc)
  ++ (key_of_request tc <$> option_list j)
  ++ (key_of_result tc <$> ThumbCache.thumb_done_q tc).

Definition initial (now : Q) (cv : App.Canvas) (CACHE_PATH : list string) (e : Env.t)
  : state :=
  mk (App.init now cv (DiskCache.mk CACHE_PATH true)) None e None.

(** The worker answers the request it holds: one pass of its loop. *)
Definition finish (r : nat * string * string) (s : state) : state :=
  let w := Worker.mk (App.thumb_cache (app s)) (worker_conn s) (world s) in
  let w' := (Worker.iteration r w).2 in
  mk (App.set_thumb_cache (Worker.self w') (app s))
     (Worker.conn w') (Worker.env w') None.

(** Every key has at most one generation job under way, and the keys with
    a job under way are the members of the in-flight set. *)
Definition job_inv (tc : ThumbCache.t) (j : option (nat * string * string)) : Prop :=
  NoDup (outstanding tc j)
  /\ forall key, key ∈ outstanding tc j <-> key ∈ ThumbCache.thumb_inflight tc.

(** A change of the cache object that keeps [job_inv], whatever the
    worker holds. *)
Definition ui_ok (tc tc' : ThumbCache.t) : Prop :=
  ThumbCache.thumb_max tc' = ThumbCache.thumb_max tc
  /\ forall j, job_inv tc j -> job_inv tc' j.

(** The timer table agrees with the ids the application holds. *)
Definition sound (s : App.t) : Prop := Tk.owned (App.root s) (App.owner s).

(** The same, while the callback [cb] of a timer just taken off the table
    has not yet cleared the id it holds. *)
Definition sound_but (cb : Tk.callback) (s : App.t) : Prop :=
  Tk.owned (App.root s) (fun c => if decide (c = cb) then None else App.owner s c).

(** What holds of the application in every state the program reaches. *)
Definition stable (a : App.t) (j : option (nat * string * string)) : Prop :=
  sound a /\ job_inv (App.thumb_cache a) j
  /\ App.render_min_interval_s a = (1 / 30)%Q.

(** A step of the application that keeps the invariants. *)
Definition step_ok (s s' : App.t) : Prop :=
  (sound s -> sound s')
  /\ ui_ok (App.thumb_cache s) (App.thumb_cache s')
  /\ App.render_min_interval_s s' = App.render_min_interval_s s
  /\ exists l, Tk.fired (App.root s') = Tk.fired (App.root s) ++ l.

Section steps.
Variable photo_image : bytes -> option ThumbCache.PhotoImage.

Inductive step : state -> state -> Prop :=
| step_event fuel now ev s :
    step s (mk (App.deliver photo_image fuel now ev (app s))
               (worker_conn s) (world s) (job s))
| step_timers fuel now s :
    step s (mk (App.run_due photo_image fuel
                  (App.set_root (Tk.advance now (App.root (app s))) (app s)))
               (worker_conn s) (world s) (job s))
| step_take r q s :
    ThumbCache.thumb_req_q (App.thumb_cache (app s)) = r :: q ->
    job s = None ->
    step s (mk (App.set_thumb_cache
                  (ThumbCache.set_thumb_req_q q (App.thumb_cache (app s))) (app s))
               (worker_conn s) (world s) (Some r))
| step_finish r s :
    job s = Some r ->
    step s (finish r s)
| step_world e s :
    (* the disk and the database change under the program *)
    step s (mk (app s) (worker_conn s) e (job s)).

Definition reachable (s0 s : state) : Prop := rtc step s0 s.

End steps.

End System.

(** A request the prefetch step may add: for a key that is neither in the
    memory cache nor in flight. *)
Definition fresh_request (s : App.t) (r : nat * string * string) : Prop :=
  OrderedDict.get (r.2, ThumbCache.thumb_max (App.thumb_cache s))
    (ThumbCache.thumb_cache (App.thumb_cache s)) = None
  /\ (r.2, ThumbCache.thumb_max (App.thumb_cache s))
     ∉ ThumbCache.thumb_inflight (App.thumb_cache s).

(** ** [src/gui/app.py]: where a card is drawn and which card a point hits *)

Module Layout.

(** The rectangle [render_canvas_only] gives the background of the card in
    [slot], in canvas coordinates: [(x0, y0, x1, y1)]. *)
Definition card_box (first_row : Z) (slot : nat) (self : App.t) : Z * Z * Z * Z :=
  let row := Z.of_nat slot / App.cols self in
  let col := Z.of_nat slot mod App.cols self in
  let x0 := col * App.card_w self + App.pad self in
  let y0 := (first_row + row) * App.card_h self + App.pad self in
  let w := App.card_w self - App.pad self * 2 in
  let h := App.card_h self - App.pad self * 2 in
  (x0, y0, x0 + w, y0 + h).

(** [_index_from_canvas_xy]; [cy] is [canvas.canvasy(y)]. [None] is the
    [ZeroDivisionError] of a card without width or height. *)
Definition _index_from_canvas_xy (x cy : Z) (self : App.t) : option Z :=
  match App.matches self with
  | [] => Some (-1)
  | _ :: _ =>
      if (App.card_h self =? 0) || (App.card_w self =? 0) then None
      else
        let row := Z.max 0 (cy / App.card_h self) in
        let col := Z.max 0 (x / App.card_w self) in
        if App.cols self <=? col then Some (-1)
        else
          let idx := row * App.cols self + col in
          if (idx <? 0) || (Z.of_nat (length (App.matches self)) <=? idx)
          then Some (-1) else Some idx
  end.

Section measure.
(** [_measure]: the width of a text in pixels. *)
Variable measure : string -> Z.

(** [while keep and _measure(ell + keep) > max_px: keep = keep[1:]] *)
Fixpoint shorten (max_px : Z) (keep : string) : string :=
  match keep with
  | EmptyString => EmptyString
  | String _ keep' =>
      if max_px <? measure ("..." ++ keep)%string then shorten max_px keep' else keep
  end.

Definition _left_ellipsis_px (text : string) (max_px : Z) : string :=
  if measure text <=? max_px then text
  else if max_px <=? measure "..."%string then "..."%string
  else ("..." ++ shorten max_px text)%string.

End measure.

(** [_measure] when the font could not be created: seven pixels a
    character. *)
Definition measure_without_font (s : string) : Z := Z.of_nat (String.length s) * 7.

End Layout.

(** ** [src/gui/components/tooltip.py]: where the tooltip goes *)

Module Tooltip.

(** [_compute_max_width_px]; [None] is a [winfo_screenwidth] that raises. *)
Definition _compute_max_width_px (screenwidth : option Z) : Z :=
  match screenwidth with
  | Some sw => Z.max 800 (Z.quot sw 2)
  | None => 800
  end.

(** The corner [show] moves the tooltip window to, for a screen of [sw]
    by [sh] pixels, a window of [w] by [h] and the pointer at [(x, y)]. *)
Definition place (sw sh w h x y : Z) : Z * Z :=
  let pad := 8 in
  let x2 := Z.max pad (Z.min x (sw - w - pad)) in
  let y2 := if y + h + pad <=? sh then y else y - h - 18 in
  let y2 := Z.max pad (Z.min y2 (sh - h - pad)) in
  (x2, y2).

End Tooltip.

(** ** [src/common/searcher.py]: the terms of a query *)

Module Searcher.

(** [s.split()]: the maximal runs of characters that are not white space;
    [cur] is the run being read. *)
Fixpoint split_from (cur s : string) : list string :=
  match s with
  | EmptyString => if String.eqb cur EmptyString then [] else [cur]
  | String c s' =>
      if Py.isspace c then
        if String.eqb cur EmptyString then split_from EmptyString s'
        else cur :: split_from EmptyString s'
      else split_from (cur ++ String c EmptyString)%string s'
  end.

Definition split (s : string) : list string := split_from EmptyString s.

(** The loop of [_split_terms] over the parts still to read. *)
Fixpoint unique (seen : gset string) (parts : list string) : list string :=
  match parts with
  | [] => []
  | p :: rest =>
      let key := Py.lower p in
      if bool_decide (key ∈ seen) then unique seen rest
      else p :: unique ({[ key ]} ∪ seen) rest
  end.

Definition _split_terms (query : string) : list string :=
  let parts := Py.strip <$> split query in
  let parts := filter (fun p => p <> EmptyString) parts in
  unique ∅ parts.

End Searcher.


(** The entry of the memory cache a completed result yields, if its bytes
    are there and Tk decodes them: the body of the loop of [_poll_thumbs]. *)
Definition cache_entry (photo_image : list Z -> option ThumbCache.PhotoImage)
    (tc : ThumbCache.t) (r : nat * string * string * option (list Z))
  : option ((string * Z) * ThumbCache.PhotoImage) :=
  match r.2 with
  | Some data =>
      match photo_image data with
      | Some photo => Some ((r.1.2, ThumbCache.thumb_max tc), photo)
      | None => None
      end
  | None => None
  end.

(** No call fails and no other thread touches the files. *)
Definition calm (e : Env.t) : Prop := Env.faults e = [] /\ Env.interf e = [].

(** The bytes a pass of the worker puts on the completion queue when
    nothing fails: those of the cache file if it is not empty, and else
    the stored thumbnail rendered, if there is one and it renders. *)
Definition pass_result (w : Worker.state) (cache_id path_text : string) : option (list Z) :=
  let dc := ThumbCache.disk_cache (Worker.self w) in
  let size := ThumbCache.thumb_max (Worker.self w) in
  match Env.visible (Env.files (Env.fs (Worker.env w)) !! DiskCache.cache_file dc cache_id size) with
  | Some png => Some png
  | None =>
      match Worker.stored_thumbnail (Env.db (Worker.env w)) cache_id path_text with
      | Some (b :: tb) => Env.render_png (Worker.env w) (b :: tb)
      | _ => None
      end
  end.

(** Turns of the wheel over the window, one after the other. *)
Definition wheel_burst (deltas : list Z) (s : App.t) : App.t :=
  foldl (fun s d => App._on_mousewheel true d s) s deltas.

(** The key of the thumbnail of a result: its hash, or its path when it
    has no hash. *)
Definition key_of_match (s : App.t) (m : App.SearchMatch) : string * Z :=
  (if String.eqb (App.hash m) EmptyString then App.path m else App.hash m,
   ThumbCache.thumb_max (App.thumb_cache s)).

(** What a slot shows after the per-slot pass of a render made while the
    view is at rest: the image the memory cache holds for the result, or
    the placeholder. *)
Definition slot_shows_cached (s : App.t) (idx : nat) (c : App.Card) : Prop :=
  match App.matches s !! idx with
  | Some m =>
      App.img_image c
      = OrderedDict.get (key_of_match s m) (ThumbCache.thumb_cache (App.thumb_cache s))
      /\ App.img_hidden c = false
      /\ (is_Some (App.img_image c) -> App.loading_hidden c = true)
      /\ (App.img_image c = None -> App.show_loading_placeholder s = true ->
          App.loading_hidden c = false)
  | None => App.img_hidden c = true /\ App.loading_hidden c = true
  end.

(** A slot without an image has its thumbnail asked for. *)
Definition slot_requested (s s' : App.t) (idx : nat) (c : App.Card) : Prop :=
  forall m, App.matches s !! idx = Some m -> App.img_image c = None ->
            key_of_match s m ∈ ThumbCache.thumb_inflight (App.thumb_cache s').

(** What the per-slot pass keeps of the state it started from. *)
Definition same_view (s0 s : App.t) : Prop :=
  (forall k, OrderedDict.get k (ThumbCache.thumb_cache (App.thumb_cache s))
             = OrderedDict.get k (ThumbCache.thumb_cache (App.thumb_cache s0)))
  /\ ThumbCache.thumb_max (App.thumb_cache s) = ThumbCache.thumb_max (App.thumb_cache s0)
  /\ ThumbCache.thumb_inflight (App.thumb_cache s0)
     ⊆ ThumbCache.thumb_inflight (App.thumb_cache s)
  /\ App.matches s = App.matches s0
  /\ App.show_loading_placeholder s = App.show_loading_placeholder s0
  /\ App.scroll_activity_tracker s = App.scroll_activity_tracker s0.

(** The key [_render_results] compares with the one of the last pass. *)
Definition render_key (s : App.t) : Z * Z * Z * Z * nat * bool :=
  (App.first_visible_row s, App.cols s, App.visible_rows s, App.card_w s,
   length (App.matches s),
   ScrollActivityTracker.is_scroll_active (App.scroll_activity_tracker s)).

(** What the drawing steps of a render pass leave as they find it. *)
Definition same_layout (s0 s : App.t) : Prop :=
  App.card_w s = App.card_w s0 /\ App.card_h s = App.card_h s0
  /\ App.pad s = App.pad s0 /\ App.path_bottom_margin s = App.path_bottom_margin s0
  /\ App.cols s = App.cols s0 /\ App.visible_rows s = App.visible_rows s0
  /\ App.canvas s = App.canvas s0 /\ App.matches s = App.matches s0
  /\ App.scroll_activity_tracker s = App.scroll_activity_tracker s0
  /\ App.last_render_key s = App.last_render_key s0.

(** What the geometry and the render key are computed from. *)
Definition base_of (s : App.t) :=
  (App.card_w s, App.pad s, App.path_bottom_margin s, App.winfo_width (App.canvas s),
   App.winfo_height (App.canvas s), App.canvasy0 (App.canvas s), App.matches s,
   App.scroll_activity_tracker s).

(** ** Concrete inputs for the examples *)

Module Inputs.

Definition dc0 : DiskCache.t := DiskCache.mk ["cache"%string] true.

Definition db0 : Env.DB := Env.mkDB ∅ ∅.

(** A disk with the given files, the shard directory of ["abc123"], and
    no pending faults. *)
Definition env_of (f : gmap (list string) (list Z)) (faults : list bool) : Env.t :=
  Env.mk (Env.mkFS f {[ DiskCache.shard_dir dc0 "abc123" ]}) db0 (fun _ => None)
         faults [] [].

Definition png0 : list Z := [137; 80; 78; 71].

Definition tmp0 : list string := DiskCache.tmp_file dc0 "abc123" 200.

(** The first operations of a write of [png0], as a reader's two calls
    meet them. *)
Definition chunks0 : list (list Env.fsop) :=
  [[Env.OpCreate tmp0; Env.OpAppend tmp0 137]; [Env.OpAppend tmp0 80]].

Definition db1 : Env.DB := Env.mkDB {[ "abc123"%string := Env.SqlBlob [1; 2; 3] ]} ∅.


Definition worker0 (e : Env.t) : Worker.state :=
  Worker.mk (ThumbCache.init dc0) None e.

(** The canvas of a window of 920 by 600 pixels, not scrolled. *)
Definition cv0 : App.Canvas := App.mkCanvas 920 600 0 (0, 0, 1, 1).

(** Three results without a hash, a canvas one card wide and two rows of
    cards high, and the application after the search completed and the
    wheel turned once. *)
Definition matches3 : list App.SearchMatch :=
  [App.mkMatch "" "a" ""; App.mkMatch "" "b" ""; App.mkMatch "" "c" ""]%string.

Definition cv_small : App.Canvas := App.mkCanvas 230 100 0 (0, 0, 1, 1).

Definition scrolling0 : App.t :=
  App._on_mousewheel true (-120)
    (App._on_search_complete matches3 (App.init 0 cv_small dc0)).

(** A world where the database holds a thumbnail for ["abc123"], the codec
    renders it, and nothing fails. *)
Definition env_calm : Env.t :=
  Env.mk (Env.mkFS ∅ {[ DiskCache.shard_dir dc0 "abc123" ]}) db1 (fun _ => Some png0)
         [] [] [].

(** The application after the search completed, at rest. *)
Definition resting0 : App.t :=
  App._on_search_complete matches3 (App.init 0 cv_small dc0).




(** A disk on which another writer of the key ["abc123"] creates the
    staging file and writes the byte 9 just before this thread's fourth
    file-system call. *)
Definition env_two_writers : Env.t :=
  Env.mk (Env.mkFS ∅ {[ DiskCache.shard_dir dc0 "abc123" ]}) db0 (fun _ => None) []
         [[]; []; []; [Env.OpCreate tmp0; Env.OpAppend tmp0 9]; []] [].

End Inputs.

(* ===================================================================== *)
(** * Part II: properties                                                 *)
(* ===================================================================== *)

Example sha1_abc :
  Sha1.hexdigest (Py.encode_utf8 "abc") = "a9993e364706816aba3e25717850c26c9cd0d89d"%string.
Proof. vm_compute. reflexivity. Qed.

Example sha1_unknown :
  Sha1.hexdigest (Py.encode_utf8 "unknown") = "50d8b4a941c26b89482c94ab324b5a274f9ced66"%string.
Proof. vm_compute. reflexivity. Qed.

Example sha1_two_blocks :
  Sha1.hexdigest (replicate 70 97) = "ed6c69d9e8b4373af86303dfaa3528dfbc129902"%string.
Proof. vm_compute. reflexivity. Qed.

Example sha1_latin1 :
  Sha1.hexdigest (Py.encode_utf8 (String (Py.chr 233) EmptyString))
  = "bf15be717ac1b080b4f1c456692825891ff5073d"%string.
Proof. vm_compute. reflexivity. Qed.

Example strip_ex :
  Py.strip (String (Py.chr 32) (String (Py.chr 133) ("abc" ++ String (Py.chr 160) ""))) = "abc"%string.
Proof. vm_compute. reflexivity. Qed.

Example str_of_int_ex : Py.str_of_int 200 = "200"%string /\ Py.str_of_int 0 = "0"%string /\ Py.str_of_int (-5) = "-5"%string.
Proof. vm_compute. auto. Qed.

(** ** Viewport geometry *)

(** The ceiling of [n / c], as the specification writes it. *)
Definition ceil_div (n c : Z) : Z := - ((- n) / c).

Lemma ceil_div_rows (n c : Z) : 0 < c -> (n + c - 1) / c = ceil_div n c.
Proof.
  intros Hc. unfold ceil_div.
  pose proof (Z.div_mod (n + c - 1) c ltac:(lia)) as H1.
  pose proof (Z.mod_pos_bound (n + c - 1) c Hc) as H2.
  pose proof (Z.div_mod (- n) c ltac:(lia)) as H3.
  pose proof (Z.mod_pos_bound (- n) c Hc) as H4.
  nia.
Qed.

Lemma cols_after_ensure_pool (s : App.t) :
  App.cols (App._ensure_pool s)
  = Z.max 1 (Z.max 1 (App.winfo_width (App.canvas s)) / App.card_w s).
Proof.
  unfold App._ensure_pool. cbn [App._update_card_geometry].
  match goal with |- context [if ?b then _ else _] => destruct b eqn:E end.
  - apply andb_prop in E as [E _]. apply andb_prop in E as [E _].
    apply Z.eqb_eq in E. cbn in *. lia.
  - unfold App._ensure_canvas_pool.
    match goal with |- context [if ?b then _ else _] => destruct b end; reflexivity.
Qed.

Lemma max_width_div (w c : Z) : 0 < c -> Z.max 1 (Z.max 1 w / c) = Z.max 1 (w / c).
Proof.
  intros Hc. destruct (Z_le_gt_dec w 0) as [Hw|Hw].
  - rewrite (Z.max_l 1 w) by lia.
    assert (w / c <= 0) by (apply Z.div_le_upper_bound; lia).
    assert (1 / c <= 1) by (apply Z.div_le_upper_bound; lia).
    assert (0 <= 1 / c) by (apply Z.div_pos; lia).
    lia.
  - rewrite (Z.max_r 1 w) by lia. reflexivity.
Qed.

Definition geometry_input : App.t :=
  App.set_cols 4
    (App.set_matches (replicate 1000 (App.mkMatch "" "p" ""))
       (App.init0 0 (App.mkCanvas 920 600 540 (0, 0, 1, 1)) (DiskCache.mk [] true))).

Definition empty_result_input : App.t :=
  App.init0 0 (App.mkCanvas 920 600 0 (0, 0, 1, 1)) (DiskCache.mk [] true).

(** C7, as stated, fails for an empty result list: the code sets the
    virtual content height to 1 where the formula gives 0. *)
Lemma virtual_height_of_no_items :
  App.matches empty_result_input = []
  /\ App.virtual_total_h (App._recompute_virtual_geometry empty_result_input) = 1
  /\ ceil_div (Z.of_nat (length (App.matches empty_result_input)))
       (App.cols empty_result_input) * App.card_h empty_result_input = 0
  /\ App.virtual_total_h (App._recompute_virtual_geometry empty_result_input)
     <> ceil_div (Z.of_nat (length (App.matches empty_result_input)))
          (App.cols empty_result_input) * App.card_h empty_result_input.
Proof. vm_compute. repeat split; congruence. Qed.

(** C7 (amended): columns = max(1, floor(width / cardWidth)); the virtual
    content height is ceil(itemCount / columns) * cardHeight when there is
    at least one item and 1 when there is none; the first visible row is
    max(0, floor(scrollOffset / cardHeight)), which is the floor itself for
    a non-negative offset; 1000 items in 4 columns of height 270 give 67500,
    and offset 540 gives row 2. *)
Theorem viewport_geometry (s : App.t) :
  0 < App.card_w s -> 0 < App.cols s -> 0 < App.card_h s ->
  App.cols (App._ensure_pool s)
    = Z.max 1 (App.winfo_width (App.canvas s) / App.card_w s)
  /\ App.virtual_total_h (App._recompute_virtual_geometry s)
     = (if decide (App.matches s = []) then 1
        else ceil_div (Z.of_nat (length (App.matches s))) (App.cols s) * App.card_h s)
  /\ App.first_visible_row s = Z.max 0 (App.canvasy0 (App.canvas s) / App.card_h s)
  /\ (0 <= App.canvasy0 (App.canvas s) ->
      App.first_visible_row s = App.canvasy0 (App.canvas s) / App.card_h s)
  /\ (length (App.matches s) = 1000%nat -> App.cols s = 4 -> App.card_h s = 270 ->
      App.virtual_total_h (App._recompute_virtual_geometry s) = 67500)
  /\ (App.canvasy0 (App.canvas s) = 540 -> App.card_h s = 270 ->
      App.first_visible_row s = 2).
Proof.
  intros Hw Hc Hh.
  assert (Hvirt : App.virtual_total_h (App._recompute_virtual_geometry s)
     = (if decide (App.matches s = []) then 1
        else ceil_div (Z.of_nat (length (App.matches s))) (App.cols s) * App.card_h s)).
  { rewrite <- ceil_div_rows by assumption.
    unfold App._recompute_virtual_geometry.
    destruct (App.matches s) as [|m ms]; reflexivity. }
  split; [|split; [|split; [|split; [|split]]]].
  - rewrite cols_after_ensure_pool. apply max_width_div. assumption.
  - exact Hvirt.
  - reflexivity.
  - intros Hy. unfold App.first_visible_row.
    apply Z.max_r. apply Z.div_pos; lia.
  - intros Hlen Hcols Hcard. rewrite Hvirt.
    destruct (decide (App.matches s = [])) as [E|_].
    + rewrite E in Hlen. discriminate.
    + rewrite Hlen, Hcols, Hcard. reflexivity.
  - intros Hy Hcard. unfold App.first_visible_row. rewrite Hy, Hcard. reflexivity.
Qed.

Lemma viewport_geometry_witness :
  App.cols (App._ensure_pool geometry_input) = 4
  /\ App.virtual_total_h (App._recompute_virtual_geometry geometry_input) = 67500
  /\ App.first_visible_row geometry_input = 2.
Proof.
  assert (H1 : 0 < App.card_w geometry_input) by (vm_compute; reflexivity).
  assert (H2 : 0 < App.cols geometry_input) by (vm_compute; reflexivity).
  assert (H3 : 0 < App.card_h geometry_input) by (vm_compute; reflexivity).
  destruct (viewport_geometry geometry_input H1 H2 H3)
    as (Hc & _ & _ & _ & Hv & Hr).
  split; [|split].
  - rewrite Hc. vm_compute. reflexivity.
  - apply Hv; vm_compute; reflexivity.
  - apply Hr; vm_compute; reflexivity.
Defined.

(** ** Strings *)

Lemma append_cons (c : ascii) (a b : string) :
  (String c a ++ b = String c (a ++ b))%string.
Proof. reflexivity. Qed.

Lemma append_nil (b : string) : (EmptyString ++ b = b)%string.
Proof. reflexivity. Qed.

Lemma length_append (a b : string) :
  String.length (a ++ b) = (String.length a + String.length b)%nat.
Proof.
  induction a as [|c a IH]; [reflexivity|].
  rewrite append_cons. cbn [String.length]. rewrite IH. reflexivity.
Qed.

Lemma append_assoc (a b c : string) : ((a ++ b) ++ c = a ++ (b ++ c))%string.
Proof.
  induction a as [|x a IH]; [reflexivity|].
  rewrite !append_cons, IH. reflexivity.
Qed.

Lemma append_inj_same_length (a b c d : string) :
  String.length a = String.length b ->
  (a ++ c = b ++ d)%string -> a = b /\ c = d.
Proof.
  revert b. induction a as [|x a IH]; intros [|y b] Hlen H; try discriminate.
  - auto.
  - rewrite !append_cons in H. injection H as -> H.
    injection Hlen as Hlen. destruct (IH b Hlen H) as [-> ->]; auto.
Qed.

Lemma append_inv_tail (a b c : string) : (a ++ c = b ++ c)%string -> a = b.
Proof.
  intros H. apply (append_inj_same_length a b c c); [|exact H].
  apply (f_equal String.length) in H. rewrite !length_append in H. lia.
Qed.

(** Splitting at the first character outside a class. *)
Lemma split_at_separator (P : ascii -> bool) (sep : ascii) (a b x y : string) :
  P sep = false ->
  Py.all_chars P a = true -> Py.all_chars P b = true ->
  (a ++ String sep x = b ++ String sep y)%string -> a = b /\ x = y.
Proof.
  intros Hsep. revert b.
  induction a as [|c a IH]; intros [|d b] Ha Hb H;
    rewrite ?append_cons, ?append_nil in H; cbn in Ha, Hb.
  - injection H as ->. auto.
  - injection H as <- _. apply andb_prop in Hb as [Hb _]. congruence.
  - injection H as -> _. apply andb_prop in Ha as [Ha _]. congruence.
  - injection H as -> H.
    apply andb_prop in Ha as [_ Ha]. apply andb_prop in Hb as [_ Hb].
    destruct (IH b Ha Hb H) as [-> ->]. auto.
Qed.

Lemma all_chars_impl (P R : ascii -> bool) (s : string) :
  (forall c, P c = true -> R c = true) ->
  Py.all_chars P s = true -> Py.all_chars R s = true.
Proof.
  intros HPR. induction s as [|c s IH]; cbn; [reflexivity|].
  intros H. apply andb_prop in H as [H1 H2].
  rewrite (HPR c H1), (IH H2). reflexivity.
Qed.

Lemma all_chars_append (P : ascii -> bool) (a b : string) :
  Py.all_chars P (a ++ b) = Py.all_chars P a && Py.all_chars P b.
Proof.
  induction a as [|c a IH]; [reflexivity|].
  rewrite append_cons. cbn [Py.all_chars]. rewrite IH. apply andb_assoc.
Qed.

Lemma lower_hex_is_hex (c : ascii) : Py.is_lower_hex c = true -> Py.is_hex_char c = true.
Proof.
  unfold Py.is_lower_hex, Py.is_hex_char. cbv zeta.
  intros H. rewrite H. reflexivity.
Qed.

Lemma lower_char_hex (c : ascii) :
  Py.is_hex_char c = true -> Py.is_lower_hex (Py.lower_char c) = true.
Proof.
  destruct c as [[] [] [] [] [] [] [] []]; vm_compute; congruence.
Qed.

Lemma lower_char_lower_hex (c : ascii) :
  Py.is_lower_hex c = true -> Py.lower_char c = c.
Proof.
  destruct c as [[] [] [] [] [] [] [] []]; vm_compute; congruence.
Qed.

Lemma length_lower (s : string) : String.length (Py.lower s) = String.length s.
Proof. induction s as [|c s IH]; cbn; [reflexivity | now rewrite IH]. Qed.

Lemma lower_of_hex (s : string) :
  Py.all_chars Py.is_hex_char s = true ->
  Py.all_chars Py.is_lower_hex (Py.lower s) = true.
Proof.
  induction s as [|c s IH]; cbn; [reflexivity|].
  intros H. apply andb_prop in H as [H1 H2].
  rewrite (lower_char_hex c H1), (IH H2). reflexivity.
Qed.

Lemma lower_of_lower_hex (s : string) :
  Py.all_chars Py.is_lower_hex s = true -> Py.lower s = s.
Proof.
  induction s as [|c s IH]; cbn; [reflexivity|].
  intros H. apply andb_prop in H as [H1 H2].
  rewrite (lower_char_lower_hex c H1), (IH H2). reflexivity.
Qed.

(** ** SHA-1 digests are 40 lower-case hexadecimal digits *)

Lemma hex_digit_small (k : nat) :
  (k < 16)%nat -> Py.is_lower_hex (Sha1.hex_digit (Z.of_nat k)) = true.
Proof.
  intros Hk. do 16 (destruct k as [|k]; [vm_compute; reflexivity|]). lia.
Qed.

Lemma hex_digit_lower_hex (x : Z) :
  Py.is_lower_hex (Sha1.hex_digit (Z.land x 15)) = true.
Proof.
  change 15 with (Z.ones 4). rewrite Z.land_ones by lia.
  pose proof (Z.mod_pos_bound x (2 ^ 4) ltac:(lia)) as Hb.
  set (m := x mod 2 ^ 4) in *. change (2 ^ 4) with 16 in Hb.
  rewrite <- (Z2Nat.id m) by lia.
  apply hex_digit_small. lia.
Qed.

Lemma hex_of_lower_hex (k : nat) (x : Z) :
  Py.all_chars Py.is_lower_hex (Sha1.hex_of k x) = true.
Proof.
  induction k as [|k IH]; [reflexivity|].
  cbn [Sha1.hex_of Py.all_chars]. rewrite hex_digit_lower_hex, IH. reflexivity.
Qed.

Lemma length_hex_of (k : nat) (x : Z) : String.length (Sha1.hex_of k x) = k.
Proof. induction k as [|k IH]; cbn [Sha1.hex_of String.length]; [reflexivity | now rewrite IH]. Qed.

Lemma hexdigest_shape (msg : Py.bytes) :
  String.length (Sha1.hexdigest msg) = 40%nat
  /\ Py.all_chars Py.is_lower_hex (Sha1.hexdigest msg) = true.
Proof.
  unfold Sha1.hexdigest. cbv zeta.
  destruct (Sha1.blocks _ _ _) as [[[[h0 h1] h2] h3] h4].
  split.
  - rewrite !length_append, !length_hex_of. reflexivity.
  - rewrite !all_chars_append, !hex_of_lower_hex. reflexivity.
Qed.

(** ** The path of a cache file *)

Lemma str_of_int_inj (a b : Z) : Py.str_of_int a = Py.str_of_int b -> a = b.
Proof.
  unfold Py.str_of_int. intros H.
  apply (f_equal NilEmpty.int_of_string) in H.
  rewrite !NilEmpty.isi in H. injection H as H.
  apply (f_equal Z.of_int) in H. rewrite !DecimalZ.of_to in H. exact H.
Qed.

(** The identifier the normalisation starts from. *)
Definition stripped_id (cache_id : string) : string :=
  Py.strip (if String.eqb cache_id EmptyString then "unknown"%string else cache_id).

Lemma safe_id_hex_like (cache_id : string) :
  Py.fullmatch_hex_16_128 (stripped_id cache_id) = true ->
  DiskCache.safe_id cache_id = Py.lower (stripped_id cache_id)
  /\ String.length (DiskCache.safe_id cache_id) = String.length (stripped_id cache_id)
  /\ (16 <= String.length (DiskCache.safe_id cache_id) <= 128)%nat.
Proof.
  intros H. unfold DiskCache.safe_id. fold (stripped_id cache_id).
  rewrite H. cbn [negb]. rewrite length_lower.
  unfold Py.fullmatch_hex_16_128 in H.
  apply andb_prop in H as [H H3]. apply andb_prop in H as [_ H2].
  apply Nat.leb_le in H2, H3. auto.
Qed.

Lemma safe_id_hashed (cache_id : string) :
  Py.fullmatch_hex_16_128 (stripped_id cache_id) = false ->
  DiskCache.safe_id cache_id = Sha1.hexdigest (Py.encode_utf8 (stripped_id cache_id))
  /\ String.length (DiskCache.safe_id cache_id) = 40%nat.
Proof.
  intros H. unfold DiskCache.safe_id. fold (stripped_id cache_id).
  rewrite H. cbn [negb].
  destruct (hexdigest_shape (Py.encode_utf8 (stripped_id cache_id))) as [Hl Hh].
  rewrite (lower_of_lower_hex _ Hh). auto.
Qed.

Lemma safe_id_lower_hex (cache_id : string) :
  Py.all_chars Py.is_lower_hex (DiskCache.safe_id cache_id) = true.
Proof.
  destruct (Py.fullmatch_hex_16_128 (stripped_id cache_id)) eqn:E.
  - destruct (safe_id_hex_like _ E) as [-> _].
    apply lower_of_hex. unfold Py.fullmatch_hex_16_128 in E.
    apply andb_prop in E as [E _]. apply andb_prop in E as [E _]. exact E.
  - destruct (safe_id_hashed _ E) as [-> _]. apply hexdigest_shape.
Qed.

Lemma safe_id_length (cache_id : string) :
  (16 <= String.length (DiskCache.safe_id cache_id) <= 128)%nat.
Proof.
  destruct (Py.fullmatch_hex_16_128 (stripped_id cache_id)) eqn:E.
  - apply safe_id_hex_like. exact E.
  - destruct (safe_id_hashed _ E) as [_ ->]. lia.
Qed.

Lemma cache_file_parts (dc : DiskCache.t) (cache_id : string) (size : Z) :
  DiskCache.cache_file dc cache_id size
  = DiskCache.disk_cache_dir dc
    ++ [Py.str_take 2 (DiskCache.safe_id cache_id);
        (DiskCache.safe_id cache_id ++ "_" ++ Py.str_of_int size ++ ".png")%string].
Proof.
  unfold DiskCache.cache_file, Pathlib.joinpath. rewrite <- app_assoc. reflexivity.
Qed.

Lemma cache_file_inj (dc : DiskCache.t) (id1 id2 : string) (size1 size2 : Z) :
  DiskCache.cache_file dc id1 size1 = DiskCache.cache_file dc id2 size2
  <-> DiskCache.safe_id id1 = DiskCache.safe_id id2 /\ size1 = size2.
Proof.
  split.
  - rewrite !cache_file_parts. intros H.
    apply app_inv_head in H. injection H as _ H.
    apply (split_at_separator Py.is_lower_hex) in H;
      [| reflexivity | apply safe_id_lower_hex | apply safe_id_lower_hex].
    destruct H as [H1 H2]. split; [exact H1|].
    apply append_inv_tail in H2. apply str_of_int_inj. exact H2.
  - intros [H ->]. unfold DiskCache.cache_file. rewrite H. reflexivity.
Qed.

(** The monad, unfolded. *)
Ltac exc_unfold :=
  cbv [Exc.bind Exc.ret Exc.raise Exc.try_except Exc.get Exc.modify Exc.zoom
       Os.fallible Os.tick Os.fault Os.exists_ Os.path_exists Os.mkdir
       Os.read_bytes Os.replace].

Lemma disk_cache_path_result (dc : DiskCache.t) (cache_id : string) (size : Z) (e : Env.t) :
  (DiskCache._disk_cache_path dc cache_id size e).1
  = Exc.Ok (DiskCache.cache_file dc cache_id size).
Proof.
  unfold DiskCache._disk_cache_path, DiskCache.cache_file. exc_unfold.
  repeat case_match; simplify_eq/=; reflexivity.
Qed.

(** C6, as stated, fails: two identifiers that differ in letter case are
    distinct keys with one path, and a hex-like identifier keeps its own
    length (16 here) where a hashed one has 40 digits. *)
Lemma cache_file_collision :
  ("ABCDEF0123456789"%string, 200) <> ("abcdef0123456789"%string, 200)
  /\ DiskCache.cache_file (DiskCache.mk ["cache"%string] true) "ABCDEF0123456789" 200
     = DiskCache.cache_file (DiskCache.mk ["cache"%string] true) "abcdef0123456789" 200
  /\ String.length (DiskCache.safe_id "abcdef0123456789") = 16%nat
  /\ String.length (DiskCache.safe_id "abc123") = 40%nat.
Proof.
  split; [discriminate|]. split; [|split]; vm_compute; reflexivity.
Qed.

(** C6 (amended): the path [_disk_cache_path] returns depends on the key
    and the cache root only, whatever the state of the disk; the identifier
    is normalised to lower-case hexadecimal digits: a stripped identifier of
    16 to 128 hexadecimal digits is kept, lower-cased, at its own length,
    any other is replaced by the 40 digits of its SHA-1; the path is
    <cacheRoot>/<first 2 digits>/<normalisedId>_<size>.png; two keys have
    the same path exactly when their normalised identifiers and their sizes
    agree. *)
Theorem disk_cache_path_spec (dc : DiskCache.t) (cache_id : string) (size : Z) :
  (forall e : Env.t,
     (DiskCache._disk_cache_path dc cache_id size e).1
     = Exc.Ok (DiskCache.cache_file dc cache_id size))
  /\ DiskCache.cache_file dc cache_id size
     = DiskCache.disk_cache_dir dc
       ++ [Py.str_take 2 (DiskCache.safe_id cache_id);
           (DiskCache.safe_id cache_id ++ "_" ++ Py.str_of_int size ++ ".png")%string]
  /\ Py.all_chars Py.is_lower_hex (DiskCache.safe_id cache_id) = true
  /\ String.length (Py.str_take 2 (DiskCache.safe_id cache_id)) = 2%nat
  /\ (Py.fullmatch_hex_16_128 (stripped_id cache_id) = true ->
      DiskCache.safe_id cache_id = Py.lower (stripped_id cache_id)
      /\ String.length (DiskCache.safe_id cache_id) = String.length (stripped_id cache_id))
  /\ (Py.fullmatch_hex_16_128 (stripped_id cache_id) = false ->
      DiskCache.safe_id cache_id = Sha1.hexdigest (Py.encode_utf8 (stripped_id cache_id))
      /\ String.length (DiskCache.safe_id cache_id) = 40%nat)
  /\ (forall (cache_id' : string) (size' : Z),
        DiskCache.cache_file dc cache_id size = DiskCache.cache_file dc cache_id' size'
        <-> DiskCache.safe_id cache_id = DiskCache.safe_id cache_id' /\ size = size').
Proof.
  split; [intros e; apply disk_cache_path_result|].
  split; [apply cache_file_parts|].
  split; [apply safe_id_lower_hex|].
  split.
  { pose proof (safe_id_length cache_id) as H.
    destruct (DiskCache.safe_id cache_id) as [|a [|b s]]; cbn in *; lia. }
  split; [intros H; destruct (safe_id_hex_like _ H) as (? & ? & ?); auto|].
  split; [apply safe_id_hashed|].
  intros id' size'. apply cache_file_inj.
Qed.

Lemma disk_cache_path_spec_witness :
  DiskCache.cache_file (DiskCache.mk ["cache"%string] true) "abc123" 200
  = ["cache"; "63"; "6367c48dd193d56ea7b0baad25b19455e529f5ee_200.png"]%string
  /\ String.length (DiskCache.safe_id "abc123") = 40%nat.
Proof.
  destruct (disk_cache_path_spec (DiskCache.mk ["cache"%string] true) "abc123" 200)
    as (_ & Hp & _ & _ & _ & Hh & _).
  split.
  - rewrite Hp. vm_compute. reflexivity.
  - apply Hh. vm_compute. reflexivity.
Defined.

(** ** Reasoning about the monad *)

Lemma bind_inv {S A B : Type} (m : Exc.M S A) (k : A -> Exc.M S B) s r s' :
  Exc.bind m k s = (r, s') ->
  (exists a s1, m s = (Exc.Ok a, s1) /\ k a s1 = (r, s'))
  \/ (exists x, m s = (Exc.Raise x, s') /\ r = Exc.Raise x).
Proof.
  unfold Exc.bind. destruct (m s) as [[a|x] s1]; intros H.
  - left. eauto.
  - right. injection H as <- <-. eauto.
Qed.

Lemma try_except_inv {S A : Type} (m : Exc.M S A) (h : Exc.exn -> Exc.M S A) s r s' :
  Exc.try_except m h s = (r, s') ->
  (exists a, m s = (Exc.Ok a, s') /\ r = Exc.Ok a)
  \/ (exists x s1, m s = (Exc.Raise x, s1) /\ h x s1 = (r, s')).
Proof.
  unfold Exc.try_except. destruct (m s) as [[a|x] s1]; intros H.
  - left. injection H as <- <-. eauto.
  - right. eauto.
Qed.

(** ** File-system calls under interference *)

Section tracking.
Variable f0 : gmap (list string) (list Z).
Variable chunks : list (list Env.fsop).

(** The files of [e] are those of [f0] after some of the groups of
    [chunks] have landed, and the rest of the groups are still to come. *)
Definition tracks (e : Env.t) : Prop :=
  exists n, Env.files (Env.fs e) = Env.seen_files f0 chunks n
            /\ Env.interf e = drop n chunks.

Lemma files_apply_ops (fs : Env.FS) (ops : list Env.fsop) :
  Env.files (Env.apply_ops fs ops) = foldl Env.apply_files (Env.files fs) ops.
Proof.
  unfold Env.apply_ops. revert fs.
  induction ops as [|op ops IH]; intros fs; [reflexivity|].
  cbn [foldl]. rewrite IH. reflexivity.
Qed.

Lemma tracks_tick (e e' : Env.t) r :
  Os.tick e = (r, e') -> tracks e ->
  r = Exc.Ok tt /\ tracks e' /\ Env.faults e' = Env.faults e.
Proof.
  unfold Os.tick. intros H [n [Hf Hi]].
  destruct (Env.interf e) as [|c rest] eqn:E.
  - injection H as <- <-. split; [reflexivity|]. split; [|reflexivity].
    exists n. rewrite E. auto.
  - injection H as <- <-. split; [reflexivity|]. split; [|reflexivity].
    assert (Hc : chunks !! n = Some c).
    { pose proof (lookup_drop chunks n 0) as Hl.
      rewrite <- Hi in Hl. cbn in Hl. rewrite Nat.add_0_r in Hl. auto. }
    exists (S n). cbn. split.
    + rewrite files_apply_ops, Hf. unfold Env.seen_files.
      rewrite (take_S_r _ _ _ Hc), concat_app, foldl_app. cbn.
      rewrite app_nil_r. reflexivity.
    + rewrite (drop_S _ _ _ Hc) in Hi. injection Hi as Hi. exact Hi.
Qed.

Lemma tracks_fallible (x : Exc.exn) (e e' : Env.t) r :
  Os.fallible x e = (r, e') -> tracks e -> tracks e'.
Proof.
  unfold Os.fallible. intros H Ht.
  apply bind_inv in H as [(a & e1 & H1 & H)|(y & H1 & _)].
  - destruct (tracks_tick _ _ _ H1 Ht) as (_ & Ht1 & _).
    revert H. unfold Exc.bind, Os.fault, Exc.raise, Exc.ret.
    destruct Ht1 as [n [Hf Hi]].
    destruct (Env.faults e1) as [|[] l]; intros H; injection H as <- <-;
      exists n; auto.
  - destruct (tracks_tick _ _ _ H1 Ht) as (? & _ & _). discriminate.
Qed.

Lemma tracks_mkdir (d : list string) (e e' : Env.t) r :
  Os.mkdir d e = (r, e') -> tracks e -> tracks e'.
Proof.
  unfold Os.mkdir. intros H Ht.
  apply bind_inv in H as [(a & e1 & H1 & H)|(y & H1 & _)].
  - pose proof (tracks_fallible _ _ _ _ H1 Ht) as [n [Hf Hi]].
    unfold Exc.modify in H. injection H as <- <-. exists n. auto.
  - exact (tracks_fallible _ _ _ _ H1 Ht).
Qed.

Lemma tracks_exists (p : list string) (e e' : Env.t) r :
  Os.exists_ p e = (r, e') -> tracks e -> tracks e'.
Proof.
  unfold Os.exists_. intros H Ht.
  apply bind_inv in H as [(a & e1 & H1 & H)|(y & H1 & _)].
  - destruct (tracks_tick _ _ _ H1 Ht) as (_ & Ht1 & _).
    unfold Exc.bind, Exc.get, Exc.ret in H. injection H as <- <-. exact Ht1.
  - destruct (tracks_tick _ _ _ H1 Ht) as (? & _ & _). discriminate.
Qed.

Lemma tracks_path_exists (p : list string) (e e' : Env.t) r :
  Os.path_exists p e = (r, e') -> tracks e -> tracks e'.
Proof.
  unfold Os.path_exists. intros H Ht.
  apply bind_inv in H as [(a & e1 & H1 & H)|(y & H1 & _)].
  - pose proof (tracks_fallible _ _ _ _ H1 Ht) as Ht1.
    unfold Exc.bind, Exc.get, Exc.ret in H. injection H as <- <-. exact Ht1.
  - exact (tracks_fallible _ _ _ _ H1 Ht).
Qed.

Lemma tracks_read_bytes (p : list string) (e e' : Env.t) r :
  Os.read_bytes p e = (r, e') -> tracks e ->
  tracks e' /\ forall data, r = Exc.Ok data -> Env.files (Env.fs e') !! p = Some data.
Proof.
  unfold Os.read_bytes. intros H Ht.
  apply bind_inv in H as [(a & e1 & H1 & H)|(y & H1 & ->)].
  - pose proof (tracks_fallible _ _ _ _ H1 Ht) as Ht1.
    unfold Exc.bind, Exc.get, Exc.ret, Exc.raise in H.
    destruct (Env.files (Env.fs e1) !! p) as [d|] eqn:E; injection H as <- <-.
    + split; [exact Ht1|]. intros data [= <-]. exact E.
    + split; [exact Ht1|]. discriminate.
  - split; [exact (tracks_fallible _ _ _ _ H1 Ht)|]. discriminate.
Qed.

Lemma tracks_disk_cache_path (dc : DiskCache.t) cache_id size (e e' : Env.t) r :
  DiskCache._disk_cache_path dc cache_id size e = (r, e') -> tracks e -> tracks e'.
Proof.
  unfold DiskCache._disk_cache_path. cbv zeta. intros H Ht.
  apply bind_inv in H as [(ex & e1 & H1 & H)|(y & H1 & _)];
    pose proof (tracks_exists _ _ _ _ H1 Ht) as Ht1; [|exact Ht1].
  apply bind_inv in H as [(a & e2 & H2 & H)|(y & H2 & _)].
  - unfold Exc.ret in H. injection H as <- <-.
    destruct ex; cbn [negb] in H2.
    + unfold Exc.ret in H2. injection H2 as <- <-. exact Ht1.
    + apply try_except_inv in H2 as [(b & H2 & _)|(x & e3 & H2 & H3)].
      * exact (tracks_mkdir _ _ _ _ H2 Ht1).
      * unfold Exc.ret in H3. injection H3 as <- <-.
        exact (tracks_mkdir _ _ _ _ H2 Ht1).
  - destruct ex; cbn [negb] in H2.
    + unfold Exc.ret in H2. discriminate.
    + apply try_except_inv in H2 as [(b & H2 & ?)|(x & e3 & H2 & H3)];
        [discriminate|]. unfold Exc.ret in H3. discriminate.
Qed.

(** A read that returns bytes returns the whole, non-empty content the
    file had at one of the moments the reader looked at the disk. *)
Lemma disk_cache_read_observes (dc : DiskCache.t) cache_id size (e : Env.t) :
  tracks e ->
  exists v, (DiskCache.disk_cache_read dc cache_id size e).1 = Exc.Ok v
    /\ forall data, v = Some data ->
         data <> [] /\ DiskCache.disk_cache_enabled dc = true
         /\ exists n, Env.seen_files f0 chunks n
                        !! DiskCache.cache_file dc cache_id size = Some data.
Proof.
  intros Ht. unfold DiskCache.disk_cache_read.
  destruct (DiskCache.disk_cache_enabled dc); cbn [negb];
    [|exists None; split; [reflexivity|discriminate]].
  destruct (Exc.try_except _ _ e) as [r e'] eqn:H. cbn [fst].
  apply try_except_inv in H as [(v & H & ->)|(x & e1 & _ & H)];
    [|unfold Exc.ret in H; injection H as <- <-; exists None;
      split; [reflexivity|discriminate]].
  exists v. split; [reflexivity|]. intros data ->.
  apply bind_inv in H as [(p & e1 & H1 & H)|(y & _ & ?)]; [|discriminate].
  pose proof (tracks_disk_cache_path _ _ _ _ _ _ H1 Ht) as Ht1.
  pose proof (disk_cache_path_result dc cache_id size e) as Hp.
  rewrite H1 in Hp. cbn in Hp. injection Hp as ->.
  apply bind_inv in H as [(ex & e2 & H2 & H)|(y & _ & ?)]; [|discriminate].
  pose proof (tracks_path_exists _ _ _ _ H2 Ht1) as Ht2.
  destruct ex; cbn [negb] in H; [|unfold Exc.ret in H; discriminate].
  apply bind_inv in H as [(d & e3 & H3 & H)|(y & _ & ?)]; [|discriminate].
  destruct (tracks_read_bytes _ _ _ _ H3 Ht2) as [[n [Hf _]] Hd].
  specialize (Hd d eq_refl).
  destruct d as [|b d]; unfold Exc.ret in H; [discriminate|].
  injection H as <- _. split; [discriminate|]. split; [reflexivity|].
  exists n. rewrite <- Hf. exact Hd.
Qed.

End tracking.

Lemma tracks_start (e : Env.t) : tracks (Env.files (Env.fs e)) (Env.interf e) e.
Proof. exists 0%nat. split; reflexivity. Qed.

(** ** [disk_cache_read] on a quiet disk *)

Lemma seen_files_nil (f0 : gmap (list string) (list Z)) (n : nat) :
  Env.seen_files f0 [] n = f0.
Proof. unfold Env.seen_files. rewrite take_nil. reflexivity. Qed.

Lemma disk_cache_read_raising (dc : DiskCache.t) cache_id size (e : Env.t) (l : list bool) :
  Env.interf e = [] ->
  Os.present (Pathlib.joinpath (DiskCache.disk_cache_dir dc)
                (Py.str_take 2 (DiskCache.safe_id cache_id))) (Env.fs e) = true ->
  Env.faults e = true :: l \/ Env.faults e = false :: true :: l ->
  (DiskCache.disk_cache_read dc cache_id size e).1 = Exc.Ok None.
Proof.
  intros Hi Hp Hf. unfold DiskCache.disk_cache_read, DiskCache._disk_cache_path.
  destruct (DiskCache.disk_cache_enabled dc); [|reflexivity].
  cbv zeta.
  remember (Pathlib.joinpath (DiskCache.disk_cache_dir dc)
              (Py.str_take 2 (DiskCache.safe_id cache_id))) as d eqn:Ed.
  remember (Pathlib.joinpath d _) as p eqn:Ep. clear Ed Ep.
  destruct e as [fs db rp faults interf oplog]. cbn in Hi, Hp, Hf. subst interf.
  cbv [negb Exc.bind Exc.ret Exc.raise Exc.try_except Exc.get Exc.modify
       Os.fallible Os.tick Os.fault Os.exists_ Os.path_exists Os.mkdir Os.read_bytes].
  cbn [Env.interf Env.fs Env.faults fst]. rewrite Hp.
  destruct Hf as [-> | ->]; cbn [Env.set_faults Env.interf Env.fs Env.faults fst];
    [reflexivity|].
  destruct (Os.present p fs); reflexivity.
Qed.

(** C10: [disk_cache_read] never raises; it returns absent when the derived
    file does not exist, when the file exists and is empty, and when
    [p.exists()] or [p.read_bytes()] raises; bytes it returns are the
    non-empty content of the file. *)
Theorem disk_cache_read_absent (dc : DiskCache.t) (cache_id : string) (size : Z)
    (e : Env.t) :
  Env.interf e = [] ->
  exists v, (DiskCache.disk_cache_read dc cache_id size e).1 = Exc.Ok v
    /\ (Env.files (Env.fs e) !! DiskCache.cache_file dc cache_id size = None -> v = None)
    /\ (Env.files (Env.fs e) !! DiskCache.cache_file dc cache_id size = Some [] -> v = None)
    /\ (forall l,
          Os.present (Pathlib.joinpath (DiskCache.disk_cache_dir dc)
                        (Py.str_take 2 (DiskCache.safe_id cache_id))) (Env.fs e) = true ->
          Env.faults e = true :: l \/ Env.faults e = false :: true :: l ->
          v = None)
    /\ (forall data, v = Some data ->
          Env.files (Env.fs e) !! DiskCache.cache_file dc cache_id size = Some data
          /\ data <> []).
Proof.
  intros Hi.
  destruct (disk_cache_read_observes _ _ dc cache_id size e (tracks_start e))
    as (v & Hv & Hobs).
  assert (Hsome : forall data, v = Some data ->
            Env.files (Env.fs e) !! DiskCache.cache_file dc cache_id size = Some data
            /\ data <> []).
  { intros data Hd. destruct (Hobs data Hd) as (Hne & _ & n & Hn).
    rewrite Hi, seen_files_nil in Hn. auto. }
  exists v. split; [exact Hv|]. repeat split.
  - intros Hnone. destruct v as [data|]; [|reflexivity].
    destruct (Hsome data eq_refl) as [H _]. congruence.
  - intros Hempty. destruct v as [data|]; [|reflexivity].
    destruct (Hsome data eq_refl) as [H Hne]. congruence.
  - intros l Hp Hf.
    pose proof (disk_cache_read_raising dc cache_id size e l Hi Hp Hf) as H.
    congruence.
  - apply Hsome; assumption.
  - apply Hsome; assumption.
Qed.

(** ** The staging file of a write *)

Lemma split_last_dot_none (s : string) :
  Py.all_chars (fun c => negb (Ascii.eqb c ".")) s = true ->
  Pathlib.split_last_dot s = None.
Proof.
  induction s as [|c s IH]; [reflexivity|].
  cbn [Py.all_chars Pathlib.split_last_dot]. intros H.
  apply andb_prop in H as [Hc Hs]. rewrite (IH Hs).
  destruct (Ascii.eqb c "."); [discriminate | reflexivity].
Qed.

Lemma split_last_dot_ext (a b : string) :
  Py.all_chars (fun c => negb (Ascii.eqb c ".")) b = true ->
  Pathlib.split_last_dot (a ++ String "." b) = Some (a, b).
Proof.
  intros Hb. induction a as [|c a IH].
  - rewrite append_nil. cbn [Pathlib.split_last_dot].
    rewrite (split_last_dot_none b Hb). reflexivity.
  - rewrite append_cons. cbn [Pathlib.split_last_dot]. rewrite IH. reflexivity.
Qed.

Lemma name_joinpath (p : list string) (n : string) :
  Pathlib.name (Pathlib.joinpath p n) = n.
Proof. unfold Pathlib.name, Pathlib.joinpath. apply last_last. Qed.

Lemma parent_joinpath (p : list string) (n : string) :
  Pathlib.parent (Pathlib.joinpath p n) = p.
Proof. unfold Pathlib.parent, Pathlib.joinpath. apply removelast_last. Qed.

Lemma safe_id_nonempty (cache_id : string) :
  exists c s, DiskCache.safe_id cache_id = String c s.
Proof.
  pose proof (safe_id_length cache_id) as H.
  destruct (DiskCache.safe_id cache_id) as [|c s]; cbn in H; [lia | eauto].
Qed.

Lemma with_suffix_tmp (dc : DiskCache.t) (cache_id : string) (size : Z) :
  Pathlib.with_suffix (DiskCache.cache_file dc cache_id size)
    (Pathlib.suffix (DiskCache.cache_file dc cache_id size) ++ ".tmp")%string
  = Some (DiskCache.tmp_file dc cache_id size).
Proof.
  unfold Pathlib.with_suffix, Pathlib.suffix, DiskCache.cache_file, DiskCache.tmp_file.
  cbv zeta. rewrite name_joinpath, parent_joinpath.
  destruct (safe_id_nonempty cache_id) as (c & s & Hs).
  set (stem := (DiskCache.safe_id cache_id ++ "_" ++ Py.str_of_int size)%string).
  assert (Hname : (DiskCache.safe_id cache_id ++ "_" ++ Py.str_of_int size ++ ".png"
                   = stem ++ String "." "png")%string).
  { unfold stem. rewrite !append_assoc. reflexivity. }
  rewrite Hname.
  assert (Hstem : exists c' s', stem = String c' s').
  { unfold stem. rewrite Hs, append_cons. eauto. }
  destruct Hstem as (c' & s' & Hstem).
  rewrite (split_last_dot_ext stem "png" eq_refl).
  rewrite Hstem at 1. rewrite append_cons.
  rewrite <- append_cons, <- Hstem.
  rewrite (split_last_dot_ext stem "png" eq_refl).
  rewrite Hstem at 1 2. rewrite <- Hstem.
  rewrite (append_assoc stem). reflexivity.
Qed.

(** The staging file of a key is no key's cache file. *)
Lemma tmp_file_not_cache_file (dc : DiskCache.t) id size id' size' :
  DiskCache.tmp_file dc id size <> DiskCache.cache_file dc id' size'.
Proof.
  unfold DiskCache.tmp_file, DiskCache.cache_file, Pathlib.joinpath. cbv zeta.
  intros H. apply app_inj_tail in H as [_ H].
  set (x := (DiskCache.safe_id id ++ "_" ++ Py.str_of_int size ++ ".png")%string) in H.
  assert (Hy : (DiskCache.safe_id id' ++ "_" ++ Py.str_of_int size' ++ ".png"
                = (DiskCache.safe_id id' ++ "_" ++ Py.str_of_int size') ++ ".png")%string).
  { rewrite !append_assoc. reflexivity. }
  rewrite Hy in H. clear Hy.
  set (y := (DiskCache.safe_id id' ++ "_" ++ Py.str_of_int size')%string) in H.
  assert (Hl : String.length x = String.length y).
  { apply (f_equal String.length) in H. rewrite !length_append in H.
    cbn [String.length] in H. lia. }
  destruct (append_inj_same_length _ _ _ _ Hl H) as [_ Habs]. discriminate.
Qed.

Lemma tmp_file_inj (dc : DiskCache.t) id size id' size' :
  DiskCache.tmp_file dc id size = DiskCache.tmp_file dc id' size'
  <-> DiskCache.cache_file dc id size = DiskCache.cache_file dc id' size'.
Proof.
  unfold DiskCache.tmp_file, DiskCache.cache_file, Pathlib.joinpath. cbv zeta.
  split; intros H; apply app_inj_tail in H as [H1 H2].
  - apply append_inv_tail in H2. rewrite H1, H2. reflexivity.
  - rewrite H1, H2. reflexivity.
Qed.

(** ** File-system calls on a quiet disk *)

Lemma seq_run_refl (e : Env.t) : Env.interf e = [] -> Env.seq_run e e [].
Proof.
  intros H. unfold Env.seq_run. rewrite app_nil_r. repeat split; auto.
Qed.

Lemma seq_run_trans (e1 e2 e3 : Env.t) (a b : list Env.fsop) :
  Env.seq_run e1 e2 a -> Env.seq_run e2 e3 b -> Env.seq_run e1 e3 (a ++ b).
Proof.
  intros (_ & Hl1 & Hf1 & Hd1 & Hr1) (Hi & Hl2 & Hf2 & Hd2 & Hr2).
  unfold Env.seq_run. rewrite Hl2, Hl1, Hf2, Hf1, Hd2, Hd1, Hr2, Hr1.
  unfold Env.apply_ops. rewrite foldl_app, app_assoc. auto.
Qed.

Lemma seq_run_interf (e e' : Env.t) ops : Env.seq_run e e' ops -> Env.interf e' = [].
Proof. intros H. apply H. Qed.

Lemma seq_fallible (x : Exc.exn) (e e' : Env.t) r :
  Env.interf e = [] -> Os.fallible x e = (r, e') -> Env.seq_run e e' [].
Proof.
  intros Hi. unfold Os.fallible, Os.tick, Os.fault, Exc.bind, Exc.ret, Exc.raise.
  rewrite Hi.
  destruct (Env.faults e) as [|[] l] eqn:E; intros H; injection H as <- <-;
    unfold Env.seq_run; cbn; rewrite app_nil_r; auto.
Qed.

Lemma seq_log_op (op : Env.fsop) (e : Env.t) :
  Env.interf e = [] -> Env.seq_run e (Env.log_op op e) [op].
Proof. intros Hi. unfold Env.seq_run. cbn. auto. Qed.

Lemma seq_mkdir (d : list string) (e e' : Env.t) r :
  Env.interf e = [] -> Os.mkdir d e = (r, e') ->
  (r = Exc.Ok tt /\ Env.seq_run e e' [Env.OpMkdir d])
  \/ (Exc.raises r = true /\ Env.seq_run e e' []).
Proof.
  intros Hi H. unfold Os.mkdir in H.
  apply bind_inv in H as [(a & e1 & H1 & H)|(y & H1 & ->)].
  - left. pose proof (seq_fallible _ _ _ _ Hi H1) as Hs.
    unfold Exc.modify in H. injection H as <- <-. split; [reflexivity|].
    apply (seq_run_trans _ _ _ [] _ Hs). apply seq_log_op. apply Hs.
  - right. split; [reflexivity|]. exact (seq_fallible _ _ _ _ Hi H1).
Qed.

Lemma seq_exists (p : list string) (e e' : Env.t) r :
  Env.interf e = [] -> Os.exists_ p e = (r, e') ->
  e' = e /\ r = Exc.Ok (Os.present p (Env.fs e)).
Proof.
  intros Hi. unfold Os.exists_, Os.tick, Exc.bind, Exc.get, Exc.ret. rewrite Hi.
  intros H. injection H as <- <-. auto.
Qed.

Lemma seq_disk_cache_path (dc : DiskCache.t) cache_id size (e e' : Env.t) r :
  Env.interf e = [] ->
  DiskCache._disk_cache_path dc cache_id size e = (r, e') ->
  r = Exc.Ok (DiskCache.cache_file dc cache_id size)
  /\ exists mk : bool,
       Env.seq_run e e'
         (if mk then [Env.OpMkdir (DiskCache.shard_dir dc cache_id)] else []).
Proof.
  intros Hi H.
  pose proof (disk_cache_path_result dc cache_id size e) as Hp.
  rewrite H in Hp. cbn in Hp. split; [exact Hp|]. clear Hp.
  unfold DiskCache._disk_cache_path in H. cbv zeta in H.
  fold (DiskCache.shard_dir dc cache_id) in H.
  apply bind_inv in H as [(ex & e1 & H1 & H)|(y & H1 & _)];
    destruct (seq_exists _ _ _ _ Hi H1) as [-> Hr]; [|discriminate].
  assert (Hstep : forall r2 e2,
            (if negb ex
             then Exc.try_except (Os.mkdir (DiskCache.shard_dir dc cache_id))
                    (fun _ => Exc.ret tt)
             else Exc.ret tt) e = (r2, e2) ->
            exists mk : bool,
              Env.seq_run e e2
                (if mk then [Env.OpMkdir (DiskCache.shard_dir dc cache_id)] else [])).
  { intros r2 e2 H2. destruct ex; cbn [negb] in H2.
    - unfold Exc.ret in H2. injection H2 as <- <-. exists false. apply seq_run_refl, Hi.
    - apply try_except_inv in H2 as [(b & H2 & _)|(x & e3 & H2 & H3)].
      + destruct (seq_mkdir _ _ _ _ Hi H2) as [[_ Hs]|[_ Hs]];
          [exists true | exists false]; exact Hs.
      + unfold Exc.ret in H3. injection H3 as <- <-.
        destruct (seq_mkdir _ _ _ _ Hi H2) as [[? _]|[_ Hs]]; [discriminate|].
        exists false. exact Hs. }
  apply bind_inv in H as [(a & e2 & H2 & H)|(y & H2 & _)].
  - unfold Exc.ret in H. injection H as <- <-. exact (Hstep _ _ H2).
  - exact (Hstep _ _ H2).
Qed.

Lemma seq_write_all (p : list string) (data : Py.bytes) (e e' : Env.t) r :
  Env.interf e = [] -> Os.write_all p data e = (r, e') ->
  exists written,
    written `prefix_of` data
    /\ Env.seq_run e e' (Env.OpAppend p <$> written)
    /\ (r = Exc.Ok tt -> written = data)
    /\ (Exc.raises r = false -> r = Exc.Ok tt).
Proof.
  revert e. induction data as [|b data IH]; intros e Hi H.
  - cbn in H. unfold Exc.ret in H. injection H as <- <-.
    exists []. split; [reflexivity|]. split; [apply seq_run_refl, Hi|]. auto.
  - cbn [Os.write_all] in H.
    apply bind_inv in H as [(a & e1 & H1 & H)|(y & H1 & ->)].
    + pose proof (seq_fallible _ _ _ _ Hi H1) as Hs1.
      apply bind_inv in H as [(a2 & e2 & H2 & H)|(y & H2 & _)];
        unfold Exc.modify in H2; [|discriminate]. injection H2 as _ <-.
      pose proof (seq_log_op (Env.OpAppend p b) e1 (seq_run_interf _ _ _ Hs1)) as Hs2.
      destruct (IH _ (seq_run_interf _ _ _ Hs2) H) as (w & Hw & Hs3 & Hok & Hr).
      exists (b :: w). split; [apply prefix_cons, Hw|]. split.
      * apply (seq_run_trans _ _ _ [] _ Hs1).
        apply (seq_run_trans _ _ _ [_] _ Hs2). exact Hs3.
      * split; [intros E; rewrite (Hok E); reflexivity | exact Hr].
    + exists []. split; [apply prefix_nil|]. split;
        [exact (seq_fallible _ _ _ _ Hi H1)|]. split; discriminate.
Qed.

Lemma seq_write_bytes (p : list string) (data : Py.bytes) (e e' : Env.t) r :
  Env.interf e = [] -> Os.write_bytes p data e = (r, e') ->
  (Exc.raises r = true /\ Env.seq_run e e' [])
  \/ exists written,
       written `prefix_of` data
       /\ Env.seq_run e e' (Env.OpCreate p :: (Env.OpAppend p <$> written))
       /\ (r = Exc.Ok tt -> written = data)
       /\ (Exc.raises r = false -> r = Exc.Ok tt).
Proof.
  intros Hi H. unfold Os.write_bytes in H.
  apply bind_inv in H as [(a & e1 & H1 & H)|(y & H1 & ->)].
  - pose proof (seq_fallible _ _ _ _ Hi H1) as Hs1.
    unfold Exc.bind at 1, Exc.get in H.
    destruct (bool_decide _).
    + right.
      apply bind_inv in H as [(a2 & e2 & H2 & H)|(y & H2 & _)];
        unfold Exc.modify in H2; [|discriminate]. injection H2 as _ <-.
      pose proof (seq_log_op (Env.OpCreate p) e1 (seq_run_interf _ _ _ Hs1)) as Hs2.
      destruct (seq_write_all _ _ _ _ _ (seq_run_interf _ _ _ Hs2) H)
        as (w & Hw & Hs3 & Hok & Hr).
      exists w. split; [exact Hw|]. split; [|auto].
      apply (seq_run_trans _ _ _ [] _ Hs1).
      apply (seq_run_trans _ _ _ [_] _ Hs2). exact Hs3.
    + left. unfold Exc.raise in H. injection H as <- <-. split; [reflexivity|exact Hs1].
  - left. split; [reflexivity|]. exact (seq_fallible _ _ _ _ Hi H1).
Qed.

Lemma seq_replace (src dst : list string) (e e' : Env.t) r :
  Env.interf e = [] -> Os.replace src dst e = (r, e') ->
  (Exc.raises r = true /\ Env.seq_run e e' [])
  \/ (r = Exc.Ok tt /\ Env.seq_run e e' [Env.OpReplace src dst]).
Proof.
  intros Hi H. unfold Os.replace in H.
  apply bind_inv in H as [(a & e1 & H1 & H)|(y & H1 & ->)].
  - pose proof (seq_fallible _ _ _ _ Hi H1) as Hs1.
    unfold Exc.bind at 1, Exc.get in H.
    destruct (bool_decide _).
    + right. unfold Exc.modify in H. injection H as <- <-. split; [reflexivity|].
      apply (seq_run_trans _ _ _ [] _ Hs1). apply seq_log_op. apply Hs1.
    + left. unfold Exc.raise in H. injection H as <- <-. split; [reflexivity|exact Hs1].
  - left. split; [reflexivity|]. exact (seq_fallible _ _ _ _ Hi H1).
Qed.

(** ** What a write does to the files *)

Lemma prefix_cons_cases {A : Type} (pre : list A) (x : A) (l : list A) :
  pre `prefix_of` x :: l ->
  pre = [] \/ exists pre', pre = x :: pre' /\ pre' `prefix_of` l.
Proof.
  destruct pre as [|y pre]; [auto|]. intros H. right.
  pose proof (prefix_cons_inv_1 _ _ _ _ H) as ->.
  pose proof (prefix_cons_inv_2 _ _ _ _ H). eauto.
Qed.

Section staging.
Variables (f : gmap (list string) (list Z)) (tmp p : list string).
Hypothesis tmp_ne : tmp <> p.

Lemma appends_prefix_files (w acc : list Z) (rep : bool) (pre : list Env.fsop) :
  pre `prefix_of` (Env.OpAppend tmp <$> w) ++ (if rep then [Env.OpReplace tmp p] else []) ->
  foldl Env.apply_files (<[ tmp := acc ]> f) pre !! p = f !! p
  \/ (rep = true
      /\ pre = (Env.OpAppend tmp <$> w) ++ [Env.OpReplace tmp p]
      /\ foldl Env.apply_files (<[ tmp := acc ]> f) pre !! p = Some (acc ++ w)).
Proof.
  revert acc pre. induction w as [|b w IH]; intros acc pre Hpre.
  - cbn in Hpre. destruct rep.
    + apply prefix_cons_cases in Hpre as [-> | (pre' & -> & Hpre')].
      * left. cbn. apply lookup_insert_ne. exact tmp_ne.
      * apply prefix_nil_inv in Hpre' as ->. right. split; [reflexivity|].
        split; [reflexivity|]. cbn. rewrite lookup_insert_eq.
        rewrite app_nil_r. apply lookup_insert_eq.
    + apply prefix_nil_inv in Hpre as ->. left. cbn.
      apply lookup_insert_ne. exact tmp_ne.
  - cbn [fmap list_fmap app] in Hpre.
    apply prefix_cons_cases in Hpre as [-> | (pre' & -> & Hpre')].
    + left. cbn. apply lookup_insert_ne. exact tmp_ne.
    + cbn [foldl Env.apply_files]. rewrite lookup_insert_eq, insert_insert_eq.
      destruct (IH (acc ++ [b]) pre' Hpre') as [H | (Hr & Hp & H)].
      * left. exact H.
      * right. split; [exact Hr|]. split; [rewrite Hp; reflexivity|].
        rewrite H, <- app_assoc. reflexivity.
Qed.

Lemma write_ops_prefix_files (d : list string) (mk : bool) (w : list Z) (rep : bool)
    (pre : list Env.fsop) :
  pre `prefix_of` DiskCache.write_ops mk d tmp p w rep ->
  foldl Env.apply_files f pre !! p = f !! p
  \/ (rep = true /\ pre = DiskCache.write_ops mk d tmp p w rep
      /\ foldl Env.apply_files f pre !! p = Some w).
Proof.
  unfold DiskCache.write_ops. intros Hpre.
  assert (Hbody : forall pre',
    pre' `prefix_of` Env.OpCreate tmp :: (Env.OpAppend tmp <$> w)
                      ++ (if rep then [Env.OpReplace tmp p] else []) ->
    foldl Env.apply_files f pre' !! p = f !! p
    \/ (rep = true
        /\ pre' = Env.OpCreate tmp :: (Env.OpAppend tmp <$> w) ++ [Env.OpReplace tmp p]
        /\ foldl Env.apply_files f pre' !! p = Some w)).
  { intros pre' H. apply prefix_cons_cases in H as [-> | (pre'' & -> & H)].
    - left. reflexivity.
    - cbn [foldl Env.apply_files].
      destruct (appends_prefix_files w [] rep pre'' H) as [E | (Hr & Hp & E)].
      + left. exact E.
      + right. split; [exact Hr|]. split; [rewrite Hp; reflexivity | exact E]. }
  destruct mk; cbn [app] in Hpre.
  - apply prefix_cons_cases in Hpre as [-> | (pre' & -> & Hpre')].
    + left. reflexivity.
    + cbn [foldl Env.apply_files].
      destruct (Hbody pre' Hpre') as [E | (Hr & Hp & E)]; [left; exact E|].
      right. split; [exact Hr|]. rewrite Hr. split; [rewrite Hp; reflexivity | exact E].
  - destruct (Hbody pre Hpre) as [E | (Hr & Hp & E)]; [left; exact E|].
    right. split; [exact Hr|]. rewrite Hr. split; [rewrite Hp; reflexivity | exact E].
Qed.


End staging.

Lemma try_except_pass {S : Type} (m : Exc.M S unit) (s : S) :
  Exc.try_except m (fun _ => Exc.ret tt) s = (Exc.Ok tt, (m s).2).
Proof.
  unfold Exc.try_except, Exc.ret. destruct (m s) as [[[]|x] s']; reflexivity.
Qed.

(** The operations of one [disk_cache_write] on a quiet disk. *)
Lemma disk_cache_write_run (dc : DiskCache.t) cache_id size (png : Py.bytes) (e : Env.t) :
  Env.interf e = [] ->
  exists e' ops,
    DiskCache.disk_cache_write dc cache_id size png e = (Exc.Ok tt, e')
    /\ Env.seq_run e e' ops
    /\ (ops = [] \/ ops = [Env.OpMkdir (DiskCache.shard_dir dc cache_id)]
        \/ exists (mk : bool) (w : list Z) (rep : bool),
             ops = DiskCache.write_ops mk (DiskCache.shard_dir dc cache_id)
                     (DiskCache.tmp_file dc cache_id size)
                     (DiskCache.cache_file dc cache_id size) w rep
             /\ w `prefix_of` png /\ (rep = true -> w = png)).
Proof.
  intros Hi. unfold DiskCache.disk_cache_write.
  destruct (DiskCache.disk_cache_enabled dc); cbn [negb].
  2:{ exists e, []. split; [reflexivity|]. split; [apply seq_run_refl, Hi | auto]. }
  rewrite try_except_pass.
  match goal with |- context [(?m e).2] => destruct (m e) as [r e'] eqn:H end.
  exists e'. cbn [snd].
  apply bind_inv in H as [(p & e1 & H1 & H)|(y & H1 & _)];
    destruct (seq_disk_cache_path _ _ _ _ _ _ Hi H1) as [Hp [mk Hs1]];
    [|discriminate].
  injection Hp as ->. rewrite with_suffix_tmp in H.
  pose proof (seq_run_interf _ _ _ Hs1) as Hi1.
  assert (Hmk : forall mk' : bool,
            (if mk' then [Env.OpMkdir (DiskCache.shard_dir dc cache_id)] else [])
            = [] \/ (if mk' then [Env.OpMkdir (DiskCache.shard_dir dc cache_id)] else [])
                    = [Env.OpMkdir (DiskCache.shard_dir dc cache_id)])
    by (intros []; auto).
  apply bind_inv in H as [(a & e2 & H2 & H)|(y & H2 & _)].
  - destruct (seq_write_bytes _ _ _ _ _ Hi1 H2) as [[Hr _]|(w & Hw & Hs2 & Hok & _)];
      [discriminate|].
    specialize (Hok ltac:(destruct a; reflexivity)). subst w.
    pose proof (seq_run_interf _ _ _ Hs2) as Hi2.
    destruct (seq_replace _ _ _ _ _ Hi2 H) as [[_ Hs3]|[_ Hs3]].
    + eexists. split; [reflexivity|]. split.
      * eapply seq_run_trans; [exact Hs1|].
        eapply seq_run_trans; [exact Hs2 | exact Hs3].
      * right. right. exists mk, png, false. rewrite app_nil_r.
        unfold DiskCache.write_ops. rewrite app_nil_r. auto.
    + eexists. split; [reflexivity|]. split.
      * eapply seq_run_trans; [exact Hs1|].
        eapply seq_run_trans; [exact Hs2 | exact Hs3].
      * right. right. exists mk, png, true. split; [reflexivity | auto].
  - destruct (seq_write_bytes _ _ _ _ _ Hi1 H2) as [[_ Hs2]|(w & Hw & Hs2 & _ & _)].
    + eexists. split; [reflexivity|]. split.
      * eapply seq_run_trans; [exact Hs1 | exact Hs2].
      * rewrite app_nil_r. destruct (Hmk mk) as [-> | ->]; auto.
    + eexists. split; [reflexivity|]. split.
      * eapply seq_run_trans; [exact Hs1 | exact Hs2].
      * right. right. exists mk, w, false.
        unfold DiskCache.write_ops. rewrite app_nil_r. split; [reflexivity|].
        split; [exact Hw | discriminate].
Qed.

(** ** A reader that meets no error of its own *)

Section quiet_reader.
Variable f0 : gmap (list string) (list Z).
Variable chunks : list (list Env.fsop).

Lemma quiet_fallible (x : Exc.exn) (e e' : Env.t) r :
  Os.fallible x e = (r, e') -> tracks f0 chunks e -> Env.faults e = [] ->
  r = Exc.Ok tt /\ tracks f0 chunks e' /\ Env.faults e' = [].
Proof.
  unfold Os.fallible. intros H Ht Hf.
  apply bind_inv in H as [(a & e1 & H1 & H)|(y & H1 & _)];
    destruct (tracks_tick _ _ _ _ _ H1 Ht) as (Hr & Ht1 & Hf1); [|discriminate].
  rewrite Hf in Hf1. revert H.
  unfold Exc.bind, Os.fault, Exc.ret. rewrite Hf1.
  intros H. injection H as <- <-. auto.
Qed.

Lemma quiet_disk_cache_path (dc : DiskCache.t) cache_id size (e e' : Env.t) r :
  DiskCache._disk_cache_path dc cache_id size e = (r, e') ->
  tracks f0 chunks e -> Env.faults e = [] ->
  tracks f0 chunks e' /\ Env.faults e' = [].
Proof.
  unfold DiskCache._disk_cache_path. cbv zeta. intros H Ht Hf.
  assert (Hex : forall q e1 e2 r1, Os.exists_ q e1 = (r1, e2) ->
            tracks f0 chunks e1 -> Env.faults e1 = [] ->
            tracks f0 chunks e2 /\ Env.faults e2 = [] /\ exists b, r1 = Exc.Ok b).
  { intros q e1 e2 r1 H1 Ht1 Hf1. unfold Os.exists_ in H1.
    apply bind_inv in H1 as [(a & e3 & H3 & H1)|(y & H3 & _)];
      destruct (tracks_tick _ _ _ _ _ H3 Ht1) as (Hr & Ht3 & Hf3); [|discriminate].
    unfold Exc.bind, Exc.get, Exc.ret in H1. injection H1 as <- <-.
    rewrite Hf3. eauto. }
  assert (Hmk : forall q e1 e2 r1, Os.mkdir q e1 = (r1, e2) ->
            tracks f0 chunks e1 -> Env.faults e1 = [] ->
            tracks f0 chunks e2 /\ Env.faults e2 = [] /\ r1 = Exc.Ok tt).
  { intros q e1 e2 r1 H1 Ht1 Hf1. unfold Os.mkdir in H1.
    apply bind_inv in H1 as [(a & e3 & H3 & H1)|(y & H3 & _)];
      destruct (quiet_fallible _ _ _ _ H3 Ht1 Hf1) as (Hr & Ht3 & Hf3); [|discriminate].
    unfold Exc.modify in H1. injection H1 as <- <-.
    destruct Ht3 as [n [Hn1 Hn2]]. split; [exists n; auto | auto]. }
  apply bind_inv in H as [(ex & e1 & H1 & H)|(y & H1 & _)];
    destruct (Hex _ _ _ _ H1 Ht Hf) as (Ht1 & Hf1 & b & ?); [|discriminate].
  assert (Hstep : forall r2 e2,
            (if negb ex
             then Exc.try_except
                    (Os.mkdir (Pathlib.joinpath (DiskCache.disk_cache_dir dc)
                                 (Py.str_take 2 (DiskCache.safe_id cache_id))))
                    (fun _ => Exc.ret tt)
             else Exc.ret tt) e1 = (r2, e2) ->
            tracks f0 chunks e2 /\ Env.faults e2 = []).
  { intros r2 e2 H2. destruct ex; cbn [negb] in H2.
    - unfold Exc.ret in H2. injection H2 as <- <-. auto.
    - apply try_except_inv in H2 as [(c & H2 & _)|(x & e3 & H2 & H3)].
      + destruct (Hmk _ _ _ _ H2 Ht1 Hf1) as (? & ? & _). auto.
      + destruct (Hmk _ _ _ _ H2 Ht1 Hf1) as (_ & _ & ?). discriminate. }
  apply bind_inv in H as [(a & e2 & H2 & H)|(y & H2 & _)].
  - unfold Exc.ret in H. injection H as <- <-. exact (Hstep _ _ H2).
  - exact (Hstep _ _ H2).
Qed.

(** Without errors of its own, the reader returns what is visible of the
    file at one of the moments it looked at the disk. *)
Lemma disk_cache_read_quiet (dc : DiskCache.t) cache_id size (e : Env.t) :
  tracks f0 chunks e -> Env.faults e = [] -> DiskCache.disk_cache_enabled dc = true ->
  exists n,
    (DiskCache.disk_cache_read dc cache_id size e).1
    = Exc.Ok (Env.visible (Env.seen_files f0 chunks n
                             !! DiskCache.cache_file dc cache_id size)).
Proof.
  intros Ht Hf Hen. unfold DiskCache.disk_cache_read. rewrite Hen. cbn [negb].
  destruct (Exc.try_except _ _ e) as [r e'] eqn:H. cbn [fst].
  apply try_except_inv in H as [(v & H & ->)|(x & e1 & H & H')].
  - apply bind_inv in H as [(p & e1 & H1 & H)|(y & _ & ?)]; [|discriminate].
    destruct (quiet_disk_cache_path _ _ _ _ _ _ H1 Ht Hf) as [Ht1 Hf1].
    pose proof (disk_cache_path_result dc cache_id size e) as Hp.
    rewrite H1 in Hp. cbn in Hp. injection Hp as ->.
    unfold Os.path_exists in H.
    apply bind_inv in H as [(ex & e2 & H2 & H)|(y & _ & ?)]; [|discriminate].
    apply bind_inv in H2 as [(u & e3 & H3 & H2)|(y & _ & ?)]; [|discriminate].
    destruct (quiet_fallible _ _ _ _ H3 Ht1 Hf1) as (_ & Ht3 & Hf3).
    unfold Exc.bind, Exc.get, Exc.ret in H2. injection H2 as <- <-.
    destruct (Os.present _ (Env.fs e3)) eqn:Epres; cbn [negb] in H.
    + unfold Os.read_bytes in H.
      apply bind_inv in H as [(d & e4 & H4 & H)|(y & H4 & ?)].
      * apply bind_inv in H4 as [(u' & e5 & H5 & H4)|(y & _ & ?)]; [|discriminate].
        destruct (quiet_fallible _ _ _ _ H5 Ht3 Hf3) as (_ & [n [Hn _]] & _).
        unfold Exc.bind, Exc.get, Exc.ret, Exc.raise in H4.
        destruct (Env.files (Env.fs e5) !! _) as [d'|] eqn:E; [|discriminate].
        injection H4 as -> <-. exists n. rewrite <- Hn, E.
        destruct d; unfold Exc.ret in H; injection H as <- _; reflexivity.
      * discriminate.
    + unfold Exc.ret in H. injection H as <- _.
      destruct Ht3 as [n [Hn _]]. exists n. f_equal. symmetry.
      rewrite <- Hn. unfold Os.present in Epres.
      apply orb_false_elim in Epres as [Epres _].
      apply bool_decide_eq_false in Epres.
      destruct (Env.files (Env.fs e3) !! _) eqn:E; [|reflexivity].
      exfalso. apply Epres. eauto.
  - (* the body raised: without faults, only a missing file makes it *)
    unfold Exc.ret in H'. injection H' as <- <-.
    apply bind_inv in H as [(p & e2 & H1 & H)|(y & H1 & _)].
    + destruct (quiet_disk_cache_path _ _ _ _ _ _ H1 Ht Hf) as [Ht1 Hf1].
      pose proof (disk_cache_path_result dc cache_id size e) as Hp.
      rewrite H1 in Hp. cbn in Hp. injection Hp as ->.
      unfold Os.path_exists in H.
      apply bind_inv in H as [(ex & e3 & H2 & H)|(y & H2 & _)].
      * apply bind_inv in H2 as [(u & e4 & H3 & H2)|(y & _ & ?)]; [|discriminate].
        destruct (quiet_fallible _ _ _ _ H3 Ht1 Hf1) as (_ & Ht3 & Hf3).
        unfold Exc.bind, Exc.get, Exc.ret in H2. injection H2 as <- <-.
        destruct (Os.present _ (Env.fs e4)); cbn [negb] in H;
          [|unfold Exc.ret in H; discriminate].
        unfold Os.read_bytes in H.
        apply bind_inv in H as [(d & e5 & H4 & H)|(y & H4 & _)].
        -- destruct d; unfold Exc.ret in H; discriminate.
        -- apply bind_inv in H4 as [(u' & e6 & H5 & H4)|(y' & H5 & _)].
           ++ destruct (quiet_fallible _ _ _ _ H5 Ht3 Hf3) as (_ & [n [Hn _]] & _).
              unfold Exc.bind, Exc.get, Exc.ret, Exc.raise in H4.
              destruct (Env.files (Env.fs e6) !! _) as [d'|] eqn:E; [discriminate|].
              exists n. rewrite <- Hn, E. reflexivity.
           ++ destruct (quiet_fallible _ _ _ _ H5 Ht3 Hf3) as (? & _). discriminate.
      * apply bind_inv in H2 as [(u & e4 & H3 & H2)|(y' & H3 & _)].
        -- unfold Exc.bind, Exc.get, Exc.ret in H2. discriminate.
        -- destruct (quiet_fallible _ _ _ _ H3 Ht1 Hf1) as (? & _). discriminate.
    + pose proof (disk_cache_path_result dc cache_id size e) as Hp.
      rewrite H1 in Hp. discriminate.
Qed.

End quiet_reader.

(** ** A read during a write *)

(** At every moment of a write, the file of the key has its previous
    content or the complete new one. *)
Lemma write_in_progress_files (dc : DiskCache.t) cache_id size (png : Py.bytes)
    (e : Env.t) (pre : list Env.fsop) :
  Env.interf e = [] ->
  pre `prefix_of` drop (length (Env.oplog e))
        (Env.oplog (DiskCache.disk_cache_write dc cache_id size png e).2) ->
  foldl Env.apply_files (Env.files (Env.fs e)) pre !! DiskCache.cache_file dc cache_id size
    = Env.files (Env.fs e) !! DiskCache.cache_file dc cache_id size
  \/ foldl Env.apply_files (Env.files (Env.fs e)) pre !! DiskCache.cache_file dc cache_id size
    = Some png.
Proof.
  intros Hi Hpre.
  destruct (disk_cache_write_run dc cache_id size png e Hi)
    as (e' & ops & Hw & (_ & Hlog & _) & Hshape).
  rewrite Hw in Hpre. cbn [snd] in Hpre. rewrite Hlog, drop_app_length in Hpre.
  destruct Hshape as [-> | [-> | (mk & w & rep & -> & Hpw & Hrep)]].
  - apply prefix_nil_inv in Hpre as ->. left. reflexivity.
  - apply prefix_cons_cases in Hpre as [-> | (pre' & -> & Hpre')]; [left; reflexivity|].
    apply prefix_nil_inv in Hpre' as ->. left. reflexivity.
  - destruct (write_ops_prefix_files (Env.files (Env.fs e)) _ _
                (tmp_file_not_cache_file dc cache_id size cache_id size)
                _ _ _ _ _ Hpre) as [H | (Hr & _ & H)].
    + left. exact H.
    + right. rewrite H, (Hrep Hr). reflexivity.
Qed.

Lemma concat_take_prefix {A : Type} (n : nat) (ls : list (list A)) :
  concat (take n ls) `prefix_of` concat ls.
Proof.
  rewrite <- (take_drop n ls) at 2. rewrite concat_app. apply prefix_app_r. reflexivity.
Qed.

(** ** A write that meets no error and no other thread *)

Lemma calm_fallible (x : Exc.exn) (e : Env.t) : calm e -> Os.fallible x e = (Exc.Ok tt, e).
Proof.
  intros [Hf Hi]. unfold Os.fallible, Exc.bind, Os.tick, Os.fault.
  rewrite Hi, Hf. reflexivity.
Qed.

Lemma calm_log_op (op : Env.fsop) (e : Env.t) : calm e -> calm (Env.log_op op e).
Proof. intros H. exact H. Qed.

Lemma calm_disk_cache_path (dc : DiskCache.t) cache_id size (e : Env.t) :
  calm e ->
  exists e1,
    DiskCache._disk_cache_path dc cache_id size e
    = (Exc.Ok (DiskCache.cache_file dc cache_id size), e1)
    /\ calm e1
    /\ ((e1 = e /\ Os.present (DiskCache.shard_dir dc cache_id) (Env.fs e) = true)
        \/ (e1 = Env.log_op (Env.OpMkdir (DiskCache.shard_dir dc cache_id)) e
            /\ Os.present (DiskCache.shard_dir dc cache_id) (Env.fs e) = false)).
Proof.
  intros Hc. pose proof Hc as [Hf Hi].
  unfold DiskCache._disk_cache_path. cbv zeta.
  fold (DiskCache.shard_dir dc cache_id). fold (DiskCache.cache_file dc cache_id size).
  unfold Exc.bind at 1. unfold Os.exists_ at 1.
  unfold Exc.bind at 1, Os.tick. rewrite Hi. unfold Exc.bind at 1, Exc.get, Exc.ret at 1.
  destruct (Os.present (DiskCache.shard_dir dc cache_id) (Env.fs e)) eqn:Ep; cbn [negb].
  - exists e. unfold Exc.bind, Exc.ret. auto.
  - exists (Env.log_op (Env.OpMkdir (DiskCache.shard_dir dc cache_id)) e).
    unfold Exc.bind at 1, Exc.try_except, Os.mkdir. unfold Exc.bind at 1.
    rewrite (calm_fallible _ e Hc). unfold Exc.modify, Exc.ret.
    split; [reflexivity|]. split; [exact Hc | auto].
Qed.

Lemma calm_write_all (p : list string) (data acc : list Z) (e : Env.t) :
  calm e -> Env.files (Env.fs e) !! p = Some acc ->
  exists e',
    Os.write_all p data e = (Exc.Ok tt, e')
    /\ calm e'
    /\ Env.files (Env.fs e') = <[ p := acc ++ data ]> (Env.files (Env.fs e))
    /\ Env.dirs (Env.fs e') = Env.dirs (Env.fs e)
    /\ Env.db e' = Env.db e /\ Env.render_png e' = Env.render_png e
    /\ Env.oplog e' = Env.oplog e ++ (Env.OpAppend p <$> data).
Proof.
  revert acc e. induction data as [|b data IH]; intros acc e Hc Hp.
  - exists e. cbn. rewrite !app_nil_r, insert_id by exact Hp. auto 10.
  - cbn [Os.write_all]. unfold Exc.bind at 1. rewrite (calm_fallible _ e Hc).
    unfold Exc.bind at 1, Exc.modify.
    set (e1 := Env.log_op (Env.OpAppend p b) e).
    assert (Hf1 : Env.files (Env.fs e1) = <[ p := acc ++ [b] ]> (Env.files (Env.fs e))).
    { unfold e1. cbn. rewrite Hp. reflexivity. }
    destruct (IH (acc ++ [b]) e1 (calm_log_op _ e Hc))
      as (e' & Hw & Hc' & Hf' & Hd' & Hdb & Hr & Hl).
    { rewrite Hf1. apply lookup_insert_eq. }
    exists e'. split; [exact Hw|]. split; [exact Hc'|]. split.
    { rewrite Hf', Hf1, insert_insert_eq, <- app_assoc. reflexivity. }
    split; [exact Hd'|]. split; [exact Hdb|]. split; [exact Hr|].
    rewrite Hl. unfold e1. cbn. rewrite <- app_assoc. reflexivity.
Qed.

Lemma shard_is_parent (dc : DiskCache.t) cache_id size :
  Pathlib.parent (DiskCache.tmp_file dc cache_id size) = DiskCache.shard_dir dc cache_id.
Proof. unfold DiskCache.tmp_file, DiskCache.shard_dir. cbv zeta. apply parent_joinpath. Qed.

Lemma calm_disk_cache_write (dc : DiskCache.t) cache_id size (png : list Z) (e : Env.t) :
  DiskCache.disk_cache_enabled dc = true ->
  calm e ->
  Env.files (Env.fs e) !! DiskCache.shard_dir dc cache_id = None ->
  exists e',
    DiskCache.disk_cache_write dc cache_id size png e = (Exc.Ok tt, e')
    /\ calm e'
    /\ Env.files (Env.fs e')
       = <[ DiskCache.cache_file dc cache_id size := png ]>
           (delete (DiskCache.tmp_file dc cache_id size) (Env.files (Env.fs e)))
    /\ Env.dirs (Env.fs e') = {[ DiskCache.shard_dir dc cache_id ]} ∪ Env.dirs (Env.fs e)
    /\ Env.db e' = Env.db e /\ Env.render_png e' = Env.render_png e
    /\ Env.oplog e'
       = Env.oplog e
         ++ DiskCache.write_ops (negb (Os.present (DiskCache.shard_dir dc cache_id) (Env.fs e)))
              (DiskCache.shard_dir dc cache_id) (DiskCache.tmp_file dc cache_id size)
              (DiskCache.cache_file dc cache_id size) png true.
Proof.
  intros Hen Hc Hshard.
  unfold DiskCache.disk_cache_write. rewrite Hen. cbn [negb].
  unfold Exc.try_except, Exc.bind at 1.
  destruct (calm_disk_cache_path dc cache_id size e Hc) as (e1 & Hp & Hc1 & Hcase).
  rewrite Hp, with_suffix_tmp.
  assert (Hdir : DiskCache.shard_dir dc cache_id ∈ Env.dirs (Env.fs e1)
                 /\ Env.files (Env.fs e1) = Env.files (Env.fs e)
                 /\ Env.dirs (Env.fs e1)
                    = {[ DiskCache.shard_dir dc cache_id ]} ∪ Env.dirs (Env.fs e)
                 /\ Env.db e1 = Env.db e /\ Env.render_png e1 = Env.render_png e
                 /\ Env.oplog e1
                    = Env.oplog e
                      ++ (if negb (Os.present (DiskCache.shard_dir dc cache_id) (Env.fs e))
                          then [Env.OpMkdir (DiskCache.shard_dir dc cache_id)] else [])).
  { destruct Hcase as [[-> Hpres] | [-> Hpres]].
    - rewrite Hpres. cbn [negb]. rewrite app_nil_r.
      unfold Os.present in Hpres. rewrite Hshard in Hpres.
      rewrite bool_decide_eq_false_2 in Hpres by (intros [? ?]; discriminate).
      cbn in Hpres. apply bool_decide_eq_true in Hpres.
      split; [exact Hpres|]. split; [reflexivity|]. split; [set_solver | auto].
    - rewrite Hpres. cbn. split; [set_solver | auto 10]. }
  destruct Hdir as (Hin & Hf1 & Hd1 & Hdb1 & Hr1 & Hl1).
  unfold Exc.bind at 1. unfold Os.write_bytes. unfold Exc.bind at 1.
  rewrite (calm_fallible _ e1 Hc1). unfold Exc.bind at 1, Exc.get.
  rewrite shard_is_parent, (bool_decide_eq_true_2 _ Hin).
  unfold Exc.bind at 1, Exc.modify.
  set (tmp := DiskCache.tmp_file dc cache_id size).
  set (p := DiskCache.cache_file dc cache_id size).
  set (e2 := Env.log_op (Env.OpCreate tmp) e1).
  destruct (calm_write_all tmp png [] e2 (calm_log_op _ e1 Hc1))
    as (e3 & Hw & Hc3 & Hf3 & Hd3 & Hdb3 & Hr3 & Hl3).
  { unfold e2. cbn. apply lookup_insert_eq. }
  rewrite Hw. unfold Os.replace, Exc.bind at 1. rewrite (calm_fallible _ e3 Hc3).
  unfold Exc.bind at 1, Exc.get.
  assert (Htmp : Env.files (Env.fs e3) !! tmp = Some png).
  { rewrite Hf3. apply lookup_insert_eq. }
  rewrite bool_decide_eq_true_2 by (rewrite Htmp; eauto).
  unfold Exc.modify. eexists. split; [reflexivity|].
  split; [apply calm_log_op, Hc3|].
  cbn [Env.fs Env.log_op Env.files Env.dirs Env.apply_op Env.apply_files Env.apply_dirs
       Env.db Env.render_png Env.oplog].
  rewrite Htmp, Hf3. unfold e2 at 1.
  cbn [Env.fs Env.log_op Env.files Env.apply_op Env.apply_files].
  rewrite insert_insert_eq, delete_insert_eq, Hf1.
  split; [reflexivity|]. rewrite Hd3, Hl3. unfold e2. cbn. rewrite Hdb3, Hr3, Hl1. cbn.
  split; [exact Hd1|]. split; [exact Hdb1|]. split; [exact Hr1|].
  unfold DiskCache.write_ops. rewrite <- !app_assoc. cbn. reflexivity.
Qed.

(** C4, as stated, fails at "uniquely-named": the staging file of a write
    is the cache file's name with [.tmp] appended, the same for every
    write of the key. Two writes of one key that overlap share it: here a
    second writer creates the staging file anew and writes its byte 9
    while the first, writing 1 and 2, is between its two bytes; the first
    then renames the staging file, and a reader finds 9, 2 in the cache
    file, which is neither the previous content (absent) nor the bytes of
    either write. *)
Lemma staging_file_is_shared :
  [Env.OpCreate Inputs.tmp0; Env.OpAppend Inputs.tmp0 9]
    `prefix_of` Env.oplog (DiskCache.disk_cache_write Inputs.dc0 "abc123" 200 [9]
                             (Inputs.env_of ∅ [])).2
  /\ Env.files (Env.fs Inputs.env_two_writers) !! DiskCache.cache_file Inputs.dc0 "abc123" 200
     = None
  /\ Env.files (Env.fs (DiskCache.disk_cache_write Inputs.dc0 "abc123" 200 [1; 2]
                          Inputs.env_two_writers).2)
       !! DiskCache.cache_file Inputs.dc0 "abc123" 200
     = Some [9; 2]
  /\ (DiskCache.disk_cache_read Inputs.dc0 "abc123" 200
        (DiskCache.disk_cache_write Inputs.dc0 "abc123" 200 [1; 2]
           Inputs.env_two_writers).2).1
     = Exc.Ok (Some [9; 2]).
Proof.
  split.
  { exists [Env.OpReplace Inputs.tmp0 (DiskCache.cache_file Inputs.dc0 "abc123" 200)].
    vm_compute. reflexivity. }
  vm_compute. auto.
Qed.

(** C4 (amended): the bytes go to the staging file, whose name is the
    cache file's with [.tmp] appended (one name per key, no key's cache
    file), and reach the cache file by one atomic rename: a write that
    meets no error performs, after creating the shard directory if it is
    missing, the creation of the staging file, one append per byte and
    the rename, and leaves the cache file holding the new bytes and no
    staging file. While the only write for a key is in progress, with the
    operations it has performed so far landing between the steps of a
    reader in any grouping, [disk_cache_read] for that key never returns
    a partial file: bytes it returns are the complete previous content or
    the complete new content, and a reader that meets no error of its own
    returns what it would have returned before the write or what it
    returns after it. *)
Theorem read_during_write (dc : DiskCache.t) (cache_id : string) (size : Z)
    (png : Py.bytes) (e : Env.t) (chunks : list (list Env.fsop)) (rfaults : list bool) :
  Env.interf e = [] ->
  concat chunks `prefix_of`
    drop (length (Env.oplog e))
      (Env.oplog (DiskCache.disk_cache_write dc cache_id size png e).2) ->
  (exists v,
     (DiskCache.disk_cache_read dc cache_id size
        (Env.set_faults rfaults (Env.set_interf chunks e))).1 = Exc.Ok v
     /\ (forall data, v = Some data ->
           Env.files (Env.fs e) !! DiskCache.cache_file dc cache_id size = Some data
           \/ data = png)
     /\ (rfaults = [] -> DiskCache.disk_cache_enabled dc = true ->
         v = Env.visible (Env.files (Env.fs e) !! DiskCache.cache_file dc cache_id size)
         \/ v = Env.visible (Some png)))
  /\ Pathlib.with_suffix (DiskCache.cache_file dc cache_id size)
       (Pathlib.suffix (DiskCache.cache_file dc cache_id size) ++ ".tmp")%string
     = Some (DiskCache.tmp_file dc cache_id size)
  /\ (forall id' size',
        DiskCache.tmp_file dc cache_id size <> DiskCache.cache_file dc id' size')
  /\ (DiskCache.disk_cache_enabled dc = true -> Env.faults e = [] ->
      Env.files (Env.fs e) !! DiskCache.shard_dir dc cache_id = None ->
      let e' := (DiskCache.disk_cache_write dc cache_id size png e).2 in
      Env.oplog e'
      = Env.oplog e
        ++ DiskCache.write_ops (negb (Os.present (DiskCache.shard_dir dc cache_id) (Env.fs e)))
             (DiskCache.shard_dir dc cache_id) (DiskCache.tmp_file dc cache_id size)
             (DiskCache.cache_file dc cache_id size) png true
      /\ Env.files (Env.fs e') !! DiskCache.cache_file dc cache_id size = Some png
      /\ Env.files (Env.fs e') !! DiskCache.tmp_file dc cache_id size = None).
Proof.
  intros Hi Hpre. split; [|split; [apply with_suffix_tmp|split]].
  - set (reader := Env.set_faults rfaults (Env.set_interf chunks e)).
    assert (Ht : tracks (Env.files (Env.fs e)) chunks reader) by apply (tracks_start reader).
    assert (Hseen : forall n,
              Env.seen_files (Env.files (Env.fs e)) chunks n
                !! DiskCache.cache_file dc cache_id size
              = Env.files (Env.fs e) !! DiskCache.cache_file dc cache_id size
              \/ Env.seen_files (Env.files (Env.fs e)) chunks n
                   !! DiskCache.cache_file dc cache_id size = Some png).
    { intros n. apply write_in_progress_files; [exact Hi|].
      etrans; [apply concat_take_prefix | exact Hpre]. }
    destruct (disk_cache_read_observes _ _ dc cache_id size reader Ht) as (v & Hv & Hobs).
    exists v. split; [exact Hv|]. split.
    + intros data Hd. destruct (Hobs data Hd) as (_ & _ & n & Hn).
      destruct (Hseen n) as [H | H]; rewrite H in Hn; [left; exact Hn|].
      right. congruence.
    + intros Hrf Hen.
      destruct (disk_cache_read_quiet _ _ dc cache_id size reader Ht) as [n Hn];
        [unfold reader; rewrite Hrf; reflexivity | exact Hen |].
      rewrite Hn in Hv. injection Hv as <-.
      destruct (Hseen n) as [H | H]; rewrite H; auto.
  - intros id' size'. apply tmp_file_not_cache_file.
  - intros Hen Hf Hshard. cbv zeta.
    destruct (calm_disk_cache_write dc cache_id size png e Hen (conj Hf Hi) Hshard)
      as (e' & Hw & _ & Hfiles & _ & _ & _ & Hlog).
    rewrite Hw. cbn [snd]. split; [exact Hlog|]. rewrite Hfiles.
    split; [apply lookup_insert_eq|].
    rewrite lookup_insert_ne by (apply not_eq_sym, tmp_file_not_cache_file).
    apply lookup_delete_eq.
Qed.

Lemma read_during_write_witness :
  (exists v,
     (DiskCache.disk_cache_read Inputs.dc0 "abc123" 200
        (Env.set_faults [] (Env.set_interf Inputs.chunks0 (Inputs.env_of ∅ [])))).1
     = Exc.Ok v
     /\ (v = None \/ v = Some Inputs.png0))
  /\ Env.files (Env.fs (DiskCache.disk_cache_write Inputs.dc0 "abc123" 200 Inputs.png0
                          (Inputs.env_of ∅ [])).2)
       !! DiskCache.cache_file Inputs.dc0 "abc123" 200
     = Some Inputs.png0.
Proof.
  assert (Hi : Env.interf (Inputs.env_of ∅ []) = []) by reflexivity.
  assert (Hpre : concat Inputs.chunks0 `prefix_of`
            drop (length (Env.oplog (Inputs.env_of ∅ [])))
              (Env.oplog (DiskCache.disk_cache_write Inputs.dc0 "abc123" 200
                            Inputs.png0 (Inputs.env_of ∅ [])).2)).
  { exists [Env.OpAppend Inputs.tmp0 78; Env.OpAppend Inputs.tmp0 71;
            Env.OpReplace Inputs.tmp0 (DiskCache.cache_file Inputs.dc0 "abc123" 200)].
    vm_compute. reflexivity. }
  destruct (read_during_write Inputs.dc0 "abc123" 200 Inputs.png0
              (Inputs.env_of ∅ []) Inputs.chunks0 [] Hi Hpre)
    as ((v & Hv & _ & Hq) & _ & _ & Hdone).
  split.
  - exists v. split; [exact Hv|].
    destruct (Hq eq_refl eq_refl) as [-> | ->]; [left | right]; reflexivity.
  - destruct (Hdone eq_refl eq_refl ltac:(vm_compute; reflexivity)) as (_ & H & _).
    exact H.
Defined.

Lemma disk_cache_read_absent_witness :
  (DiskCache.disk_cache_read Inputs.dc0 "abc123" 200
     (Inputs.env_of {[ DiskCache.cache_file Inputs.dc0 "abc123" 200 := [] ]} [])).1
  = Exc.Ok None.
Proof.
  destruct (disk_cache_read_absent Inputs.dc0 "abc123" 200
              (Inputs.env_of {[ DiskCache.cache_file Inputs.dc0 "abc123" 200 := [] ]} [])
              eq_refl)
    as (v & Hv & _ & Hempty & _).
  rewrite Hv. f_equal. apply Hempty. apply lookup_singleton_eq.
Defined.

(** ** [disk_cache_read] and [disk_cache_write] never raise *)






Lemma files_apply_mkdir (fs : Env.FS) (mk : bool) (d : list string) :
  Env.files (Env.apply_ops fs (if mk then [Env.OpMkdir d] else [])) = Env.files fs.
Proof. destruct mk; reflexivity. Qed.

(** ** The worker: one pass of its loop *)

Lemma wrun_refl (w : Worker.state) : Env.interf (Worker.env w) = [] -> Worker.wrun w w [].
Proof. intros H. split; [reflexivity | apply seq_run_refl, H]. Qed.




Lemma in_env_inv {A : Type} (m : Exc.M Env.t A) (w w' : Worker.state) r :
  Worker.in_env m w = (r, w') ->
  exists e', m (Worker.env w) = (r, e') /\ w' = Worker.set_env e' w.
Proof.
  unfold Worker.in_env, Exc.zoom. destruct (m (Worker.env w)) as [r1 e1].
  intros H. injection H as <- <-. eauto.
Qed.

Lemma wrun_external (x : Exc.exn) (w w' : Worker.state) r :
  Env.interf (Worker.env w) = [] ->
  Worker.external x w = (r, w') ->
  Worker.wrun w w' [] /\ Worker.conn w' = Worker.conn w.
Proof.
  intros Hi H. unfold Worker.external in H.
  apply in_env_inv in H as (e' & H & ->). split; [|reflexivity].
  split; [reflexivity|]. cbn.
  revert H. unfold Exc.bind, Os.fault, Exc.ret, Exc.raise.
  destruct (Env.faults (Worker.env w)) as [|[] l]; intros H; injection H as <- <-;
    unfold Env.seq_run; cbn; rewrite app_nil_r; auto.
Qed.


Lemma wrun_reset_conn (w w' : Worker.state) r :
  Env.interf (Worker.env w) = [] ->
  Worker._reset_conn w = (r, w') -> r = Exc.Ok tt /\ Worker.wrun w w' [].
Proof.
  intros Hi H. unfold Worker._reset_conn in H.
  unfold Exc.bind at 1, Exc.get in H.
  assert (Hclose : forall r1 w1,
            match Worker.conn w with
            | Some _ => Exc.try_except (Worker.external Exc.DatabaseError)
                          (fun _ => Exc.ret tt)
            | None => Exc.ret tt
            end w = (r1, w1) -> r1 = Exc.Ok tt /\ Worker.wrun w w1 []).
  { intros r1 w1 H1. destruct (Worker.conn w).
    - rewrite try_except_pass in H1. injection H1 as <- <-. split; [reflexivity|].
      destruct (Worker.external Exc.DatabaseError w) as [r2 w2] eqn:E.
      apply (wrun_external _ _ _ _ Hi E).
    - unfold Exc.ret in H1. injection H1 as <- <-. split; [reflexivity|].
      apply wrun_refl, Hi. }
  apply bind_inv in H as [(a & w1 & H1 & H)|(y & H1 & _)];
    destruct (Hclose _ _ H1) as [Hr Hw1]; [|discriminate].
  unfold Exc.modify in H. injection H as <- <-. split; [reflexivity|].
  destruct Hw1 as [Hs Hq]. split; [exact Hs | exact Hq].
Qed.





Lemma keeps_ret {A : Type} (a : A) : Worker.keeps_self (Exc.ret a).
Proof. intros w r w' H. unfold Exc.ret in H. injection H as _ <-. reflexivity. Qed.

Lemma keeps_raise {A : Type} (x : Exc.exn) : Worker.keeps_self (@Exc.raise _ A x).
Proof. intros w r w' H. unfold Exc.raise in H. injection H as _ <-. reflexivity. Qed.

Lemma keeps_get : Worker.keeps_self Exc.get.
Proof. intros w r w' H. unfold Exc.get in H. injection H as _ <-. reflexivity. Qed.

Lemma keeps_bind {A B : Type} (m : Exc.M Worker.state A) (k : A -> Exc.M Worker.state B) :
  Worker.keeps_self m -> (forall a, Worker.keeps_self (k a)) ->
  Worker.keeps_self (Exc.bind m k).
Proof.
  intros Hm Hk w r w' H.
  apply bind_inv in H as [(a & w1 & H1 & H)|(y & H1 & _)].
  - rewrite (Hk a _ _ _ H). exact (Hm _ _ _ H1).
  - exact (Hm _ _ _ H1).
Qed.

Lemma keeps_try {A : Type} (m : Exc.M Worker.state A) (h : Exc.exn -> Exc.M Worker.state A) :
  Worker.keeps_self m -> (forall x, Worker.keeps_self (h x)) ->
  Worker.keeps_self (Exc.try_except m h).
Proof.
  intros Hm Hh w r w' H.
  apply try_except_inv in H as [(a & H & _)|(x & w1 & H1 & H)].
  - exact (Hm _ _ _ H).
  - rewrite (Hh x _ _ _ H). exact (Hm _ _ _ H1).
Qed.

Lemma keeps_in_env {A : Type} (m : Exc.M Env.t A) : Worker.keeps_self (Worker.in_env m).
Proof. intros w r w' H. apply in_env_inv in H as (e' & _ & ->). reflexivity. Qed.

Lemma keeps_set_conn (c : option unit) : Worker.keeps_self (Exc.modify (Worker.set_conn c)).
Proof. intros w r w' H. unfold Exc.modify in H. injection H as _ <-. reflexivity. Qed.

Create HintDb keeps.

#[local] Hint Resolve keeps_ret keeps_raise keeps_get keeps_in_env keeps_set_conn : keeps.

Ltac keeps_tac :=
  repeat first
    [ apply keeps_bind; [|intros ?]
    | apply keeps_try; [|intros ?]
    | solve [auto with keeps]
    | match goal with
      | |- Worker.keeps_self (match ?x with _ => _ end) => destruct x
      | |- Worker.keeps_self (if ?x then _ else _) => destruct x
      end ].

Lemma keeps_external (x : Exc.exn) : Worker.keeps_self (Worker.external x).
Proof. unfold Worker.external. auto with keeps. Qed.

#[local] Hint Resolve keeps_external : keeps.

Lemma keeps_ensure_conn : Worker.keeps_self Worker._ensure_conn.
Proof.
  unfold Worker._ensure_conn. apply keeps_bind; [auto with keeps|].
  intros w. destruct (Worker.conn w); keeps_tac.
Qed.

Lemma keeps_reset_conn : Worker.keeps_self Worker._reset_conn.
Proof.
  unfold Worker._reset_conn. apply keeps_bind; [auto with keeps|].
  intros w. destruct (Worker.conn w); keeps_tac.
Qed.

Lemma keeps_load_thumbnail_bytes (cache_id path_text : string) :
  Worker.keeps_self (Worker._load_thumbnail_bytes cache_id path_text).
Proof.
  unfold Worker._load_thumbnail_bytes, Worker.select_thumbnail, Worker.select_hash.
  keeps_tac.
Qed.

Lemma keeps_make_png (tb : Py.bytes) : Worker.keeps_self (Worker.make_png tb).
Proof.
  unfold Worker.make_png. apply keeps_bind; [auto with keeps|].
  intros w. destruct (Env.render_png _ _); auto with keeps.
Qed.

#[local] Hint Resolve keeps_ensure_conn keeps_reset_conn keeps_load_thumbnail_bytes
  keeps_make_png : keeps.

Lemma reset_conn_ok (w : Worker.state) : (Worker._reset_conn w).1 = Exc.Ok tt.
Proof.
  unfold Worker._reset_conn, Exc.bind at 1, Exc.get.
  destruct (Worker.conn w).
  - unfold Exc.bind. rewrite try_except_pass. reflexivity.
  - reflexivity.
Qed.

(** Whatever happens, one pass of the loop returns without raising and
    puts exactly one result, for the request it was given, on the
    completion queue; it changes nothing else of the cache object. *)
Lemma iteration_emits_one (idx : nat) (path_text cache_id : string) (w : Worker.state) :
  exists out w',
    Worker.iteration (idx, path_text, cache_id) w = (Exc.Ok tt, w')
    /\ Worker.self w'
       = ThumbCache.set_thumb_done_q
           (ThumbCache.thumb_done_q (Worker.self w) ++ [(idx, path_text, cache_id, out)])
           (Worker.self w).
Proof.
  unfold Worker.iteration.
  match goal with
  | |- context [Exc.bind (Exc.try_except ?b ?h) ?k] =>
      set (body := b); set (handler := h)
  end.
  assert (Hbody : forall r w1, body w = (r, w1) ->
            (exists png, r = Exc.Ok Worker.Continue
               /\ Worker.self w1
                  = ThumbCache.set_thumb_done_q
                      (ThumbCache.thumb_done_q (Worker.self w)
                       ++ [(idx, path_text, cache_id, Some png)]) (Worker.self w))
            \/ (((exists o, r = Exc.Ok (Worker.Fallthrough o)) \/ exists x, r = Exc.Raise x)
                /\ Worker.self w1 = Worker.self w)).
  { intros r w1 H. unfold body in H.
    apply bind_inv in H as [(u & w2 & H2 & H)|(y & H2 & ->)].
    2:{ right. split; [right; eauto|]. exact (keeps_ensure_conn _ _ _ H2). }
    pose proof (keeps_ensure_conn _ _ _ H2) as Hs2.
    unfold Exc.bind at 1, Exc.get in H.
    apply bind_inv in H as [(out_png & w3 & H3 & H)|(y & H3 & ->)].
    2:{ right. split; [right; eauto|].
        rewrite (keeps_in_env _ _ _ _ H3). exact Hs2. }
    pose proof (keeps_in_env _ _ _ _ H3) as Hs3.
    assert (Hmiss : forall r' w',
      Exc.bind (Worker._load_thumbnail_bytes cache_id path_text)
        (fun thumb_bytes => match thumb_bytes with
           | Some ((_ :: _) as tb) =>
               Exc.bind (Worker.make_png tb)
                 (fun png =>
                    Exc.bind (Worker.in_env
                       (DiskCache.disk_cache_write (ThumbCache.disk_cache (Worker.self w2))
                          cache_id (ThumbCache.thumb_max (Worker.self w2)) png))
                      (fun _ => Exc.ret (Worker.Fallthrough (Some png))))
           | _ => Exc.ret (Worker.Fallthrough out_png)
           end) w3 = (r', w') ->
      ((exists o, r' = Exc.Ok (Worker.Fallthrough o)) \/ exists x, r' = Exc.Raise x)
      /\ Worker.self w' = Worker.self w).
    { intros r' w' H'.
      assert (Hk : Worker.self w' = Worker.self w3).
      { revert H'. apply (keeps_bind _ _ (keeps_load_thumbnail_bytes _ _)).
        intros [[|b tb]|]; keeps_tac. }
      rewrite Hk, Hs3, Hs2. split; [|reflexivity]. clear Hk.
      apply bind_inv in H' as [(tbs & w4 & _ & H')|(y & _ & ->)]; [|right; eauto].
      destruct tbs as [[|b tb]|].
      - unfold Exc.ret in H'. injection H' as <- _. eauto.
      - apply bind_inv in H' as [(png & w5 & _ & H')|(y & _ & ->)]; [|right; eauto].
        apply bind_inv in H' as [(u' & w6 & _ & H')|(y & _ & ->)]; [|right; eauto].
        unfold Exc.ret in H'. injection H' as <- _. eauto.
      - unfold Exc.ret in H'. injection H' as <- _. eauto. }
    destruct out_png as [[|b png]|].
    - right. exact (Hmiss _ _ H).
    - left. exists (b :: png).
      apply bind_inv in H as [(u' & w4 & H4 & H)|(y & H4 & _)];
        unfold Worker.done_put, Exc.modify in H4; [|discriminate].
      injection H4 as _ <-. unfold Exc.ret in H. injection H as <- <-.
      split; [reflexivity|]. cbn. rewrite Hs3, Hs2. reflexivity.
    - right. exact (Hmiss _ _ H). }
  unfold Exc.bind at 1.
  destruct (Exc.try_except body handler w) as [rf w1] eqn:Htry.
  apply try_except_inv in Htry as [(f & Hb & ->)|(x & w2 & Hb & Hh)].
  - destruct (Hbody _ _ Hb) as [(png & Hr & Hs)|([[o Hr]|[x Hr]] & Hs)].
    + injection Hr as ->. exists (Some png), w1. split; [reflexivity | exact Hs].
    + injection Hr as ->.
      exists o. eexists. split; [reflexivity|]. cbn. rewrite Hs. reflexivity.
    + discriminate.
  - destruct (Hbody _ _ Hb) as [(png & Hr & _)|(_ & Hs)]; [discriminate|].
    unfold handler in Hh.
    apply bind_inv in Hh as [(u & w3 & H3 & Hh)|(y & H3 & _)].
    + unfold Exc.ret in Hh. injection Hh as <- <-.
      exists None. eexists. split; [reflexivity|]. cbn.
      rewrite (keeps_reset_conn _ _ _ H3), Hs. reflexivity.
    + pose proof (reset_conn_ok w2) as Hok. rewrite H3 in Hok. discriminate.
Qed.







(** ** The ordered dictionary *)

Section ordered_dict.
Context {K V : Type} `{EqDecision K}.
Implicit Types (d : list (K * V)) (k : K) (v : V).

Lemma od_remove_cons k (e : K * V) d :
  OrderedDict.remove k (e :: d)
  = if decide (e.1 = k) then OrderedDict.remove k d else e :: OrderedDict.remove k d.
Proof.
  unfold OrderedDict.remove. rewrite filter_cons.
  destruct (decide (e.1 = k)) as [E|E]; destruct (decide (e.1 ≠ k)); try reflexivity; tauto.
Qed.

Lemma od_get_setitem k v d : OrderedDict.get k (OrderedDict.setitem k v d) = Some v.
Proof.
  induction d as [|[k' v'] d IH]; cbn.
  - rewrite decide_True by reflexivity. reflexivity.
  - destruct (decide (k' = k)) as [->|Hne]; cbn.
    + rewrite decide_True by reflexivity. reflexivity.
    + rewrite decide_False by exact Hne. exact IH.
Qed.

Lemma od_remove_setitem k v d :
  OrderedDict.remove k (OrderedDict.setitem k v d) = OrderedDict.remove k d.
Proof.
  induction d as [|[k' v'] d IH]; cbn [OrderedDict.setitem].
  - rewrite od_remove_cons. cbn [fst]. rewrite decide_True by reflexivity. reflexivity.
  - destruct (decide (k' = k)) as [->|Hne]; rewrite !od_remove_cons; cbn [fst].
    + rewrite !decide_True by reflexivity. reflexivity.
    + rewrite !decide_False by exact Hne. rewrite IH. reflexivity.
Qed.

(** After [d[k] = v; d.move_to_end(k)] the entry is the last one, and the
    other entries keep their order. *)
Lemma od_move_to_end_setitem k v d :
  OrderedDict.move_to_end k (OrderedDict.setitem k v d) = OrderedDict.remove k d ++ [(k, v)].
Proof.
  unfold OrderedDict.move_to_end. rewrite od_get_setitem, od_remove_setitem. reflexivity.
Qed.

Lemma od_keys_remove k d :
  OrderedDict.keys (OrderedDict.remove k d) = filter (fun x => x ≠ k) (OrderedDict.keys d).
Proof.
  unfold OrderedDict.keys.
  induction d as [|[k' v'] d IH]; [reflexivity|].
  rewrite od_remove_cons, fmap_cons, filter_cons. cbn [fst].
  destruct (decide (k' = k)) as [E|E]; destruct (decide (k' ≠ k)); try tauto.
  rewrite fmap_cons. cbn [fst]. rewrite IH. reflexivity.
Qed.

Lemma od_get_None k d : OrderedDict.get k d = None <-> k ∉ OrderedDict.keys d.
Proof.
  unfold OrderedDict.keys. induction d as [|[k' v'] d IH]; cbn.
  - split; [intros _; apply not_elem_of_nil | reflexivity].
  - rewrite not_elem_of_cons. destruct (decide (k' = k)) as [->|Hne].
    + split; [discriminate | intros [H _]; congruence].
    + rewrite IH. split; [intros H; split; [congruence | exact H] | intros [_ H]; exact H].
Qed.

Lemma od_get_Some k v d : OrderedDict.get k d = Some v -> k ∈ OrderedDict.keys d.
Proof.
  intros H. destruct (decide (k ∈ OrderedDict.keys d)) as [Hin|Hout]; [exact Hin|].
  apply od_get_None in Hout. congruence.
Qed.

Lemma od_remove_absent k d : k ∉ OrderedDict.keys d -> OrderedDict.remove k d = d.
Proof.
  unfold OrderedDict.keys. induction d as [|[k' v'] d IH]; [reflexivity|].
  rewrite fmap_cons, not_elem_of_cons. cbn [fst]. intros [Hne Hout].
  rewrite od_remove_cons. cbn [fst]. rewrite decide_False by congruence.
  rewrite (IH Hout). reflexivity.
Qed.

Lemma od_length_remove k d : (length (OrderedDict.remove k d) <= length d)%nat.
Proof. unfold OrderedDict.remove. apply length_filter. Qed.

Lemma od_length_remove_present k v d :
  OrderedDict.get k d = Some v -> (length (OrderedDict.remove k d) < length d)%nat.
Proof.
  induction d as [|[k' v'] d IH]; cbn [OrderedDict.get]; [discriminate|].
  intros H. rewrite od_remove_cons. cbn [fst length].
  destruct (decide (k' = k)) as [->|Hne].
  - pose proof (od_length_remove k d). lia.
  - cbn [length]. specialize (IH H). lia.
Qed.

Lemma od_length_move_to_end k d :
  (length (OrderedDict.move_to_end k d) <= length d)%nat.
Proof.
  unfold OrderedDict.move_to_end. destruct (OrderedDict.get k d) as [v|] eqn:E; [|lia].
  rewrite length_app. cbn [length].
  pose proof (od_length_remove_present k v d E). lia.
Qed.

End ordered_dict.

(** ** The memory cache *)

Lemma evict_drop (cap : nat) (d : list ((string * Z) * ThumbCache.PhotoImage)) :
  ThumbCache.evict cap d = drop (length d - cap) d.
Proof.
  induction d as [|e d IH]; [reflexivity|].
  cbn [ThumbCache.evict]. destruct (cap <? length (e :: d))%nat eqn:E.
  - apply Nat.ltb_lt in E. cbn [length] in *. rewrite IH.
    replace (S (length d) - cap)%nat with (S (length d - cap)) by lia. reflexivity.
  - apply Nat.ltb_ge in E. replace (length (e :: d) - cap)%nat with 0%nat by lia.
    reflexivity.
Qed.

Lemma put_thumb_cache key img (s : ThumbCache.t) :
  ThumbCache.thumb_cache (ThumbCache.put key img s)
  = drop (length (OrderedDict.remove key (ThumbCache.thumb_cache s) ++ [(key, img)])
          - ThumbCache.thumb_cache_max s)
      (OrderedDict.remove key (ThumbCache.thumb_cache s) ++ [(key, img)]).
Proof.
  unfold ThumbCache.put. cbn. rewrite od_move_to_end_setitem. apply evict_drop.
Qed.

Lemma put_frame key img (s : ThumbCache.t) :
  ThumbCache.thumb_cache_max (ThumbCache.put key img s) = ThumbCache.thumb_cache_max s
  /\ ThumbCache.thumb_max (ThumbCache.put key img s) = ThumbCache.thumb_max s
  /\ ThumbCache.thumb_req_q (ThumbCache.put key img s) = ThumbCache.thumb_req_q s
  /\ ThumbCache.thumb_done_q (ThumbCache.put key img s) = ThumbCache.thumb_done_q s
  /\ ThumbCache.thumb_inflight (ThumbCache.put key img s) = ThumbCache.thumb_inflight s
  /\ ThumbCache.thumb_poller_id (ThumbCache.put key img s) = ThumbCache.thumb_poller_id s
  /\ ThumbCache.disk_cache (ThumbCache.put key img s) = ThumbCache.disk_cache s.
Proof. repeat split. Qed.

Lemma get_hit key v (s : ThumbCache.t) :
  OrderedDict.get key (ThumbCache.thumb_cache s) = Some v ->
  ThumbCache.get key s
  = (Some v,
     ThumbCache.set_thumb_cache
       (OrderedDict.remove key (ThumbCache.thumb_cache s) ++ [(key, v)]) s).
Proof.
  intros H. unfold ThumbCache.get, OrderedDict.move_to_end. rewrite H. reflexivity.
Qed.

Lemma get_miss key (s : ThumbCache.t) :
  OrderedDict.get key (ThumbCache.thumb_cache s) = None ->
  ThumbCache.get key s = (None, s).
Proof. intros H. unfold ThumbCache.get. rewrite H. reflexivity. Qed.

Lemma get_frame key (s : ThumbCache.t) :
  ThumbCache.thumb_cache_max (ThumbCache.get key s).2 = ThumbCache.thumb_cache_max s
  /\ ThumbCache.thumb_max (ThumbCache.get key s).2 = ThumbCache.thumb_max s
  /\ ThumbCache.thumb_req_q (ThumbCache.get key s).2 = ThumbCache.thumb_req_q s
  /\ ThumbCache.thumb_done_q (ThumbCache.get key s).2 = ThumbCache.thumb_done_q s
  /\ ThumbCache.thumb_inflight (ThumbCache.get key s).2 = ThumbCache.thumb_inflight s
  /\ ThumbCache.thumb_poller_id (ThumbCache.get key s).2 = ThumbCache.thumb_poller_id s
  /\ ThumbCache.disk_cache (ThumbCache.get key s).2 = ThumbCache.disk_cache s.
Proof. unfold ThumbCache.get. destruct (OrderedDict.get _ _); repeat split. Qed.

Lemma put_length key img (s : ThumbCache.t) :
  (length (ThumbCache.thumb_cache (ThumbCache.put key img s))
   <= ThumbCache.thumb_cache_max s)%nat.
Proof. rewrite put_thumb_cache, length_drop. lia. Qed.

Lemma get_length key (s : ThumbCache.t) :
  (length (ThumbCache.thumb_cache (ThumbCache.get key s).2)
   <= length (ThumbCache.thumb_cache s))%nat.
Proof.
  unfold ThumbCache.get. destruct (OrderedDict.get _ _) eqn:E; cbn; [|lia].
  apply od_length_move_to_end.
Qed.

Lemma apply_length (o : ThumbCache.op) (s : ThumbCache.t) :
  (length (ThumbCache.thumb_cache s) <= ThumbCache.thumb_cache_max s)%nat ->
  (length (ThumbCache.thumb_cache (ThumbCache.apply s o))
   <= ThumbCache.thumb_cache_max (ThumbCache.apply s o))%nat.
Proof.
  intros H. destruct o as [k|k img]; cbn [ThumbCache.apply].
  - destruct (get_frame k s) as [-> _]. pose proof (get_length k s). lia.
  - exact (put_length k img s).
Qed.

Lemma run_length (ops : list ThumbCache.op) (s : ThumbCache.t) :
  (length (ThumbCache.thumb_cache s) <= ThumbCache.thumb_cache_max s)%nat ->
  (length (ThumbCache.thumb_cache (ThumbCache.run ops s))
   <= ThumbCache.thumb_cache_max (ThumbCache.run ops s))%nat.
Proof.
  unfold ThumbCache.run. revert s. induction ops as [|o ops IH]; intros s H; [exact H|].
  cbn [foldl]. apply IH. apply apply_length. exact H.
Qed.

Lemma run_max (ops : list ThumbCache.op) (s : ThumbCache.t) :
  ThumbCache.thumb_cache_max (ThumbCache.run ops s) = ThumbCache.thumb_cache_max s.
Proof.
  unfold ThumbCache.run. revert s. induction ops as [|o ops IH]; intros s; [reflexivity|].
  cbn [foldl]. rewrite IH. destruct o as [k|k img]; cbn [ThumbCache.apply].
  - apply get_frame.
  - reflexivity.
Qed.

(** Keys after the two kinds of access. *)
Lemma keys_promoted key (v : ThumbCache.PhotoImage) (d : list ((string * Z) * ThumbCache.PhotoImage)) :
  OrderedDict.keys (OrderedDict.remove key d ++ [(key, v)])
  = filter (fun x => x ≠ key) (OrderedDict.keys d) ++ [key].
Proof.
  unfold OrderedDict.keys. rewrite fmap_app. cbn.
  rewrite <- (od_keys_remove key d). reflexivity.
Qed.

Lemma put_cached_keys key img (s : ThumbCache.t) :
  ThumbCache.cached_keys (ThumbCache.put key img s)
  = drop (length (filter (fun x => x ≠ key) (ThumbCache.cached_keys s) ++ [key])
          - ThumbCache.thumb_cache_max s)
      (filter (fun x => x ≠ key) (ThumbCache.cached_keys s) ++ [key]).
Proof.
  unfold ThumbCache.cached_keys. rewrite put_thumb_cache.
  unfold OrderedDict.keys at 1. rewrite fmap_drop.
  rewrite <- (keys_promoted key img). unfold OrderedDict.keys.
  rewrite length_fmap. reflexivity.
Qed.

Lemma get_cached_keys key (s : ThumbCache.t) :
  ThumbCache.cached_keys (ThumbCache.get key s).2
  = if decide (key ∈ ThumbCache.cached_keys s)
    then filter (fun x => x ≠ key) (ThumbCache.cached_keys s) ++ [key]
    else ThumbCache.cached_keys s.
Proof.
  unfold ThumbCache.cached_keys.
  destruct (OrderedDict.get key (ThumbCache.thumb_cache s)) as [v|] eqn:E.
  - rewrite (get_hit _ _ _ E). cbn [snd ThumbCache.thumb_cache ThumbCache.set_thumb_cache].
    rewrite keys_promoted.
    rewrite decide_True by (eapply od_get_Some; exact E). reflexivity.
  - rewrite (get_miss _ _ E). cbn [snd].
    rewrite decide_False by (apply od_get_None; exact E). reflexivity.
Qed.

Lemma NoDup_promoted (key : string * Z) (l : list (string * Z)) :
  NoDup l -> NoDup (filter (fun x => x ≠ key) l ++ [key]).
Proof.
  intros H. apply NoDup_app. split; [apply NoDup_filter, H|]. split.
  - intros x Hx Hk. apply list_elem_of_singleton in Hk as ->.
    apply list_elem_of_filter in Hx as [Hx _]. congruence.
  - apply NoDup_singleton.
Qed.

Lemma NoDup_drop {A : Type} (n : nat) (l : list A) : NoDup l -> NoDup (drop n l).
Proof.
  intros H. rewrite <- (take_drop n l) in H. apply NoDup_app in H as (_ & _ & H). exact H.
Qed.

Lemma apply_NoDup (o : ThumbCache.op) (s : ThumbCache.t) :
  NoDup (ThumbCache.cached_keys s) -> NoDup (ThumbCache.cached_keys (ThumbCache.apply s o)).
Proof.
  intros H. destruct o as [k|k img]; cbn [ThumbCache.apply].
  - rewrite get_cached_keys. destruct (decide _); [apply NoDup_promoted, H | exact H].
  - rewrite put_cached_keys. apply NoDup_drop, NoDup_promoted, H.
Qed.

Lemma filter_absent (key : string * Z) (l : list (string * Z)) :
  key ∉ l -> filter (fun x => x ≠ key) l = l.
Proof.
  induction l as [|x l IH]; [reflexivity|].
  rewrite not_elem_of_cons. intros [Hne Hout].
  rewrite filter_cons, decide_True by congruence. rewrite (IH Hout). reflexivity.
Qed.

Lemma run_snoc (ops : list ThumbCache.op) (o : ThumbCache.op) (s : ThumbCache.t) :
  ThumbCache.run (ops ++ [o]) s = ThumbCache.apply (ThumbCache.run ops s) o.
Proof. unfold ThumbCache.run. rewrite foldl_app. reflexivity. Qed.

(** Filling the cache with distinct keys keeps the last [C] of them. *)
Lemma puts_cached_keys (l : list ((string * Z) * ThumbCache.PhotoImage)) (s : ThumbCache.t) :
  ThumbCache.thumb_cache s = [] -> NoDup l.*1 ->
  ThumbCache.cached_keys (ThumbCache.puts l s)
  = drop (length l - ThumbCache.thumb_cache_max s) l.*1.
Proof.
  intros Hempty. unfold ThumbCache.puts.
  induction l as [|[k img] l IH] using rev_ind; intros Hnd.
  - cbn. unfold ThumbCache.cached_keys. rewrite Hempty. reflexivity.
  - rewrite fmap_app in Hnd. cbn in Hnd.
    apply NoDup_app in Hnd as (Hnd & Hk & _).
    rewrite fmap_app. cbn [fmap list_fmap]. rewrite run_snoc. cbn [ThumbCache.apply fst snd].
    rewrite put_cached_keys, run_max, (IH Hnd).
    set (cap := ThumbCache.thumb_cache_max s).
    set (L := l.*1) in *.
    assert (HL : length L = length l) by (unfold L; apply length_fmap).
    assert (Hout : k ∉ drop (length l - cap) L).
    { intros Hin. apply (Hk k); [|apply list_elem_of_singleton; reflexivity].
      rewrite <- (take_drop (length l - cap) L). apply elem_of_app. right. exact Hin. }
    rewrite (filter_absent _ _ Hout), fmap_app. fold L. cbn [fmap list_fmap fst].
    rewrite !length_app, length_drop. cbn [length].
    destruct (decide (length l <= cap)%nat) as [Hle|Hgt].
    + replace (length l - cap)%nat with 0%nat by lia. rewrite drop_0.
      f_equal. lia.
    + replace (length L - (length l - cap) + 1 - cap)%nat with 1%nat by lia.
      replace (length l + 1 - cap)%nat with ((length l - cap) + 1)%nat by lia.
      rewrite <- drop_drop. rewrite (drop_app_le L) by lia. reflexivity.
Qed.

(** ** A promoted key outlives fewer than [C] other keys *)

Section promotion.
Variable k : string * Z.
Variable T : gset (string * Z).
Hypothesis k_fresh : k ∉ T.

(** [k] is cached, and every key more recently used than [k] is in [T]. *)
Definition ahead_of (s : ThumbCache.t) : Prop :=
  NoDup (ThumbCache.cached_keys s)
  /\ exists pre post, ThumbCache.cached_keys s = pre ++ k :: post
                      /\ forall x, x ∈ post -> x ∈ T.

Lemma length_within (post : list (string * Z)) :
  NoDup post -> (forall x, x ∈ post -> x ∈ T) -> (length post <= size T)%nat.
Proof.
  intros Hnd Hsub.
  rewrite <- (size_list_to_set (C := gset (string * Z)) post Hnd).
  apply subseteq_size. intros x Hx. apply elem_of_list_to_set in Hx. auto.
Qed.

Lemma promoted_shape (k' : string * Z) (pre post : list (string * Z)) :
  k' ∈ T ->
  filter (fun x => x ≠ k') (pre ++ k :: post) ++ [k']
  = filter (fun x => x ≠ k') pre ++ k :: (filter (fun x => x ≠ k') post ++ [k']).
Proof.
  intros Hk'. rewrite filter_app, filter_cons.
  rewrite decide_True by (intros ->; exact (k_fresh Hk')).
  rewrite <- app_assoc. reflexivity.
Qed.

Lemma ahead_of_get (s : ThumbCache.t) :
  NoDup (ThumbCache.cached_keys s) -> k ∈ ThumbCache.cached_keys s ->
  ahead_of (ThumbCache.get k s).2.
Proof.
  intros Hnd Hin. unfold ahead_of. rewrite get_cached_keys, decide_True by exact Hin.
  split; [apply NoDup_promoted, Hnd|].
  exists (filter (fun x => x ≠ k) (ThumbCache.cached_keys s)), [].
  split; [reflexivity|]. intros x Hx. apply elem_of_nil in Hx. contradiction.
Qed.

Lemma ahead_of_apply (o : ThumbCache.op) (s : ThumbCache.t) :
  ThumbCache.op_key o ∈ T -> (size T < ThumbCache.thumb_cache_max s)%nat ->
  ahead_of s -> ahead_of (ThumbCache.apply s o).
Proof.
  intros Ho Hsize [Hnd (pre & post & Hkeys & Hpost)].
  split; [apply apply_NoDup, Hnd|].
  assert (Hpost' : forall k', k' ∈ T ->
            forall x, x ∈ filter (fun x => x ≠ k') post ++ [k'] -> x ∈ T).
  { intros k' Hk' x Hx. apply elem_of_app in Hx as [Hx|Hx].
    - apply list_elem_of_filter in Hx as [_ Hx]. auto.
    - apply list_elem_of_singleton in Hx as ->. exact Hk'. }
  destruct o as [k'|k' img]; cbn [ThumbCache.apply ThumbCache.op_key] in *.
  - rewrite get_cached_keys. destruct (decide _) as [Hin|Hout].
    + rewrite Hkeys, (promoted_shape k' pre post Ho). eauto.
    + eauto.
  - rewrite put_cached_keys, Hkeys, (promoted_shape k' pre post Ho).
    set (pre' := filter (fun x => x ≠ k') pre).
    set (post' := filter (fun x => x ≠ k') post ++ [k']).
    assert (Hnd' : NoDup (pre' ++ k :: post')).
    { unfold pre', post'. rewrite <- (promoted_shape k' pre post Ho), <- Hkeys.
      apply NoDup_promoted, Hnd. }
    assert (Hlen : (length post' <= size T)%nat).
    { apply length_within; [|apply Hpost', Ho].
      apply NoDup_app in Hnd' as (_ & _ & Hnd'). apply NoDup_cons in Hnd' as [_ Hnd'].
      exact Hnd'. }
    rewrite length_app. cbn [length].
    rewrite drop_app_le by lia. eauto.
Qed.

Lemma ahead_of_run (ops : list ThumbCache.op) (s : ThumbCache.t) :
  Forall (fun o => ThumbCache.op_key o ∈ T) ops ->
  (size T < ThumbCache.thumb_cache_max s)%nat ->
  ahead_of s -> ahead_of (ThumbCache.run ops s).
Proof.
  induction ops as [|o ops IH] using rev_ind; intros Hops Hsize Hs; [exact Hs|].
  apply Forall_app in Hops as [Hops Ho]. rewrite Forall_singleton in Ho.
  rewrite run_snoc. apply ahead_of_apply; [exact Ho | rewrite run_max; exact Hsize|].
  apply IH; assumption.
Qed.

End promotion.

Lemma run_NoDup (ops : list ThumbCache.op) (s : ThumbCache.t) :
  NoDup (ThumbCache.cached_keys s) -> NoDup (ThumbCache.cached_keys (ThumbCache.run ops s)).
Proof.
  unfold ThumbCache.run. revert s. induction ops as [|o ops IH]; intros s H; [exact H|].
  cbn [foldl]. apply IH, apply_NoDup, H.
Qed.

(** C2: the memory cache, of capacity C = 350. [put] inserts or overwrites
    the key, makes it the most recently used entry, then drops entries from
    the least recently used end while there are more than C; [get] on a hit
    returns the value and makes the key the most recently used, and on a
    miss changes nothing; after any sequence of operations the cache holds
    at most C entries; after inserting C + n distinct keys into the empty
    cache, the n earliest are gone and the cache holds exactly the last C,
    in order of insertion; a key accessed by [get] stays in the cache as
    long as the accesses after it touch at most C - 1 distinct other
    keys. *)
Theorem memory_cache_lru (dc : DiskCache.t) :
  ThumbCache.thumb_cache_max (ThumbCache.init dc) = 350%nat
  /\ (forall key img s,
        ThumbCache.thumb_cache (ThumbCache.put key img s)
        = drop (length (OrderedDict.remove key (ThumbCache.thumb_cache s) ++ [(key, img)])
                - ThumbCache.thumb_cache_max s)
            (OrderedDict.remove key (ThumbCache.thumb_cache s) ++ [(key, img)]))
  /\ (forall key v s,
        OrderedDict.get key (ThumbCache.thumb_cache s) = Some v ->
        ThumbCache.get key s
        = (Some v,
           ThumbCache.set_thumb_cache
             (OrderedDict.remove key (ThumbCache.thumb_cache s) ++ [(key, v)]) s))
  /\ (forall key s,
        OrderedDict.get key (ThumbCache.thumb_cache s) = None ->
        ThumbCache.get key s = (None, s))
  /\ (forall ops,
        (length (ThumbCache.thumb_cache (ThumbCache.run ops (ThumbCache.init dc)))
         <= 350)%nat)
  /\ (forall (l : list ((string * Z) * ThumbCache.PhotoImage)) (n : nat),
        NoDup l.*1 -> length l = (350 + n)%nat ->
        ThumbCache.cached_keys (ThumbCache.puts l (ThumbCache.init dc)) = drop n l.*1
        /\ length (ThumbCache.cached_keys (ThumbCache.puts l (ThumbCache.init dc)))
           = 350%nat
        /\ forall x, x ∈ take n l.*1 ->
             x ∉ ThumbCache.cached_keys (ThumbCache.puts l (ThumbCache.init dc)))
  /\ (forall (k : string * Z) (T : gset (string * Z)) ops0 ops,
        k ∈ ThumbCache.cached_keys (ThumbCache.run ops0 (ThumbCache.init dc)) ->
        k ∉ T -> (size T <= 350 - 1)%nat ->
        Forall (fun o => ThumbCache.op_key o ∈ T) ops ->
        k ∈ ThumbCache.cached_keys
              (ThumbCache.run ops
                 (ThumbCache.get k (ThumbCache.run ops0 (ThumbCache.init dc))).2)).
Proof.
  split; [reflexivity|].
  split; [apply put_thumb_cache|].
  split; [apply get_hit|].
  split; [apply get_miss|].
  split.
  { intros ops.
    pose proof (run_length ops (ThumbCache.init dc)) as H.
    rewrite run_max in H. apply H. cbn. lia. }
  split.
  { intros l n Hnd Hlen.
    pose proof (puts_cached_keys l (ThumbCache.init dc) eq_refl Hnd) as Hkeys.
    change (ThumbCache.thumb_cache_max (ThumbCache.init dc)) with 350%nat in Hkeys.
    replace (length l - 350)%nat with n in Hkeys by lia.
    rewrite Hkeys. split; [reflexivity|]. split.
    - rewrite length_drop, length_fmap. lia.
    - intros x Hx Hx'. rewrite <- (take_drop n l.*1) in Hnd.
      apply NoDup_app in Hnd as (_ & Hd & _). exact (Hd x Hx Hx'). }
  intros k T ops0 ops Hin Hk Hsize Hops.
  set (s := ThumbCache.run ops0 (ThumbCache.init dc)) in *.
  assert (Hnd : NoDup (ThumbCache.cached_keys s)).
  { apply run_NoDup. cbn. apply NoDup_nil_2. }
  assert (Hmax : ThumbCache.thumb_cache_max (ThumbCache.get k s).2 = 350%nat).
  { destruct (get_frame k s) as [-> _]. unfold s. rewrite run_max. reflexivity. }
  destruct (ahead_of_run k T Hk ops (ThumbCache.get k s).2 Hops
              ltac:(rewrite Hmax; lia) (ahead_of_get k T s Hnd Hin))
    as [_ (pre & post & -> & _)].
  apply elem_of_app. right. apply elem_of_cons. left. reflexivity.
Qed.

Lemma memory_cache_lru_witness :
  ("a"%string, 200)
  ∈ ThumbCache.cached_keys
      (ThumbCache.run [ThumbCache.Put ("b"%string, 200) (ThumbCache.mkPhoto [2])]
         (ThumbCache.get ("a"%string, 200)
            (ThumbCache.run [ThumbCache.Put ("a"%string, 200) (ThumbCache.mkPhoto [1])]
               (ThumbCache.init Inputs.dc0))).2).
Proof.
  destruct (memory_cache_lru Inputs.dc0) as (_ & _ & _ & _ & _ & _ & H).
  apply (H ("a"%string, 200) {[ ("b"%string, 200) ]}
           [ThumbCache.Put ("a"%string, 200) (ThumbCache.mkPhoto [1])]
           [ThumbCache.Put ("b"%string, 200) (ThumbCache.mkPhoto [2])]).
  - vm_compute. apply list_elem_of_here.
  - rewrite elem_of_singleton. discriminate.
  - rewrite size_singleton. lia.
  - apply Forall_singleton. cbn. apply elem_of_singleton. reflexivity.
Defined.

(** ** One generation job per key *)

Lemma ui_ok_refl (tc : ThumbCache.t) : System.ui_ok tc tc.
Proof. split; auto. Qed.

Lemma ui_ok_trans (a b c : ThumbCache.t) :
  System.ui_ok a b -> System.ui_ok b c -> System.ui_ok a c.
Proof. intros [H1 H2] [H3 H4]. split; [congruence | auto]. Qed.

(** A change that leaves the queues, the in-flight set and the size alone. *)
Lemma ui_ok_frame (tc tc' : ThumbCache.t) :
  ThumbCache.thumb_max tc' = ThumbCache.thumb_max tc ->
  ThumbCache.thumb_req_q tc' = ThumbCache.thumb_req_q tc ->
  ThumbCache.thumb_done_q tc' = ThumbCache.thumb_done_q tc ->
  ThumbCache.thumb_inflight tc' = ThumbCache.thumb_inflight tc ->
  System.ui_ok tc tc'.
Proof.
  intros Hm Hr Hd Hi. split; [exact Hm|]. intros j.
  unfold System.job_inv, System.outstanding, System.key_of_request, System.key_of_result.
  rewrite Hm, Hr, Hd, Hi. auto.
Qed.

Lemma ui_ok_get key (tc : ThumbCache.t) : System.ui_ok tc (ThumbCache.get key tc).2.
Proof. destruct (get_frame key tc) as (_ & ? & ? & ? & ? & _). apply ui_ok_frame; auto. Qed.

Lemma ui_ok_put key img (tc : ThumbCache.t) : System.ui_ok tc (ThumbCache.put key img tc).
Proof. apply ui_ok_frame; reflexivity. Qed.

Lemma ui_ok_set_poller id (tc : ThumbCache.t) :
  System.ui_ok tc (ThumbCache.set_thumb_poller_id id tc).
Proof. apply ui_ok_frame; reflexivity. Qed.

Lemma ui_ok_ensure_thumb_poller (tk : Tk.t) (tc : ThumbCache.t) :
  System.ui_ok tc (ThumbCache.ensure_thumb_poller tk tc).2.
Proof.
  unfold ThumbCache.ensure_thumb_poller.
  destruct (ThumbCache.thumb_poller_id tc); [apply ui_ok_refl|].
  cbn. apply ui_ok_set_poller.
Qed.

Lemma ui_ok_check_inflight idx cache_id path_text (tc : ThumbCache.t) :
  System.ui_ok tc (ThumbCache.check_inflight idx cache_id path_text tc).2.
Proof.
  unfold ThumbCache.check_inflight. cbv zeta.
  destruct (bool_decide _) eqn:E; [|apply ui_ok_refl].
  apply bool_decide_eq_true in E. cbn [snd].
  split; [reflexivity|]. intros j [Hnd Hin].
  unfold System.job_inv, System.outstanding in *. cbn.
  rewrite fmap_app, <- app_assoc. cbn [fmap list_fmap app].
  unfold System.key_of_request at 2. cbn [snd].
  unfold System.key_of_request, System.key_of_result in *. cbn in *.
  set (key := (cache_id, ThumbCache.thumb_max tc)) in *.
  set (A := (fun r : nat * string * string => (r.2, ThumbCache.thumb_max tc))
              <$> ThumbCache.thumb_req_q tc) in *.
  set (B := ((fun r : nat * string * string => (r.2, ThumbCache.thumb_max tc))
               <$> option_list j)
            ++ ((fun r : nat * string * string * option (list Z) =>
                   (r.1.2, ThumbCache.thumb_max tc)) <$> ThumbCache.thumb_done_q tc)) in *.
  assert (Hfresh : key ∉ A ++ B) by (intros H; apply E, Hin, H).
  split.
  - apply NoDup_app in Hnd as (HA & HAB & HB).
    apply NoDup_app. split; [exact HA|]. split.
    + intros x Hx Hx'. apply elem_of_cons in Hx' as [-> | Hx'].
      * apply Hfresh, elem_of_app. left. exact Hx.
      * exact (HAB x Hx Hx').
    + apply NoDup_cons. split; [|exact HB].
      intros H. apply Hfresh, elem_of_app. right. exact H.
  - intros x. rewrite elem_of_app, elem_of_cons, elem_of_union, elem_of_singleton.
    rewrite <- Hin, elem_of_app. tauto.
Qed.

Lemma ui_ok_check_incache idx cache_id path_text (tc : ThumbCache.t) :
  System.ui_ok tc (ThumbCache.check_incache idx cache_id path_text tc).2.
Proof.
  unfold ThumbCache.check_incache. cbv zeta.
  destruct (OrderedDict.get _ _); [apply ui_ok_refl | apply ui_ok_check_inflight].
Qed.

(** Polling one result ends the job of its key. *)
Lemma ui_ok_consume (r : nat * string * string * option (list Z)) rest (tc : ThumbCache.t) :
  ThumbCache.thumb_done_q tc = r :: rest ->
  System.ui_ok tc
    (ThumbCache.set_thumb_inflight
       (ThumbCache.thumb_inflight tc ∖ {[ (r.1.2, ThumbCache.thumb_max tc) ]})
       (ThumbCache.set_thumb_done_q rest tc)).
Proof.
  intros Hq. split; [reflexivity|]. intros j [Hnd Hin].
  unfold System.job_inv, System.outstanding in *.
  cbn [ThumbCache.thumb_req_q ThumbCache.thumb_done_q ThumbCache.thumb_inflight
       ThumbCache.set_thumb_inflight ThumbCache.set_thumb_done_q].
  rewrite Hq in Hnd, Hin. rewrite fmap_cons in Hnd, Hin.
  change (System.key_of_request (ThumbCache.set_thumb_inflight _ _))
    with (System.key_of_request tc).
  change (System.key_of_result (ThumbCache.set_thumb_inflight _ _))
    with (System.key_of_result tc).
  change (System.key_of_result tc r) with (r.1.2, ThumbCache.thumb_max tc) in Hnd, Hin.
  remember (r.1.2, ThumbCache.thumb_max tc) as key eqn:Ekey.
  remember (System.key_of_request tc <$> ThumbCache.thumb_req_q tc) as R eqn:ER.
  remember (System.key_of_request tc <$> option_list j) as J eqn:EJ.
  remember (System.key_of_result tc <$> rest) as D eqn:ED.
  clear ER EJ ED Ekey Hq.
  apply NoDup_app in Hnd as (HR & HRJ & HJD).
  apply NoDup_app in HJD as (HJ & HJD & HD).
  apply NoDup_cons in HD as [Hk HD].
  split.
  - apply NoDup_app. split; [exact HR|]. split.
    + intros x Hx Hx'. apply (HRJ x Hx). rewrite elem_of_app, elem_of_cons.
      apply elem_of_app in Hx' as [Hx'|Hx']; tauto.
    + apply NoDup_app. split; [exact HJ|]. split; [|exact HD].
      intros x Hx Hx'. apply (HJD x Hx), elem_of_cons. right. exact Hx'.
  - intros x. rewrite elem_of_difference, elem_of_singleton, <- Hin.
    rewrite !elem_of_app, elem_of_cons. split.
    + intros H. split; [tauto|]. intros ->.
      destruct H as [H | [H | H]].
      * apply (HRJ key H). rewrite elem_of_app, elem_of_cons. tauto.
      * apply (HJD key H), elem_of_cons. left. reflexivity.
      * exact (Hk H).
    + tauto.
Qed.

Lemma ui_ok_poll_loop photo_image (n : nat) (tc : ThumbCache.t) (updated : bool) :
  System.ui_ok tc (ThumbCache.poll_loop photo_image n tc updated).1.
Proof.
  revert tc updated. induction n as [|n IH]; intros tc updated; [apply ui_ok_refl|].
  cbn [ThumbCache.poll_loop].
  destruct (ThumbCache.thumb_done_q tc) as [|[[[idx path_text] cache_id] png] rest] eqn:Hq;
    [apply ui_ok_refl|].
  pose proof (ui_ok_consume (idx, path_text, cache_id, png) rest tc Hq) as Hc.
  cbn [fst snd] in Hc.
  destruct png as [data|]; [destruct (photo_image data) as [photo|]|].
  - eapply ui_ok_trans; [exact Hc|]. eapply ui_ok_trans; [|apply IH]. apply ui_ok_put.
  - eapply ui_ok_trans; [exact Hc | apply IH].
  - eapply ui_ok_trans; [exact Hc | apply IH].
Qed.

Lemma ui_ok_poll_thumbs photo_image (tk : Tk.t) (tc : ThumbCache.t) :
  System.ui_ok tc (ThumbCache._poll_thumbs photo_image tk tc).2.
Proof.
  unfold ThumbCache._poll_thumbs.
  pose proof (ui_ok_poll_loop photo_image 40 (ThumbCache.set_thumb_poller_id None tc) false)
    as Hl.
  destruct (ThumbCache.poll_loop _ _ _ _) as [tc1 u]. cbn [fst] in Hl.
  eapply ui_ok_trans; [apply ui_ok_set_poller|].
  eapply ui_ok_trans; [exact Hl|]. apply ui_ok_ensure_thumb_poller.
Qed.

(** ** Timers and their owners *)

Lemma pending_after (ms : Z) (cb cb' : Tk.callback) (tk : Tk.t) :
  Tk.pending cb' (Tk.after ms cb tk).2
  = Tk.pending cb' tk
    ++ (if decide (cb = cb')
        then [Tk.mkTimer (Tk.next_id tk) (Tk.clock tk + inject_Z ms / 1000)%Q cb]
        else []).
Proof.
  unfold Tk.pending, Tk.after. cbn. rewrite filter_app. f_equal.
Qed.

Lemma pending_cancel (id : nat) (cb : Tk.callback) (tk : Tk.t) :
  Tk.pending cb (Tk.after_cancel id tk)
  = filter (fun tm => Tk.timer_id tm ≠ id) (Tk.pending cb tk).
Proof.
  unfold Tk.pending, Tk.after_cancel. cbn.
  induction (Tk.timers tk) as [|tm l IH]; [reflexivity|].
  rewrite !filter_cons.
  destruct (decide (Tk.timer_id tm ≠ id)); destruct (decide (Tk.timer_cb tm = cb));
    rewrite ?filter_cons; repeat (destruct (decide _); try tauto); rewrite IH; reflexivity.
Qed.

Lemma ids_filter (P : Tk.timer -> Prop) `{forall tm, Decision (P tm)} (l : list Tk.timer) :
  NoDup (Tk.timer_id <$> l) -> NoDup (Tk.timer_id <$> filter P l).
Proof.
  intros Hnd. induction l as [|tm l IH]; [exact Hnd|].
  rewrite fmap_cons in Hnd. apply NoDup_cons in Hnd as [Hout Hnd].
  rewrite filter_cons. destruct (decide (P tm)); [|exact (IH Hnd)].
  rewrite fmap_cons. apply NoDup_cons. split; [|exact (IH Hnd)].
  intros Hin. apply Hout. apply list_elem_of_fmap in Hin as (tm' & Hid & Hin).
  apply list_elem_of_filter in Hin as [_ Hin]. apply list_elem_of_fmap. eauto.
Qed.

(** Removing the timer [id] from a list of timers with distinct ids. *)
Lemma ids_without (id : nat) (l : list Tk.timer) :
  Tk.timer_id <$> filter (fun tm => Tk.timer_id tm ≠ id) l
  = filter (fun x => x ≠ id) (Tk.timer_id <$> l).
Proof.
  induction l as [|tm l IH]; [reflexivity|].
  rewrite fmap_cons, !filter_cons.
  destruct (decide (Tk.timer_id tm ≠ id)); [rewrite fmap_cons|]; rewrite IH; reflexivity.
Qed.

Lemma filter_nat_absent (id : nat) (l : list nat) :
  id ∉ l -> filter (fun x => x ≠ id) l = l.
Proof.
  induction l as [|x l IH]; [reflexivity|].
  rewrite not_elem_of_cons. intros [Hne Hout].
  rewrite filter_cons, decide_True by congruence. rewrite (IH Hout). reflexivity.
Qed.

(** The callback of a pending timer owns it. *)
Lemma owned_timer (tk : Tk.t) ow (tm : Tk.timer) :
  Tk.owned tk ow -> tm ∈ Tk.timers tk -> ow (Tk.timer_cb tm) = Some (Tk.timer_id tm).
Proof.
  intros (_ & _ & Hown) Hin.
  assert (Hp : tm ∈ Tk.pending (Tk.timer_cb tm) tk).
  { unfold Tk.pending. apply list_elem_of_filter. auto. }
  specialize (Hown (Tk.timer_cb tm)).
  destruct (ow (Tk.timer_cb tm)) as [id|]; cbn in Hown.
  - destruct (Tk.pending (Tk.timer_cb tm) tk) as [|x [|y l]]; try discriminate.
    apply list_elem_of_singleton in Hp as ->. cbn in Hown. congruence.
  - apply fmap_nil_inv in Hown. rewrite Hown in Hp. apply elem_of_nil in Hp. contradiction.
Qed.

(** The timer with a given id belongs to one callback only. *)
Lemma owned_other (tk : Tk.t) ow (cb cb' : Tk.callback) (id : nat) :
  Tk.owned tk ow -> ow cb = Some id -> cb' ≠ cb ->
  id ∉ Tk.timer_id <$> Tk.pending cb' tk.
Proof.
  intros Hown Hcb Hne Hin.
  destruct Hown as (Hnd & Hb & Ho).
  pose proof (Ho cb) as Hp. rewrite Hcb in Hp. cbn in Hp.
  apply list_elem_of_fmap in Hin as (tm' & Hid & Hin').
  assert (Hin2 : id ∈ Tk.timer_id <$> Tk.pending cb tk).
  { rewrite Hp. apply list_elem_of_singleton. reflexivity. }
  apply list_elem_of_fmap in Hin2 as (tm & Hid2 & Hin2).
  unfold Tk.pending in Hin', Hin2.
  apply list_elem_of_filter in Hin' as [Hcb' Hin'].
  apply list_elem_of_filter in Hin2 as [Hcb2 Hin2].
  assert (tm = tm'); [|congruence].
  apply list_elem_of_lookup in Hin' as [i Hi]. apply list_elem_of_lookup in Hin2 as [j Hj].
  assert (i = j); [|congruence].
  apply (NoDup_lookup _ i j id Hnd); rewrite list_lookup_fmap.
  - rewrite Hi. cbn. congruence.
  - rewrite Hj. cbn. congruence.
Qed.

Lemma owned_ext (tk : Tk.t) ow ow' :
  Tk.owned tk ow -> (forall cb, ow' cb = ow cb) -> Tk.owned tk ow'.
Proof.
  intros (H1 & H2 & H3) He. split; [exact H1|]. split; [exact H2|].
  intros cb. rewrite He. apply H3.
Qed.

Lemma owned_after (ms : Z) (cb : Tk.callback) (tk : Tk.t) ow ow' :
  Tk.owned tk ow -> ow cb = None ->
  ow' cb = Some (Tk.next_id tk) -> (forall cb', cb' ≠ cb -> ow' cb' = ow cb') ->
  Tk.owned (Tk.after ms cb tk).2 ow'.
Proof.
  intros (Hnd & Hb & Ho) Hnone Hnew Hsame. split; [|split].
  - unfold Tk.after. cbn. rewrite fmap_app. cbn.
    apply NoDup_app. split; [exact Hnd|]. split; [|apply NoDup_singleton].
    intros x Hx Hx'. apply list_elem_of_singleton in Hx' as ->.
    apply list_elem_of_fmap in Hx as (tm & Hid & Hin).
    rewrite Forall_forall in Hb. specialize (Hb tm Hin). lia.
  - unfold Tk.after. cbn. apply Forall_app. split.
    + eapply Forall_impl; [exact Hb|]. cbn. intros tm Htm. lia.
    + apply Forall_singleton. cbn. lia.
  - intros cb'. rewrite pending_after, fmap_app, Ho.
    destruct (decide (cb = cb')) as [<-|Hne].
    + rewrite Hnone, Hnew. reflexivity.
    + rewrite Hsame by congruence. cbn. apply app_nil_r.
Qed.

Lemma owned_cancel (id : nat) (cb : Tk.callback) (tk : Tk.t) ow ow' :
  Tk.owned tk ow -> ow cb = Some id ->
  ow' cb = None -> (forall cb', cb' ≠ cb -> ow' cb' = ow cb') ->
  Tk.owned (Tk.after_cancel id tk) ow'.
Proof.
  intros Hown Hcb Hnone Hsame.
  pose proof Hown as (Hnd & Hb & Ho). split; [|split].
  - unfold Tk.after_cancel. cbn. apply ids_filter, Hnd.
  - unfold Tk.after_cancel. cbn. apply Forall_forall. intros tm Hin.
    apply list_elem_of_filter in Hin as [_ Hin].
    rewrite Forall_forall in Hb. exact (Hb tm Hin).
  - intros cb'. rewrite pending_cancel, ids_without.
    destruct (decide (cb' = cb)) as [->|Hne].
    + rewrite Ho, Hcb, Hnone. change (option_list (Some id)) with [id].
      rewrite filter_cons, decide_False by tauto. reflexivity.
    + rewrite filter_nat_absent by (eapply owned_other; eassumption).
      rewrite Ho, Hsame by exact Hne. reflexivity.
Qed.

Lemma pending_take (tm : Tk.timer) (cb : Tk.callback) (tk : Tk.t) :
  Tk.pending cb (Tk.take tm tk) = Tk.pending cb (Tk.after_cancel (Tk.timer_id tm) tk).
Proof. reflexivity. Qed.

Lemma owned_take (tm : Tk.timer) (tk : Tk.t) ow ow' :
  Tk.owned tk ow -> tm ∈ Tk.timers tk ->
  ow' (Tk.timer_cb tm) = None ->
  (forall cb', cb' ≠ Tk.timer_cb tm -> ow' cb' = ow cb') ->
  Tk.owned (Tk.take tm tk) ow'.
Proof.
  intros Hown Hin Hnone Hsame.
  pose proof (owned_cancel (Tk.timer_id tm) (Tk.timer_cb tm) tk ow ow' Hown
                (owned_timer _ _ _ Hown Hin) Hnone Hsame) as (H1 & H2 & H3).
  split; [exact H1|]. split; [exact H2|]. intros cb. rewrite pending_take. apply H3.
Qed.

Lemma owned_advance (now : Q) (tk : Tk.t) ow : Tk.owned tk ow -> Tk.owned (Tk.advance now tk) ow.
Proof. intros H. exact H. Qed.

Lemma owned_arm (cb : Tk.callback) (ms : Z) (tk : Tk.t) ow ow' :
  Tk.owned tk ow ->
  ow' cb = Some (Tk.next_id tk) -> (forall cb', cb' ≠ cb -> ow' cb' = ow cb') ->
  Tk.owned
    (Tk.after ms cb
       match ow cb with Some id => Tk.after_cancel id tk | None => tk end).2 ow'.
Proof.
  intros Hown Hnew Hsame.
  destruct (ow cb) as [id|] eqn:E.
  - apply (owned_after ms cb (Tk.after_cancel id tk)
             (fun c => if decide (c = cb) then None else ow c)).
    + apply (owned_cancel id cb tk ow); [exact Hown | exact E | |].
      * rewrite decide_True by reflexivity. reflexivity.
      * intros cb' Hne. rewrite decide_False by exact Hne. reflexivity.
    + rewrite decide_True by reflexivity. reflexivity.
    + exact Hnew.
    + intros cb' Hne. rewrite decide_False by exact Hne. apply Hsame, Hne.
  - apply (owned_after ms cb tk ow); assumption.
Qed.

(** ** The steps of the application keep the invariants *)

Lemma step_ok_refl (s : App.t) : System.step_ok s s.
Proof.
  split; [auto | split; [apply ui_ok_refl | split; [reflexivity|]]].
  exists []. rewrite app_nil_r. reflexivity.
Qed.

Lemma step_ok_trans (a b c : App.t) :
  System.step_ok a b -> System.step_ok b c -> System.step_ok a c.
Proof.
  intros (H1 & H2 & H5 & l1 & H7) (H3 & H4 & H6 & l2 & H8).
  split; [auto | split; [eapply ui_ok_trans; eassumption | split; [congruence|]]].
  exists (l1 ++ l2). rewrite H8, H7, app_assoc. reflexivity.
Qed.

(** A step that changes neither the timers, nor the ids held, nor the
    cache object. *)
Lemma step_ok_frame (s s' : App.t) :
  App.root s' = App.root s -> (forall cb, App.owner s' cb = App.owner s cb) ->
  App.thumb_cache s' = App.thumb_cache s ->
  App.render_min_interval_s s' = App.render_min_interval_s s ->
  System.step_ok s s'.
Proof.
  intros Hr Ho Ht Hm. split; [|split; [|split; [exact Hm|]]].
  - unfold System.sound. rewrite Hr. intros H. exact (owned_ext _ _ _ H Ho).
  - rewrite Ht. apply ui_ok_refl.
  - exists []. rewrite Hr, app_nil_r. reflexivity.
Qed.

Lemma schedule_render_thumb_cache (delay_ms : Z) (s : App.t) :
  App.thumb_cache (App._schedule_render delay_ms s) = App.thumb_cache s.
Proof.
  unfold App._schedule_render. cbv zeta.
  destruct (Tk.after _ _ _) as [id tk]. reflexivity.
Qed.

Lemma schedule_render_root (delay_ms : Z) (s : App.t) :
  let now := Tk.clock (App.root s) in
  let target := App.Qmax (now + App.delay_s delay_ms)%Q
                  (App.render_scheduled_at s + App.render_min_interval_s s)%Q in
  let wait_ms := Z.max 0 (Py.int_of_Q ((target - now) * 1000)%Q) in
  App.root (App._schedule_render delay_ms s)
  = (Tk.after wait_ms Tk.RenderResults
       match App.render_after_id s with
       | Some id => Tk.after_cancel id (App.root s)
       | None => App.root s
       end).2
  /\ App.render_after_id (App._schedule_render delay_ms s) = Some (Tk.next_id (App.root s))
  /\ App.render_scheduled_at (App._schedule_render delay_ms s) = target
  /\ App.render_min_interval_s (App._schedule_render delay_ms s)
     = App.render_min_interval_s s.
Proof.
  cbv zeta. unfold App._schedule_render. cbv zeta.
  destruct (App.render_after_id s); cbn; auto.
Qed.

Lemma schedule_render_owner (delay_ms : Z) (s : App.t) (cb : Tk.callback) :
  cb ≠ Tk.RenderResults ->
  App.owner (App._schedule_render delay_ms s) cb = App.owner s cb.
Proof.
  intros Hne. unfold App._schedule_render. cbv zeta.
  destruct (Tk.after _ _ _) as [id tk]. destruct cb; try reflexivity. congruence.
Qed.

Lemma step_ok_schedule_render (delay_ms : Z) (s : App.t) :
  System.step_ok s (App._schedule_render delay_ms s).
Proof.
  split; [|split; [rewrite schedule_render_thumb_cache; apply ui_ok_refl
                  |split; [apply schedule_render_root|]]];
    [|exists []; destruct (schedule_render_root delay_ms s) as (Hr & _);
      rewrite Hr, app_nil_r; destruct (App.render_after_id s); reflexivity].
  unfold System.sound. intros Hown.
  destruct (schedule_render_root delay_ms s) as (Hr & Hid & _).
  rewrite Hr.
  apply (owned_arm Tk.RenderResults _ (App.root s) (App.owner s)); [exact Hown | exact Hid|].
  intros cb' Hne. apply schedule_render_owner, Hne.
Qed.

Ltac frame_steps :=
  apply step_ok_frame; try intros [];
  cbv zeta; repeat case_match; reflexivity.

Lemma step_ok_update_card_geometry (s : App.t) :
  System.step_ok s (App._update_card_geometry s).
Proof. unfold App._update_card_geometry. frame_steps. Qed.

Lemma step_ok_ensure_canvas_pool (s : App.t) :
  System.step_ok s (App._ensure_canvas_pool s).
Proof. unfold App._ensure_canvas_pool. frame_steps. Qed.

Lemma step_ok_ensure_pool (s : App.t) : System.step_ok s (App._ensure_pool s).
Proof.
  unfold App._ensure_pool, App._ensure_canvas_pool, App._update_card_geometry.
  frame_steps.
Qed.

Lemma step_ok_recompute_virtual_geometry (s : App.t) :
  System.step_ok s (App._recompute_virtual_geometry s).
Proof. unfold App._recompute_virtual_geometry. frame_steps. Qed.

(** A change of the cache object by the rendering thread that leaves the
    poller id alone. *)
Lemma step_ok_set_thumb_cache (tc : ThumbCache.t) (s : App.t) :
  System.ui_ok (App.thumb_cache s) tc ->
  ThumbCache.thumb_poller_id tc = ThumbCache.thumb_poller_id (App.thumb_cache s) ->
  System.step_ok s (App.set_thumb_cache tc s).
Proof.
  intros Hui Hp.
  split; [|split; [exact Hui | split; [reflexivity | exists []; apply eq_sym, app_nil_r]]].
  unfold System.sound. intros H. apply (owned_ext _ _ _ H).
  intros []; try reflexivity. exact Hp.
Qed.

Lemma check_inflight_poller idx cache_id path_text (tc : ThumbCache.t) :
  ThumbCache.thumb_poller_id (ThumbCache.check_inflight idx cache_id path_text tc).2
  = ThumbCache.thumb_poller_id tc.
Proof. unfold ThumbCache.check_inflight. cbv zeta. case_match; reflexivity. Qed.

Lemma check_incache_poller idx cache_id path_text (tc : ThumbCache.t) :
  ThumbCache.thumb_poller_id (ThumbCache.check_incache idx cache_id path_text tc).2
  = ThumbCache.thumb_poller_id tc.
Proof.
  unfold ThumbCache.check_incache. cbv zeta.
  case_match; [reflexivity | apply check_inflight_poller].
Qed.

Lemma step_ok_render_thumbnail idx m card (s : App.t) :
  System.step_ok s (App.render_thumbnail idx m card s).2.
Proof.
  unfold App.render_thumbnail.
  destruct (ScrollActivityTracker.is_scroll_active _); [apply step_ok_refl|].
  cbv zeta.
  set (cache_id := if String.eqb (App.hash m) EmptyString then App.path m else App.hash m).
  set (tkey := ThumbCache.get_key cache_id (App.thumb_cache s)).
  pose proof (ui_ok_get tkey (App.thumb_cache s)) as Hg.
  destruct (get_frame tkey (App.thumb_cache s)) as (_ & _ & _ & _ & _ & Hp & _).
  destruct (ThumbCache.get tkey (App.thumb_cache s)) as [photo tc]. cbn [snd] in Hg, Hp.
  destruct photo as [ph|].
  - cbn [snd]. apply step_ok_set_thumb_cache; assumption.
  - pose proof (ui_ok_check_inflight idx cache_id (App.path m) tc) as Hc.
    pose proof (check_inflight_poller idx cache_id (App.path m) tc) as Hp2.
    destruct (ThumbCache.check_inflight idx cache_id (App.path m) tc) as [b tc2].
    cbn [snd] in *. apply step_ok_set_thumb_cache.
    + eapply ui_ok_trans; eassumption.
    + congruence.
Qed.

Lemma step_ok_render_slots start_index slot cards (s : App.t) vp :
  System.step_ok s (App.render_slots start_index slot cards s vp).1.2.
Proof.
  revert slot s vp. induction cards as [|card rest IH]; intros slot s vp;
    [apply step_ok_refl|].
  cbn [App.render_slots]. cbv zeta.
  destruct (App.matches s !! (start_index + slot)%nat) as [m|] eqn:Em.
  - match goal with
    | |- context [App.render_thumbnail ?i ?m ?c ?s1] =>
        pose proof (step_ok_render_thumbnail i m c s1) as Ht;
        assert (H0 : System.step_ok s s1) by (frame_steps);
        destruct (App.render_thumbnail i m c s1) as [card' s2]
    end.
    cbn [snd] in Ht.
    match goal with
    | |- context [App.render_slots ?a ?b ?c s2 ?d] =>
        pose proof (IH b s2 d) as Hr;
        destruct (App.render_slots a b c s2 d) as [[cs s3] vp3]
    end.
    cbn [fst snd] in *.
    eapply step_ok_trans; [exact H0|]. eapply step_ok_trans; eassumption.
  - pose proof (IH (S slot) s vp) as Hr.
    destruct (App.render_slots start_index (S slot) rest s vp) as [[cs s3] vp3].
    exact Hr.
Qed.

Lemma step_ok_render_canvas_only start_index (s : App.t) :
  System.step_ok s (App.render_canvas_only start_index s).1.
Proof.
  unfold App.render_canvas_only. cbv zeta.
  pose proof (step_ok_ensure_canvas_pool s) as H1.
  set (s1 := App._ensure_canvas_pool s) in *.
  pose proof (step_ok_render_slots start_index 0 (App.canvas_cards s1) s1 []) as H2.
  destruct (App.render_slots _ _ _ _ _) as [[cards s2] vp]. cbn [fst snd] in *.
  eapply step_ok_trans; [exact H1|]. eapply step_ok_trans; [exact H2|].
  frame_steps.
Qed.

Lemma step_ok_prefetch_loop idxs budget seen (s : App.t) :
  System.step_ok s (App.prefetch_loop idxs budget seen s).
Proof.
  revert budget seen s. induction idxs as [|i rest IH]; intros budget seen s;
    [apply step_ok_refl|].
  cbn [App.prefetch_loop].
  destruct (budget <=? 0); [apply step_ok_refl|].
  destruct (App.matches s !! i) as [m|]; [|apply step_ok_refl].
  destruct (bool_decide _); [apply IH|]. cbv zeta.
  set (cache_id := if String.eqb (App.hash m) EmptyString then App.path m else App.hash m).
  pose proof (ui_ok_check_incache i cache_id (App.path m) (App.thumb_cache s)) as Hc.
  pose proof (check_incache_poller i cache_id (App.path m) (App.thumb_cache s)) as Hp.
  destruct (ThumbCache.check_incache _ _ _ _) as [queued tc]. cbn [snd] in *.
  pose proof (step_ok_set_thumb_cache tc s Hc Hp) as Hs.
  destruct queued; cbn [negb]; (eapply step_ok_trans; [exact Hs | apply IH]).
Qed.

Lemma step_ok_prefetch_thumbs first_row vp (s : App.t) :
  System.step_ok s (App._prefetch_thumbs first_row vp s).
Proof.
  unfold App._prefetch_thumbs. destruct (App.matches s); [apply step_ok_refl|].
  cbv zeta. apply step_ok_prefetch_loop.
Qed.

Lemma step_ok_with_poller (s : App.t) : System.step_ok s (App.with_poller s).
Proof.
  unfold App.with_poller, ThumbCache.ensure_thumb_poller.
  destruct (ThumbCache.thumb_poller_id (App.thumb_cache s)) as [id|] eqn:E.
  - apply step_ok_frame; try intros []; reflexivity.
  - cbn. split; [|split; [apply ui_ok_set_poller
                          |split; [reflexivity | exists []; apply eq_sym, app_nil_r]]].
    unfold System.sound. intros Hown. cbn.
    apply (owned_after 30 Tk.PollThumbs (App.root s) (App.owner s)).
    + exact Hown.
    + exact E.
    + reflexivity.
    + intros []; try reflexivity. congruence.
Qed.

Lemma poll_loop_poller photo_image (n : nat) (tc : ThumbCache.t) (u : bool) :
  ThumbCache.thumb_poller_id (ThumbCache.poll_loop photo_image n tc u).1
  = ThumbCache.thumb_poller_id tc.
Proof.
  revert tc u. induction n as [|n IH]; intros tc u; [reflexivity|].
  cbn [ThumbCache.poll_loop].
  destruct (ThumbCache.thumb_done_q tc) as [|[[[idx path_text] cache_id] png] rest];
    [reflexivity|].
  destruct png as [data|]; [destruct (photo_image data)|]; rewrite IH; reflexivity.
Qed.

Lemma sound_clear (cb : Tk.callback) (s s' : App.t) :
  System.sound_but cb s ->
  App.root s' = App.root s ->
  App.owner s' cb = None ->
  (forall c, c ≠ cb -> App.owner s' c = App.owner s c) ->
  System.sound s'.
Proof.
  unfold System.sound_but, System.sound. intros H Hr Hn Hs. rewrite Hr.
  apply (owned_ext _ _ _ H). intros c. destruct (decide (c = cb)) as [->|Hne]; auto.
Qed.

(** The render pass after [self._render_after_id = None]. *)
Lemma step_ok_render_pass (s : App.t) :
  System.step_ok (App.set_render_after_id None s) (App._render_results s).
Proof.
  unfold App._render_results. cbv zeta.
  set (s0 := App.set_render_after_id None s).
  pose proof (step_ok_ensure_pool s0) as H1. set (s1 := App._ensure_pool s0) in *.
  pose proof (step_ok_recompute_virtual_geometry s1) as H2.
  set (s2 := App._recompute_virtual_geometry s1) in *.
  pose proof (step_ok_trans _ _ _ H1 H2) as H12.
  destruct (bool_decide _).
  - eapply step_ok_trans; [exact H12 | apply step_ok_with_poller].
  - match goal with
    | |- context [App.render_canvas_only ?i ?x] =>
        pose proof (step_ok_render_canvas_only i x) as H3;
        assert (H23 : System.step_ok s2 x) by frame_steps;
        destruct (App.render_canvas_only i x) as [s3 vp]
    end.
    cbn [fst] in H3.
    eapply step_ok_trans; [exact H12|]. eapply step_ok_trans; [exact H23|].
    eapply step_ok_trans; [exact H3|].
    eapply step_ok_trans; [apply step_ok_prefetch_thumbs | apply step_ok_with_poller].
Qed.

Section callbacks.
Variable photo_image : Py.bytes -> option ThumbCache.PhotoImage.

Lemma callback_sound (cb : Tk.callback) (s : App.t) :
  System.sound_but cb s -> System.sound (App.run_callback photo_image cb s).
Proof.
  intros H. destruct cb; cbn [App.run_callback].
  - apply (step_ok_render_pass s).
    apply (sound_clear Tk.RenderResults s); [exact H | reflexivity | reflexivity|].
    intros []; try reflexivity. congruence.
  - unfold App._mark_scroll_idle. cbv zeta. apply step_ok_schedule_render.
    apply (sound_clear Tk.MarkScrollIdle s); [exact H | reflexivity | reflexivity|].
    intros []; try reflexivity. congruence.
  - unfold App._flush_scroll. cbv zeta. apply step_ok_schedule_render.
    match goal with |- System.sound ?x =>
      apply (sound_clear Tk.FlushScroll s x)
    end; [exact H | | |].
    + destruct (_ =? _); reflexivity.
    + destruct (_ =? _); reflexivity.
    + intros [] Hne; try congruence; destruct (_ =? _); reflexivity.
  - unfold ThumbCache._poll_thumbs.
    pose proof (poll_loop_poller photo_image 40
                  (ThumbCache.set_thumb_poller_id None (App.thumb_cache s)) false) as Hp.
    destruct (ThumbCache.poll_loop _ _ _ _) as [tc u]. cbn [fst] in Hp. cbn in Hp.
    unfold ThumbCache.ensure_thumb_poller. rewrite Hp. cbn.
    unfold System.sound. cbn.
    apply (owned_after 30 Tk.PollThumbs (App.root s)
             (fun c => if decide (c = Tk.PollThumbs) then None else App.owner s c)).
    + exact H.
    + reflexivity.
    + reflexivity.
    + intros [] Hne; try congruence; reflexivity.
Qed.

Lemma callback_ui_ok (cb : Tk.callback) (s : App.t) :
  System.ui_ok (App.thumb_cache s) (App.thumb_cache (App.run_callback photo_image cb s)).
Proof.
  destruct cb; cbn [App.run_callback].
  - apply (step_ok_render_pass s).
  - unfold App._mark_scroll_idle. cbv zeta. rewrite schedule_render_thumb_cache.
    apply ui_ok_refl.
  - unfold App._flush_scroll. cbv zeta. rewrite schedule_render_thumb_cache.
    destruct (_ =? _); apply ui_ok_refl.
  - pose proof (ui_ok_poll_thumbs photo_image (App.root s) (App.thumb_cache s)) as H.
    destruct (ThumbCache._poll_thumbs _ _ _) as [tk tc]. exact H.
Qed.

Lemma fire_sound (tm : Tk.timer) (s : App.t) :
  System.sound s -> tm ∈ Tk.timers (App.root s) -> System.sound (App.fire photo_image tm s).
Proof.
  intros Hs Hin. unfold App.fire. apply callback_sound.
  unfold System.sound_but. cbn.
  apply (owned_take tm (App.root s) (App.owner s)); [exact Hs | exact Hin | |].
  - rewrite decide_True by reflexivity. reflexivity.
  - intros c Hne. rewrite decide_False by exact Hne. destruct c; reflexivity.
Qed.

Lemma callback_min_interval (cb : Tk.callback) (s : App.t) :
  App.render_min_interval_s (App.run_callback photo_image cb s)
  = App.render_min_interval_s s.
Proof.
  destruct cb; cbn [App.run_callback].
  - destruct (step_ok_render_pass s) as (_ & _ & H & _). exact H.
  - unfold App._mark_scroll_idle. cbv zeta.
    destruct (schedule_render_root 1
                (App.set_scroll_activity_tracker
                   (ScrollActivityTracker.mk false None
                      (ScrollActivityTracker.scroll_idle_ms (App.scroll_activity_tracker s)))
                   s)) as (_ & _ & _ & H).
    exact H.
  - unfold App._flush_scroll. cbv zeta.
    match goal with |- App.render_min_interval_s (App._schedule_render ?d ?x) = _ =>
      destruct (schedule_render_root d x) as (_ & _ & _ & H); rewrite H
    end.
    destruct (_ =? _); reflexivity.
  - destruct (ThumbCache._poll_thumbs _ _ _) as [tk tc]. reflexivity.
Qed.

Lemma fire_min_interval (tm : Tk.timer) (s : App.t) :
  App.render_min_interval_s (App.fire photo_image tm s) = App.render_min_interval_s s.
Proof. unfold App.fire. apply (callback_min_interval (Tk.timer_cb tm) (App.set_root _ s)). Qed.

(** A callback keeps the log of the timers fired before it. *)
Lemma callback_fired (cb : Tk.callback) (s : App.t) :
  exists l, Tk.fired (App.root (App.run_callback photo_image cb s))
            = Tk.fired (App.root s) ++ l.
Proof.
  assert (Hsched : forall d x, Tk.fired (App.root (App._schedule_render d x))
                               = Tk.fired (App.root x)).
  { intros d x. destruct (schedule_render_root d x) as (Hr & _).
    rewrite Hr. destruct (App.render_after_id x); reflexivity. }
  destruct cb; cbn [App.run_callback].
  - destruct (step_ok_render_pass s) as (_ & _ & _ & l & Hl). exists l. exact Hl.
  - exists []. unfold App._mark_scroll_idle. cbv zeta.
    rewrite Hsched, app_nil_r. reflexivity.
  - exists []. unfold App._flush_scroll. cbv zeta. rewrite Hsched, app_nil_r.
    destruct (_ =? _); reflexivity.
  - exists []. rewrite app_nil_r. unfold ThumbCache._poll_thumbs.
    destruct (ThumbCache.poll_loop _ _ _ _) as [tc u].
    unfold ThumbCache.ensure_thumb_poller.
    destruct (ThumbCache.thumb_poller_id _); reflexivity.
Qed.

Lemma fire_fired (tm : Tk.timer) (s : App.t) :
  exists l, Tk.fired (App.root (App.fire photo_image tm s))
            = Tk.fired (App.root s) ++ Tk.timer_cb tm :: l.
Proof.
  unfold App.fire.
  destruct (callback_fired (Tk.timer_cb tm) (App.set_root (Tk.take tm (App.root s)) s))
    as [l Hl].
  exists l. rewrite Hl. cbn. rewrite <- app_assoc. reflexivity.
Qed.

Lemma fire_ui_ok (tm : Tk.timer) (s : App.t) :
  System.ui_ok (App.thumb_cache s) (App.thumb_cache (App.fire photo_image tm s)).
Proof. unfold App.fire. apply (callback_ui_ok (Tk.timer_cb tm) (App.set_root _ s)). Qed.

Lemma earliest_in (best : option Tk.timer) (l : list Tk.timer) (tm : Tk.timer) :
  App.earliest best l = Some tm -> best = Some tm \/ tm ∈ l.
Proof.
  revert best. induction l as [|x l IH]; intros best H; cbn in H; [auto|].
  destruct best as [b|].
  - destruct (Qle_bool _ _).
    + destruct (IH _ H) as [Hb|Hin]; [auto | right; apply elem_of_cons; auto].
    + destruct (IH _ H) as [Hb|Hin]; right; apply elem_of_cons; [left; congruence | auto].
  - destruct (IH _ H) as [Hb|Hin]; right; apply elem_of_cons; [left; congruence | auto].
Qed.

Lemma next_due_in (tk : Tk.t) (tm : Tk.timer) :
  App.next_due tk = Some tm -> tm ∈ Tk.timers tk /\ Tk.is_due tk tm = true.
Proof.
  unfold App.next_due. intros H. apply earliest_in in H as [H|H]; [discriminate|].
  apply list_elem_of_filter in H. tauto.
Qed.

Lemma run_due_ok (fuel : nat) (s : App.t) :
  System.step_ok s (App.run_due photo_image fuel s).
Proof.
  revert s. induction fuel as [|n IH]; intros s; [apply step_ok_refl|].
  cbn [App.run_due]. destruct (App.next_due (App.root s)) as [tm|] eqn:E;
    [|apply step_ok_refl].
  apply next_due_in in E as [Hin _].
  eapply step_ok_trans; [|apply IH].
  split; [intros Hs; apply fire_sound; assumption
         | split; [apply fire_ui_ok | split; [apply fire_min_interval|]]].
  destruct (fire_fired tm s) as [l Hl]. eexists. exact Hl.
Qed.

End callbacks.

Lemma step_ok_mousewheel inside delta (s : App.t) :
  System.step_ok s (App._on_mousewheel inside delta s).
Proof.
  unfold App._on_mousewheel.
  destruct inside; cbn [negb]; [|apply step_ok_refl].
  destruct (delta =? 0); [apply step_ok_refl|]. cbv zeta.
  unfold ScrollActivityTracker.mark_scroll_active.
  set (s1 := App.set_pending_scroll_units _ s).
  assert (H1 : System.step_ok s s1) by (unfold s1; frame_steps).
  eapply step_ok_trans; [exact H1|].
  cbn [App.root App.scroll_activity_tracker s1 App.set_pending_scroll_units].
  destruct (Tk.after (ScrollActivityTracker.scroll_idle_ms _) _ _) as [id tk] eqn:Ea.
  match goal with |- System.step_ok _ (match App.scroll_after_id ?x with _ => _ end) =>
    set (s2 := x)
  end.
  assert (H2 : System.step_ok s1 s2).
  { split; [|split; [unfold s2; cbn; apply ui_ok_refl|split; [reflexivity|]]];
      [|exists []; rewrite app_nil_r; unfold s2, s1;
        cbn [App.root App.set_scroll_activity_tracker App.set_root];
        apply (f_equal snd) in Ea; cbn [snd] in Ea; rewrite <- Ea;
        destruct (ScrollActivityTracker.scroll_idle_after_id _); reflexivity].
    unfold System.sound. intros Hown.
    pose proof (owned_arm Tk.MarkScrollIdle
                  (ScrollActivityTracker.scroll_idle_ms (App.scroll_activity_tracker s))
                  (App.root s1) (App.owner s1) (App.owner s2) Hown) as Harm.
    cbn [App.owner s1 App.set_pending_scroll_units App.scroll_activity_tracker App.root] in Harm.
    rewrite Ea in Harm. cbn [snd] in Harm.
    unfold s2. cbn [App.root App.set_scroll_activity_tracker App.set_root].
    apply Harm.
    - unfold s2. cbn. pose proof (f_equal fst Ea) as Hid.
      destruct (ScrollActivityTracker.scroll_idle_after_id _); cbn in Hid; congruence.
    - intros [] Hne; try congruence; reflexivity. }
  eapply step_ok_trans; [exact H2|].
  destruct (App.scroll_after_id s2) as [fid|] eqn:Ef; [apply step_ok_refl|].
  destruct (Tk.after 16 Tk.FlushScroll (App.root s2)) as [id2 tk2] eqn:Ea2.
  split; [|split; [cbn; apply ui_ok_refl|split; [reflexivity|]]];
    [|exists []; rewrite app_nil_r; cbn [App.root App.set_scroll_after_id App.set_root];
      apply (f_equal snd) in Ea2; cbn [snd] in Ea2; rewrite <- Ea2; reflexivity].
  unfold System.sound. intros Hown. cbn [App.root App.set_scroll_after_id App.set_root].
  replace tk2 with (Tk.after 16 Tk.FlushScroll (App.root s2)).2 by (rewrite Ea2; reflexivity).
  apply (owned_after 16 Tk.FlushScroll (App.root s2) (App.owner s2)).
  - exact Hown.
  - exact Ef.
  - cbn. f_equal. pose proof (f_equal fst Ea2) as Hid. cbn in Hid. congruence.
  - intros [] Hne; try congruence; reflexivity.
Qed.

Lemma step_ok_handle (ev : App.event) (s : App.t) : System.step_ok s (App.handle ev s).
Proof.
  destruct ev; cbn [App.handle]; cbv zeta.
  - eapply step_ok_trans; [|apply step_ok_schedule_render]. frame_steps.
  - apply step_ok_schedule_render.
  - apply step_ok_schedule_render.
  - apply step_ok_schedule_render.
  - unfold App._on_canvas_configure.
    eapply step_ok_trans; [|apply step_ok_schedule_render]. frame_steps.
  - apply step_ok_mousewheel.
  - unfold App._on_search_complete. cbv zeta.
    eapply step_ok_trans; [|apply step_ok_schedule_render].
    set (s1 := App.set_matches ms s).
    assert (H1 : System.step_ok s s1) by (unfold s1; frame_steps).
    eapply step_ok_trans; [exact H1|].
    eapply step_ok_trans; [apply step_ok_ensure_pool|].
    eapply step_ok_trans; [apply step_ok_recompute_virtual_geometry|].
    frame_steps.
Qed.

Lemma step_ok_deliver photo_image fuel now ev (s : App.t) :
  System.step_ok s (App.deliver photo_image fuel now ev s).
Proof.
  unfold App.deliver.
  eapply step_ok_trans; [|apply step_ok_handle].
  eapply step_ok_trans; [|apply run_due_ok].
  split; [|split; [cbn; apply ui_ok_refl
                  |split; [reflexivity | exists []; apply eq_sym, app_nil_r]]].
  unfold System.sound. cbn. auto.
Qed.

(** ** Who removes keys from the in-flight set *)

Lemma poll_loop_inflight photo_image (n : nat) (tc : ThumbCache.t) (u : bool) :
  let m := Nat.min n (length (ThumbCache.thumb_done_q tc)) in
  let tc' := (ThumbCache.poll_loop photo_image n tc u).1 in
  ThumbCache.thumb_done_q tc' = drop m (ThumbCache.thumb_done_q tc)
  /\ ThumbCache.thumb_inflight tc'
     = ThumbCache.thumb_inflight tc
       ∖ list_to_set (System.key_of_result tc <$> take m (ThumbCache.thumb_done_q tc))
  /\ ThumbCache.thumb_req_q tc' = ThumbCache.thumb_req_q tc
  /\ ThumbCache.thumb_max tc' = ThumbCache.thumb_max tc.
Proof.
  cbv zeta. revert tc u. induction n as [|n IH]; intros tc u.
  - cbn. repeat split. set_solver.
  - cbn [ThumbCache.poll_loop].
    destruct (ThumbCache.thumb_done_q tc) as [|[[[idx path_text] cache_id] png] rest] eqn:Hq.
    + cbn. rewrite Hq. repeat split. set_solver.
    + change (Nat.min (S n) (length ((idx, path_text, cache_id, png) :: rest)))
        with (S (Nat.min n (length rest))).
      rewrite firstn_cons, skipn_cons, fmap_cons.
      set (tc1 := ThumbCache.set_thumb_inflight _ (ThumbCache.set_thumb_done_q rest tc)).
      assert (Hall : forall tc2 u2,
                ThumbCache.thumb_done_q tc2 = rest ->
                ThumbCache.thumb_inflight tc2 = ThumbCache.thumb_inflight tc1 ->
                ThumbCache.thumb_req_q tc2 = ThumbCache.thumb_req_q tc ->
                ThumbCache.thumb_max tc2 = ThumbCache.thumb_max tc ->
                let tc' := (ThumbCache.poll_loop photo_image n tc2 u2).1 in
                ThumbCache.thumb_done_q tc' = drop (Nat.min n (length rest)) rest
                /\ ThumbCache.thumb_inflight tc'
                   = ThumbCache.thumb_inflight tc
                     ∖ list_to_set
                         (System.key_of_result tc (idx, path_text, cache_id, png)
                          :: (System.key_of_result tc <$> take (Nat.min n (length rest)) rest))
                /\ ThumbCache.thumb_req_q tc' = ThumbCache.thumb_req_q tc
                /\ ThumbCache.thumb_max tc' = ThumbCache.thumb_max tc).
      { intros tc2 u2 Hd Hi Hr Hm. cbv zeta.
        destruct (IH tc2 u2) as (H1 & H2 & H3 & H4).
        rewrite Hd in H1, H2. rewrite H1, H2, H3, H4, Hi, Hr, Hm.
        repeat split.
        unfold tc1, System.key_of_result. cbn. rewrite Hm. set_solver. }
      destruct png as [data|]; [destruct (photo_image data) as [photo|]|].
      * apply Hall; reflexivity.
      * apply Hall; reflexivity.
      * apply Hall; reflexivity.
Qed.



(** ** The invariants hold in every reachable state *)

Lemma job_inv_perm (tc tc' : ThumbCache.t) j j' :
  System.outstanding tc' j' ≡ₚ System.outstanding tc j ->
  ThumbCache.thumb_inflight tc' = ThumbCache.thumb_inflight tc ->
  System.job_inv tc j -> System.job_inv tc' j'.
Proof.
  intros Hp Hi [Hnd Hin]. split.
  - rewrite Hp. exact Hnd.
  - intros key. rewrite Hp, Hi. apply Hin.
Qed.

Section reachable.
Variable photo_image : Py.bytes -> option ThumbCache.PhotoImage.

Lemma step_invariants (s s' : System.state) :
  System.step photo_image s s' ->
  System.stable (System.app s) (System.job s) ->
  System.stable (System.app s') (System.job s').
Proof.
  unfold System.stable.
  intros Hstep (Hs & Hj & Hm).
  destruct Hstep as [fuel now ev s|fuel now s|r q s Hq Hjob|r s Hjob|e s];
    cbn [System.app System.job].
  - destruct (step_ok_deliver photo_image fuel now ev (System.app s))
      as (H1 & [_ H2] & H3 & _).
    split; [auto | split; [auto | congruence]].
  - destruct (run_due_ok photo_image fuel
                (App.set_root (Tk.advance now (App.root (System.app s))) (System.app s)))
      as (H1 & [_ H2] & H3 & _).
    split; [apply H1; exact Hs | split; [apply H2; exact Hj | rewrite H3; exact Hm]].
  - split; [|split; [|exact Hm]].
    + unfold System.sound in *. cbn. apply (owned_ext _ _ _ Hs). intros []; reflexivity.
    + cbn. revert Hj. apply job_inv_perm; [|reflexivity].
      unfold System.outstanding. cbn. rewrite Hq, Hjob. cbn.
      unfold System.key_of_request, System.key_of_result. cbn.
      symmetry. apply Permutation_middle.
  - unfold System.finish. cbv zeta.
    destruct r as [[idx path_text] cache_id].
    destruct (iteration_emits_one idx path_text cache_id
                (Worker.mk (App.thumb_cache (System.app s)) (System.worker_conn s)
                   (System.world s))) as (out & w' & Hrun & Hself).
    rewrite Hrun. cbn [snd System.app System.job]. cbn in Hself.
    split; [|split; [|exact Hm]].
    + unfold System.sound in *. cbn. apply (owned_ext _ _ _ Hs).
      intros []; try reflexivity. cbn. rewrite Hself. reflexivity.
    + cbn. revert Hj. apply job_inv_perm; [|rewrite Hself; reflexivity].
      unfold System.outstanding. rewrite Hself, Hjob. cbn.
      unfold System.key_of_request, System.key_of_result. cbn.
      rewrite fmap_app. cbn. symmetry.
      rewrite (Permutation_app_comm _ [_]). reflexivity.
  - auto.
Qed.

Lemma initial_invariants now cv CACHE_PATH e :
  System.stable (System.app (System.initial now cv CACHE_PATH e))
    (System.job (System.initial now cv CACHE_PATH e)).
Proof.
  unfold System.stable. split; [|split].
  - unfold System.initial, App.init. cbn [System.app].
    apply step_ok_schedule_render. unfold System.sound. cbn.
    split; [apply NoDup_nil_2|]. split; [apply Forall_nil_2|]. intros []; reflexivity.
  - unfold System.initial, App.init. cbn [System.app System.job].
    rewrite schedule_render_thumb_cache. cbn.
    split; [apply NoDup_nil_2|]. intros key. cbn. set_solver.
  - unfold System.initial, App.init. cbn [System.app].
    destruct (schedule_render_root 1
                (App.init0 now cv (DiskCache.mk CACHE_PATH true))) as (_ & _ & _ & H).
    rewrite H. reflexivity.
Qed.

Lemma reachable_invariants now cv CACHE_PATH e (s : System.state) :
  System.reachable photo_image (System.initial now cv CACHE_PATH e) s ->
  System.stable (System.app s) (System.job s).
Proof.
  unfold System.reachable. intros H.
  pose proof (initial_invariants now cv CACHE_PATH e) as Hinit.
  induction H as [a|a b c Hab Hbc IH]; [exact Hinit|].
  apply IH. eapply step_invariants; eassumption.
Qed.

End reachable.




(** ** The render scheduler *)

(** Linear arithmetic over the rationals, with the divisions by the
    constants of the scheduler written as multiplications. *)
Ltac qlra :=
  unfold Qdiv in *;
  change (/ 1000)%Q with (1 # 1000)%Q in *;
  change (/ 30)%Q with (1 # 30)%Q in *;
  lra.

Lemma int_of_Q_floor (x : Q) : (0 <= x)%Q -> Py.int_of_Q x = Qfloor x.
Proof.
  destruct x as [n d]. unfold Qle. cbn. intros H.
  unfold Py.int_of_Q. cbn. apply Z.quot_div_nonneg; lia.
Qed.

Lemma Qmax_ge_l (a b : Q) : (a <= App.Qmax a b)%Q.
Proof.
  unfold App.Qmax. destruct (Qle_bool b a) eqn:E; [apply Qle_refl|].
  destruct (Qlt_le_dec b a) as [H|H]; [|exact H].
  apply Qlt_le_weak, Qle_bool_iff in H. congruence.
Qed.

Lemma Qmax_ge_r (a b : Q) : (b <= App.Qmax a b)%Q.
Proof.
  unfold App.Qmax. destruct (Qle_bool b a) eqn:E; [|apply Qle_refl].
  apply Qle_bool_iff. exact E.
Qed.

Lemma Qmax_cases (a b : Q) : App.Qmax a b = a \/ App.Qmax a b = b.
Proof. unfold App.Qmax. destruct (Qle_bool b a); auto. Qed.

Lemma delay_s_nonneg (delay_ms : Z) : (0 <= App.delay_s delay_ms)%Q.
Proof.
  unfold App.delay_s. destruct (delay_ms <=? 1) eqn:E; [apply Qle_refl|].
  apply Z.leb_gt in E. unfold Qle. cbn. lia.
Qed.

(** The timer is armed for the target, rounded down to a whole number of
    milliseconds after now. *)
Lemma wait_bounds (now target : Q) :
  (now <= target)%Q ->
  let wait_ms := Z.max 0 (Py.int_of_Q ((target - now) * 1000)%Q) in
  (now + inject_Z wait_ms / 1000 <= target)%Q
  /\ (target - 1 / 1000 < now + inject_Z wait_ms / 1000)%Q
  /\ 0 <= wait_ms.
Proof.
  intros Hle. cbv zeta.
  assert (Hx : (0 <= (target - now) * 1000)%Q) by lra.
  rewrite (int_of_Q_floor _ Hx).
  pose proof (Qfloor_le ((target - now) * 1000)%Q) as H1.
  pose proof (Qlt_floor ((target - now) * 1000)%Q) as H2.
  assert (H0 : 0 <= Qfloor ((target - now) * 1000)%Q).
  { change 0 with (Qfloor 0). apply Qfloor_resp_le. exact Hx. }
  rewrite Z.max_r by exact H0.
  set (w := Qfloor ((target - now) * 1000)%Q) in *.
  rewrite inject_Z_plus in H2. change (inject_Z 1) with 1%Q in H2.
  clearbody w. set (q := inject_Z w) in *. clearbody q.
  split; [|split; [|exact H0]]; qlra.
Qed.

Lemma pending_cleared (cb : Tk.callback) (tk : Tk.t) ow :
  Tk.owned tk ow ->
  Tk.pending cb match ow cb with Some id => Tk.after_cancel id tk | None => tk end = [].
Proof.
  intros Hown. pose proof Hown as (_ & _ & Ho). specialize (Ho cb).
  destruct (ow cb) as [id|]; cbn in Ho.
  - rewrite pending_cancel.
    destruct (Tk.pending cb tk) as [|tm [|tm' l]]; try discriminate.
    cbn in Ho. injection Ho as Hid.
    rewrite filter_cons, decide_False by (rewrite Hid; tauto). reflexivity.
  - apply fmap_nil_inv in Ho. exact Ho.
Qed.

Lemma filter_id_absent (id : nat) (l : list Tk.timer) :
  id ∉ Tk.timer_id <$> l -> filter (fun tm => Tk.timer_id tm ≠ id) l = l.
Proof.
  induction l as [|tm l IH]; [reflexivity|].
  rewrite fmap_cons, not_elem_of_cons. intros [Hne Hout].
  rewrite filter_cons, decide_True by congruence. rewrite (IH Hout). reflexivity.
Qed.

Lemma pending_kept (cb cb' : Tk.callback) (tk : Tk.t) ow :
  Tk.owned tk ow -> cb' ≠ cb ->
  Tk.pending cb' match ow cb with Some id => Tk.after_cancel id tk | None => tk end
  = Tk.pending cb' tk.
Proof.
  intros Hown Hne. destruct (ow cb) as [id|] eqn:E; [|reflexivity].
  rewrite pending_cancel. apply filter_id_absent.
  eapply owned_other; eassumption.
Qed.

Lemma schedule_render_spec (delay_ms : Z) (s : App.t) :
  System.sound s ->
  let now := Tk.clock (App.root s) in
  let target := App.Qmax (now + App.delay_s delay_ms)%Q
                  (App.render_scheduled_at s + App.render_min_interval_s s)%Q in
  let wait_ms := Z.max 0 (Py.int_of_Q ((target - now) * 1000)%Q) in
  let s' := App._schedule_render delay_ms s in
  Tk.pending Tk.RenderResults (App.root s')
  = [Tk.mkTimer (Tk.next_id (App.root s)) (now + inject_Z wait_ms / 1000)%Q
       Tk.RenderResults]
  /\ App.render_after_id s' = Some (Tk.next_id (App.root s))
  /\ App.render_scheduled_at s' = target
  /\ (forall cb, cb ≠ Tk.RenderResults ->
        Tk.pending cb (App.root s') = Tk.pending cb (App.root s))
  /\ (now + inject_Z wait_ms / 1000 <= target)%Q
  /\ (target - 1 / 1000 < now + inject_Z wait_ms / 1000)%Q
  /\ Tk.clock (App.root s') = now
  /\ Tk.fired (App.root s') = Tk.fired (App.root s)
  /\ System.sound s'.
Proof.
  intros Hs. cbv zeta.
  destruct (schedule_render_root delay_ms s) as (Hr & Hid & Ht & _).
  rewrite Hr, Hid, Ht.
  set (target := App.Qmax _ _) in *.
  assert (Hle : (Tk.clock (App.root s) <= target)%Q).
  { pose proof (Qmax_ge_l (Tk.clock (App.root s) + App.delay_s delay_ms)
                  (App.render_scheduled_at s + App.render_min_interval_s s)) as H.
    fold target in H. pose proof (delay_s_nonneg delay_ms). lra. }
  destruct (wait_bounds _ _ Hle) as (Hb1 & Hb2 & _).
  split; [|split; [reflexivity|split; [reflexivity|split; [|split; [exact Hb1|
           split; [exact Hb2|split; [|split]]]]]]].
  - rewrite pending_after.
    change (App.render_after_id s) with (App.owner s Tk.RenderResults).
    rewrite (pending_cleared Tk.RenderResults _ _ Hs).
    rewrite decide_True by reflexivity.
    destruct (App.owner s Tk.RenderResults); reflexivity.
  - intros cb Hne. rewrite pending_after, decide_False by congruence.
    rewrite app_nil_r.
    change (App.render_after_id s) with (App.owner s Tk.RenderResults).
    apply (pending_kept Tk.RenderResults cb _ _ Hs Hne).
  - destruct (App.render_after_id s); reflexivity.
  - destruct (App.render_after_id s); reflexivity.
  - apply step_ok_schedule_render, Hs.
Qed.




(** ** Rendering while the view is scrolling *)

Lemma render_thumbnail_active (idx : nat) (m : App.SearchMatch) (card : App.Card)
    (s : App.t) :
  ScrollActivityTracker.is_scroll_active (App.scroll_activity_tracker s) = true ->
  App.render_thumbnail idx m card s
  = (App.mkCard (App.bg_hidden card) (App.img_hidden card) None
       (if App.show_loading_placeholder s then false else App.loading_hidden card)
       (App.txt_hidden card),
     s).
Proof. intros H. unfold App.render_thumbnail. rewrite H. reflexivity. Qed.

Lemma render_slots_active (cards : list App.Card) (start_index slot : nat) (s : App.t)
    (vp : list string) :
  ScrollActivityTracker.is_scroll_active (App.scroll_activity_tracker s) = true ->
  let r := App.render_slots start_index slot cards s vp in
  App.thumb_cache r.1.2 = App.thumb_cache s
  /\ App.scroll_activity_tracker r.1.2 = App.scroll_activity_tracker s
  /\ App.matches r.1.2 = App.matches s
  /\ App.show_loading_placeholder r.1.2 = App.show_loading_placeholder s
  /\ App.root r.1.2 = App.root s
  /\ length r.1.1 = length cards
  /\ forall i c, r.1.1 !! i = Some c ->
       slot_shows_placeholder s (start_index + slot + i) c.
Proof.
  revert slot s vp. induction cards as [|card rest IH]; intros slot s vp Ha; cbv zeta.
  { cbn. repeat split; auto. intros i c H. rewrite lookup_nil in H. discriminate. }
  cbn [App.render_slots]. cbv zeta.
  destruct (App.matches s !! (start_index + slot)%nat) as [m|] eqn:Em.
  - rewrite render_thumbnail_active.
    2:{ destruct (String.eqb (App.hash m) EmptyString); exact Ha. }
    match goal with
    | |- context [App.render_slots start_index (S slot) rest ?x ?v] =>
        assert (Hx : App.thumb_cache x = App.thumb_cache s
                     /\ App.scroll_activity_tracker x = App.scroll_activity_tracker s
                     /\ App.matches x = App.matches s
                     /\ App.show_loading_placeholder x = App.show_loading_placeholder s
                     /\ App.root x = App.root s)
          by (destruct (String.eqb (App.hash m) EmptyString); repeat split; reflexivity);
        specialize (IH (S slot) x v);
        destruct (App.render_slots start_index (S slot) rest x v) as [[cs s'] vp']
    end.
    destruct Hx as (Hx1 & Hx2 & Hx3 & Hx4 & Hx5).
    rewrite Hx2 in IH. specialize (IH Ha). cbv zeta in IH. cbn [fst snd] in IH |- *.
    destruct IH as (I1 & I2 & I3 & I4 & I5 & I6 & I7).
    split; [congruence|]. split; [congruence|]. split; [congruence|].
    split; [congruence|]. split; [congruence|]. split; [cbn; congruence|].
    intros [|i] c Hc.
    + cbn in Hc. injection Hc as <-. unfold slot_shows_placeholder.
      rewrite Nat.add_0_r, Em. cbn. split; [reflexivity|]. split; [reflexivity|].
      intros Hshow. destruct (String.eqb (App.hash m) EmptyString); cbn in *;
        rewrite Hshow; reflexivity.
    + cbn in Hc. specialize (I7 i c Hc). unfold slot_shows_placeholder in *.
      rewrite Hx3, Hx4 in I7.
      replace (start_index + slot + S i)%nat with (start_index + S slot + i)%nat by lia.
      exact I7.
  - specialize (IH (S slot) s vp Ha). cbv zeta in IH.
    destruct (App.render_slots start_index (S slot) rest s vp) as [[cs s'] vp'].
    cbn [fst snd] in IH |- *.
    destruct IH as (I1 & I2 & I3 & I4 & I5 & I6 & I7).
    repeat (split; [assumption|]). split; [cbn; congruence|].
    intros [|i] c Hc.
    + cbn in Hc. injection Hc as <-. unfold slot_shows_placeholder.
      rewrite Nat.add_0_r, Em. cbn. auto.
    + cbn in Hc. specialize (I7 i c Hc).
      replace (start_index + slot + S i)%nat with (start_index + S slot + i)%nat by lia.
      exact I7.
Qed.

Lemma render_canvas_only_active (start_index : nat) (s : App.t) :
  ScrollActivityTracker.is_scroll_active (App.scroll_activity_tracker s) = true ->
  let s' := (App.render_canvas_only start_index s).1 in
  App.thumb_cache s' = App.thumb_cache s
  /\ App.scroll_activity_tracker s' = App.scroll_activity_tracker s
  /\ App.matches s' = App.matches s
  /\ App.root s' = App.root s
  /\ length (App.canvas_cards s') = length (App.canvas_cards (App._ensure_canvas_pool s))
  /\ forall slot c, App.canvas_cards s' !! slot = Some c ->
       slot_shows_placeholder s (start_index + slot) c.
Proof.
  intros Ha. cbv zeta. unfold App.render_canvas_only. cbv zeta.
  set (s1 := App._ensure_canvas_pool s).
  assert (H1 : App.thumb_cache s1 = App.thumb_cache s
               /\ App.scroll_activity_tracker s1 = App.scroll_activity_tracker s
               /\ App.matches s1 = App.matches s
               /\ App.show_loading_placeholder s1 = App.show_loading_placeholder s
               /\ App.root s1 = App.root s).
  { unfold s1, App._ensure_canvas_pool. cbv zeta. destruct (_ =? _); repeat split; reflexivity. }
  destruct H1 as (H1 & H2 & H3 & H4 & H5).
  pose proof (render_slots_active (App.canvas_cards s1) start_index 0 s1 []) as H.
  rewrite H2 in H. specialize (H Ha). cbv zeta in H.
  destruct (App.render_slots start_index 0 (App.canvas_cards s1) s1 []) as [[cs s'] vp'].
  cbn [fst snd] in H |- *.
  destruct H as (I1 & I2 & I3 & I4 & I5 & I6 & I7).
  cbn. split; [congruence|]. split; [congruence|]. split; [congruence|].
  split; [congruence|]. split; [exact I6|].
  intros slot c Hc. specialize (I7 slot c Hc). unfold slot_shows_placeholder in *.
  rewrite H3, H4, Nat.add_0_r in I7. exact I7.
Qed.

(** The paths the per-slot pass hands to the prefetch step are those of the
    results it gave a slot to. *)
Lemma render_slots_paths (cards : list App.Card) (start_index slot : nat) (s : App.t)
    (vp : list string) :
  ScrollActivityTracker.is_scroll_active (App.scroll_activity_tracker s) = true ->
  (App.render_slots start_index slot cards s vp).2
  = vp ++ (App.path <$> take (length cards) (drop (start_index + slot) (App.matches s))).
Proof.
  revert slot s vp. induction cards as [|card rest IH]; intros slot s vp Ha.
  { cbn. rewrite app_nil_r. reflexivity. }
  cbn [App.render_slots]. cbv zeta.
  destruct (App.matches s !! (start_index + slot)%nat) as [m|] eqn:Em.
  - rewrite render_thumbnail_active.
    2:{ destruct (String.eqb (App.hash m) EmptyString); exact Ha. }
    match goal with
    | |- context [App.render_slots start_index (S slot) rest ?x ?v] =>
        assert (Hx : App.scroll_activity_tracker x = App.scroll_activity_tracker s
                     /\ App.matches x = App.matches s)
          by (destruct (String.eqb (App.hash m) EmptyString); split; reflexivity);
        specialize (IH (S slot) x v);
        destruct (App.render_slots start_index (S slot) rest x v) as [[cs s'] vp']
    end.
    destruct Hx as [Hx1 Hx2]. rewrite Hx1, Hx2 in IH. specialize (IH Ha).
    cbn [snd] in IH |- *. rewrite IH, <- app_assoc. f_equal.
    rewrite (drop_S _ _ _ Em). cbn [length take fmap list_fmap app].
    replace (start_index + S slot)%nat with (S (start_index + slot)) by lia.
    reflexivity.
  - specialize (IH (S slot) s vp Ha).
    destruct (App.render_slots start_index (S slot) rest s vp) as [[cs s'] vp'].
    cbn [snd] in IH |- *. rewrite IH.
    apply lookup_ge_None in Em.
    rewrite !drop_ge by lia. rewrite !take_nil. reflexivity.
Qed.

Lemma check_incache_effect (idx : nat) (cache_id path_text : string) (tc : ThumbCache.t) :
  let r := ThumbCache.check_incache idx cache_id path_text tc in
  ThumbCache.thumb_cache r.2 = ThumbCache.thumb_cache tc
  /\ ThumbCache.thumb_req_q r.2
     = ThumbCache.thumb_req_q tc ++ (if r.1 then [(idx, path_text, cache_id)] else []).
Proof.
  cbv zeta. unfold ThumbCache.check_incache, ThumbCache.check_inflight. cbv zeta.
  destruct (OrderedDict.get _ _); [|destruct (bool_decide _)];
    cbn; rewrite ?app_nil_r; auto.
Qed.

(** The prefetch step leaves the memory cache alone and asks only for
    results whose path is not among [seen]. *)
Lemma prefetch_loop_requests (idxs : list nat) (budget : Z) (seen : gset string)
    (s : App.t) :
  let s' := App.prefetch_loop idxs budget seen s in
  ThumbCache.thumb_cache (App.thumb_cache s') = ThumbCache.thumb_cache (App.thumb_cache s)
  /\ App.scroll_activity_tracker s' = App.scroll_activity_tracker s
  /\ App.canvas_cards s' = App.canvas_cards s
  /\ App.matches s' = App.matches s
  /\ exists new,
       ThumbCache.thumb_req_q (App.thumb_cache s')
       = ThumbCache.thumb_req_q (App.thumb_cache s) ++ new
       /\ Forall (fun r : nat * string * string =>
                    r.1.2 ∉ seen
                    /\ exists m, App.matches s !! r.1.1 = Some m /\ App.path m = r.1.2)
            new.
Proof.
  revert budget seen s. induction idxs as [|i rest IH]; intros budget seen s; cbv zeta.
  { cbn. repeat split; auto. exists []. rewrite app_nil_r. auto. }
  cbn [App.prefetch_loop].
  assert (Hnil : exists new,
             ThumbCache.thumb_req_q (App.thumb_cache s)
             = ThumbCache.thumb_req_q (App.thumb_cache s) ++ new
             /\ Forall (fun r : nat * string * string =>
                          r.1.2 ∉ seen
                          /\ exists m, App.matches s !! r.1.1 = Some m /\ App.path m = r.1.2)
                  new).
  { exists []. rewrite app_nil_r. auto. }
  destruct (budget <=? 0); [repeat split; auto|].
  destruct (App.matches s !! i) as [m|] eqn:Em; [|repeat split; auto].
  destruct (bool_decide (App.path m ∈ seen)) eqn:Eseen; [apply IH|].
  apply bool_decide_eq_false in Eseen.
  pose proof (check_incache_effect i
                (if String.eqb (App.hash m) EmptyString then App.path m else App.hash m)
                (App.path m) (App.thumb_cache s)) as Hc.
  cbv zeta in Hc.
  destruct (ThumbCache.check_incache i _ (App.path m) (App.thumb_cache s)) as [queued tc].
  cbn [fst snd] in Hc. destruct Hc as [Hc1 Hc2].
  assert (Hstep : forall b,
    let s' := App.prefetch_loop rest b ({[App.path m]} ∪ seen) (App.set_thumb_cache tc s) in
    ThumbCache.thumb_cache (App.thumb_cache s') = ThumbCache.thumb_cache (App.thumb_cache s)
    /\ App.scroll_activity_tracker s' = App.scroll_activity_tracker s
    /\ App.canvas_cards s' = App.canvas_cards s
    /\ App.matches s' = App.matches s
    /\ exists new,
         ThumbCache.thumb_req_q (App.thumb_cache s')
         = ThumbCache.thumb_req_q (App.thumb_cache s) ++ new
         /\ Forall (fun r : nat * string * string =>
                      r.1.2 ∉ seen
                      /\ exists m, App.matches s !! r.1.1 = Some m /\ App.path m = r.1.2)
              new).
  { intros b. destruct (IH b ({[App.path m]} ∪ seen) (App.set_thumb_cache tc s))
      as (I1 & I2 & I3 & I4 & new & I5 & I6).
    cbv zeta. split; [rewrite I1; exact Hc1|]. repeat (split; [assumption|]).
    exists ((if queued
             then [(i, App.path m,
                    if String.eqb (App.hash m) EmptyString then App.path m else App.hash m)]
             else []) ++ new).
    split.
    - rewrite I5. cbn [App.thumb_cache App.set_thumb_cache]. rewrite Hc2, app_assoc.
      reflexivity.
    - apply Forall_app. split.
      + destruct queued; [|apply Forall_nil_2].
        apply Forall_singleton. cbn. split; [exact Eseen|]. exists m. auto.
      + eapply Forall_impl; [exact I6|]. cbn.
        intros r [Hr1 Hr2]. split; [set_solver|exact Hr2]. }
  destruct queued; cbn [negb]; apply Hstep.
Qed.

Lemma prefetch_thumbs_requests (first_row : Z) (visible_paths : list string) (s : App.t) :
  let s' := App._prefetch_thumbs first_row visible_paths s in
  ThumbCache.thumb_cache (App.thumb_cache s') = ThumbCache.thumb_cache (App.thumb_cache s)
  /\ App.scroll_activity_tracker s' = App.scroll_activity_tracker s
  /\ App.canvas_cards s' = App.canvas_cards s
  /\ App.matches s' = App.matches s
  /\ exists new,
       ThumbCache.thumb_req_q (App.thumb_cache s')
       = ThumbCache.thumb_req_q (App.thumb_cache s) ++ new
       /\ Forall (fun r : nat * string * string =>
                    r.1.2 ∉ visible_paths
                    /\ exists m, App.matches s !! r.1.1 = Some m /\ App.path m = r.1.2)
            new.
Proof.
  cbv zeta. unfold App._prefetch_thumbs.
  destruct (App.matches s) as [|m0 ms] eqn:Em.
  { repeat split; auto. exists []. rewrite app_nil_r. auto. }
  cbv zeta. rewrite <- Em.
  match goal with |- context [App.prefetch_loop ?l ?b ?seen s] =>
    destruct (prefetch_loop_requests l b seen s) as (I1 & I2 & I3 & I4 & new & I5 & I6)
  end.
  repeat (split; [assumption|]). exists new. split; [exact I5|].
  eapply Forall_impl; [exact I6|]. cbn. intros r [Hr1 Hr2]. split; [|exact Hr2].
  intros Hin. apply Hr1. apply elem_of_list_to_set. exact Hin.
Qed.

Lemma with_poller_frame (s : App.t) :
  ThumbCache.thumb_cache (App.thumb_cache (App.with_poller s))
  = ThumbCache.thumb_cache (App.thumb_cache s)
  /\ ThumbCache.thumb_req_q (App.thumb_cache (App.with_poller s))
     = ThumbCache.thumb_req_q (App.thumb_cache s)
  /\ App.scroll_activity_tracker (App.with_poller s) = App.scroll_activity_tracker s
  /\ App.canvas_cards (App.with_poller s) = App.canvas_cards s.
Proof.
  unfold App.with_poller, ThumbCache.ensure_thumb_poller.
  destruct (ThumbCache.thumb_poller_id _); repeat split; reflexivity.
Qed.

Lemma render_state_frame (s : App.t) :
  App.thumb_cache (render_state s) = App.thumb_cache s
  /\ App.scroll_activity_tracker (render_state s) = App.scroll_activity_tracker s
  /\ App.matches (render_state s) = App.matches s
  /\ App.show_loading_placeholder (render_state s) = App.show_loading_placeholder s.
Proof.
  unfold render_state, App._recompute_virtual_geometry, App._ensure_pool,
    App._ensure_canvas_pool, App._update_card_geometry.
  cbv zeta. repeat split; repeat case_match; reflexivity.
Qed.

(** The render pass while the view is scrolling, from the state with the
    pool and the geometry up to date. *)
Lemma render_body_active (s2 : App.t) key (start : nat) (first_row : Z) :
  ScrollActivityTracker.is_scroll_active (App.scroll_activity_tracker s2) = true ->
  let s3 := App.set_visible_hash_by_slot ∅
              (App.set_visible_path_by_slot ∅ (App.set_last_render_key key s2)) in
  let s' := App.with_poller
              (App._prefetch_thumbs first_row (App.render_canvas_only start s3).2
                 (App.render_canvas_only start s3).1) in
  ThumbCache.thumb_cache (App.thumb_cache s') = ThumbCache.thumb_cache (App.thumb_cache s2)
  /\ App.scroll_activity_tracker s' = App.scroll_activity_tracker s2
  /\ (forall slot c, App.canvas_cards s' !! slot = Some c ->
        slot_shows_placeholder s2 (start + slot) c)
  /\ exists new,
       ThumbCache.thumb_req_q (App.thumb_cache s')
       = ThumbCache.thumb_req_q (App.thumb_cache s2) ++ new
       /\ Forall (fun r : nat * string * string =>
                    r.1.2 ∉ App.path <$> take (length (App.canvas_cards s'))
                                           (drop start (App.matches s2))
                    /\ exists m, App.matches s2 !! r.1.1 = Some m /\ App.path m = r.1.2)
            new.
Proof.
  intros Ha s3.
  assert (E : App.thumb_cache s3 = App.thumb_cache s2
              /\ App.scroll_activity_tracker s3 = App.scroll_activity_tracker s2
              /\ App.matches s3 = App.matches s2
              /\ App.show_loading_placeholder s3 = App.show_loading_placeholder s2)
    by (repeat split; reflexivity).
  destruct E as (E1 & E2 & E3 & E4). clearbody s3.
  rewrite <- E2 in Ha.
  pose proof (render_canvas_only_active start s3 Ha) as H. cbv zeta in H.
  assert (Hvp : (App.render_canvas_only start s3).2
                = App.path <$> take (length (App.canvas_cards (App.render_canvas_only start s3).1))
                                 (drop start (App.matches s3))).
  { destruct H as (_ & _ & _ & _ & Hlen & _). rewrite Hlen.
    unfold App.render_canvas_only. cbv zeta.
    pose proof (render_slots_paths (App.canvas_cards (App._ensure_canvas_pool s3)) start 0
                  (App._ensure_canvas_pool s3) []) as Hp.
    destruct (App.render_slots start 0 _ _ []) as [[cs s4] vp].
    cbn [snd] in Hp |- *. rewrite Hp.
    - rewrite Nat.add_0_r. cbn [app]. do 3 f_equal.
      unfold App._ensure_canvas_pool. cbv zeta. destruct (_ =? _); reflexivity.
    - unfold App._ensure_canvas_pool. cbv zeta. destruct (_ =? _); exact Ha. }
  destruct (App.render_canvas_only start s3) as [s4 vp]. cbn [fst snd] in H, Hvp |- *.
  destruct H as (H1 & H2 & H3 & _ & _ & H6).
  destruct (prefetch_thumbs_requests first_row vp s4) as (Q1 & Q2 & Q3 & Q4 & new & Q5 & Q6).
  cbv zeta.
  destruct (with_poller_frame (App._prefetch_thumbs first_row vp s4)) as (P1 & P2 & P3 & P4).
  rewrite P1, P2, P3, P4, Q1, Q2, Q3, H1, H2, E1, E2.
  split; [reflexivity|]. split; [reflexivity|]. split.
  - intros slot c Hc. specialize (H6 slot c Hc).
    unfold slot_shows_placeholder in *. rewrite E3, E4 in H6. exact H6.
  - exists new. rewrite Q5, H1, E1. split; [reflexivity|].
    eapply Forall_impl; [exact Q6|]. cbn. intros r [Hr1 (m & Hr2 & Hr3)].
    rewrite Hvp, E3 in Hr1. split; [exact Hr1|]. exists m. split; [|exact Hr3].
    rewrite H3, E3 in Hr2. exact Hr2.
Qed.

Lemma render_results_active (s : App.t) :
  ScrollActivityTracker.is_scroll_active (App.scroll_activity_tracker s) = true ->
  let s' := App._render_results s in
  let start := Z.to_nat (App.first_visible_row (render_state s) * App.cols (render_state s)) in
  ThumbCache.thumb_cache (App.thumb_cache s') = ThumbCache.thumb_cache (App.thumb_cache s)
  /\ App.scroll_activity_tracker s' = App.scroll_activity_tracker s
  /\ (App.canvas_cards s' = App.canvas_cards (render_state s)
      \/ forall slot c, App.canvas_cards s' !! slot = Some c ->
           slot_shows_placeholder s (start + slot) c)
  /\ exists new,
       ThumbCache.thumb_req_q (App.thumb_cache s')
       = ThumbCache.thumb_req_q (App.thumb_cache s) ++ new
       /\ Forall (fun r : nat * string * string =>
                    r.1.2 ∉ App.path <$> take (length (App.canvas_cards s'))
                                           (drop start (App.matches s))
                    /\ exists m, App.matches s !! r.1.1 = Some m /\ App.path m = r.1.2)
            new.
Proof.
  intros Ha. cbv zeta.
  destruct (render_state_frame s) as (F1 & F2 & F3 & F4).
  unfold render_state in *. unfold App._render_results. cbv zeta.
  set (s2 := App._recompute_virtual_geometry
               (App._ensure_pool (App.set_render_after_id None s))) in *.
  clearbody s2.
  destruct (bool_decide _).
  { destruct (with_poller_frame s2) as (P1 & P2 & P3 & P4).
    rewrite P1, P2, P3, P4, F1, F2.
    split; [reflexivity|]. split; [reflexivity|]. split; [left; reflexivity|].
    exists []. rewrite app_nil_r. auto. }
  rewrite <- F2 in Ha.
  match goal with
  | |- context [App.render_canvas_only ?i
                  (App.set_visible_hash_by_slot ∅
                     (App.set_visible_path_by_slot ∅ (App.set_last_render_key ?k s2)))] =>
      pose proof (render_body_active s2 k i (App.first_visible_row s2) Ha) as H
  end.
  cbv zeta in H.
  destruct (App.render_canvas_only _ _) as [s4 vp]. cbn [fst snd] in H.
  destruct H as (H1 & H2 & H3 & H4).
  unfold slot_shows_placeholder in *.
  rewrite <- F1, <- F2, <- F3, <- F4.
  split; [exact H1|]. split; [exact H2|]. split; [right; exact H3 | exact H4].
Qed.

(** ** What the prefetch step asks for *)

Lemma check_incache_queued (idx : nat) (cache_id path_text : string) (tc : ThumbCache.t) :
  let r := ThumbCache.check_incache idx cache_id path_text tc in
  ThumbCache.thumb_max r.2 = ThumbCache.thumb_max tc
  /\ ThumbCache.thumb_inflight tc ⊆ ThumbCache.thumb_inflight r.2
  /\ (r.1 = true <->
      OrderedDict.get (cache_id, ThumbCache.thumb_max tc) (ThumbCache.thumb_cache tc) = None
      /\ (cache_id, ThumbCache.thumb_max tc) ∉ ThumbCache.thumb_inflight tc).
Proof.
  cbv zeta. unfold ThumbCache.check_incache, ThumbCache.check_inflight. cbv zeta.
  destruct (OrderedDict.get _ _) as [v|] eqn:Eg.
  - cbn. split; [reflexivity|]. split; [reflexivity|].
    split; [discriminate | intros [? _]; discriminate].
  - destruct (bool_decide _) eqn:Ei; cbn.
    + apply bool_decide_eq_true in Ei. split; [reflexivity|].
      split; [apply union_subseteq_r | tauto].
    + apply bool_decide_eq_false in Ei. split; [reflexivity|]. split; [reflexivity|].
      split; [discriminate | intros [_ ?]; contradiction].
Qed.

Lemma prefetch_loop_budget (idxs : list nat) (budget : Z) (seen : gset string)
    (s : App.t) :
  let s' := App.prefetch_loop idxs budget seen s in
  ThumbCache.thumb_max (App.thumb_cache s') = ThumbCache.thumb_max (App.thumb_cache s)
  /\ ThumbCache.thumb_inflight (App.thumb_cache s)
     ⊆ ThumbCache.thumb_inflight (App.thumb_cache s')
  /\ exists new,
       ThumbCache.thumb_req_q (App.thumb_cache s')
       = ThumbCache.thumb_req_q (App.thumb_cache s) ++ new
       /\ (length new <= Z.to_nat budget)%nat
       /\ Forall (fresh_request s) new.
Proof.
  revert budget seen s. induction idxs as [|i rest IH]; intros budget seen s; cbv zeta.
  { cbn. split; [reflexivity|]. split; [reflexivity|].
    exists []. rewrite app_nil_r. cbn. split; [reflexivity|]. split; [lia | constructor]. }
  cbn [App.prefetch_loop].
  assert (Hnil : ThumbCache.thumb_max (App.thumb_cache s) = ThumbCache.thumb_max (App.thumb_cache s)
                 /\ ThumbCache.thumb_inflight (App.thumb_cache s)
                    ⊆ ThumbCache.thumb_inflight (App.thumb_cache s)
                 /\ exists new,
                      ThumbCache.thumb_req_q (App.thumb_cache s)
                      = ThumbCache.thumb_req_q (App.thumb_cache s) ++ new
                      /\ (length new <= Z.to_nat budget)%nat
                      /\ Forall (fresh_request s) new).
  { split; [reflexivity|]. split; [reflexivity|].
    exists []. rewrite app_nil_r. cbn. split; [reflexivity|]. split; [lia | constructor]. }
  destruct (budget <=? 0) eqn:Eb; [exact Hnil|]. apply Z.leb_gt in Eb.
  destruct (App.matches s !! i) as [m|] eqn:Em; [|exact Hnil].
  destruct (bool_decide (App.path m ∈ seen)); [apply IH|].
  set (cid := if String.eqb (App.hash m) EmptyString then App.path m else App.hash m).
  pose proof (check_incache_effect i cid (App.path m) (App.thumb_cache s)) as He.
  pose proof (check_incache_queued i cid (App.path m) (App.thumb_cache s)) as Hq.
  cbv zeta in He, Hq.
  destruct (ThumbCache.check_incache i cid (App.path m) (App.thumb_cache s)) as [queued tc].
  cbn [fst snd] in He, Hq. destruct He as [He1 He2]. destruct Hq as (Hq1 & Hq2 & Hq3).
  assert (Hstep : forall b, (Z.to_nat b + (if queued then 1 else 0) <= Z.to_nat budget)%nat ->
    let s' := App.prefetch_loop rest b ({[App.path m]} ∪ seen) (App.set_thumb_cache tc s) in
    ThumbCache.thumb_max (App.thumb_cache s') = ThumbCache.thumb_max (App.thumb_cache s)
    /\ ThumbCache.thumb_inflight (App.thumb_cache s)
       ⊆ ThumbCache.thumb_inflight (App.thumb_cache s')
    /\ exists new,
         ThumbCache.thumb_req_q (App.thumb_cache s')
         = ThumbCache.thumb_req_q (App.thumb_cache s) ++ new
         /\ (length new <= Z.to_nat budget)%nat
         /\ Forall (fresh_request s) new).
  { intros b Hb.
    destruct (IH b ({[App.path m]} ∪ seen) (App.set_thumb_cache tc s))
      as (I1 & I2 & new & I3 & I4 & I5).
    cbv zeta. cbn [App.thumb_cache App.set_thumb_cache] in I1, I2, I3.
    split; [congruence|]. split; [etransitivity; eassumption|].
    exists ((if queued then [(i, App.path m, cid)] else []) ++ new).
    split; [rewrite I3, He2, app_assoc; reflexivity|]. split.
    - rewrite length_app. destruct queued; cbn; lia.
    - apply Forall_app. split.
      + destruct queued; [|constructor]. apply Forall_singleton.
        unfold fresh_request. cbn [snd]. apply Hq3. reflexivity.
      + eapply Forall_impl; [exact I5|]. intros r [Hr1 Hr2].
        unfold fresh_request in *. cbn [App.thumb_cache App.set_thumb_cache] in Hr1, Hr2.
        rewrite Hq1, He1 in Hr1. rewrite Hq1 in Hr2. split; [exact Hr1|].
        intros Hin. apply Hr2. apply Hq2. exact Hin. }
  destruct queued; cbn [negb]; apply Hstep; lia.
Qed.

(** ** The per-slot pass and the prefetch step *)

Lemma render_canvas_only_paths (start_index : nat) (s : App.t) :
  ScrollActivityTracker.is_scroll_active (App.scroll_activity_tracker s) = true ->
  (App.render_canvas_only start_index s).2
  = App.path <$> take (length (App.canvas_cards (App.render_canvas_only start_index s).1))
                   (drop start_index (App.matches s)).
Proof.
  intros Ha.
  destruct (render_canvas_only_active start_index s Ha) as (_ & _ & _ & _ & Hlen & _).
  rewrite Hlen. unfold App.render_canvas_only. cbv zeta.
  pose proof (render_slots_paths (App.canvas_cards (App._ensure_canvas_pool s)) start_index 0
                (App._ensure_canvas_pool s) []) as Hp.
  destruct (App.render_slots start_index 0 _ _ []) as [[cs s4] vp].
  cbn [snd] in Hp |- *. rewrite Hp.
  - rewrite Nat.add_0_r. cbn [app]. do 3 f_equal.
    unfold App._ensure_canvas_pool. cbv zeta. destruct (_ =? _); reflexivity.
  - unfold App._ensure_canvas_pool. cbv zeta. destruct (_ =? _); exact Ha.
Qed.

(** X2: while the view is scrolling, the per-slot pass of a render
    ([render_canvas_only]) leaves the thumbnail cache as it is: no image is
    looked up or promoted and no request is queued. Every card that shows
    a result is visible without an image, with the loading placeholder
    when placeholders are on; the cards beyond the results are hidden. The
    paths it hands to the prefetch step are those of the results it gave a
    slot. *)
Theorem scrolling_pass_shows_placeholders (start_index : nat) (s : App.t) :
  ScrollActivityTracker.is_scroll_active (App.scroll_activity_tracker s) = true ->
  let r := App.render_canvas_only start_index s in
  App.thumb_cache r.1 = App.thumb_cache s
  /\ App.matches r.1 = App.matches s
  /\ (forall slot c, App.canvas_cards r.1 !! slot = Some c ->
        slot_shows_placeholder s (start_index + slot) c)
  /\ r.2 = App.path <$> take (length (App.canvas_cards r.1))
                          (drop start_index (App.matches s)).
Proof.
  intros Ha. cbv zeta.
  destruct (render_canvas_only_active start_index s Ha) as (H1 & _ & H3 & _ & _ & H6).
  split; [exact H1|]. split; [exact H3|]. split; [exact H6|].
  apply render_canvas_only_paths, Ha.
Qed.

Lemma scrolling_pass_shows_placeholders_witness :
  App.thumb_cache (App.render_canvas_only 0 Inputs.scrolling0).1
  = App.thumb_cache Inputs.scrolling0.
Proof.
  exact (proj1 (scrolling_pass_shows_placeholders 0 Inputs.scrolling0 eq_refl)).
Defined.

(** X3: the prefetch step never touches the memory cache or the cards. It
    queues 80 requests at most, each for a result of the list whose path
    is not among the visible ones and whose key is neither in the memory
    cache nor in flight. *)
Theorem prefetch_asks_for_what_is_missing (first_row : Z) (visible_paths : list string)
    (s : App.t) :
  let s' := App._prefetch_thumbs first_row visible_paths s in
  ThumbCache.thumb_cache (App.thumb_cache s') = ThumbCache.thumb_cache (App.thumb_cache s)
  /\ App.canvas_cards s' = App.canvas_cards s
  /\ exists new,
       ThumbCache.thumb_req_q (App.thumb_cache s')
       = ThumbCache.thumb_req_q (App.thumb_cache s) ++ new
       /\ (length new <= 80)%nat
       /\ Forall (fun r : nat * string * string =>
                    r.1.2 ∉ visible_paths
                    /\ (exists m, App.matches s !! r.1.1 = Some m /\ App.path m = r.1.2)
                    /\ fresh_request s r)
            new.
Proof.
  cbv zeta.
  destruct (prefetch_thumbs_requests first_row visible_paths s)
    as (Q1 & _ & Q3 & _ & new & Q5 & Q6).
  split; [exact Q1|]. split; [exact Q3|]. exists new. split; [exact Q5|].
  assert (Hb : (length new <= 80)%nat /\ Forall (fresh_request s) new).
  { revert Q5. unfold App._prefetch_thumbs.
    destruct (App.matches s) as [|m0 ms].
    { intros Q5. rewrite <- (app_nil_r (ThumbCache.thumb_req_q _)) in Q5 at 1.
      apply app_inv_head in Q5. subst new. split; [cbn; lia | constructor]. }
    cbv zeta. intros Q5.
    match type of Q5 with context [App.prefetch_loop ?l ?b ?seen s] =>
      destruct (prefetch_loop_budget l b seen s) as (_ & _ & new' & B1 & B2 & B3)
    end.
    rewrite B1 in Q5. apply app_inv_head in Q5. subst new'.
    split; [exact B2 | exact B3]. }
  destruct Hb as [Hb1 Hb2]. split; [exact Hb1|].
  apply Forall_forall. intros r Hr.
  rewrite Forall_forall in Q6, Hb2. destruct (Q6 r Hr) as [H1 H2].
  split; [exact H1|]. split; [exact H2 | exact (Hb2 r Hr)].
Qed.

(** X4: a render pass made while the view is scrolling brings no image
    into the memory cache and promotes none, and the view is still marked
    as scrolling after it. Either it leaves the cards as they are (nothing
    changed since the last pass) or every card shows the placeholder or is
    hidden; the requests it queues come from its prefetch step and are for
    results that have no slot. *)
Theorem scrolling_render_pass (s : App.t) :
  ScrollActivityTracker.is_scroll_active (App.scroll_activity_tracker s) = true ->
  let s' := App._render_results s in
  let start := Z.to_nat (App.first_visible_row (render_state s) * App.cols (render_state s)) in
  ThumbCache.thumb_cache (App.thumb_cache s') = ThumbCache.thumb_cache (App.thumb_cache s)
  /\ ScrollActivityTracker.is_scroll_active (App.scroll_activity_tracker s') = true
  /\ (App.canvas_cards s' = App.canvas_cards (render_state s)
      \/ forall slot c, App.canvas_cards s' !! slot = Some c ->
           slot_shows_placeholder s (start + slot) c)
  /\ exists new,
       ThumbCache.thumb_req_q (App.thumb_cache s')
       = ThumbCache.thumb_req_q (App.thumb_cache s) ++ new
       /\ Forall (fun r : nat * string * string =>
                    r.1.2 ∉ App.path <$> take (length (App.canvas_cards s'))
                                           (drop start (App.matches s))
                    /\ exists m, App.matches s !! r.1.1 = Some m /\ App.path m = r.1.2)
            new.
Proof.
  intros Ha. cbv zeta.
  destruct (render_results_active s Ha) as (H1 & H2 & H3 & H4).
  split; [exact H1|]. split; [rewrite H2; exact Ha|]. split; [exact H3 | exact H4].
Qed.

Lemma scrolling_render_pass_witness :
  ThumbCache.thumb_req_q (App.thumb_cache (App._render_results Inputs.scrolling0))
  = [(2%nat, "c", "c")]%string
  /\ ThumbCache.thumb_cache (App.thumb_cache (App._render_results Inputs.scrolling0))
     = ThumbCache.thumb_cache (App.thumb_cache Inputs.scrolling0).
Proof.
  split; [vm_compute; reflexivity|].
  exact (proj1 (scrolling_render_pass Inputs.scrolling0 eq_refl)).
Defined.

(** ** Which card a point hits *)

Lemma div_in_cell (a w q : Z) : 0 < w -> q * w <= a < (q + 1) * w -> a / w = q.
Proof.
  intros Hw H. symmetry. apply (Z.div_unique a w q (a - q * w)); lia.
Qed.

(** X5: the hit test inverts the layout. With cards of positive width
    and height and at least one column, a point inside the rectangle the
    render pass draws for [slot] (first visible row [first_row]) is
    mapped by [_index_from_canvas_xy] to the index of the result shown in
    that slot, [first_row * cols + slot]. *)
Theorem hit_test_inverts_layout (first_row : Z) (slot : nat) (x cy : Z) (s : App.t) :
  0 < App.card_w s -> 0 < App.card_h s -> 0 <= App.pad s -> 0 < App.cols s ->
  0 <= first_row ->
  first_row * App.cols s + Z.of_nat slot < Z.of_nat (length (App.matches s)) ->
  (Layout.card_box first_row slot s).1.1.1 <= x < (Layout.card_box first_row slot s).1.2 ->
  (Layout.card_box first_row slot s).1.1.2 <= cy < (Layout.card_box first_row slot s).2 ->
  Layout._index_from_canvas_xy x cy s = Some (first_row * App.cols s + Z.of_nat slot).
Proof.
  intros Hw Hh Hp Hc Hf Hlen Hx Hy.
  unfold Layout.card_box in Hx, Hy. cbn [fst snd] in Hx, Hy.
  unfold Layout._index_from_canvas_xy.
  destruct (App.matches s) as [|m0 ms] eqn:Em; [cbn in Hlen; lia|].
  rewrite <- Em in *. clear Em m0 ms.
  replace (App.card_h s =? 0) with false by (symmetry; apply Z.eqb_neq; lia).
  replace (App.card_w s =? 0) with false by (symmetry; apply Z.eqb_neq; lia).
  cbn [orb]. cbv zeta.
  pose proof (Z.mod_pos_bound (Z.of_nat slot) (App.cols s) Hc) as Hm.
  pose proof (Z.div_mod (Z.of_nat slot) (App.cols s) ltac:(lia)) as Hdm.
  assert (Hd : 0 <= Z.of_nat slot / App.cols s) by (apply Z.div_pos; lia).
  set (row := Z.of_nat slot / App.cols s) in *.
  set (col := Z.of_nat slot mod App.cols s) in *.
  rewrite (div_in_cell cy (App.card_h s) (first_row + row)) by nia.
  rewrite (div_in_cell x (App.card_w s) col) by nia.
  rewrite !Z.max_r by lia.
  replace (App.cols s <=? col) with false by (symmetry; apply Z.leb_gt; lia).
  replace ((first_row + row) * App.cols s + col)
    with (first_row * App.cols s + Z.of_nat slot) by nia.
  replace (first_row * App.cols s + Z.of_nat slot <? 0) with false
    by (symmetry; apply Z.ltb_ge; nia).
  replace (Z.of_nat (length (App.matches s)) <=? first_row * App.cols s + Z.of_nat slot)
    with false by (symmetry; apply Z.leb_gt; lia).
  reflexivity.
Qed.

(** The hit test raises only for a card without width or height, and
    gives [-1] or an index of [_matches]. *)
Lemma hit_test_range (x cy : Z) (s : App.t) :
  (Layout._index_from_canvas_xy x cy s = None
   <-> App.matches s <> [] /\ (App.card_h s = 0 \/ App.card_w s = 0))
  /\ forall idx, Layout._index_from_canvas_xy x cy s = Some idx ->
       idx = -1
       \/ (0 <= idx < Z.of_nat (length (App.matches s))
           /\ idx = Z.max 0 (cy / App.card_h s) * App.cols s + Z.max 0 (x / App.card_w s)
           /\ Z.max 0 (x / App.card_w s) < App.cols s).
Proof.
  unfold Layout._index_from_canvas_xy.
  destruct (App.matches s) as [|m0 ms] eqn:Em.
  { split; [split; [discriminate | intros [H _]; contradiction]|].
    intros idx [= <-]. left. reflexivity. }
  rewrite <- Em.
  destruct (App.card_h s =? 0) eqn:Eh; [|destruct (App.card_w s =? 0) eqn:Ew]; cbn [orb].
  - apply Z.eqb_eq in Eh. split; [|discriminate].
    split; [intros _; split; [rewrite Em; discriminate | auto] | reflexivity].
  - apply Z.eqb_eq in Ew. split; [|discriminate].
    split; [intros _; split; [rewrite Em; discriminate | auto] | reflexivity].
  - apply Z.eqb_neq in Eh, Ew. cbv zeta.
    split.
    { split; [|intros [_ [?|?]]; contradiction].
      repeat case_match; discriminate. }
    intros idx H.
    destruct (App.cols s <=? _) eqn:Ec; [injection H as <-; auto|].
    destruct (_ || _) eqn:Eo; injection H as <-; [auto|].
    apply orb_false_iff in Eo as [E1 E2].
    apply Z.ltb_ge in E1. apply Z.leb_gt in E2, Ec. right. lia.
Qed.

(** ** Path labels cut on the left *)

Section ellipsis.
Variable measure : string -> Z.

Lemma shorten_suffix (max_px : Z) (text : string) :
  exists pre, text = (pre ++ Layout.shorten measure max_px text)%string.
Proof.
  induction text as [|c text IH].
  - exists EmptyString. reflexivity.
  - cbn [Layout.shorten]. destruct (max_px <? _).
    + destruct IH as [pre IH]. exists (String c pre).
      rewrite append_cons, <- IH. reflexivity.
    + exists EmptyString. reflexivity.
Qed.

Lemma shorten_fits (max_px : Z) (text : string) :
  Layout.shorten measure max_px text = EmptyString
  \/ measure ("..." ++ Layout.shorten measure max_px text)%string <= max_px.
Proof.
  induction text as [|c text IH]; [left; reflexivity|].
  cbn [Layout.shorten]. destruct (max_px <? _) eqn:E; [exact IH|].
  right. apply Z.ltb_ge in E. exact E.
Qed.

Lemma left_ellipsis_spec (text : string) (max_px : Z) :
  (measure text <= max_px -> Layout._left_ellipsis_px measure text max_px = text)
  /\ (max_px < measure text ->
      (exists pre keep,
         text = (pre ++ keep)%string
         /\ Layout._left_ellipsis_px measure text max_px = ("..." ++ keep)%string)
      /\ (measure "..."%string < max_px ->
          measure (Layout._left_ellipsis_px measure text max_px) <= max_px)
      /\ (max_px <= measure "..."%string ->
          Layout._left_ellipsis_px measure text max_px = "..."%string)).
Proof.
  unfold Layout._left_ellipsis_px. split.
  - intros H. apply Z.leb_le in H. rewrite H. reflexivity.
  - intros H. replace (measure text <=? max_px) with false
      by (symmetry; apply Z.leb_gt; exact H).
    split; [|split].
    + destruct (max_px <=? measure "...") eqn:E.
      * exists text, EmptyString. split; [|reflexivity].
        clear. induction text as [|c t IH]; [reflexivity|].
        rewrite append_cons, <- IH. reflexivity.
      * destruct (shorten_suffix max_px text) as [pre Hpre].
        exists pre, (Layout.shorten measure max_px text). auto.
    + intros H3. replace (max_px <=? measure "...") with false
        by (symmetry; apply Z.leb_gt; exact H3).
      destruct (shorten_fits max_px text) as [-> | Hfit]; [|exact Hfit].
      change ("..." ++ "")%string with "..."%string. lia.
    + intros H3. apply Z.leb_le in H3. rewrite H3. reflexivity.
Qed.

End ellipsis.

Lemma shorten_length (max_px : Z) (keep : string) :
  21 <= max_px ->
  String.length (Layout.shorten Layout.measure_without_font max_px keep)
  = Nat.min (String.length keep) (Z.to_nat (max_px / 7 - 3)).
Proof.
  intros Hm. induction keep as [|c keep IH]; [reflexivity|].
  cbn [Layout.shorten]. unfold Layout.measure_without_font at 1.
  rewrite length_append. cbn [String.length].
  pose proof (Z.div_mod max_px 7 ltac:(lia)) as Hd.
  pose proof (Z.mod_pos_bound max_px 7 ltac:(lia)) as Hb.
  destruct (max_px <? _) eqn:E.
  - apply Z.ltb_lt in E. rewrite IH. lia.
  - apply Z.ltb_ge in E. cbn [String.length]. lia.
Qed.

(** X6: without a font a character counts seven pixels. A path too wide
    for a label of more than 21 pixels is cut on the left: the label is
    ["..."] followed by a suffix of the path, and it has [max_px / 7]
    characters, as many as fit. *)
Theorem left_ellipsis_fills_the_label (text : string) (max_px : Z) :
  21 < max_px ->
  max_px < Z.of_nat (String.length text) * 7 ->
  String.length (Layout._left_ellipsis_px Layout.measure_without_font text max_px)
  = Z.to_nat (max_px / 7)
  /\ exists pre keep,
       text = (pre ++ keep)%string
       /\ Layout._left_ellipsis_px Layout.measure_without_font text max_px
          = ("..." ++ keep)%string.
Proof.
  intros H1 H2.
  destruct (left_ellipsis_spec Layout.measure_without_font text max_px) as [_ H].
  specialize (H H2). destruct H as (Hsuf & _ & _). split; [|exact Hsuf].
  unfold Layout._left_ellipsis_px.
  replace (Layout.measure_without_font text <=? max_px) with false
    by (symmetry; apply Z.leb_gt; exact H2).
  change (Layout.measure_without_font "...") with 21.
  replace (max_px <=? 21) with false by (symmetry; apply Z.leb_gt; lia).
  rewrite length_append, shorten_length by lia. cbn [String.length].
  pose proof (Z.div_mod max_px 7 ltac:(lia)) as Hd.
  pose proof (Z.mod_pos_bound max_px 7 ltac:(lia)) as Hb.
  lia.
Qed.

(** ** The tooltip stays on the screen *)

(** X7: a tooltip that fits on the screen with 8 pixels to spare on each
    side is placed wholly on the screen, 8 pixels or more from every edge;
    it stays at the pointer where that is possible, and when it does not
    fit below the pointer it goes above it, its bottom edge 18 pixels or
    more over the pointer, unless the top of the screen stops it. *)
Theorem tooltip_stays_on_screen (sw sh w h x y : Z) :
  w + 16 <= sw -> h + 16 <= sh ->
  let p := Tooltip.place sw sh w h x y in
  8 <= p.1 /\ p.1 + w + 8 <= sw
  /\ 8 <= p.2 /\ p.2 + h + 8 <= sh
  /\ (8 <= x <= sw - w - 8 -> p.1 = x)
  /\ (8 <= y -> y + h + 8 <= sh -> p.2 = y)
  /\ (sh < y + h + 8 -> p.2 = 8 \/ p.2 + h + 18 <= y).
Proof.
  intros Hw Hh. unfold Tooltip.place. cbv zeta. cbn [fst snd].
  destruct (y + h + 8 <=? sh) eqn:E; [apply Z.leb_le in E | apply Z.leb_gt in E]; lia.
Qed.

(** ** The terms of a query *)

Example split_terms_example :
  Searcher._split_terms "  red Car  RED car	blue "%string = ["red"; "Car"; "blue"]%string.
Proof. vm_compute. reflexivity. Qed.










(** ** The memory cache: what was put is there *)

Lemma od_get_app_absent {K V : Type} `{EqDecision K} (k : K) (d1 d2 : list (K * V)) :
  k ∉ OrderedDict.keys d1 -> OrderedDict.get k (d1 ++ d2) = OrderedDict.get k d2.
Proof.
  unfold OrderedDict.keys. induction d1 as [|[k' v'] d1 IH]; [reflexivity|].
  rewrite fmap_cons, not_elem_of_cons. cbn [fst]. intros [Hne Hout].
  cbn. rewrite decide_False by congruence. apply IH, Hout.
Qed.

Lemma od_keys_remove_absent {K V : Type} `{EqDecision K} (k : K) (d : list (K * V)) :
  k ∉ OrderedDict.keys (OrderedDict.remove k d).
Proof.
  rewrite od_keys_remove. intros H. apply list_elem_of_filter in H as [H _]. congruence.
Qed.

Lemma od_get_remove_other {K V : Type} `{EqDecision K} (k k' : K) (d : list (K * V)) :
  k' <> k -> OrderedDict.get k' (OrderedDict.remove k d) = OrderedDict.get k' d.
Proof.
  intros Hne. induction d as [|[k0 v0] d IH]; [reflexivity|].
  rewrite od_remove_cons. cbn [fst]. destruct (decide (k0 = k)) as [->|Hk].
  - cbn. rewrite decide_False by congruence. exact IH.
  - cbn. destruct (decide (k0 = k')); [reflexivity | exact IH].
Qed.

Lemma od_get_drop {K V : Type} `{EqDecision K} (k : K) (v : V) (n : nat) (d : list (K * V)) :
  NoDup (OrderedDict.keys d) ->
  OrderedDict.get k (drop n d) = Some v -> OrderedDict.get k d = Some v.
Proof.
  unfold OrderedDict.keys. revert n. induction d as [|[k0 v0] d IH]; intros n Hnd H.
  - rewrite drop_nil in H. exact H.
  - destruct n as [|n]; [exact H|]. cbn [drop] in H.
    rewrite fmap_cons in Hnd. apply NoDup_cons in Hnd as [Hout Hnd].
    specialize (IH n Hnd H). cbn. destruct (decide (k0 = k)) as [->|Hne]; [|exact IH].
    exfalso. apply Hout. cbn. apply (od_get_Some k v d IH).
Qed.

(** X9: with room for one image or more, [get] right after [put] gives the
    image that was put; the cache holds no more than [_thumb_cache_max]
    images after a [put]; and an image [get] finds under another key after
    the [put] is the one that was there before. *)
Theorem put_then_get (key : string * Z) (img : ThumbCache.PhotoImage) (s : ThumbCache.t) :
  (1 <= ThumbCache.thumb_cache_max s)%nat ->
  (ThumbCache.get key (ThumbCache.put key img s)).1 = Some img
  /\ (length (ThumbCache.thumb_cache (ThumbCache.put key img s))
      <= ThumbCache.thumb_cache_max s)%nat
  /\ forall key' img',
       key' <> key -> NoDup (ThumbCache.cached_keys s) ->
       (ThumbCache.get key' (ThumbCache.put key img s)).1 = Some img' ->
       (ThumbCache.get key' s).1 = Some img'.
Proof.
  intros Hcap.
  assert (Hget : forall k t, (ThumbCache.get k t).1 = OrderedDict.get k (ThumbCache.thumb_cache t)).
  { intros k t. unfold ThumbCache.get. destruct (OrderedDict.get k _); reflexivity. }
  rewrite !Hget, put_thumb_cache.
  pose proof (od_keys_remove_absent key (ThumbCache.thumb_cache s)) as Habs.
  set (d := OrderedDict.remove key (ThumbCache.thumb_cache s)) in *.
  split; [|split].
  - rewrite length_app. cbn [length].
    rewrite drop_app_le by lia.
    rewrite od_get_app_absent.
    + cbn. rewrite decide_True by reflexivity. reflexivity.
    + intros Hin. apply Habs. unfold OrderedDict.keys in *.
      apply (elem_of_sublist _ _ _ Hin). apply fmap_sublist, sublist_drop.
  - rewrite length_drop, length_app. cbn [length]. lia.
  - intros key' img' Hne Hnd. rewrite !Hget, put_thumb_cache. fold d. intros H.
    apply od_get_drop in H.
    + destruct (OrderedDict.get key' d) as [v|] eqn:Ed.
      * assert (Hd : OrderedDict.get key' (d ++ [(key, img)]) = Some v).
        { clear H. induction d as [|[k0 v0] d0 IH]; [discriminate|].
          cbn in *. destruct (decide (k0 = key')); [exact Ed|].
          apply IH; [|exact Ed]. intros Hin. apply Habs. right. exact Hin. }
        rewrite Hd in H. injection H as <-.
        unfold d in Ed. rewrite od_get_remove_other in Ed by exact Hne. exact Ed.
      * rewrite od_get_app_absent in H by (apply od_get_None; exact Ed).
        cbn in H. rewrite decide_False in H by congruence. discriminate.
    + unfold OrderedDict.keys in *. rewrite fmap_app. apply NoDup_app.
      split; [|split].
      * fold (OrderedDict.keys d). unfold d. rewrite od_keys_remove.
        apply NoDup_filter. exact Hnd.
      * intros x Hx Hx'. cbn in Hx'. apply list_elem_of_singleton in Hx'. subst x.
        exact (Habs Hx).
      * cbn. apply NoDup_singleton.
Qed.

(** ** What a poll takes off the completion queue *)

Lemma poll_loop_cache photo_image (n : nat) (tc tc0 : ThumbCache.t) (u : bool) :
  ThumbCache.thumb_cache tc = ThumbCache.thumb_cache tc0 ->
  ThumbCache.thumb_cache_max tc = ThumbCache.thumb_cache_max tc0 ->
  ThumbCache.thumb_max tc = ThumbCache.thumb_max tc0 ->
  ThumbCache.thumb_cache (ThumbCache.poll_loop photo_image n tc u).1
  = ThumbCache.thumb_cache
      (ThumbCache.puts (omap (cache_entry photo_image tc0)
                          (take n (ThumbCache.thumb_done_q tc))) tc0)
  /\ (ThumbCache.poll_loop photo_image n tc u).2
     = u || negb (bool_decide (take n (ThumbCache.thumb_done_q tc) = [])).
Proof.
  revert tc tc0 u. induction n as [|n IH]; intros tc tc0 u Hc Hm Ht.
  { cbn. rewrite orb_false_r. auto. }
  cbn [ThumbCache.poll_loop].
  destruct (ThumbCache.thumb_done_q tc) as [|[[[idx path_text] cache_id] png] rest] eqn:Hq.
  { cbn. rewrite orb_false_r. auto. }
  rewrite firstn_cons. cbn [omap list_omap].
  rewrite (bool_decide_eq_false_2 (_ :: _ = [])) by discriminate.
  cbn [negb]. rewrite orb_true_r.
  unfold cache_entry at 1. cbn [fst snd].
  set (tc1 := ThumbCache.set_thumb_inflight _ (ThumbCache.set_thumb_done_q rest tc)).
  assert (Hrest : ThumbCache.thumb_done_q tc1 = rest) by reflexivity.
  assert (Hskip : ThumbCache.thumb_cache (ThumbCache.poll_loop photo_image n tc1 true).1
            = ThumbCache.thumb_cache
                (ThumbCache.puts (omap (cache_entry photo_image tc0) (take n rest)) tc0)
            /\ (ThumbCache.poll_loop photo_image n tc1 true).2 = true).
  { destruct (IH tc1 tc0 true Hc Hm Ht) as [I1 I2]. rewrite Hrest in I1. auto. }
  destruct png as [data|]; [|exact Hskip].
  destruct (photo_image data) as [photo|]; [|exact Hskip].
  set (tc2 := ThumbCache.put (cache_id, ThumbCache.thumb_max tc) photo tc1).
  set (tc3 := ThumbCache.put (cache_id, ThumbCache.thumb_max tc0) photo tc0).
  assert (Hc2 : ThumbCache.thumb_cache tc2 = ThumbCache.thumb_cache tc3).
  { unfold tc2, tc3. rewrite !put_thumb_cache.
    change (ThumbCache.thumb_cache tc1) with (ThumbCache.thumb_cache tc).
    change (ThumbCache.thumb_cache_max tc1) with (ThumbCache.thumb_cache_max tc).
    rewrite Hc, Hm, Ht. reflexivity. }
  destruct (IH tc2 tc3 true Hc2) as [I1 I2].
  { unfold tc2, tc3. cbn. exact Hm. }
  { unfold tc2, tc3. cbn. exact Ht. }
  change (ThumbCache.thumb_done_q tc2) with rest in I1.
  split; [|exact I2]. rewrite I1.
  unfold ThumbCache.puts, ThumbCache.run. cbn [fmap list_fmap foldl ThumbCache.apply fst snd].
  fold tc3.
  replace (omap (cache_entry photo_image tc3) (take n rest))
    with (omap (cache_entry photo_image tc0) (take n rest)); [reflexivity|].
  apply list_omap_ext. apply Forall2_same_length_lookup. split; [reflexivity|].
  intros i x y Hx Hy. rewrite Hx in Hy. injection Hy as <-. reflexivity.
Qed.

Lemma hit_test_inverts_layout_witness :
  Layout._index_from_canvas_xy 100 200 (App._render_results Inputs.scrolling0) = Some 1.
Proof.
  apply (hit_test_inverts_layout 0 1 100 200 (App._render_results Inputs.scrolling0));
    vm_compute; repeat split; first [reflexivity | discriminate].
Defined.

Lemma left_ellipsis_fills_the_label_witness :
  String.length
    (Layout._left_ellipsis_px Layout.measure_without_font "C:\pictures\2024\summer.png" 100)
  = 14%nat.
Proof.
  apply (left_ellipsis_fills_the_label "C:\pictures\2024\summer.png" 100);
    vm_compute; reflexivity.
Defined.

Lemma tooltip_stays_on_screen_witness :
  8 <= (Tooltip.place 1920 1080 300 60 1900 1070).1
  /\ (Tooltip.place 1920 1080 300 60 1900 1070).1 + 300 + 8 <= 1920.
Proof.
  pose proof (tooltip_stays_on_screen 1920 1080 300 60 1900 1070
                ltac:(vm_compute; discriminate) ltac:(vm_compute; discriminate)) as H.
  cbv zeta in H. destruct H as (H1 & H2 & _). split; [exact H1 | exact H2].
Defined.

Lemma put_then_get_witness :
  (ThumbCache.get ("abc"%string, 200)
     (ThumbCache.put ("abc"%string, 200) (ThumbCache.mkPhoto [1; 2])
        (ThumbCache.init Inputs.dc0))).1
  = Some (ThumbCache.mkPhoto [1; 2]).
Proof.
  apply (put_then_get ("abc"%string, 200) (ThumbCache.mkPhoto [1; 2])
           (ThumbCache.init Inputs.dc0)).
  vm_compute. lia.
Defined.

Lemma take_min_length {A : Type} (n : nat) (l : list A) :
  take (Nat.min n (length l)) l = take n l.
Proof.
  destruct (Nat.le_ge_cases n (length l)) as [H|H].
  - rewrite Nat.min_l by exact H. reflexivity.
  - rewrite Nat.min_r by exact H. rewrite !take_ge by lia. reflexivity.
Qed.

Lemma drop_min_length {A : Type} (n : nat) (l : list A) :
  drop (Nat.min n (length l)) l = drop n l.
Proof.
  destruct (Nat.le_ge_cases n (length l)) as [H|H].
  - rewrite Nat.min_l by exact H. reflexivity.
  - rewrite Nat.min_r by exact H. rewrite !drop_ge by lia. reflexivity.
Qed.

(** X10: one run of [_poll_thumbs] takes the first 40 results off the
    completion queue (all of them when there are fewer) and removes their
    keys from the in-flight set; it puts into the memory cache, in queue
    order, the image of each result taken whose bytes are there and
    decode; it leaves the request queue alone and arms the next poll, 30
    ms from now. *)
Theorem poll_thumbs_spec (photo_image : Py.bytes -> option ThumbCache.PhotoImage)
    (root : Tk.t) (tc : ThumbCache.t) :
  let r := ThumbCache._poll_thumbs photo_image root tc in
  let taken := take 40 (ThumbCache.thumb_done_q tc) in
  ThumbCache.thumb_done_q r.2 = drop 40 (ThumbCache.thumb_done_q tc)
  /\ ThumbCache.thumb_cache r.2
     = ThumbCache.thumb_cache (ThumbCache.puts (omap (cache_entry photo_image tc) taken) tc)
  /\ ThumbCache.thumb_inflight r.2
     = ThumbCache.thumb_inflight tc ∖ list_to_set (System.key_of_result tc <$> taken)
  /\ ThumbCache.thumb_req_q r.2 = ThumbCache.thumb_req_q tc
  /\ ThumbCache.thumb_poller_id r.2 = Some (Tk.next_id root)
  /\ Tk.timers r.1
     = Tk.timers root
       ++ [Tk.mkTimer (Tk.next_id root) (Tk.clock root + inject_Z 30 / 1000)%Q Tk.PollThumbs].
Proof.
  cbv zeta. unfold ThumbCache._poll_thumbs. cbv zeta.
  set (tc0 := ThumbCache.set_thumb_poller_id None tc).
  pose proof (poll_loop_inflight photo_image 40 tc0 false) as Hi. cbv zeta in Hi.
  pose proof (poll_loop_cache photo_image 40 tc0 tc false eq_refl eq_refl eq_refl) as [Hc _].
  pose proof (poll_loop_poller photo_image 40 tc0 false) as Hp.
  destruct (ThumbCache.poll_loop photo_image 40 tc0 false) as [tc1 u].
  cbn [fst snd] in Hi, Hc, Hp.
  change (ThumbCache.thumb_done_q tc0) with (ThumbCache.thumb_done_q tc) in Hi, Hc.
  rewrite take_min_length, drop_min_length in Hi.
  destruct Hi as (I1 & I2 & I3 & I4).
  unfold ThumbCache.ensure_thumb_poller. rewrite Hp. cbn [ThumbCache.thumb_poller_id tc0 ThumbCache.set_thumb_poller_id].
  cbn. repeat split; assumption.
Qed.


(** ** Timers that are cancelled and armed again *)

Lemma rearm_pending (ms : Z) (cb : Tk.callback) (tk : Tk.t) ow :
  Tk.owned tk ow ->
  let tk' := (Tk.after ms cb
                match ow cb with Some id => Tk.after_cancel id tk | None => tk end).2 in
  Tk.pending cb tk'
  = [Tk.mkTimer (Tk.next_id tk) (Tk.clock tk + inject_Z ms / 1000)%Q cb]
  /\ (forall cb', cb' <> cb -> Tk.pending cb' tk' = Tk.pending cb' tk)
  /\ Tk.clock tk' = Tk.clock tk
  /\ Tk.next_id tk' = S (Tk.next_id tk).
Proof.
  intros Hown. cbv zeta. split; [|split; [|split]].
  - rewrite pending_after, (pending_cleared cb tk ow Hown), decide_True by reflexivity.
    destruct (ow cb); reflexivity.
  - intros cb' Hne. rewrite pending_after, decide_False by congruence.
    rewrite app_nil_r. apply (pending_kept cb cb' tk ow Hown Hne).
  - destruct (ow cb); reflexivity.
  - destruct (ow cb); reflexivity.
Qed.

Lemma owned_length (tk : Tk.t) ow (cb : Tk.callback) :
  Tk.owned tk ow ->
  length (Tk.pending cb tk) = length (option_list (ow cb)).
Proof.
  intros (_ & _ & H). specialize (H cb).
  rewrite <- (length_fmap Tk.timer_id), H. reflexivity.
Qed.

(** X11: a turn of the wheel over the window with a delta other than 0
    marks the view as scrolling and adds int(-delta / 120) to the pending
    scroll units. After it exactly one idle timer is pending, due
    [scroll_idle_ms] from now (an earlier one is cancelled), and exactly
    one flush timer; the canvas and the render timer are as before. *)
Theorem wheel_marks_scrolling (delta : Z) (s : App.t) :
  System.sound s -> delta <> 0 ->
  let s' := App._on_mousewheel true delta s in
  let tr := App.scroll_activity_tracker s in
  ScrollActivityTracker.is_scroll_active (App.scroll_activity_tracker s') = true
  /\ App.pending_scroll_units s' = App.pending_scroll_units s + Z.quot (- delta) 120
  /\ Tk.pending Tk.MarkScrollIdle (App.root s')
     = [Tk.mkTimer (Tk.next_id (App.root s))
          (Tk.clock (App.root s)
           + inject_Z (ScrollActivityTracker.scroll_idle_ms tr) / 1000)%Q
          Tk.MarkScrollIdle]
  /\ ScrollActivityTracker.scroll_idle_after_id (App.scroll_activity_tracker s')
     = Some (Tk.next_id (App.root s))
  /\ length (Tk.pending Tk.FlushScroll (App.root s')) = 1%nat
  /\ Tk.pending Tk.RenderResults (App.root s') = Tk.pending Tk.RenderResults (App.root s)
  /\ App.canvas s' = App.canvas s
  /\ System.sound s'.
Proof.
  intros Hs Hd. cbv zeta.
  pose proof (step_ok_mousewheel true delta s) as (Hsound & _).
  specialize (Hsound Hs). revert Hsound.
  unfold App._on_mousewheel. cbn [negb].
  replace (delta =? 0) with false by (symmetry; apply Z.eqb_neq; exact Hd).
  cbv zeta. unfold ScrollActivityTracker.mark_scroll_active.
  cbn [App.root App.scroll_activity_tracker App.set_pending_scroll_units].
  destruct (rearm_pending (ScrollActivityTracker.scroll_idle_ms (App.scroll_activity_tracker s))
              Tk.MarkScrollIdle (App.root s) (App.owner s) Hs) as (R1 & R2 & R3 & R4).
  cbn [App.owner] in R1, R2, R3, R4.
  destruct (Tk.after (ScrollActivityTracker.scroll_idle_ms _) _ _) as [id tk] eqn:Ea.
  assert (Hid : id = Tk.next_id (App.root s)).
  { apply (f_equal fst) in Ea. cbn in Ea.
    destruct (ScrollActivityTracker.scroll_idle_after_id _); cbn in Ea; congruence. }
  cbn [snd] in R1, R2, R3, R4. subst id.
  cbn [App.scroll_after_id App.set_scroll_activity_tracker App.set_root
       App.set_pending_scroll_units].
  pose proof (owned_length (App.root s) (App.owner s) Tk.FlushScroll Hs) as Hfl.
  cbn [App.owner] in Hfl.
  destruct (App.scroll_after_id s) as [fid|] eqn:Ef.
  - intros Hsound. cbn.
    split; [reflexivity|]. split; [reflexivity|]. split; [exact R1|].
    split; [reflexivity|]. split; [rewrite R2 by discriminate; exact Hfl|].
    split; [apply R2; discriminate|]. split; [reflexivity | exact Hsound].
  - destruct (Tk.after 16 Tk.FlushScroll _) as [id2 tk2] eqn:Ea2.
    intros Hsound.
    assert (Htk2 : tk2 = (Tk.after 16 Tk.FlushScroll tk).2).
    { cbn [App.root App.set_scroll_activity_tracker App.set_root] in Ea2.
      rewrite Ea2. reflexivity. }
    cbn [App.scroll_activity_tracker App.set_scroll_after_id App.set_root App.root
         App.set_scroll_activity_tracker App.pending_scroll_units
         App.set_pending_scroll_units App.canvas
         ScrollActivityTracker.is_scroll_active ScrollActivityTracker.scroll_active
         ScrollActivityTracker.scroll_idle_after_id].
    split; [reflexivity|]. split; [reflexivity|]. clear Ea2. subst tk2.
    split; [rewrite pending_after, decide_False, app_nil_r by discriminate; exact R1|].
    split; [reflexivity|]. split.
    { rewrite pending_after, decide_True by reflexivity.
      rewrite R2 by discriminate. rewrite length_app, Hfl. reflexivity. }
    split; [|split; [reflexivity | exact Hsound]].
    rewrite pending_after, decide_False, app_nil_r by discriminate.
    apply R2. discriminate.
Qed.


(** The state in which the callback of the timer [tm] starts: the timer
    is off the table. *)
Lemma taken_sound_but (tm : Tk.timer) (s : App.t) :
  System.sound s -> tm ∈ Tk.timers (App.root s) ->
  System.sound_but (Tk.timer_cb tm) (App.set_root (Tk.take tm (App.root s)) s).
Proof.
  intros Hs Hin. unfold System.sound_but. cbn.
  apply (owned_take tm (App.root s) (App.owner s)); [exact Hs | exact Hin | |].
  - rewrite decide_True by reflexivity. reflexivity.
  - intros c Hne. rewrite decide_False by exact Hne. destruct c; reflexivity.
Qed.

Lemma schedule_render_canvas (delay_ms : Z) (s : App.t) :
  App.canvas (App._schedule_render delay_ms s) = App.canvas s
  /\ App.pending_scroll_units (App._schedule_render delay_ms s) = App.pending_scroll_units s
  /\ App.scroll_after_id (App._schedule_render delay_ms s) = App.scroll_after_id s
  /\ App.scroll_activity_tracker (App._schedule_render delay_ms s)
     = App.scroll_activity_tracker s.
Proof.
  unfold App._schedule_render. cbv zeta.
  destruct (Tk.after _ _ _) as [id tk]. repeat split.
Qed.

(** X12: when the idle timer fires, the view is no longer scrolling, no
    idle timer is left and exactly one render is pending, the one whose
    id the application holds. *)
Theorem idle_timer_schedules_one_render
    (photo_image : Py.bytes -> option ThumbCache.PhotoImage)
    (tm : Tk.timer) (s : App.t) :
  System.sound s -> tm ∈ Tk.timers (App.root s) -> Tk.timer_cb tm = Tk.MarkScrollIdle ->
  let s' := App.fire photo_image tm s in
  ScrollActivityTracker.is_scroll_active (App.scroll_activity_tracker s') = false
  /\ ScrollActivityTracker.scroll_idle_after_id (App.scroll_activity_tracker s') = None
  /\ Tk.pending Tk.MarkScrollIdle (App.root s') = []
  /\ length (Tk.pending Tk.RenderResults (App.root s')) = 1%nat
  /\ Tk.timer_id <$> Tk.pending Tk.RenderResults (App.root s')
     = option_list (App.render_after_id s')
  /\ System.sound s'.
Proof.
  intros Hs Hin Hcb. cbv zeta.
  pose proof (taken_sound_but tm s Hs Hin) as Hbut. rewrite Hcb in Hbut.
  unfold App.fire. rewrite Hcb. cbn [App.run_callback].
  unfold App._mark_scroll_idle. cbv zeta.
  set (s1 := App.set_scroll_activity_tracker _ _).
  assert (Hs1 : System.sound s1).
  { apply (sound_clear Tk.MarkScrollIdle (App.set_root (Tk.take tm (App.root s)) s));
      [exact Hbut | reflexivity | reflexivity|].
    intros []; try reflexivity. congruence. }
  pose proof (schedule_render_spec 1 s1 Hs1) as H. cbv zeta in H.
  destruct H as (H1 & H2 & _ & H4 & _ & _ & _ & _ & H9).
  destruct (schedule_render_canvas 1 s1) as (_ & _ & _ & Ht).
  rewrite Ht, H1, H2. cbn [length fmap list_fmap option_list Tk.timer_id].
  split; [reflexivity|]. split; [reflexivity|]. split.
  { rewrite H4 by discriminate.
    pose proof (owned_length (App.root s1) (App.owner s1) Tk.MarkScrollIdle Hs1) as Hl.
    cbn in Hl. apply nil_length_inv. exact Hl. }
  split; [reflexivity|]. split; [reflexivity | exact H9].
Qed.

(** The timer of the scroll flush applies the units the wheel left and
    schedules one render. *)
Lemma fire_flush_scroll
    (photo_image : Py.bytes -> option ThumbCache.PhotoImage)
    (tm : Tk.timer) (s : App.t) :
  System.sound s -> tm ∈ Tk.timers (App.root s) -> Tk.timer_cb tm = Tk.FlushScroll ->
  let s' := App.fire photo_image tm s in
  App.pending_scroll_units s' = 0
  /\ App.scroll_after_id s' = None
  /\ App.canvas s'
     = (if App.pending_scroll_units s =? 0 then App.canvas s
        else App.yview_scroll (App.pending_scroll_units s) (App.canvas s))
  /\ Tk.pending Tk.FlushScroll (App.root s') = []
  /\ length (Tk.pending Tk.RenderResults (App.root s')) = 1%nat
  /\ System.sound s'.
Proof.
  intros Hs Hin Hcb. cbv zeta.
  pose proof (taken_sound_but tm s Hs Hin) as Hbut. rewrite Hcb in Hbut.
  unfold App.fire. rewrite Hcb. cbn [App.run_callback].
  unfold App._flush_scroll. cbv zeta.
  match goal with |- context [App._schedule_render 16 ?x] => set (s1 := x) end.
  assert (Hs1 : System.sound s1).
  { apply (sound_clear Tk.FlushScroll (App.set_root (Tk.take tm (App.root s)) s)).
    - exact Hbut.
    - unfold s1. destruct (_ =? _); reflexivity.
    - unfold s1. destruct (_ =? _); reflexivity.
    - intros [] Hne; try congruence; unfold s1; destruct (_ =? _); reflexivity. }
  pose proof (schedule_render_spec 16 s1 Hs1) as H. cbv zeta in H.
  destruct H as (H1 & _ & _ & H4 & _ & _ & _ & _ & H9).
  destruct (schedule_render_canvas 16 s1) as (Hc & Hu & Hf & _).
  rewrite Hc, Hu, Hf, H1.
  split; [unfold s1; destruct (_ =? _); reflexivity|].
  split; [unfold s1; destruct (_ =? _); reflexivity|].
  split; [unfold s1; cbn; destruct (_ =? _); reflexivity|].
  split.
  { rewrite H4 by discriminate.
    pose proof (owned_length (App.root s1) (App.owner s1) Tk.FlushScroll Hs1) as Hl.
    assert (Hn : App.owner s1 Tk.FlushScroll = None)
      by (unfold s1; destruct (_ =? _); reflexivity).
    rewrite Hn in Hl. apply nil_length_inv. exact Hl. }
  split; [reflexivity | exact H9].
Qed.

Lemma wheel_units (delta : Z) (s : App.t) :
  App.pending_scroll_units (App._on_mousewheel true delta s)
  = App.pending_scroll_units s + Z.quot (- delta) 120
  /\ App.canvas (App._on_mousewheel true delta s) = App.canvas s.
Proof.
  unfold App._on_mousewheel. cbn [negb].
  destruct (delta =? 0) eqn:E.
  - apply Z.eqb_eq in E. subst delta. change (Z.quot (- 0) 120) with 0.
    split; [lia | reflexivity].
  - cbv zeta. unfold ScrollActivityTracker.mark_scroll_active, Tk.after. cbn.
    destruct (App.scroll_after_id s); cbn; auto.
Qed.

Lemma wheel_burst_units (deltas : list Z) (s : App.t) :
  App.pending_scroll_units (wheel_burst deltas s)
  = App.pending_scroll_units s + foldr Z.add 0 ((fun d => Z.quot (- d) 120) <$> deltas)
  /\ App.canvas (wheel_burst deltas s) = App.canvas s
  /\ (System.sound s -> System.sound (wheel_burst deltas s)).
Proof.
  revert s. induction deltas as [|d ds IH]; intros s.
  { cbn. split; [lia | auto]. }
  cbn [wheel_burst foldl]. fold (wheel_burst ds (App._on_mousewheel true d s)).
  destruct (IH (App._on_mousewheel true d s)) as (I1 & I2 & I3).
  destruct (wheel_units d s) as [U1 U2].
  rewrite I1, I2, U1, U2. cbn [fmap list_fmap foldr].
  split; [lia|]. split; [reflexivity|].
  intros Hs. apply I3. apply (step_ok_mousewheel true d s). exact Hs.
Qed.

(** X13: turns of the wheel that arrive before the flush timer fires are
    applied together. After them at most one flush timer is pending; when
    it fires, the canvas is scrolled once, by the sum of the units of the
    turns (and not at all when the sum is 0), and the pending units are
    0 again. *)
Theorem wheel_burst_is_one_scroll
    (photo_image : Py.bytes -> option ThumbCache.PhotoImage)
    (deltas : list Z) (tm : Tk.timer) (s : App.t) :
  System.sound s ->
  let s1 := wheel_burst deltas s in
  let total := App.pending_scroll_units s
               + foldr Z.add 0 ((fun d => Z.quot (- d) 120) <$> deltas) in
  tm ∈ Tk.timers (App.root s1) -> Tk.timer_cb tm = Tk.FlushScroll ->
  (length (Tk.pending Tk.FlushScroll (App.root s1)) <= 1)%nat
  /\ App.canvas (App.fire photo_image tm s1)
     = (if total =? 0 then App.canvas s else App.yview_scroll total (App.canvas s))
  /\ App.pending_scroll_units (App.fire photo_image tm s1) = 0.
Proof.
  intros Hs. cbv zeta. intros Hin Hcb.
  destruct (wheel_burst_units deltas s) as (U1 & U2 & U3). specialize (U3 Hs).
  pose proof (fire_flush_scroll photo_image tm _ U3 Hin Hcb) as H.
  cbv zeta in H. destruct H as (H1 & _ & H3 & _).
  split.
  { rewrite (owned_length _ _ Tk.FlushScroll U3). destruct (App.owner _ _); cbn; lia. }
  rewrite H3, H1, U1, U2. auto.
Qed.

(** X14: in every state the running program reaches, each callback
    (render, idle mark, scroll flush, thumbnail poll) has at most one
    pending timer, the one whose id the application holds; the ids of the
    pending timers are distinct and below the next id Tk gives out. *)
Theorem one_timer_for_each_callback
    (photo_image : Py.bytes -> option ThumbCache.PhotoImage)
    (now : Q) (cv : App.Canvas) (CACHE_PATH : list string) (e : Env.t)
    (s : System.state) (cb : Tk.callback) :
  System.reachable photo_image (System.initial now cv CACHE_PATH e) s ->
  Tk.timer_id <$> Tk.pending cb (App.root (System.app s))
  = option_list (App.owner (System.app s) cb)
  /\ (length (Tk.pending cb (App.root (System.app s))) <= 1)%nat
  /\ NoDup (Tk.timer_id <$> Tk.timers (App.root (System.app s)))
  /\ Forall (fun tm => (Tk.timer_id tm < Tk.next_id (App.root (System.app s)))%nat)
       (Tk.timers (App.root (System.app s))).
Proof.
  intros Hr.
  destruct (reachable_invariants photo_image now cv CACHE_PATH e s Hr) as (Hs & _ & _).
  pose proof Hs as (H1 & H2 & H3).
  split; [apply H3|]. split; [|split; [exact H1 | exact H2]].
  rewrite (owned_length _ _ cb Hs). destruct (App.owner _ cb); cbn; lia.
Qed.


(** ** The pool of cards covers the window *)

Lemma ensure_pool_fields (s : App.t) :
  let s' := App._ensure_pool s in
  App.card_w s' = App.card_w s
  /\ App.card_h s' = Z.quot ((App.card_w s - App.pad s * 2 - 16) * 9) 16
                     + (30 + App.path_bottom_margin s) + 24
  /\ App.cols s' = Z.max 1 (Z.max 1 (App.winfo_width (App.canvas s)) / App.card_w s)
  /\ App.visible_rows s'
     = Z.max 1 (Z.max 1 (App.winfo_height (App.canvas s)) / App.card_h s' + 2)
  /\ App.canvas s' = App.canvas s
  /\ App.matches s' = App.matches s
  /\ App.pad s' = App.pad s.
Proof.
  cbv zeta. unfold App._ensure_pool. cbv zeta.
  set (s1 := App._update_card_geometry s).
  assert (F : App.card_w s1 = App.card_w s
              /\ App.card_h s1 = Z.quot ((App.card_w s - App.pad s * 2 - 16) * 9) 16
                                 + (30 + App.path_bottom_margin s) + 24
              /\ App.canvas s1 = App.canvas s /\ App.matches s1 = App.matches s
              /\ App.pad s1 = App.pad s) by (repeat split).
  destruct F as (F1 & F2 & F3 & F4 & F5).
  destruct ((_ =? App.cols s1) && _ && _) eqn:E.
  - apply andb_true_iff in E as [E _]. apply andb_true_iff in E as [E1 E2].
    apply Z.eqb_eq in E1, E2. rewrite <- E1, <- E2, F1, F2, F3.
    repeat split; assumption.
  - clear E. unfold App._ensure_canvas_pool. cbv zeta.
    destruct (_ =? _);
      cbn [App.card_w App.card_h App.cols App.visible_rows App.canvas App.matches App.pad
           App.set_last_render_key App.set_canvas_cards App.set_visible_rows App.set_cols];
      rewrite F1, F2, F3; repeat split; assumption.
Qed.

Lemma recompute_fields (s : App.t) :
  let s' := App._recompute_virtual_geometry s in
  App.card_w s' = App.card_w s /\ App.card_h s' = App.card_h s
  /\ App.cols s' = App.cols s /\ App.visible_rows s' = App.visible_rows s
  /\ App.matches s' = App.matches s /\ App.pad s' = App.pad s
  /\ App.canvasy0 (App.canvas s') = App.canvasy0 (App.canvas s)
  /\ App.winfo_width (App.canvas s') = App.winfo_width (App.canvas s)
  /\ App.winfo_height (App.canvas s') = App.winfo_height (App.canvas s)
  /\ App.scrollregion (App.canvas s')
     = (0, 0, Z.max 1 (App.cols s * App.card_w s),
        Z.max 1 (match App.matches s with
                 | [] => 1
                 | _ :: _ =>
                     (Z.of_nat (length (App.matches s)) + App.cols s - 1) / App.cols s
                     * App.card_h s
                 end)).
Proof.
  cbv zeta. unfold App._recompute_virtual_geometry.
  destruct (App.matches s) eqn:E; cbn; rewrite ?E; repeat split.
Qed.

(** X15: with cards of positive width and height, the state a render
    pass works with has at least one column and two rows of cards; the
    columns fit in the window unless there is a single one; and for a
    scroll offset that is not negative the rows of the pool, from the
    first visible row on, cover the window from its top to its bottom. *)
Theorem pool_covers_the_window (s : App.t) :
  let s' := render_state s in
  0 < App.card_w s' -> 0 < App.card_h s' ->
  1 <= App.cols s' /\ 2 <= App.visible_rows s'
  /\ App.cols s' * App.card_w s' <= Z.max (App.card_w s') (App.winfo_width (App.canvas s'))
  /\ (0 <= App.canvasy0 (App.canvas s') ->
      App.first_visible_row s' * App.card_h s' <= App.canvasy0 (App.canvas s')
      /\ App.canvasy0 (App.canvas s') + App.winfo_height (App.canvas s')
         <= (App.first_visible_row s' + App.visible_rows s') * App.card_h s').
Proof.
  cbv zeta. unfold render_state.
  set (s0 := App.set_render_after_id None s).
  destruct (recompute_fields (App._ensure_pool s0))
    as (R1 & R2 & R3 & R4 & _ & _ & R7 & R8 & R9 & _).
  destruct (ensure_pool_fields s0) as (E1 & E2 & E3 & E4 & E5 & _).
  unfold App.first_visible_row.
  rewrite R1, R2, R3, R4, R7, R8, R9, E5, E3, E4, E1. clear E2.
  set (ch := App.card_h (App._ensure_pool s0)).
  set (cw := App.card_w s0).
  set (h := App.winfo_height (App.canvas s0)).
  set (w := App.winfo_width (App.canvas s0)).
  set (y := App.canvasy0 (App.canvas s0)).
  intros Hw Hh. clearbody ch cw h w y.
  pose proof (Z.div_mod (Z.max 1 h) ch ltac:(lia)) as Hd1.
  pose proof (Z.mod_pos_bound (Z.max 1 h) ch Hh) as Hb1.
  pose proof (Z.div_mod (Z.max 1 w) cw ltac:(lia)) as Hd2.
  pose proof (Z.mod_pos_bound (Z.max 1 w) cw Hw) as Hb2.
  assert (H0 : 0 <= Z.max 1 h / ch) by (apply Z.div_pos; lia).
  assert (H1 : 0 <= Z.max 1 w / cw) by (apply Z.div_pos; lia).
  split; [lia|]. split; [lia|]. split.
  { destruct (Z.le_gt_cases 1 (Z.max 1 w / cw)) as [Hc|Hc].
    - rewrite (Z.max_r 1 (Z.max 1 w / cw)) by lia. nia.
    - rewrite (Z.max_l 1 (Z.max 1 w / cw)) by lia. lia. }
  intros Hy.
  pose proof (Z.div_mod y ch ltac:(lia)) as Hd3.
  pose proof (Z.mod_pos_bound y ch Hh) as Hb3.
  assert (H2 : 0 <= y / ch) by (apply Z.div_pos; lia).
  rewrite (Z.max_r 0 (y / ch)) by lia.
  rewrite (Z.max_r 1 (Z.max 1 h / ch + 2)) by lia.
  split; nia.
Qed.

(** X16: after [_recompute_virtual_geometry], with at least one column,
    cards of positive width and a height and a padding that are not
    negative, the rectangle of every result, laid out from row 0, lies
    inside the scroll region of the canvas. *)
Theorem cards_lie_in_the_scroll_region (idx : nat) (s : App.t) :
  let s' := App._recompute_virtual_geometry s in
  0 < App.cols s -> 0 < App.card_w s -> 0 <= App.card_h s -> 0 <= App.pad s ->
  (idx < length (App.matches s))%nat ->
  0 <= (Layout.card_box 0 idx s').1.1.1 /\ 0 <= (Layout.card_box 0 idx s').1.1.2
  /\ (Layout.card_box 0 idx s').1.2 <= (App.scrollregion (App.canvas s')).1.2
  /\ (Layout.card_box 0 idx s').2 <= (App.scrollregion (App.canvas s')).2.
Proof.
  cbv zeta. intros Hc Hw Hh Hp Hi.
  destruct (recompute_fields s) as (R1 & R2 & R3 & _ & _ & R6 & _ & _ & _ & R10).
  unfold Layout.card_box. rewrite R1, R2, R3, R6, R10. cbn [fst snd].
  destruct (App.matches s) as [|m0 ms] eqn:Em; [cbn in Hi; lia|].
  rewrite <- Em in *. clear Em m0 ms.
  set (n := Z.of_nat (length (App.matches s))).
  assert (Hn : Z.of_nat idx < n) by (unfold n; lia).
  pose proof (Z.div_mod (Z.of_nat idx) (App.cols s) ltac:(lia)) as Hd1.
  pose proof (Z.mod_pos_bound (Z.of_nat idx) (App.cols s) Hc) as Hb1.
  pose proof (Z.div_mod (n + App.cols s - 1) (App.cols s) ltac:(lia)) as Hd2.
  pose proof (Z.mod_pos_bound (n + App.cols s - 1) (App.cols s) Hc) as Hb2.
  assert (H0 : 0 <= Z.of_nat idx / App.cols s) by (apply Z.div_pos; lia).
  assert (Hrow : Z.of_nat idx / App.cols s + 1 <= (n + App.cols s - 1) / App.cols s).
  { assert (Z.of_nat idx / App.cols s < (n + App.cols s - 1) / App.cols s); [|lia].
    apply Z.div_lt_upper_bound; [lia|]. nia. }
  clearbody n.
  set (row := Z.of_nat idx / App.cols s) in *.
  set (col := Z.of_nat idx mod App.cols s) in *.
  set (rows := (n + App.cols s - 1) / App.cols s) in *.
  clearbody row col rows.
  split; [nia|]. split; [nia|]. split.
  - assert ((col + 1) * App.card_w s <= App.cols s * App.card_w s) by nia. lia.
  - assert ((row + 1) * App.card_h s <= rows * App.card_h s) by nia. lia.
Qed.


(** ** What was written to the disk cache is read back *)

(** X17: when no call fails, no other thread touches the files and the
    name of the shard directory is not taken by a file, [disk_cache_read]
    after [disk_cache_write] returns the bytes written (nothing for empty
    bytes); the cache file holds them, the staging file is gone and every
    other file is as it was. *)
Theorem disk_cache_round_trip (dc : DiskCache.t) (cache_id : string) (size : Z)
    (png : list Z) (e : Env.t) :
  DiskCache.disk_cache_enabled dc = true ->
  calm e ->
  Env.files (Env.fs e) !! DiskCache.shard_dir dc cache_id = None ->
  let e' := (DiskCache.disk_cache_write dc cache_id size png e).2 in
  (DiskCache.disk_cache_read dc cache_id size e').1 = Exc.Ok (Env.visible (Some png))
  /\ Env.files (Env.fs e') !! DiskCache.cache_file dc cache_id size = Some png
  /\ Env.files (Env.fs e') !! DiskCache.tmp_file dc cache_id size = None
  /\ (forall p, p <> DiskCache.cache_file dc cache_id size ->
                p <> DiskCache.tmp_file dc cache_id size ->
                Env.files (Env.fs e') !! p = Env.files (Env.fs e) !! p).
Proof.
  intros Hen Hc Hshard. cbv zeta.
  destruct (calm_disk_cache_write dc cache_id size png e Hen Hc Hshard)
    as (e' & Hw & Hc' & Hf & Hd & _).
  rewrite Hw. cbn [snd].
  set (tmp := DiskCache.tmp_file dc cache_id size) in *.
  set (p := DiskCache.cache_file dc cache_id size) in *.
  assert (Hne : tmp <> p) by apply tmp_file_not_cache_file.
  assert (Hp : Env.files (Env.fs e') !! p = Some png).
  { rewrite Hf. apply lookup_insert_eq. }
  split; [|split; [exact Hp|split]].
  - unfold DiskCache.disk_cache_read. rewrite Hen. cbn [negb].
    unfold Exc.try_except, Exc.bind at 1.
    destruct (calm_disk_cache_path dc cache_id size e' Hc') as (e1 & Hp1 & Hc1 & Hcase).
    rewrite Hp1. fold p.
    assert (He1 : e1 = e').
    { destruct Hcase as [[-> _] | [_ Hpres]]; [reflexivity|].
      unfold Os.present in Hpres. apply orb_false_iff in Hpres as [_ Hpres].
      apply bool_decide_eq_false in Hpres. exfalso. apply Hpres. rewrite Hd. set_solver. }
    subst e1.
    unfold Exc.bind at 1, Os.path_exists. unfold Exc.bind at 1.
    rewrite (calm_fallible _ e' Hc'). unfold Exc.bind at 1, Exc.get, Exc.ret at 1.
    assert (Hpres : Os.present p (Env.fs e') = true).
    { unfold Os.present. rewrite Hp. rewrite bool_decide_eq_true_2 by eauto. reflexivity. }
    rewrite Hpres. cbn [negb].
    unfold Exc.bind at 1, Os.read_bytes. unfold Exc.bind at 1.
    rewrite (calm_fallible _ e' Hc'). unfold Exc.bind at 1, Exc.get.
    rewrite Hp. unfold Exc.ret. destruct png; reflexivity.
  - rewrite Hf, lookup_insert_ne by congruence. apply lookup_delete_eq.
  - intros q Hq1 Hq2. rewrite Hf, lookup_insert_ne, lookup_delete_ne by congruence.
    reflexivity.
Qed.

Lemma calm_disk_cache_read (dc : DiskCache.t) cache_id size (e : Env.t) :
  DiskCache.disk_cache_enabled dc = true ->
  calm e ->
  exists e',
    DiskCache.disk_cache_read dc cache_id size e
    = (Exc.Ok (Env.visible (Env.files (Env.fs e) !! DiskCache.cache_file dc cache_id size)),
       e')
    /\ calm e'
    /\ Env.files (Env.fs e') = Env.files (Env.fs e)
    /\ Env.dirs (Env.fs e) ⊆ Env.dirs (Env.fs e')
    /\ Env.db e' = Env.db e /\ Env.render_png e' = Env.render_png e.
Proof.
  intros Hen Hc.
  unfold DiskCache.disk_cache_read. rewrite Hen. cbn [negb].
  unfold Exc.try_except, Exc.bind at 1.
  destruct (calm_disk_cache_path dc cache_id size e Hc) as (e1 & Hp1 & Hc1 & Hcase).
  rewrite Hp1. set (p := DiskCache.cache_file dc cache_id size).
  assert (H1 : Env.files (Env.fs e1) = Env.files (Env.fs e)
               /\ Env.dirs (Env.fs e) ⊆ Env.dirs (Env.fs e1)
               /\ Env.db e1 = Env.db e /\ Env.render_png e1 = Env.render_png e).
  { destruct Hcase as [[-> _] | [-> _]]; cbn; repeat split; set_solver. }
  destruct H1 as (Hf1 & Hd1 & Hdb1 & Hr1).
  exists e1.
  unfold Exc.bind at 1, Os.path_exists. unfold Exc.bind at 1.
  rewrite (calm_fallible _ e1 Hc1). unfold Exc.bind at 1, Exc.get, Exc.ret at 1.
  rewrite <- Hf1.
  destruct (Os.present p (Env.fs e1)) eqn:Epres; cbn [negb].
  - unfold Exc.bind at 1, Os.read_bytes. unfold Exc.bind at 1.
    rewrite (calm_fallible _ e1 Hc1). unfold Exc.bind at 1, Exc.get.
    destruct (Env.files (Env.fs e1) !! p) as [data|] eqn:Ed.
    + unfold Exc.ret. destruct data; cbn; auto 10.
    + unfold Exc.raise, Exc.ret. cbn. auto 10.
  - unfold Exc.ret. unfold Os.present in Epres. apply orb_false_iff in Epres as [Ep _].
    apply bool_decide_eq_false in Ep.
    destruct (Env.files (Env.fs e1) !! p) as [data|] eqn:Ed; [exfalso; apply Ep; eauto|].
    cbn. auto 10.
Qed.

(** ** One pass of the worker when nothing fails *)

Lemma calm_external (x : Exc.exn) (w : Worker.state) :
  calm (Worker.env w) -> Worker.external x w = (Exc.Ok tt, w).
Proof.
  intros [Hf Hi]. unfold Worker.external, Worker.in_env, Exc.zoom, Exc.bind, Os.fault.
  rewrite Hf. cbn. destruct w; reflexivity.
Qed.

Lemma calm_ensure_conn (w : Worker.state) :
  calm (Worker.env w) ->
  exists w', Worker._ensure_conn w = (Exc.Ok tt, w')
             /\ Worker.self w' = Worker.self w /\ Worker.env w' = Worker.env w.
Proof.
  intros Hc. unfold Worker._ensure_conn, Exc.bind at 1, Exc.get.
  destruct (Worker.conn w) as [c|].
  - exists w. destruct c. unfold Exc.ret. auto.
  - unfold Exc.bind at 1. rewrite (calm_external _ w Hc).
    unfold Exc.bind at 1, Exc.modify, Exc.try_except.
    rewrite (calm_external _ (Worker.set_conn (Some tt) w) Hc).
    eexists. split; [reflexivity|]. auto.
Qed.

Lemma calm_load_thumbnail_bytes (cache_id path_text : string) (w : Worker.state) :
  calm (Worker.env w) ->
  Worker._load_thumbnail_bytes cache_id path_text w
  = (Exc.Ok (Worker.stored_thumbnail (Env.db (Worker.env w)) cache_id path_text), w).
Proof.
  intros Hc. unfold Worker._load_thumbnail_bytes, Worker.stored_thumbnail, Exc.try_except.
  unfold Exc.bind at 1, Worker.select_thumbnail. unfold Exc.bind at 1.
  rewrite (calm_external _ w Hc). unfold Exc.bind at 1, Exc.get, Exc.ret at 1.
  destruct (Env.image_metadata (Env.db (Worker.env w)) !! cache_id) as [blob|];
    [reflexivity|].
  unfold Exc.bind at 1, Worker.select_hash. unfold Exc.bind at 1.
  rewrite (calm_external _ w Hc). unfold Exc.bind at 1, Exc.get, Exc.ret at 1.
  destruct (Env.image_file (Env.db (Worker.env w)) !! path_text) as [h|]; [|reflexivity].
  unfold Exc.bind at 1. unfold Exc.bind at 1.
  rewrite (calm_external _ w Hc). unfold Exc.bind at 1, Exc.get, Exc.ret at 1.
  destruct (Env.image_metadata (Env.db (Worker.env w)) !! h); reflexivity.
Qed.

Lemma visible_nonempty (c : option (list Z)) (png : list Z) :
  Env.visible c = Some png -> c = Some png /\ png <> [].
Proof.
  destruct c as [[|b l]|]; cbn; intros H; try discriminate.
  injection H as <-. split; [reflexivity | discriminate].
Qed.

Lemma calm_iteration (idx : nat) (path_text cache_id : string) (w : Worker.state) :
  DiskCache.disk_cache_enabled (ThumbCache.disk_cache (Worker.self w)) = true ->
  calm (Worker.env w) ->
  Env.files (Env.fs (Worker.env w))
    !! DiskCache.shard_dir (ThumbCache.disk_cache (Worker.self w)) cache_id = None ->
  exists w',
    Worker.iteration (idx, path_text, cache_id) w = (Exc.Ok tt, w')
    /\ Worker.self w'
       = ThumbCache.set_thumb_done_q
           (ThumbCache.thumb_done_q (Worker.self w)
            ++ [(idx, path_text, cache_id, pass_result w cache_id path_text)])
           (Worker.self w)
    /\ calm (Worker.env w')
    /\ Env.db (Worker.env w') = Env.db (Worker.env w)
    /\ Env.render_png (Worker.env w') = Env.render_png (Worker.env w)
    /\ let p := DiskCache.cache_file (ThumbCache.disk_cache (Worker.self w)) cache_id
                  (ThumbCache.thumb_max (Worker.self w)) in
       (forall png, pass_result w cache_id path_text = Some png ->
                    Env.files (Env.fs (Worker.env w')) !! p = Some png)
       /\ (pass_result w cache_id path_text = None ->
           Env.files (Env.fs (Worker.env w')) = Env.files (Env.fs (Worker.env w)))
       /\ Env.files (Env.fs (Worker.env w'))
            !! DiskCache.shard_dir (ThumbCache.disk_cache (Worker.self w)) cache_id = None
       /\ (is_Some (Env.visible (Env.files (Env.fs (Worker.env w)) !! p)) ->
           Env.files (Env.fs (Worker.env w')) = Env.files (Env.fs (Worker.env w))).
Proof.
  intros Hen Hc Hshard.
  set (dc := ThumbCache.disk_cache (Worker.self w)) in *.
  set (size := ThumbCache.thumb_max (Worker.self w)) in *.
  unfold Worker.iteration. unfold Exc.bind at 1, Exc.try_except.
  unfold Exc.bind at 1.
  destruct (calm_ensure_conn w Hc) as (w1 & H1 & Hs1 & He1). rewrite H1.
  unfold Exc.bind at 1, Exc.get. rewrite Hs1. fold dc size.
  unfold Exc.bind at 1, Worker.in_env at 1, Exc.zoom.
  rewrite He1.
  destruct (calm_disk_cache_read dc cache_id size (Worker.env w) Hen Hc)
    as (e2 & H2 & Hc2 & Hf2 & Hd2 & Hdb2 & Hr2).
  rewrite H2.
  set (w2 := Worker.set_env e2 w1).
  assert (Hs2 : Worker.self w2 = Worker.self w) by exact Hs1.
  unfold pass_result. fold dc size. cbv zeta.
  destruct (Env.visible (Env.files (Env.fs (Worker.env w)) !! DiskCache.cache_file dc cache_id size))
    as [png|] eqn:Ev.
  - (* the disk cache has the bytes *)
    apply visible_nonempty in Ev as [Ev Hne]. destruct png as [|b png]; [contradiction|].
    unfold Exc.bind at 1, Worker.done_put, Exc.modify, Exc.ret.
    eexists. split; [reflexivity|]. unfold w2.
      cbn [Worker.self Worker.set_self Worker.env Worker.set_env].
    rewrite Hs1. split; [reflexivity|].
    split; [exact Hc2|]. split; [exact Hdb2|]. split; [exact Hr2|].
    split; [intros png' [= <-]; rewrite Hf2; exact Ev|].
    split; [discriminate|]. split; [rewrite Hf2; exact Hshard|].
      first [intros _; exact Hf2 | intros [? ?]; discriminate].
  - cbv iota.
    unfold Exc.bind at 1.
    assert (Hc2' : calm (Worker.env w2)) by exact Hc2.
    rewrite (calm_load_thumbnail_bytes cache_id path_text w2 Hc2').
    change (Env.db (Worker.env w2)) with (Env.db e2). rewrite Hdb2.
    destruct (Worker.stored_thumbnail (Env.db (Worker.env w)) cache_id path_text)
      as [[|b tb]|] eqn:Est.
    + unfold Exc.ret, Worker.done_put, Exc.modify.
      eexists. split; [reflexivity|]. unfold w2.
      cbn [Worker.self Worker.set_self Worker.env Worker.set_env].
      rewrite Hs1. split; [reflexivity|].
      split; [exact Hc2|]. split; [exact Hdb2|]. split; [exact Hr2|].
      split; [discriminate|]. split; [intros _; exact Hf2|]. split; [rewrite Hf2; exact Hshard|].
      first [intros _; exact Hf2 | intros [? ?]; discriminate].
    + unfold Exc.bind at 1, Worker.make_png. unfold Exc.bind at 1, Exc.get.
      change (Env.render_png (Worker.env w2)) with (Env.render_png e2). rewrite Hr2.
      destruct (Env.render_png (Worker.env w) (b :: tb)) as [png|] eqn:Er.
      * unfold Exc.ret at 1. unfold Exc.bind at 1, Worker.in_env, Exc.zoom.
        change (Worker.env w2) with e2.
        destruct (calm_disk_cache_write dc cache_id size png e2 Hen Hc2)
          as (e3 & H3 & Hc3 & Hf3 & Hd3 & Hdb3 & Hr3 & _).
        { rewrite Hf2. exact Hshard. }
        rewrite H3. unfold Exc.ret, Worker.done_put, Exc.modify.
        eexists. split; [reflexivity|]. cbn [Worker.self Worker.set_self Worker.env Worker.set_env].
        rewrite Hs2. split; [reflexivity|].
        split; [exact Hc3|]. split; [congruence|]. split; [congruence|].
        split; [intros png' [= <-]; rewrite Hf3; apply lookup_insert_eq|].
        split; [discriminate|]. split; [|intros [? ?]; discriminate].
        rewrite Hf3, lookup_insert_ne, lookup_delete_ne, Hf2; [exact Hshard| |].
        -- unfold DiskCache.tmp_file, DiskCache.shard_dir, Pathlib.joinpath. cbv zeta.
           intros H. apply (f_equal length) in H. rewrite !length_app in H. cbn in H. lia.
        -- unfold DiskCache.cache_file, DiskCache.shard_dir, Pathlib.joinpath. cbv zeta.
           intros H. apply (f_equal length) in H. rewrite !length_app in H. cbn in H. lia.
      * (* the image does not render: the handler runs *)
        unfold Exc.raise at 1. unfold Exc.bind at 1, Worker._reset_conn.
        unfold Exc.bind at 1, Exc.get. unfold Exc.bind at 1.
        assert (Hreset : forall w0 : Worker.state, calm (Worker.env w0) ->
                  match Worker.conn w0 with
                  | Some _ => Exc.try_except (Worker.external Exc.DatabaseError)
                                (fun _ => Exc.ret tt)
                  | None => Exc.ret tt
                  end w0 = (Exc.Ok tt, w0)).
        { intros w0 Hc0. destruct (Worker.conn w0); [|reflexivity].
          unfold Exc.try_except. rewrite (calm_external _ w0 Hc0). reflexivity. }
        rewrite (Hreset w2 Hc2'). unfold Exc.modify, Exc.ret, Worker.done_put.
        eexists. split; [reflexivity|]. unfold w2.
        cbn [Worker.self Worker.set_self Worker.env Worker.set_conn Worker.set_env].
        rewrite Hs1. split; [reflexivity|].
        split; [exact Hc2|]. split; [exact Hdb2|]. split; [exact Hr2|].
        split; [discriminate|]. split; [intros _; exact Hf2|]. split; [rewrite Hf2; exact Hshard|].
      first [intros _; exact Hf2 | intros [? ?]; discriminate].
    + unfold Exc.ret, Worker.done_put, Exc.modify.
      eexists. split; [reflexivity|]. unfold w2.
      cbn [Worker.self Worker.set_self Worker.env Worker.set_env].
      rewrite Hs1. split; [reflexivity|].
      split; [exact Hc2|]. split; [exact Hdb2|]. split; [exact Hr2|].
      split; [discriminate|]. split; [intros _; exact Hf2|]. split; [rewrite Hf2; exact Hshard|].
      first [intros _; exact Hf2 | intros [? ?]; discriminate].
Qed.

(** X18: when nothing fails, one pass of the worker returns and puts one
    result for its request on the completion queue: the bytes of the cache
    file if it is not empty, else the stored thumbnail rendered, else
    nothing. Bytes it found or made are in the cache file afterwards; a
    pass without bytes leaves the files alone; the request queue, the
    in-flight set, the memory cache and the database are untouched. *)
Theorem worker_pass_when_nothing_fails (idx : nat) (path_text cache_id : string)
    (w : Worker.state) :
  DiskCache.disk_cache_enabled (ThumbCache.disk_cache (Worker.self w)) = true ->
  calm (Worker.env w) ->
  Env.files (Env.fs (Worker.env w))
    !! DiskCache.shard_dir (ThumbCache.disk_cache (Worker.self w)) cache_id = None ->
  let r := Worker.iteration (idx, path_text, cache_id) w in
  let p := DiskCache.cache_file (ThumbCache.disk_cache (Worker.self w)) cache_id
             (ThumbCache.thumb_max (Worker.self w)) in
  r.1 = Exc.Ok tt
  /\ ThumbCache.thumb_done_q (Worker.self r.2)
     = ThumbCache.thumb_done_q (Worker.self w)
       ++ [(idx, path_text, cache_id, pass_result w cache_id path_text)]
  /\ ThumbCache.thumb_req_q (Worker.self r.2) = ThumbCache.thumb_req_q (Worker.self w)
  /\ ThumbCache.thumb_inflight (Worker.self r.2) = ThumbCache.thumb_inflight (Worker.self w)
  /\ ThumbCache.thumb_cache (Worker.self r.2) = ThumbCache.thumb_cache (Worker.self w)
  /\ (forall png, pass_result w cache_id path_text = Some png ->
                  Env.files (Env.fs (Worker.env r.2)) !! p = Some png)
  /\ (pass_result w cache_id path_text = None ->
      Env.files (Env.fs (Worker.env r.2)) = Env.files (Env.fs (Worker.env w)))
  /\ Env.db (Worker.env r.2) = Env.db (Worker.env w).
Proof.
  intros Hen Hc Hshard. cbv zeta.
  destruct (calm_iteration idx path_text cache_id w Hen Hc Hshard)
    as (w' & Hw & Hs & _ & Hdb & _ & Hsome & Hnone & _).
  rewrite Hw. cbn [fst snd]. rewrite Hs.
  split; [reflexivity|]. split; [reflexivity|]. split; [reflexivity|].
  split; [reflexivity|]. split; [reflexivity|]. auto.
Qed.

(** X19: a thumbnail is made once. When nothing fails, after a pass that
    gave bytes that are not empty, a second pass for the same identifier,
    whatever its index and path, gives the same bytes and changes no
    file. *)
Theorem second_pass_reads_the_disk_cache (idx idx' : nat)
    (path_text path_text' cache_id : string) (png : list Z) (w : Worker.state) :
  DiskCache.disk_cache_enabled (ThumbCache.disk_cache (Worker.self w)) = true ->
  calm (Worker.env w) ->
  Env.files (Env.fs (Worker.env w))
    !! DiskCache.shard_dir (ThumbCache.disk_cache (Worker.self w)) cache_id = None ->
  pass_result w cache_id path_text = Some png -> png <> [] ->
  let w1 := (Worker.iteration (idx, path_text, cache_id) w).2 in
  let r := Worker.iteration (idx', path_text', cache_id) w1 in
  r.1 = Exc.Ok tt
  /\ ThumbCache.thumb_done_q (Worker.self r.2)
     = ThumbCache.thumb_done_q (Worker.self w)
       ++ [(idx, path_text, cache_id, Some png); (idx', path_text', cache_id, Some png)]
  /\ Env.files (Env.fs (Worker.env r.2)) = Env.files (Env.fs (Worker.env w1)).
Proof.
  intros Hen Hc Hshard Hres Hne. cbv zeta.
  destruct (calm_iteration idx path_text cache_id w Hen Hc Hshard)
    as (w1 & Hw1 & Hs1 & Hc1 & _ & _ & Hsome1 & _ & Hshard1 & _).
  rewrite Hw1. cbn [snd]. cbv zeta in Hsome1. specialize (Hsome1 png Hres).
  assert (Hdc : ThumbCache.disk_cache (Worker.self w1) = ThumbCache.disk_cache (Worker.self w))
    by (rewrite Hs1; reflexivity).
  assert (Hmax : ThumbCache.thumb_max (Worker.self w1) = ThumbCache.thumb_max (Worker.self w))
    by (rewrite Hs1; reflexivity).
  assert (Hvis : Env.visible
                   (Env.files (Env.fs (Worker.env w1))
                      !! DiskCache.cache_file (ThumbCache.disk_cache (Worker.self w1)) cache_id
                           (ThumbCache.thumb_max (Worker.self w1))) = Some png).
  { rewrite Hdc, Hmax, Hsome1. destruct png; [contradiction | reflexivity]. }
  destruct (calm_iteration idx' path_text' cache_id w1) as (w2 & Hw2 & Hs2 & _ & _ & _ & _ & _ & _ & Hhit).
  { rewrite Hdc. exact Hen. }
  { exact Hc1. }
  { rewrite Hdc. exact Hshard1. }
  rewrite Hw2. cbn [fst snd]. split; [reflexivity|]. split.
  - assert (Hp1 : pass_result w1 cache_id path_text' = Some png)
      by (unfold pass_result; cbv zeta; rewrite Hvis; reflexivity).
    rewrite Hs2, Hp1, Hs1.
    cbn [ThumbCache.thumb_done_q ThumbCache.set_thumb_done_q].
    rewrite Hres, <- app_assoc. reflexivity.
  - apply Hhit. cbv zeta. rewrite Hvis. eauto.
Qed.


(** ** Rendering while the view is at rest *)

Lemma od_get_app {K V : Type} `{EqDecision K} (k : K) (d1 d2 : list (K * V)) :
  OrderedDict.get k (d1 ++ d2)
  = match OrderedDict.get k d1 with Some v => Some v | None => OrderedDict.get k d2 end.
Proof.
  induction d1 as [|[k0 v0] d1 IH]; [reflexivity|].
  cbn. destruct (decide (k0 = k)); [reflexivity | exact IH].
Qed.

(** A look-up moves the entry to the end and changes no image. *)
Lemma get_content (key k : string * Z) (tc : ThumbCache.t) :
  OrderedDict.get k (ThumbCache.thumb_cache (ThumbCache.get key tc).2)
  = OrderedDict.get k (ThumbCache.thumb_cache tc).
Proof.
  unfold ThumbCache.get.
  destruct (OrderedDict.get key (ThumbCache.thumb_cache tc)) as [v|] eqn:E; [|reflexivity].
  cbn. unfold OrderedDict.move_to_end. rewrite E, od_get_app.
  destruct (decide (k = key)) as [->|Hne].
  - pose proof (od_keys_remove key (ThumbCache.thumb_cache tc)) as Hk.
    assert (Hn : OrderedDict.get key (OrderedDict.remove key (ThumbCache.thumb_cache tc)) = None).
    { apply od_get_None. rewrite Hk. intros Hin.
      apply list_elem_of_filter in Hin as [Hin _]. congruence. }
    rewrite Hn. cbn. rewrite decide_True by reflexivity. congruence.
  - rewrite od_get_remove_other by exact Hne.
    destruct (OrderedDict.get k (ThumbCache.thumb_cache tc)); [reflexivity|].
    cbn. rewrite decide_False by congruence. reflexivity.
Qed.

Lemma same_view_refl (s : App.t) : same_view s s.
Proof. repeat split; reflexivity. Qed.

Lemma same_view_trans (a b c : App.t) : same_view a b -> same_view b c -> same_view a c.
Proof.
  intros (A1 & A2 & A3 & A4 & A5 & A6) (B1 & B2 & B3 & B4 & B5 & B6).
  split; [intros k; rewrite B1; apply A1|].
  split; [congruence|]. split; [set_solver|]. repeat split; congruence.
Qed.

Lemma render_thumbnail_idle (idx : nat) (m : App.SearchMatch) (card : App.Card)
    (s : App.t) :
  ScrollActivityTracker.is_scroll_active (App.scroll_activity_tracker s) = false ->
  let r := App.render_thumbnail idx m card s in
  App.img_image r.1
  = OrderedDict.get (key_of_match s m) (ThumbCache.thumb_cache (App.thumb_cache s))
  /\ App.img_hidden r.1 = App.img_hidden card
  /\ (is_Some (App.img_image r.1) -> App.loading_hidden r.1 = true)
  /\ (App.img_image r.1 = None -> App.show_loading_placeholder s = true ->
      App.loading_hidden r.1 = false)
  /\ (App.img_image r.1 = None ->
      key_of_match s m ∈ ThumbCache.thumb_inflight (App.thumb_cache r.2))
  /\ same_view s r.2.
Proof.
  intros Hi. cbv zeta. unfold App.render_thumbnail. rewrite Hi. cbv zeta.
  unfold ThumbCache.get_key. fold (key_of_match s m).
  pose proof (fun k => get_content (key_of_match s m) k (App.thumb_cache s)) as Hcont.
  destruct (get_frame (key_of_match s m) (App.thumb_cache s)) as (_ & Hmax & _ & _ & Hinf & _).
  unfold ThumbCache.get in *.
  destruct (OrderedDict.get (key_of_match s m) (ThumbCache.thumb_cache (App.thumb_cache s)))
    as [ph|] eqn:E.
  - cbn [fst snd App.img_image App.img_hidden App.loading_hidden] in *.
    split; [reflexivity|]. split; [reflexivity|]. split; [reflexivity|].
    split; [discriminate|]. split; [discriminate|].
    split; [intros k; apply (Hcont k)|].
    cbn. repeat split; try reflexivity.
  - cbn [fst snd] in *.
    unfold ThumbCache.check_inflight. cbv zeta.
    change (fst (key_of_match s m), ThumbCache.thumb_max (App.thumb_cache s))
      with (key_of_match s m).
    destruct (bool_decide _) eqn:Eb;
      cbn [fst snd App.img_image App.img_hidden App.loading_hidden App.thumb_cache
           App.set_thumb_cache].
    + split; [reflexivity|]. split; [reflexivity|]. split; [intros [? ?]; discriminate|].
      split; [intros _ ->; reflexivity|]. split; [intros _; cbn; set_solver|].
      cbn. repeat split; try reflexivity. set_solver.
    + apply bool_decide_eq_false in Eb.
      split; [reflexivity|]. split; [reflexivity|]. split; [intros [? ?]; discriminate|].
      split; [intros _ ->; reflexivity|].
      split; [intros _; destruct (decide (key_of_match s m ∈ ThumbCache.thumb_inflight (App.thumb_cache s))); [assumption|contradiction]|].
      unfold same_view. cbn. repeat split; reflexivity.
Qed.

Lemma key_of_match_view (s0 s : App.t) (m : App.SearchMatch) :
  same_view s0 s -> key_of_match s m = key_of_match s0 m.
Proof. intros (_ & H & _). unfold key_of_match. rewrite H. reflexivity. Qed.

Lemma slot_shows_cached_view (s0 s : App.t) (idx : nat) (c : App.Card) :
  same_view s0 s -> slot_shows_cached s idx c -> slot_shows_cached s0 idx c.
Proof.
  intros Hv. pose proof Hv as (V1 & V2 & V3 & V4 & V5 & V6).
  unfold slot_shows_cached. rewrite V4.
  destruct (App.matches s0 !! idx) as [m|]; [|auto].
  rewrite (key_of_match_view s0 s m Hv), V1, V5. auto.
Qed.

Lemma render_slots_idle (cards : list App.Card) (start_index slot : nat) (s : App.t)
    (vp : list string) :
  ScrollActivityTracker.is_scroll_active (App.scroll_activity_tracker s) = false ->
  let r := App.render_slots start_index slot cards s vp in
  same_view s r.1.2
  /\ length r.1.1 = length cards
  /\ forall i c, r.1.1 !! i = Some c ->
       slot_shows_cached s (start_index + slot + i) c
       /\ slot_requested s r.1.2 (start_index + slot + i) c.
Proof.
  revert slot s vp. induction cards as [|card rest IH]; intros slot s vp Hi; cbv zeta.
  { cbn. split; [apply same_view_refl|]. split; [reflexivity|].
    intros i c H. rewrite lookup_nil in H. discriminate. }
  cbn [App.render_slots]. cbv zeta.
  destruct (App.matches s !! (start_index + slot)%nat) as [m|] eqn:Em.
  - match goal with
    | |- context [App.render_thumbnail ?i m ?c ?x] =>
        set (card0 := c); set (s1 := x);
        assert (Hv1 : same_view s s1)
          by (unfold s1; destruct (String.eqb (App.hash m) EmptyString);
              unfold same_view; cbn; repeat split; reflexivity)
    end.
    pose proof Hv1 as (_ & _ & _ & _ & _ & Ht1).
    assert (Hi1 : ScrollActivityTracker.is_scroll_active (App.scroll_activity_tracker s1) = false)
      by (rewrite Ht1; exact Hi).
    pose proof (render_thumbnail_idle (start_index + slot) m card0 s1 Hi1) as Hr.
    cbv zeta in Hr.
    destruct (App.render_thumbnail (start_index + slot) m card0 s1) as [card' s2].
    cbn [fst snd] in Hr. destruct Hr as (R1 & R2 & R3 & R4 & R5 & Hv2).
    pose proof (same_view_trans _ _ _ Hv1 Hv2) as Hv12.
    pose proof Hv12 as (_ & _ & _ & _ & _ & Ht2).
    assert (Hi2 : ScrollActivityTracker.is_scroll_active (App.scroll_activity_tracker s2) = false)
      by (rewrite Ht2; exact Hi).
    specialize (IH (S slot) s2 (vp ++ [App.path m]) Hi2). cbv zeta in IH.
    destruct (App.render_slots start_index (S slot) rest s2 (vp ++ [App.path m]))
      as [[cs s3] vp'].
    cbn [fst snd] in IH |- *. destruct IH as (Hv3 & Hlen & Hall).
    pose proof (same_view_trans _ _ _ Hv12 Hv3) as Hv.
    split; [exact Hv|]. split; [cbn; congruence|].
    intros [|i] c Hc.
    + cbn in Hc. injection Hc as <-. rewrite Nat.add_0_r. split.
      * apply (slot_shows_cached_view s s1 _ _ Hv1).
        unfold slot_shows_cached.
        destruct Hv1 as (_ & _ & _ & Hm1 & _). rewrite Hm1, Em.
        split; [exact R1|]. split; [rewrite R2; reflexivity|]. split; [exact R3 | exact R4].
      * intros m' Hm' Hnone. rewrite Em in Hm'. injection Hm' as <-.
        destruct Hv3 as (_ & _ & Hinf & _). apply Hinf.
        rewrite <- (key_of_match_view s s1 m Hv1). apply R5, Hnone.
    + cbn in Hc. destruct (Hall i c Hc) as [H1 H2].
      replace (start_index + slot + S i)%nat with (start_index + S slot + i)%nat by lia.
      split; [apply (slot_shows_cached_view s s2 _ _ Hv12), H1|].
      intros m' Hm' Hnone. rewrite <- (key_of_match_view s s2 m' Hv12).
      apply H2; [|exact Hnone]. destruct Hv12 as (_ & _ & _ & Hm12 & _).
      rewrite Hm12. exact Hm'.
  - specialize (IH (S slot) s vp Hi). cbv zeta in IH.
    destruct (App.render_slots start_index (S slot) rest s vp) as [[cs s3] vp'].
    cbn [fst snd] in IH |- *. destruct IH as (Hv3 & Hlen & Hall).
    split; [exact Hv3|]. split; [cbn; congruence|].
    intros [|i] c Hc.
    + cbn in Hc. injection Hc as <-. rewrite Nat.add_0_r. split.
      * unfold slot_shows_cached. rewrite Em. cbn. auto.
      * intros m' Hm'. rewrite Em in Hm'. discriminate.
    + cbn in Hc.
      replace (start_index + slot + S i)%nat with (start_index + S slot + i)%nat by lia.
      apply Hall, Hc.
Qed.

(** X20: a drawing pass while the view is at rest. The card of a slot
    with a result shows the image the memory cache held for the key of the
    result (its hash, or its path without one), and the loading text when
    there is none and placeholders are on; the card of a slot past the
    results is hidden; a result drawn without image is in flight after the
    pass. The pass changes no image of the memory cache and takes no key
    out of the in-flight set. *)
Theorem idle_pass_shows_cached_images (start_index : nat) (s : App.t) :
  ScrollActivityTracker.is_scroll_active (App.scroll_activity_tracker s) = false ->
  let r := App.render_canvas_only start_index s in
  (forall slot c, App.canvas_cards r.1 !! slot = Some c ->
     slot_shows_cached s (start_index + slot) c
     /\ slot_requested s r.1 (start_index + slot) c)
  /\ (forall k, OrderedDict.get k (ThumbCache.thumb_cache (App.thumb_cache r.1))
                = OrderedDict.get k (ThumbCache.thumb_cache (App.thumb_cache s)))
  /\ ThumbCache.thumb_inflight (App.thumb_cache s)
     ⊆ ThumbCache.thumb_inflight (App.thumb_cache r.1).
Proof.
  intros Hi. cbv zeta. unfold App.render_canvas_only. cbv zeta.
  set (s1 := App._ensure_canvas_pool s).
  assert (Hv1 : same_view s s1).
  { unfold s1, App._ensure_canvas_pool. cbv zeta.
    destruct (_ =? _); unfold same_view; cbn; repeat split; reflexivity. }
  pose proof Hv1 as (_ & _ & _ & _ & _ & Ht1).
  assert (Hi1 : ScrollActivityTracker.is_scroll_active (App.scroll_activity_tracker s1) = false)
    by (rewrite Ht1; exact Hi).
  pose proof (render_slots_idle (App.canvas_cards s1) start_index 0 s1 [] Hi1) as H.
  cbv zeta in H.
  destruct (App.render_slots start_index 0 (App.canvas_cards s1) s1 []) as [[cs s2] vp].
  cbn [fst snd] in H |- *. destruct H as (Hv2 & _ & Hall).
  pose proof (same_view_trans _ _ _ Hv1 Hv2) as Hv.
  split; [|destruct Hv as (V1 & _ & V3 & _); split; [exact V1 | exact V3]].
  intros slot c Hc. cbn in Hc. destruct (Hall slot c Hc) as [H1 H2].
  rewrite Nat.add_0_r in H1, H2. split.
  - apply (slot_shows_cached_view s s1 _ _ Hv1), H1.
  - intros m Hm Hnone. rewrite <- (key_of_match_view s s1 m Hv1).
    apply (H2 m); [|exact Hnone]. destruct Hv1 as (_ & _ & _ & Hm1 & _).
    rewrite Hm1. exact Hm.
Qed.

(** Soundness of a concrete state, by evaluation. *)
Ltac sound_by_evaluation :=
  split; [|split];
  [ apply (bool_decide_unpack _); vm_compute; exact I
  | apply (bool_decide_unpack _); vm_compute; exact I
  | intros []; vm_compute; reflexivity ].

Lemma wheel_marks_scrolling_witness :
  ScrollActivityTracker.is_scroll_active (App.scroll_activity_tracker Inputs.scrolling0) = true.
Proof.
  assert (Hs : System.sound Inputs.resting0) by sound_by_evaluation.
  exact (proj1 (wheel_marks_scrolling (-120) Inputs.resting0 Hs ltac:(discriminate))).
Defined.

Lemma idle_timer_schedules_one_render_witness :
  length (Tk.pending Tk.RenderResults
            (App.root (App.fire (fun _ => None)
                         (Tk.mkTimer 2 (540 # 1000) Tk.MarkScrollIdle) Inputs.scrolling0)))
  = 1%nat.
Proof.
  assert (Hs : System.sound Inputs.scrolling0) by sound_by_evaluation.
  assert (Hin : Tk.mkTimer 2 (540 # 1000) Tk.MarkScrollIdle
                ∈ Tk.timers (App.root Inputs.scrolling0)).
  { vm_compute. apply list_elem_of_further, list_elem_of_here. }
  pose proof (idle_timer_schedules_one_render (fun _ => None) _ Inputs.scrolling0
                Hs Hin eq_refl) as H.
  cbv zeta in H. destruct H as (_ & _ & _ & H & _). exact H.
Defined.

Lemma wheel_burst_is_one_scroll_witness :
  App.canvasy0
    (App.canvas (App.fire (fun _ => None) (Tk.mkTimer 3 (16 # 1000) Tk.FlushScroll)
                   (wheel_burst [-120; -120; -240] Inputs.resting0)))
  = 40.
Proof.
  assert (Hs : System.sound Inputs.resting0) by sound_by_evaluation.
  assert (Hin : Tk.mkTimer 3 (16 # 1000) Tk.FlushScroll
                ∈ Tk.timers (App.root (wheel_burst [-120; -120; -240] Inputs.resting0))).
  { vm_compute. apply list_elem_of_further, list_elem_of_here. }
  pose proof (wheel_burst_is_one_scroll (fun _ => None) [-120; -120; -240] _
                Inputs.resting0 Hs Hin eq_refl) as H.
  cbv zeta in H. destruct H as (_ & H & _). rewrite H. vm_compute. reflexivity.
Defined.

Lemma one_timer_for_each_callback_witness :
  (length (Tk.pending Tk.RenderResults
             (App.root (System.app (System.initial 0 Inputs.cv0 ["cache"%string]
                                      (Inputs.env_of ∅ []))))) <= 1)%nat.
Proof.
  exact (proj1 (proj2 (one_timer_for_each_callback (fun _ => None) 0 Inputs.cv0
                         ["cache"%string] (Inputs.env_of ∅ []) _ Tk.RenderResults
                         (rtc_refl _ _)))).
Defined.

Lemma pool_covers_the_window_witness :
  2 <= App.visible_rows (render_state Inputs.resting0).
Proof.
  pose proof (pool_covers_the_window Inputs.resting0) as H. cbv zeta in H.
  specialize (H ltac:(vm_compute; reflexivity) ltac:(vm_compute; reflexivity)).
  destruct H as (_ & H & _). exact H.
Defined.

Lemma cards_lie_in_the_scroll_region_witness :
  (Layout.card_box 0 1 (App._recompute_virtual_geometry Inputs.resting0)).2
  <= (App.scrollregion (App.canvas (App._recompute_virtual_geometry Inputs.resting0))).2.
Proof.
  pose proof (cards_lie_in_the_scroll_region 1 Inputs.resting0) as H. cbv zeta in H.
  specialize (H ltac:(vm_compute; reflexivity) ltac:(vm_compute; reflexivity)
                ltac:(vm_compute; discriminate) ltac:(vm_compute; discriminate)
                ltac:(vm_compute; lia)).
  destruct H as (_ & _ & _ & H). exact H.
Defined.

Lemma disk_cache_round_trip_witness :
  Env.files (Env.fs (DiskCache.disk_cache_write Inputs.dc0 "abc123" 200 Inputs.png0
                       Inputs.env_calm).2)
    !! DiskCache.cache_file Inputs.dc0 "abc123" 200
  = Some Inputs.png0.
Proof.
  pose proof (disk_cache_round_trip Inputs.dc0 "abc123" 200 Inputs.png0 Inputs.env_calm
                eq_refl (conj eq_refl eq_refl) ltac:(vm_compute; reflexivity)) as H.
  cbv zeta in H. destruct H as (_ & H & _). exact H.
Defined.

Lemma worker_pass_when_nothing_fails_witness :
  ThumbCache.thumb_done_q
    (Worker.self (Worker.iteration (0%nat, "p"%string, "abc123"%string)
                    (Inputs.worker0 Inputs.env_calm)).2)
  = [(0%nat, "p"%string, "abc123"%string, Some Inputs.png0)].
Proof.
  pose proof (worker_pass_when_nothing_fails 0 "p" "abc123" (Inputs.worker0 Inputs.env_calm)
                eq_refl (conj eq_refl eq_refl) ltac:(vm_compute; reflexivity)) as H.
  cbv zeta in H. destruct H as (_ & H & _). rewrite H. vm_compute. reflexivity.
Defined.

Lemma second_pass_reads_the_disk_cache_witness :
  ThumbCache.thumb_done_q
    (Worker.self
       (Worker.iteration (1%nat, "q"%string, "abc123"%string)
          (Worker.iteration (0%nat, "p"%string, "abc123"%string)
             (Inputs.worker0 Inputs.env_calm)).2).2)
  = [(0%nat, "p"%string, "abc123"%string, Some Inputs.png0);
     (1%nat, "q"%string, "abc123"%string, Some Inputs.png0)].
Proof.
  pose proof (second_pass_reads_the_disk_cache 0 1 "p" "q" "abc123" Inputs.png0
                (Inputs.worker0 Inputs.env_calm)
                eq_refl (conj eq_refl eq_refl) ltac:(vm_compute; reflexivity)
                ltac:(vm_compute; reflexivity) ltac:(discriminate)) as H.
  cbv zeta in H. destruct H as (_ & H & _). exact H.
Defined.

Lemma idle_pass_shows_cached_images_witness :
  ("a"%string, 200)
  ∈ ThumbCache.thumb_inflight
      (App.thumb_cache (App.render_canvas_only 0 Inputs.resting0).1).
Proof.
  pose proof (idle_pass_shows_cached_images 0 Inputs.resting0 eq_refl) as H.
  cbv zeta in H. destruct H as (H & _).
  destruct (H 0%nat (App.mkCard false false None false false)
              ltac:(vm_compute; reflexivity)) as [_ Hr].
  exact (Hr (App.mkMatch "" "a" "") ltac:(vm_compute; reflexivity) eq_refl).
Defined.

(** ** Rendering again when nothing changed *)

Lemma same_layout_refl (s : App.t) : same_layout s s.
Proof. repeat split. Qed.

Lemma same_layout_trans (a b c : App.t) :
  same_layout a b -> same_layout b c -> same_layout a c.
Proof.
  unfold same_layout. intros (A1 & A2 & A3 & A4 & A5 & A6 & A7 & A8 & A9 & A10)
    (B1 & B2 & B3 & B4 & B5 & B6 & B7 & B8 & B9 & B10).
  rewrite B1, B2, B3, B4, B5, B6, B7, B8, B9, B10. auto 10.
Qed.

Lemma layout_render_thumbnail (idx : nat) (m : App.SearchMatch) (card : App.Card)
    (s : App.t) :
  same_layout s (App.render_thumbnail idx m card s).2.
Proof.
  unfold App.render_thumbnail.
  destruct (ScrollActivityTracker.is_scroll_active _); [apply same_layout_refl|].
  cbv zeta. destruct (ThumbCache.get _ _) as [[ph|] tc]; [repeat split|].
  destruct (ThumbCache.check_inflight _ _ _ _) as [q tc']. repeat split.
Qed.

Lemma layout_render_slots (cards : list App.Card) (start_index slot : nat) (s : App.t)
    (vp : list string) :
  same_layout s (App.render_slots start_index slot cards s vp).1.2
  /\ length (App.render_slots start_index slot cards s vp).1.1 = length cards.
Proof.
  revert slot s vp. induction cards as [|card rest IH]; intros slot s vp.
  { split; [apply same_layout_refl | reflexivity]. }
  cbn [App.render_slots]. cbv zeta.
  destruct (App.matches s !! (start_index + slot)%nat) as [m|].
  - match goal with
    | |- context [App.render_thumbnail ?i m ?c ?x] =>
        pose proof (layout_render_thumbnail i m c x) as Ht;
        assert (Hx : same_layout s x)
          by (destruct (String.eqb (App.hash m) EmptyString); repeat split);
        destruct (App.render_thumbnail i m c x) as [card' s2]
    end.
    cbn [snd] in Ht.
    destruct (IH (S slot) s2 (vp ++ [App.path m])) as [I1 I2].
    destruct (App.render_slots start_index (S slot) rest s2 _) as [[cs s3] vp'].
    cbn [fst snd] in *. split; [|cbn; congruence].
    exact (same_layout_trans _ _ _ Hx (same_layout_trans _ _ _ Ht I1)).
  - destruct (IH (S slot) s vp) as [I1 I2].
    destruct (App.render_slots start_index (S slot) rest s vp) as [[cs s3] vp'].
    cbn [fst snd] in *. split; [exact I1 | cbn; congruence].
Qed.

Lemma layout_render_canvas_only (start_index : nat) (s : App.t) :
  same_layout s (App.render_canvas_only start_index s).1
  /\ length (App.canvas_cards (App.render_canvas_only start_index s).1)
     = length (App.canvas_cards (App._ensure_canvas_pool s)).
Proof.
  unfold App.render_canvas_only. cbv zeta.
  destruct (layout_render_slots (App.canvas_cards (App._ensure_canvas_pool s)) start_index 0
              (App._ensure_canvas_pool s) []) as [L1 L2].
  destruct (App.render_slots start_index 0 _ _ []) as [[cs s2] vp].
  cbn [fst snd] in *. split; [|exact L2].
  apply (same_layout_trans _ (App._ensure_canvas_pool s)).
  - unfold App._ensure_canvas_pool. cbv zeta. destruct (_ =? _); repeat split.
  - apply (same_layout_trans _ s2); [exact L1 | repeat split].
Qed.

Lemma layout_prefetch_loop (idxs : list nat) (budget : Z) (seen : gset string) (s : App.t) :
  same_layout s (App.prefetch_loop idxs budget seen s)
  /\ App.canvas_cards (App.prefetch_loop idxs budget seen s) = App.canvas_cards s.
Proof.
  revert budget seen s. induction idxs as [|i rest IH]; intros budget seen s.
  { split; [apply same_layout_refl | reflexivity]. }
  cbn [App.prefetch_loop].
  destruct (budget <=? 0); [split; [apply same_layout_refl | reflexivity]|].
  destruct (App.matches s !! i) as [m|]; [|split; [apply same_layout_refl | reflexivity]].
  destruct (bool_decide _); [apply IH|]. cbv zeta.
  destruct (ThumbCache.check_incache _ _ _ _) as [q tc].
  destruct (negb q).
  - destruct (IH budget ({[App.path m]} ∪ seen) (App.set_thumb_cache tc s)) as [I1 I2].
    split; [|rewrite I2; reflexivity].
    apply (same_layout_trans _ (App.set_thumb_cache tc s)); [repeat split | exact I1].
  - destruct (IH (budget - 1) ({[App.path m]} ∪ seen) (App.set_thumb_cache tc s)) as [I1 I2].
    split; [|rewrite I2; reflexivity].
    apply (same_layout_trans _ (App.set_thumb_cache tc s)); [repeat split | exact I1].
Qed.

Lemma layout_prefetch_thumbs (first_row : Z) (vp : list string) (s : App.t) :
  same_layout s (App._prefetch_thumbs first_row vp s)
  /\ App.canvas_cards (App._prefetch_thumbs first_row vp s) = App.canvas_cards s.
Proof.
  unfold App._prefetch_thumbs.
  destruct (App.matches s); [split; [apply same_layout_refl | reflexivity]|].
  cbv zeta. apply layout_prefetch_loop.
Qed.

(** After [ensure_thumb_poller] the poll timer is armed; when it was
    armed before, nothing changes. *)
Lemma with_poller_armed (s : App.t) :
  is_Some (ThumbCache.thumb_poller_id (App.thumb_cache (App.with_poller s)))
  /\ App.canvas_cards (App.with_poller s) = App.canvas_cards s
  /\ same_layout s (App.with_poller s)
  /\ (is_Some (ThumbCache.thumb_poller_id (App.thumb_cache s)) ->
      App.thumb_cache (App.with_poller s) = App.thumb_cache s
      /\ App.root (App.with_poller s) = App.root s).
Proof.
  unfold App.with_poller, ThumbCache.ensure_thumb_poller.
  destruct (ThumbCache.thumb_poller_id (App.thumb_cache s)) as [id|] eqn:E.
  - cbn. rewrite E. split; [eauto|]. split; [reflexivity|].
    split; [repeat split | auto].
  - cbn. split; [eauto|]. split; [reflexivity|]. split; [repeat split|].
    intros [? ?]. discriminate.
Qed.

Lemma ensure_pool_frame (s : App.t) :
  App.path_bottom_margin (App._ensure_pool s) = App.path_bottom_margin s
  /\ App.root (App._ensure_pool s) = App.root s
  /\ App.thumb_cache (App._ensure_pool s) = App.thumb_cache s
  /\ App.scroll_activity_tracker (App._ensure_pool s) = App.scroll_activity_tracker s.
Proof.
  unfold App._ensure_pool. cbv zeta.
  destruct (_ && _); [repeat split|].
  unfold App._ensure_canvas_pool. cbv zeta. destruct (_ =? _); repeat split.
Qed.

Lemma recompute_frame (s : App.t) :
  App.path_bottom_margin (App._recompute_virtual_geometry s) = App.path_bottom_margin s
  /\ App.root (App._recompute_virtual_geometry s) = App.root s
  /\ App.thumb_cache (App._recompute_virtual_geometry s) = App.thumb_cache s
  /\ App.scroll_activity_tracker (App._recompute_virtual_geometry s)
     = App.scroll_activity_tracker s
  /\ App.last_render_key (App._recompute_virtual_geometry s) = App.last_render_key s
  /\ App.canvas_cards (App._recompute_virtual_geometry s) = App.canvas_cards s.
Proof.
  unfold App._recompute_virtual_geometry. destruct (App.matches s); repeat split.
Qed.

(** The pool and the geometry a render pass works with, from the state
    it starts in. *)
Lemma render_state_fields (s : App.t) :
  let t := render_state s in
  let card_h := Z.quot ((App.card_w s - App.pad s * 2 - 16) * 9) 16
                + (30 + App.path_bottom_margin s) + 24 in
  App.card_w t = App.card_w s
  /\ App.card_h t = card_h
  /\ App.cols t = Z.max 1 (Z.max 1 (App.winfo_width (App.canvas s)) / App.card_w s)
  /\ App.visible_rows t = Z.max 1 (Z.max 1 (App.winfo_height (App.canvas s)) / card_h + 2)
  /\ App.pad t = App.pad s
  /\ App.path_bottom_margin t = App.path_bottom_margin s
  /\ App.winfo_width (App.canvas t) = App.winfo_width (App.canvas s)
  /\ App.winfo_height (App.canvas t) = App.winfo_height (App.canvas s)
  /\ App.canvasy0 (App.canvas t) = App.canvasy0 (App.canvas s)
  /\ App.matches t = App.matches s
  /\ App.scroll_activity_tracker t = App.scroll_activity_tracker s
  /\ App.root t = App.root s
  /\ App.thumb_cache t = App.thumb_cache s.
Proof.
  cbv zeta. unfold render_state.
  set (s0 := App.set_render_after_id None s).
  destruct (recompute_fields (App._ensure_pool s0))
    as (R1 & R2 & R3 & R4 & R5 & R6 & R7 & R8 & R9 & _).
  destruct (recompute_frame (App._ensure_pool s0)) as (Q1 & Q2 & Q3 & Q4 & _).
  destruct (ensure_pool_fields s0) as (E1 & E2 & E3 & E4 & E5 & E6 & E7).
  destruct (ensure_pool_frame s0) as (P1 & P2 & P3 & P4).
  rewrite R1, R2, R3, R4, R5, R6, R7, R8, R9, Q1, Q2, Q3, Q4.
  rewrite E1, E3, E4, E2, E5, E6, E7, P1, P2, P3, P4.
  repeat split.
Qed.

Lemma render_state_base (s : App.t) : base_of (render_state s) = base_of s.
Proof.
  destruct (render_state_fields s)
    as (F1 & _ & _ & _ & F5 & F6 & F7 & F8 & F9 & F10 & F11 & _).
  unfold base_of. rewrite F1, F5, F6, F7, F8, F9, F10, F11. reflexivity.
Qed.

Lemma render_state_ext (s t : App.t) :
  base_of s = base_of t ->
  App.cols (render_state s) = App.cols (render_state t)
  /\ App.visible_rows (render_state s) = App.visible_rows (render_state t)
  /\ render_key (render_state s) = render_key (render_state t).
Proof.
  intros Hb. unfold render_key, App.first_visible_row.
  destruct (render_state_fields s)
    as (F1 & F2 & F3 & F4 & _ & _ & _ & _ & F9 & F10 & F11 & _).
  destruct (render_state_fields t)
    as (G1 & G2 & G3 & G4 & _ & _ & _ & _ & G9 & G10 & G11 & _).
  rewrite F9, F10, F11, F1, F2, F3, F4, G9, G10, G11, G1, G2, G3, G4.
  unfold base_of in Hb. injection Hb as -> -> -> -> -> -> -> ->. repeat split.
Qed.

Lemma ensure_pool_cards (s : App.t) : App.canvas_cards (App._ensure_pool s) <> [].
Proof.
  unfold App._ensure_pool. cbv zeta.
  set (s1 := App._update_card_geometry s).
  destruct (_ && _) eqn:E.
  - apply andb_true_iff in E as [_ E]. apply negb_true_iff, bool_decide_eq_false in E.
    exact E.
  - clear E. unfold App._ensure_canvas_pool. cbv zeta.
    cbn [App.cols App.visible_rows App.canvas_cards App.set_visible_rows App.set_cols
         App.set_last_render_key].
    set (c := Z.max 1 (Z.max 1 (App.winfo_width (App.canvas s1)) / App.card_w s1)).
    set (r := Z.max 1 (Z.max 1 (App.winfo_height (App.canvas s1)) / App.card_h s1 + 2)).
    assert (Hd : 1 <= c * r) by (unfold c, r; nia).
    clearbody c r.
    destruct (_ =? _) eqn:E2; cbn [App.canvas_cards App.set_canvas_cards App.set_last_render_key].
    + apply Z.eqb_eq in E2. intros Hn.
      assert (E3 : Z.of_nat (length (App.canvas_cards s1)) = c * r) by exact E2.
      assert (Hn' : App.canvas_cards s1 = []) by exact Hn.
      rewrite Hn' in E3. cbn in E3. lia.
    + destruct (Z.to_nat (c * r)) eqn:En; [lia | discriminate].
Qed.

(** When the pool has the size the window asks for, [_ensure_pool] keeps
    the cards and the key of the last pass. *)
Lemma ensure_pool_settled (s : App.t) :
  App.cols s = Z.max 1 (Z.max 1 (App.winfo_width (App.canvas s)) / App.card_w s) ->
  App.visible_rows s
  = Z.max 1 (Z.max 1 (App.winfo_height (App.canvas s))
             / (Z.quot ((App.card_w s - App.pad s * 2 - 16) * 9) 16
                + (30 + App.path_bottom_margin s) + 24) + 2) ->
  App.canvas_cards s <> [] ->
  App.last_render_key (App._ensure_pool s) = App.last_render_key s
  /\ App.canvas_cards (App._ensure_pool s) = App.canvas_cards s.
Proof.
  intros Hc Hr Hn. unfold App._ensure_pool. cbv zeta.
  set (s1 := App._update_card_geometry s).
  assert (E : (Z.max 1 (Z.max 1 (App.winfo_width (App.canvas s1)) / App.card_w s1)
               =? App.cols s1)
              && (Z.max 1 (Z.max 1 (App.winfo_height (App.canvas s1)) / App.card_h s1 + 2)
                  =? App.visible_rows s1)
              && negb (bool_decide (App.canvas_cards s1 = [])) = true).
  { apply andb_true_iff. split; [apply andb_true_iff; split|].
    - apply Z.eqb_eq. symmetry. exact Hc.
    - apply Z.eqb_eq. symmetry. exact Hr.
    - apply negb_true_iff, bool_decide_eq_false. exact Hn. }
  rewrite E. split; reflexivity.
Qed.

Lemma render_state_settled (s : App.t) :
  App.cols s = App.cols (render_state s) ->
  App.visible_rows s = App.visible_rows (render_state s) ->
  App.canvas_cards s <> [] ->
  App.last_render_key (render_state s) = App.last_render_key s
  /\ App.canvas_cards (render_state s) = App.canvas_cards s.
Proof.
  intros Hc Hr Hn.
  destruct (render_state_fields s) as (_ & _ & F3 & F4 & _).
  rewrite F3 in Hc. rewrite F4 in Hr. unfold render_state.
  destruct (recompute_frame (App._ensure_pool (App.set_render_after_id None s)))
    as (_ & _ & _ & _ & Q5 & Q6).
  rewrite Q5, Q6.
  exact (ensure_pool_settled (App.set_render_after_id None s) Hc Hr Hn).
Qed.

Lemma render_state_cards (s : App.t) :
  App.canvas_cards (render_state s) <> []
  /\ 1 <= App.cols (render_state s) /\ 1 <= App.visible_rows (render_state s).
Proof.
  destruct (render_state_fields s) as (_ & _ & F3 & F4 & _).
  rewrite F3, F4. split; [|lia]. unfold render_state.
  destruct (recompute_frame (App._ensure_pool (App.set_render_after_id None s)))
    as (_ & _ & _ & _ & _ & Q6).
  rewrite Q6. apply ensure_pool_cards.
Qed.

(** The drawing part of a render pass, from the state with the pool and
    the geometry up to date. *)
Lemma render_body_layout (s2 : App.t) key (start : nat) (first_row : Z) :
  let s3 := App.set_visible_hash_by_slot ∅
              (App.set_visible_path_by_slot ∅ (App.set_last_render_key key s2)) in
  let s' := App.with_poller
              (App._prefetch_thumbs first_row (App.render_canvas_only start s3).2
                 (App.render_canvas_only start s3).1) in
  base_of s' = base_of s2
  /\ App.cols s' = App.cols s2
  /\ App.visible_rows s' = App.visible_rows s2
  /\ App.last_render_key s' = key
  /\ is_Some (ThumbCache.thumb_poller_id (App.thumb_cache s'))
  /\ (App.canvas_cards s2 <> [] -> 1 <= App.cols s2 -> 1 <= App.visible_rows s2 ->
      App.canvas_cards s' <> []).
Proof.
  intros s3.
  assert (E : same_layout (App.set_last_render_key key s2) s3
              /\ App.canvas_cards s3 = App.canvas_cards s2) by (repeat split).
  destruct E as (E & Ecards). clearbody s3.
  destruct (layout_render_canvas_only start s3) as [L1 L2].
  destruct (App.render_canvas_only start s3) as [s4 vp]. cbn [fst snd] in *.
  destruct (layout_prefetch_thumbs first_row vp s4) as [Q1 Q2].
  destruct (with_poller_armed (App._prefetch_thumbs first_row vp s4)) as (P1 & P2 & P3 & _).
  pose proof (same_layout_trans _ _ _ E
                (same_layout_trans _ _ _ L1 (same_layout_trans _ _ _ Q1 P3)))
    as (A1 & A2 & A3 & A4 & A5 & A6 & A7 & A8 & A9 & A10).
  cbn [App.card_w App.card_h App.pad App.path_bottom_margin App.cols App.visible_rows
       App.canvas App.matches App.scroll_activity_tracker App.last_render_key
       App.set_last_render_key] in A1, A2, A3, A4, A5, A6, A7, A8, A9, A10.
  split; [unfold base_of; rewrite A1, A3, A4, A7, A8, A9; reflexivity|].
  split; [exact A5|]. split; [exact A6|]. split; [exact A10|]. split; [exact P1|].
  intros Hn Hc Hr. rewrite P2, Q2. intros Hnil.
  apply (f_equal length) in Hnil. rewrite L2 in Hnil.
  destruct E as (_ & _ & _ & _ & E5 & E6 & _).
  cbn [App.cols App.visible_rows App.set_last_render_key] in E5, E6.
  unfold App._ensure_canvas_pool in Hnil. cbv zeta in Hnil.
  rewrite E5, E6, Ecards in Hnil.
  destruct (_ =? _) in Hnil.
  - rewrite Ecards in Hnil. destruct (App.canvas_cards s2); [contradiction | discriminate].
  - cbn in Hnil. rewrite length_replicate in Hnil. nia.
Qed.

(** What a render pass leaves behind. *)
Lemma render_results_layout (s : App.t) :
  let s1 := App._render_results s in
  base_of s1 = base_of s
  /\ App.cols s1 = App.cols (render_state s)
  /\ App.visible_rows s1 = App.visible_rows (render_state s)
  /\ App.last_render_key s1 = Some (render_key (render_state s))
  /\ App.canvas_cards s1 <> []
  /\ is_Some (ThumbCache.thumb_poller_id (App.thumb_cache s1)).
Proof.
  cbv zeta.
  pose proof (render_state_base s) as Hb.
  destruct (render_state_cards s) as (Hn & Hc & Hr).
  unfold render_key. unfold render_state in *. unfold App._render_results. cbv zeta.
  set (s2 := App._recompute_virtual_geometry
               (App._ensure_pool (App.set_render_after_id None s))) in *.
  clearbody s2. rewrite <- Hb. clear Hb.
  destruct (bool_decide _) eqn:E.
  { apply bool_decide_eq_true in E.
    destruct (with_poller_armed s2)
      as (P1 & P2 & (A1 & A2 & A3 & A4 & A5 & A6 & A7 & A8 & A9 & A10) & _).
    split; [unfold base_of; rewrite A1, A3, A4, A7, A8, A9; reflexivity|].
    split; [exact A5|]. split; [exact A6|]. split; [rewrite A10; exact E|].
    split; [rewrite P2; exact Hn | exact P1]. }
  clear E.
  match goal with
  | |- context [App.render_canvas_only ?i
                  (App.set_visible_hash_by_slot ∅
                     (App.set_visible_path_by_slot ∅ (App.set_last_render_key ?k s2)))] =>
      pose proof (render_body_layout s2 k i (App.first_visible_row s2)) as H
  end.
  cbv zeta in H.
  destruct (App.render_canvas_only _ _) as [s4 vp]. cbn [fst snd] in H.
  destruct H as (H1 & H2 & H3 & H4 & H5 & H6).
  split; [exact H1|]. split; [exact H2|]. split; [exact H3|]. split; [exact H4|].
  split; [exact (H6 Hn Hc Hr) | exact H5].
Qed.

(** With the pool, the geometry and the key of the last pass up to date
    and the poller armed, a render pass changes nothing. *)
Lemma render_results_settled (t : App.t) :
  App.cols t = App.cols (render_state t) ->
  App.visible_rows t = App.visible_rows (render_state t) ->
  App.canvas_cards t <> [] ->
  App.last_render_key t = Some (render_key (render_state t)) ->
  is_Some (ThumbCache.thumb_poller_id (App.thumb_cache t)) ->
  App.canvas_cards (App._render_results t) = App.canvas_cards t
  /\ App.thumb_cache (App._render_results t) = App.thumb_cache t
  /\ App.root (App._render_results t) = App.root t
  /\ App.last_render_key (App._render_results t) = App.last_render_key t.
Proof.
  intros Hc Hr Hn Hk Hp.
  destruct (render_state_settled t Hc Hr Hn) as (S1 & S2).
  destruct (render_state_fields t) as (_ & _ & _ & _ & _ & _ & _ & _ & _ & _ & _ & F12 & F13).
  rewrite <- S1 in Hk. rewrite <- F13 in Hp. rewrite <- S1, <- S2, <- F12, <- F13.
  clear S1 S2 F12 F13 Hc Hr Hn.
  unfold render_key in Hk. unfold render_state in *. unfold App._render_results. cbv zeta.
  set (s2 := App._recompute_virtual_geometry
               (App._ensure_pool (App.set_render_after_id None t))) in *.
  clearbody s2.
  destruct (bool_decide _) eqn:E;
    [|apply bool_decide_eq_false in E; exfalso; apply E; exact Hk].
  destruct (with_poller_armed s2) as (_ & P2 & (_ & _ & _ & _ & _ & _ & _ & _ & _ & A10) & P4).
  destruct (P4 Hp) as [P5 P6]. auto.
Qed.

(** X21: a render pass that follows a render pass, with nothing changed
    in between, changes no card and nothing of the thumbnail cache object
    (no request is queued, no entry moves) and arms no timer. *)
Theorem render_twice_draws_once (s : App.t) :
  let s1 := App._render_results s in
  let s2 := App._render_results s1 in
  App.canvas_cards s2 = App.canvas_cards s1
  /\ App.thumb_cache s2 = App.thumb_cache s1
  /\ App.root s2 = App.root s1
  /\ App.last_render_key s2 = App.last_render_key s1.
Proof.
  cbv zeta.
  pose proof (render_results_layout s) as H. cbv zeta in H.
  set (s1 := App._render_results s) in *. clearbody s1.
  destruct H as (L1 & L2 & L3 & L4 & L5 & L6).
  destruct (render_state_ext s1 s L1) as (X1 & X2 & X3).
  apply render_results_settled.
  - rewrite X1. exact L2.
  - rewrite X2. exact L3.
  - exact L5.
  - rewrite X3. exact L4.
  - exact L6.
Qed.

(** ** The end of a search *)

Lemma schedule_render_layout (delay_ms : Z) (s : App.t) :
  same_layout s (App._schedule_render delay_ms s)
  /\ App.canvas_cards (App._schedule_render delay_ms s) = App.canvas_cards s.
Proof.
  unfold App._schedule_render. cbv zeta.
  destruct (Tk.after _ _ _) as [id tk]. repeat split.
Qed.

(** X22: when a search completes, the results are the new ones, the view
    is back at the top, the key of the last render pass is forgotten, the
    pool has cards, the scroll region is that of the new results
    (columns times card width by rows times card height, 1 for no
    result), and exactly one render is pending. *)
Theorem search_complete_resets_the_view (ms : list App.SearchMatch) (s : App.t) :
  System.sound s ->
  let s' := App._on_search_complete ms s in
  App.matches s' = ms
  /\ App.canvasy0 (App.canvas s') = 0
  /\ App.last_render_key s' = None
  /\ App.canvas_cards s' <> []
  /\ App.scrollregion (App.canvas s')
     = (0, 0, Z.max 1 (App.cols s' * App.card_w s'),
        Z.max 1 (match ms with
                 | [] => 1
                 | _ :: _ =>
                     (Z.of_nat (length ms) + App.cols s' - 1) / App.cols s' * App.card_h s'
                 end))
  /\ length (Tk.pending Tk.RenderResults (App.root s')) = 1%nat
  /\ System.sound s'.
Proof.
  intros Hs. cbv zeta. unfold App._on_search_complete. cbv zeta.
  set (s1 := App.set_matches ms s).
  assert (H1 : System.step_ok s s1) by (unfold s1; frame_steps).
  assert (Hm1 : App.matches s1 = ms) by reflexivity.
  clearbody s1.
  pose proof (step_ok_ensure_pool s1) as H2.
  destruct (ensure_pool_fields s1) as (_ & _ & _ & _ & _ & E6 & _).
  pose proof (ensure_pool_cards s1) as Hn.
  set (X := App._ensure_pool s1) in *. clearbody X.
  pose proof (step_ok_recompute_virtual_geometry X) as H3.
  destruct (recompute_fields X) as (R1 & R2 & R3 & _ & R5 & _ & _ & _ & _ & R10).
  destruct (recompute_frame X) as (_ & _ & _ & _ & _ & Q6).
  set (Y := App._recompute_virtual_geometry X) in *. clearbody Y.
  match goal with
  | |- context [App._schedule_render 1 ?x] => set (s3 := x)
  end.
  assert (H4 : System.step_ok Y s3) by (unfold s3; frame_steps).
  assert (F : App.matches s3 = App.matches Y
              /\ App.canvasy0 (App.canvas s3) = 0
              /\ App.last_render_key s3 = None
              /\ App.canvas_cards s3 = App.canvas_cards Y
              /\ App.scrollregion (App.canvas s3) = App.scrollregion (App.canvas Y)
              /\ App.cols s3 = App.cols Y /\ App.card_w s3 = App.card_w Y
              /\ App.card_h s3 = App.card_h Y) by (repeat split).
  destruct F as (F1 & F2 & F3 & F4 & F5 & F6 & F7 & F8).
  assert (Hs3 : System.sound s3).
  { apply H4, H3, H2, H1, Hs. }
  clearbody s3.
  destruct (schedule_render_layout 1 s3)
    as ((A1 & A2 & _ & _ & A5 & _ & A7 & A8 & _ & A10) & Ac).
  pose proof (schedule_render_spec 1 s3 Hs3) as Hsp. cbv zeta in Hsp.
  destruct Hsp as (P1 & _ & _ & _ & _ & _ & _ & _ & P9).
  rewrite A8, A7, A10, Ac, A5, A1, A2, P1.
  rewrite F1, F2, F3, F4, F5, F6, F7, F8, R5, R10, R3, R1, R2, Q6, E6, Hm1.
  split; [reflexivity|]. split; [reflexivity|]. split; [reflexivity|].
  split; [exact Hn|]. split; [reflexivity|]. split; [reflexivity | exact P9].
Qed.

Lemma search_complete_resets_the_view_witness :
  App.canvasy0 (App.canvas (App._on_search_complete Inputs.matches3 Inputs.scrolling0)) = 0.
Proof.
  assert (Hs : System.sound Inputs.scrolling0) by sound_by_evaluation.
  pose proof (search_complete_resets_the_view Inputs.matches3 Inputs.scrolling0 Hs) as H.
  cbv zeta in H. destruct H as (_ & H & _). exact H.
Defined.

(** ** Scrolling: what the render pass holds back, and the return to rest *)





